(* ===== verification/_CoqProject ===== *)
-Q . S2P
Prelude.v
Types.v
Serialise.v
Page.v
Float.v
Std.v
BPTree.v
Index.v
Posix.v
Crc.v
Wal.v
Lz4.v
Compression.v
Migrate.v
Storage.v
Cache.v
Pager.v
Filter.v
Db.v
DbSpec.v
DbOps.v
DbQuery.v
DbSession.v
DbSettings.v
DbRecovery.v
DbProperties.v
Lock.v
Concurrent.v
Readers.v
Mmap.v
Windows.v
Text.v
Main.v
MainSpec.v
MainProperties.v
Bench.v
BenchProperties.v
