(* ===== verification/Prelude.v ===== *)
(** * XDL, an embedded storage engine

    A verification library for the engine under [src/]: C++17, one process, one
    database file and one log file.  A row has a 32-bit id and typed fields; rows sit
    in pages of about 8 KB; pages are cached, compressed and stored in fixed slots of
    the database file; every change is logged before it counts as done.

    ** The parts, bottom up, and the file that models each

    - Prelude: bytes, machine integers, outcomes (a value, an exception, undefined
      behaviour), the state monad [M], raw memory, tactics.
    - Types ([include/xdl/types.h]): schemas, values, rows, accessors, exceptions.
      Float holds the order of 32-bit floats and Std the algorithms of the C++
      library that the code calls on sorted vectors.
    - Serialise, Page ([page.h], [page.cpp], and [rebuild_row_offsets] of
      [pager.cpp]): the bytes of a row, and a page of rows as a byte buffer with a
      table of offsets.
    - BPTree ([bptree.h], [bptree.cpp]): the secondary index, an order-preserving key
      encoding and a sorted vector.  Index ([index.h]): the primary index.
    - Posix: the system calls as an interface, [FileSys], with the laws of the manual
      ([FileLaws]: short transfers, failures, what a crash leaves), and the retry
      loops of [wal.cpp] and [storage.cpp].  An in-memory file is the instance that
      the witnesses run on.
    - Crc, Wal ([wal.h], [wal.cpp]): the checksum and the write-ahead log.
    - Lz4, Compression ([compression.h], [compression.cpp]): the bundled codec, and
      the engine over any codec that keeps [LZ4Laws].
    - Migrate ([migrate.h], [migrate.cpp]): the schema block, migration of rows.
    - Storage ([storage.h], [storage.cpp]): header, schema block, page slots.
    - Cache ([cache.h], [cache.cpp]): the LRU pool over a heap of shared pages, with
      the eviction callback.
    - Pager ([pager.h], [pager.cpp]): the pool in front of the file.
    - Filter ([ScanFilter] of [db.h], [db.cpp]): scan filters on bytes and on rows.
    - Db ([db.h], [db.cpp]): the public operations.  DbSpec is their specification
      (row steps on lists of pages, what replaying a log record does); DbOps proves
      insertion and deletion, DbQuery lookups, scans and range scans, DbSession whole
      sessions, DbSettings that no operation changes the settings of the constructor,
      DbRecovery replaying, opening and closing; DbProperties states the results.
    - Lock ([RWLock], [ReadLock], [WriteLock] of [types.h]): threads under a
      reader-writer lock.  Concurrent: the database used by threads, readers in steps
      and writers whole.  Readers: threads that only read.
    - Mmap ([mmap.h], [mmap.cpp]): the memory-mapped file class, which the engine
      itself does not use.
    - Windows: the Windows half of [mmap.cpp], and the positioned reads and writes that
      [storage.cpp] has for Windows.
    - Main ([main.cpp]): the command line, on Text, the C++ library's conversions
      between text and values.  MainSpec says what each line means (a command, the
      operation it stands for, the reply) and proves each handler against it;
      MainProperties states the results for runs of the program.
    - Bench ([bench/bench.cpp]): the benchmark, another client of the database, whose
      clock and random numbers are arguments.  BenchProperties says what it prints.

    ** How the state and the calls correspond

    A class is a record with the data members as fields and a method is a definition
    of the same name in the monad [M] of that record, where an exception keeps the
    state it finds; a call on a member object is [zoom].  Names of the C++ source are
    kept, with a prefix where two classes share one ([idx_insert], [bpt_insert],
    [cache_get], [wal_open]).  References that two objects share are one field: the
    storage and the primary index are those of the Pager.  A [shared_ptr] to a page
    is a location in the pool's heap.  Integers have their width: [u32], [u64] wrap,
    [int64_t] is converted where the code converts it.  Reading outside a buffer is
    [UB].  An [unordered_map] is a [gmap], and where the code iterates over one the
    order is that of [map_to_list], on which no theorem depends.

    Loops that are not structural have fuel: a loop that must make progress gets the
    number of bytes still to transfer ([safe_write] and the others), the LZ4 loops get
    the length of their input, the doubling loop of Mmap 64 rounds, the option loop of
    [scan] more than the length of its text, printed numbers 48 digits, the loops of the
    benchmark that go up by ten [n / 10 + 1] rounds.  Running out is
    [UB], and a theorem of the file says that it does not happen, or that no fuel
    would do.

    ** What the theorems show

    - Sessions: any sequence of operations returns what the same operations on an
      ordered list of rows return, errors, batches and range scans included; a range
      scan on an index gives the rows by value and, among equal ones, as inserted
      ([DbProperties.db_session_refines], [db_results_typed], [scan_visits],
      [index_range_scan_correct], [uncompressed_room], [open_rejects_schema]).
    - Durability: after a power failure [open] finds the acknowledged rows
      ([crash_recovery], [recovery_mixed], [checkpoint_interrupted],
      [close_open_roundtrip]), and one kind of process crash after which it does not
      find them as they were ([crash_duplicates_row]).
    - Threads: the lock excludes ([Lock.rwlock_excludes]), nobody waits for ever
      ([Lock.threads_finish]), and every interleaving without a data race gives the
      results of a sequential one ([Concurrent.db_linearizable]); threads that only read
      do not notice each other ([Readers.readers_do_not_interfere]).  One pair of accesses
      can race, a reader's search of [page_offsets_] and the assignment to it when
      another reader evicts a dirty page: the race is part of the model (an execution
      that meets it is undefined, [Lock.executes], [Concurrent.races]), it happens
      ([Concurrent.offset_table_race]), and it does not while the pool has no dirty
      page, as after a checkpoint ([checkpointed_readers_race_free]).
    - The program: a run of [main] prints what its commands, on a list of rows, reply,
      and leaves files that the next run goes on from
      ([MainProperties.main_refines_session]), also when the power
      fails in the middle ([main_survives_crash]); schemas and rows
      written as text are read back ([schema_arg_roundtrip],
      [insert_line_roundtrip]), whatever is read is well-formed
      ([parsed_ops_typed]), and two inputs that are not handled well
      ([duplicate_field_escapes], [uint32_text_bounds]).
    - The benchmark: it finds every row it wrote, under both compressions, and returns 0
      ([BenchProperties.bench_reports]).
    - Windows: the same behaviour for small files ([Windows.win_write_read]), and what the
      casts to a 32-bit [long] do to large ones ([win_growth_destroys], [win_offsets]).
    - Each component against its contract: pages as lists of rows, indexes as finite
      maps, the log as a list of records (with crashes, damage and torn ends), LZ4
      and the schema block as inverses, the pool as an LRU list, the Pager as a list
      of pages, filters as predicates.

    Properties are proved for any file interface that keeps its laws and for any codec
    that keeps [LZ4Laws]; the bundled codec is an instance.  Properties of whole
    sessions ask that there be room: page numbers below 2 ^ 32, a log below 2 ^ 63
    bytes, and pages that fit their slot when compressed ([uncompressed_room] shows
    that the last is free without compression, [Pager.slot_overflow] what happens
    otherwise).

    ** Not modelled

    - Of the command line: how the two output streams interleave.
    - Of the Windows halves: the macros that rename calls of the C run-time, and
      [file_exists], which differs in its name only.
    - The thread-local scratch buffer of the compressor; the text of exceptions;
      allocation failure.
    - Under threads: [open] takes no lock in the code and has none here, and what a visitor
      does is one step, on a state of its own.  Crashes are modelled between operations and
      inside [checkpoint], through [recovery_mixed] also between page writes.
    - Of the benchmark: the clock, the random numbers and the removal of files, which
      are arguments, and the choice of a path.
    - Tests and build files. *)
From Stdlib Require Export ZArith Lia Strings.Byte.
From stdpp Require Export base tactics list gmap sorting numbers.
Export stdpp.list_basics.list stdpp.list_relations.list stdpp.list_monad.list stdpp.list_misc.list.
#[global] Open Scope Z_scope.
#[global] Open Scope general_if_scope.

Declare Scope xdl_scope.
Delimit Scope xdl_scope with xdl.
#[global] Open Scope xdl_scope.

(** ** Bytes and machine integers *)

(** A [char] buffer ([std::vector<char>], [std::string]) is a list of bytes. *)
Abbreviation bytes := (list byte).

(** [static_cast<uint8_t>(c)] *)
Definition byte_Z (b : byte) : Z := Z.of_N (Byte.to_N b).

(** [static_cast<char>(v & 0xFF)]: keeps the low eight bits. *)
Definition Z_byte (z : Z) : byte :=
  match Byte.of_N (Z.to_N (z mod 256)) with
  | Some b => b
  | None => x00
  end.

#[export] Instance byte_eq_decision : EqDecision byte := Byte.byte_eq_dec.
#[export] Program Instance byte_countable : Countable byte :=
  inj_countable' Byte.to_N (fun n => default x00 (Byte.of_N n)) _.
Next Obligation. intros b. cbv beta. by rewrite Byte.of_to_N. Qed.

(** Wrap-around of the unsigned integer types. *)
Definition u8 (z : Z) : Z := z mod 2 ^ 8.
Definition u16 (z : Z) : Z := z mod 2 ^ 16.
Definition u32 (z : Z) : Z := z mod 2 ^ 32.
Definition u64 (z : Z) : Z := z mod 2 ^ 64.

(** Reinterpretation between [uint64_t] and [int64_t] ([memcpy] of 8 bytes,
    or [static_cast] on a two's complement machine). *)
Definition i64_of_u64 (z : Z) : Z := if bool_decide (z < 2 ^ 63) then z else z - 2 ^ 64.
Definition u64_of_i64 (z : Z) : Z := z mod 2 ^ 64.

Definition UINT32_MAX : Z := 2 ^ 32 - 1.
Definition UINT64_MAX : Z := 2 ^ 64 - 1.

(** Length as an integer, the [size()] of the containers. *)
Abbreviation zlen l := (Z.of_nat (length l)).

(** Little-endian and big-endian byte strings of a width, the reference
    encodings that the explicit shift-and-mask code is compared with. *)
Fixpoint le_bytes (n : nat) (z : Z) : bytes :=
  match n with
  | O => []
  | S n => Z_byte z :: le_bytes n (z / 256)
  end.

Fixpoint le_val (bs : bytes) : Z :=
  match bs with
  | [] => 0
  | b :: bs => byte_Z b + 256 * le_val bs
  end.

Definition be_bytes (n : nat) (z : Z) : bytes := reverse (le_bytes n z).

(** ** Errors, undefined behaviour and effects *)

(** The exceptions the program throws, by class. *)
Inductive exn :=
| InvalidArgument        (* std::invalid_argument *)
| OutOfRange             (* std::out_of_range, from vector::at *)
| BadVariantAccess       (* std::bad_variant_access, from std::get *)
| XDLError
| CorruptionError
| DuplicateKeyError
| NotFoundError
| IOError
| CompressionError
| MigrationError
| WALError.

#[export] Instance exn_eq_decision : EqDecision exn.
Proof. solve_decision. Defined.

(** [XDLError] is the base class of the engine's own exceptions. *)
Definition is_XDLError (e : exn) : bool :=
  match e with
  | InvalidArgument | OutOfRange | BadVariantAccess => false
  | _ => true
  end.

(** A call returns, throws, or reaches undefined behaviour (a read or write
    outside a buffer, a dangling reference, a division by zero). *)
Inductive outcome (A : Type) :=
| Ok (a : A)
| Throw (e : exn)
| UB.
Arguments Ok {A} a.
Arguments Throw {A} e.
Arguments UB {A}.

#[export] Instance Ok_Inj {A} : Inj (=) (=) (@Ok A).
Proof. by intros ?? [=]. Qed.

#[export] Instance outcome_ret : MRet outcome := fun A a => Ok a.
#[export] Instance outcome_bind : MBind outcome := fun A B f m =>
  match m with
  | Ok a => f a
  | Throw e => Throw e
  | UB => UB
  end.

(** A stateful call: the state survives an exception, as a mutated object
    does in the source. *)
Definition M (S A : Type) : Type := S -> outcome A * S.

#[export] Instance M_ret {S} : MRet (M S) := fun A a s => (Ok a, s).
#[export] Instance M_bind {S} : MBind (M S) := fun A B f m s =>
  match m s with
  | (Ok a, s') => f a s'
  | (Throw e, s') => (Throw e, s')
  | (UB, s') => (UB, s')
  end.

Definition get {S} : M S S := fun s => (Ok s, s).
Definition put {S} (s : S) : M S unit := fun _ => (Ok tt, s).
Definition modify {S} (f : S -> S) : M S unit := fun s => (Ok tt, f s).
Definition throw {S A} (e : exn) : M S A := fun s => (Throw e, s).
Definition ub {S A} : M S A := fun s => (UB, s).
Definition lift {S A} (o : outcome A) : M S A := fun s => (o, s).

(** [try { m } catch (...) { h }]: undefined behaviour is not caught. *)
Definition catch {S A} (m : M S A) (h : exn -> M S A) : M S A := fun s =>
  match m s with
  | (Throw e, s') => h e s'
  | r => r
  end.

(** Run a call of a sub-object inside the object that owns it. *)
Definition zoom {S T A} (g : S -> T) (p : T -> S -> S) (m : M T A) : M S A := fun s =>
  let '(o, t) := m (g s) in (o, p t s).

(** [for (x : l) body(x)] *)
Fixpoint mfor {S A} (body : A -> M S unit) (l : list A) : M S unit :=
  match l with
  | [] => mret tt
  | x :: l => body x ;; mfor body l
  end.

(** [for (i = 0; i < n; ++i)] as a list of indices. *)
Definition zseq (n : Z) : list Z := seqZ 0 n.

(** ** Raw memory *)

(** [*(uint8_t* )(m + i)] *)
Definition load_byte (m : bytes) (i : Z) : outcome Z :=
  if bool_decide (0 <= i) then
    match m !! Z.to_nat i with
    | Some b => Ok (byte_Z b)
    | None => UB
    end
  else UB.

(** [memcpy] of [n] bytes out of a buffer. *)
Definition load (m : bytes) (src n : Z) : outcome bytes :=
  if bool_decide (0 <= src /\ 0 <= n /\ src + n <= zlen m)
  then Ok (take (Z.to_nat n) (drop (Z.to_nat src) m))
  else UB.

(** Overwrite part of a list. *)
Definition splice {A} (dst : nat) (bs m : list A) : list A :=
  take dst m ++ bs ++ drop (dst + length bs) m.

(** [memcpy] into a buffer. *)
Definition store (dst : Z) (bs : bytes) : M bytes unit := fun m =>
  if bool_decide (0 <= dst /\ dst + zlen bs <= zlen m)
  then (Ok tt, splice (Z.to_nat dst) bs m)
  else (UB, m).

(** [m[dst] = static_cast<char>(v)] *)
Definition store_byte (dst : Z) (v : Z) : M bytes unit := store dst [Z_byte v].

(** [v.resize(n)]: new elements are zero. *)
Definition resize (n : Z) (m : bytes) : bytes :=
  take (Z.to_nat n) m ++ replicate (Z.to_nat n - length m) x00.

(** ** Tactics *)

(** Split a [bool_decide] or [decide] in the goal and clear the absurd case. *)
Ltac bd :=
  repeat first
    [ rewrite bool_decide_eq_true_2 by (first [assumption | lia | done])
    | rewrite bool_decide_eq_false_2 by (first [assumption | lia | done]) ].

Ltac bdcase := repeat case_bool_decide; try done; try lia.

(** Decide a closed proposition by computation. *)
Ltac vm_decide := apply (bool_decide_unpack _); vm_compute; exact I.

(** Run the first call of a sequence with a known result. *)
Lemma M_bind_ok {S A B} (m : M S A) (f : A -> M S B) s a s' :
  m s = (Ok a, s') -> (m ≫= f) s = f a s'.
Proof. intros H. unfold mbind, M_bind. by rewrite H. Qed.

Lemma zoom_ok {S T A} (g : S -> T) (p : T -> S -> S) (m : M T A) s a t :
  m (g s) = (Ok a, t) -> zoom g p m s = (Ok a, p t s).
Proof. intros Hm. unfold zoom. by rewrite Hm. Qed.

Lemma bind_pointwise {S A B} (m m' : M S A) (k k' : A -> M S B) s :
  m s = m' s -> (forall a s', m' s = (Ok a, s') -> k a s' = k' a s') -> (m ≫= k) s = (m' ≫= k') s.
Proof. intros Hm Hk. unfold mbind, M_bind. rewrite Hm. destruct (m' s) as [[] ?]; [by apply Hk|done|done]. Qed.

Lemma zoom_pointwise {S T A} (g : S -> T) (p : T -> S -> S) (m m' : M T A) s : m (g s) = m' (g s) -> zoom g p m s = zoom g p m' s.
Proof. intros Hm. unfold zoom. by rewrite Hm. Qed.

Lemma M_bind_assoc {S A B C} (m : M S A) (f : A -> M S B) (k : B -> M S C) s : ((m ≫= f) ≫= k) s = (m ≫= (fun a => f a ≫= k)) s.
Proof. unfold mbind, M_bind. by destruct (m s) as [[a|e|] s']. Qed.

Lemma M_bind_throw {S A B} (m : M S A) (f : A -> M S B) s e s' :
  m s = (Throw e, s') -> (m ≫= f) s = (Throw e, s').
Proof. intros H. unfold mbind, M_bind. by rewrite H. Qed.

Lemma M_bind_inv {S A B} (m : M S A) (f : A -> M S B) s b s' :
  (m ≫= f) s = (Ok b, s') ->
  exists a s1, m s = (Ok a, s1) /\ f a s1 = (Ok b, s').
Proof.
  unfold mbind, M_bind. destruct (m s) as [[a|e|] s1] eqn:E; intros H; simplify_eq.
  eauto.
Qed.

Lemma outcome_bind_inv {A B} (m : outcome A) (f : A -> outcome B) b :
  m ≫= f = Ok b -> exists a, m = Ok a /\ f a = Ok b.
Proof. destruct m; simpl; intros H; simplify_eq; eauto. Qed.

Ltac mstep := first [ erewrite M_bind_ok by (first [eassumption | reflexivity]) ].
Ltac mstep_by tac := erewrite M_bind_ok by tac.

(** ** Lemmas: lists *)

Section list_lemmas.
Context {A : Type}.
Implicit Types (l k : list A) (x : A).

Lemma splice_app_mid l1 l2 l3 k :
  length k = length l2 -> splice (length l1) k (l1 ++ l2 ++ l3) = l1 ++ k ++ l3.
Proof.
  intros H. unfold splice. rewrite take_app_length. f_equal. f_equal.
  rewrite H, drop_app_add, drop_app_length. done.
Qed.

Lemma length_splice n k l :
  (n + length k <= length l)%nat -> length (splice n k l) = length l.
Proof. intros H. unfold splice. rewrite !length_app, length_take, length_drop. lia. Qed.

Lemma splice_app n k1 k2 l :
  (n + length (k1 ++ k2) <= length l)%nat ->
  splice (n + length k1) k2 (splice n k1 l) = splice n (k1 ++ k2) l.
Proof.
  intros H. rewrite length_app in H. unfold splice.
  rewrite take_app_add' by (rewrite length_take; lia).
  rewrite take_app_length, <- !app_assoc. do 3 f_equal.
  rewrite drop_app_ge, length_take by (rewrite length_take; lia).
  rewrite drop_app_ge, drop_drop, length_app by lia. f_equal. lia.
Qed.

Lemma Forall2_length_lookup {B} (P : A -> B -> Prop) l (l' : list B) i x :
  Forall2 P l l' -> l !! i = Some x -> exists y, l' !! i = Some y /\ P x y.
Proof. intros H Hx. eapply Forall2_lookup_l in H; eauto. Qed.
End list_lemmas.

(** *** Filters *)

Lemma filter_all {A} (P : A -> Prop) `{!forall x, Decision (P x)} (l : list A) : Forall P l -> filter P l = l.
Proof. induction 1; [done|]. rewrite filter_cons_True by done. by f_equal. Qed.

Lemma filter_none {A} (P : A -> Prop) `{!forall x, Decision (P x)} (l : list A) :
  Forall (fun x => ~ P x) l -> filter P l = [].
Proof. induction 1; [done|]. by rewrite filter_cons_False. Qed.

Lemma filter_none_in {A} (P : A -> Prop) `{!forall x, Decision (P x)} (l : list A) :
  (forall x, x ∈ l -> ~ P x) -> filter P l = [].
Proof. intros Hn. apply filter_none, Forall_forall. auto. Qed.

Lemma filter_filter {A} (P Q : A -> Prop) `{!forall x, Decision (P x)} `{!forall x, Decision (Q x)} (l : list A) :
  filter P (filter Q l) = filter (fun x => Q x /\ P x) l.
Proof.
  induction l as [|x l IH]; [done|].
  destruct (decide (Q x)); [rewrite (filter_cons_True Q) by done|rewrite (filter_cons_False Q) by done].
  - destruct (decide (P x)); [rewrite !filter_cons_True by done; by f_equal|].
    rewrite !filter_cons_False by tauto. done.
  - rewrite (filter_cons_False (fun x => Q x /\ P x)) by tauto. done.
Qed.

(** ** Lemmas: bytes *)

Lemma byte_Z_range b : 0 <= byte_Z b < 256.
Proof.
  unfold byte_Z. pose proof (Byte.to_N_bounded b). lia.
Qed.

Lemma byte_Z_of_Z z : byte_Z (Z_byte z) = z mod 256.
Proof.
  unfold byte_Z, Z_byte. pose proof (Z.mod_pos_bound z 256 ltac:(lia)) as Hb.
  destruct (Byte.of_N _) as [b|] eqn:E.
  - apply Byte.to_of_N in E. rewrite E. lia.
  - apply Byte.of_N_None_iff in E. lia.
Qed.

Lemma byte_Z_inj b1 b2 : byte_Z b1 = byte_Z b2 -> b1 = b2.
Proof.
  unfold byte_Z. intros H%N2Z.inj.
  pose proof (Byte.of_to_N b1) as H1. pose proof (Byte.of_to_N b2) as H2.
  rewrite H in H1. congruence.
Qed.
#[export] Instance byte_Z_Inj : Inj (=) (=) byte_Z := byte_Z_inj.

Lemma Z_byte_of_byte b : Z_byte (byte_Z b) = b.
Proof.
  apply byte_Z_inj. rewrite byte_Z_of_Z. apply Z.mod_small, byte_Z_range.
Qed.

Lemma Z_byte_mod z : Z_byte (z mod 256) = Z_byte z.
Proof. apply byte_Z_inj. rewrite !byte_Z_of_Z. apply Z.mod_mod. lia. Qed.

Lemma Z_byte_inj_range a b :
  0 <= a < 256 -> 0 <= b < 256 -> Z_byte a = Z_byte b -> a = b.
Proof.
  intros Ha Hb H%(f_equal byte_Z). rewrite !byte_Z_of_Z, !Z.mod_small in H; lia.
Qed.

Lemma length_le_bytes n z : length (le_bytes n z) = n.
Proof. revert z; induction n; intros; simpl; auto. Qed.

Lemma le_val_le_bytes n z : le_val (le_bytes n z) = z mod 256 ^ Z.of_nat n.
Proof.
  revert z; induction n as [|n IH]; intros z.
  - simpl. rewrite Z.mod_1_r. done.
  - cbn [le_bytes le_val]. rewrite IH, byte_Z_of_Z.
    rewrite Nat2Z.inj_succ, Z.pow_succ_r by lia.
    rewrite (Z.rem_mul_r z 256) by lia. lia.
Qed.

Lemma le_bytes_le_val bs : le_bytes (length bs) (le_val bs) = bs.
Proof.
  induction bs as [|b bs IH]; [done|]. cbn [length le_bytes le_val].
  pose proof (byte_Z_range b). f_equal.
  - rewrite <- Z_byte_mod, Z.mul_comm, Z.mod_add, Z_byte_mod by lia. apply Z_byte_of_byte.
  - rewrite Z.mul_comm, Z.div_add, Z.div_small by lia. done.
Qed.

Lemma le_val_range bs : 0 <= le_val bs < 256 ^ zlen bs.
Proof.
  induction bs as [|b bs IH]; cbn [le_val length]; [simpl; lia|].
  rewrite Nat2Z.inj_succ, Z.pow_succ_r by lia. pose proof (byte_Z_range b). lia.
Qed.

Lemma le_bytes_eq n z1 z2 :
  z1 mod 256 ^ Z.of_nat n = z2 mod 256 ^ Z.of_nat n -> le_bytes n z1 = le_bytes n z2.
Proof.
  rewrite <- !le_val_le_bytes. intros H.
  rewrite <- (le_bytes_le_val (le_bytes n z1)), <- (le_bytes_le_val (le_bytes n z2)).
  by rewrite !length_le_bytes, H.
Qed.

Lemma le_bytes_mod n z : le_bytes n (z mod 256 ^ Z.of_nat n) = le_bytes n z.
Proof. apply le_bytes_eq, Z.mod_mod, Z.pow_nonzero; lia. Qed.

Lemma lor_shiftl_add a b n :
  0 <= n -> 0 <= a < 2 ^ n -> Z.lor a (Z.shiftl b n) = a + 2 ^ n * b.
Proof.
  intros Hn Ha. rewrite Z.shiftl_mul_pow2, Z.mul_comm by done.
  rewrite <- Z.lxor_lor, <- Z.add_nocarry_lxor; [done|..];
    apply Z.bits_inj'; intros i Hi; rewrite Z.land_spec, Z.bits_0;
    (destruct (Z_lt_le_dec i n);
     [ rewrite (Z.mul_comm (2 ^ n) b), Z.mul_pow2_bits_low by lia; apply andb_false_r
     | rewrite <- (Z.mod_small a (2 ^ n)), Z.mod_pow2_bits_high by lia; done ]).
Qed.

Lemma shiftr_land_255 v k : 0 <= k -> Z_byte (Z.land (Z.shiftr v k) 255) = Z_byte (v / 2 ^ k).
Proof.
  intros. change 255 with (Z.ones 8). rewrite Z.land_ones, Z.shiftr_div_pow2 by lia.
  apply Z_byte_mod.
Qed.

Lemma land_255 v : Z_byte (Z.land v 255) = Z_byte v.
Proof. change 255 with (Z.ones 8). rewrite Z.land_ones by lia. apply Z_byte_mod. Qed.

Lemma elem_of_concat {A} (x : A) ls : x ∈ concat ls <-> exists l, x ∈ l /\ l ∈ ls.
Proof.
  rewrite list_elem_of_In, in_concat. split; intros (l & H1 & H2); exists l; rewrite ?list_elem_of_In in *; tauto.
Qed.

(** ** Lemmas: memory *)

Lemma load_byte_lookup m i b :
  m !! i = Some b -> load_byte m (Z.of_nat i) = Ok (byte_Z b).
Proof. intros H. unfold load_byte. bd. by rewrite Nat2Z.id, H. Qed.

Lemma load_app_mid m1 m2 m3 n :
  n = zlen m2 -> load (m1 ++ m2 ++ m3) (zlen m1) n = Ok m2.
Proof.
  intros ->. unfold load. rewrite !length_app. bd.
  by rewrite !Nat2Z.id, drop_app_length, take_app_length.
Qed.

Lemma load_app_mid' m1 m2 m3 i n :
  i = zlen m1 -> n = zlen m2 -> load (m1 ++ m2 ++ m3) i n = Ok m2.
Proof. intros ->. apply load_app_mid. Qed.

Lemma store_ok dst bs m :
  0 <= dst -> dst + zlen bs <= zlen m ->
  store dst bs m = (Ok tt, splice (Z.to_nat dst) bs m).
Proof. intros. unfold store. by bd. Qed.

Lemma store_app_mid dst bs m1 m2 m3 :
  dst = zlen m1 -> length bs = length m2 ->
  store dst bs (m1 ++ m2 ++ m3) = (Ok tt, m1 ++ bs ++ m3).
Proof.
  intros -> H. rewrite store_ok by (rewrite ?length_app; lia).
  by rewrite Nat2Z.id, splice_app_mid.
Qed.

(** Filling a zeroed area piece by piece. *)
Lemma store_fill dst bs k n m :
  dst = zlen m -> length bs = k ->
  store dst bs (m ++ replicate (k + n) x00) = (Ok tt, (m ++ bs) ++ replicate n x00).
Proof.
  intros Hd Hk. rewrite replicate_add, <- app_assoc. apply store_app_mid; [done|].
  by rewrite length_replicate.
Qed.

Lemma resize_grow n m :
  zlen m <= n -> resize n m = m ++ replicate (Z.to_nat n - length m) x00.
Proof. intros. unfold resize. by rewrite take_ge by lia. Qed.

Lemma length_resize n m : 0 <= n -> zlen (resize n m) = n.
Proof. intros. unfold resize. rewrite length_app, length_take, length_replicate. lia. Qed.

Create HintDb xdl discriminated.
Create Rewrite HintDb xdl.
#[export] Hint Resolve byte_Z_range : xdl.
#[export] Hint Rewrite byte_Z_of_Z Z_byte_of_byte Z_byte_mod length_le_bytes : xdl.
