(* ===== verification/Types.v ===== *)
(** Data types of the engine ([include/xdl/types.h]): constants, field types,
    schemas, field values and rows, with their accessors.

    A [std::string] is its byte sequence.  A [float] is its 32-bit pattern: the
    engine copies floats with [memcpy] and the comparisons on them are in
    Float.v.  [FieldType] is a C++ enum with a fixed underlying type, so the
    unchecked cast of a stored byte can produce a value that is none of the five
    enumerators; that is the constructor [UnknownType]. *)
From Stdlib Require Import Strings.String.
From S2P Require Import Prelude.
Export String.StringSyntax.

(** ** Definitions *)

(** String literals of the source. *)
Definition str (s : string) : bytes := list_byte_of_string s.

Definition XDL_MAGIC : Z := 0x58444C31.
Definition XDL_VERSION : Z := 1.
Definition PAGE_SIZE : Z := 8192.
Definition MAX_ROWS_PER_PAGE : Z := 64.
Definition INVALID_PAGE_ID : Z := UINT32_MAX.
Definition WAL_MAGIC : Z := 0x57414C31.
Definition WAL_CHECKSUM_SEED : Z := 0xDEADBEEF.

Inductive CompressionType := CNone | CLZ4.
#[export] Instance CompressionType_eq_decision : EqDecision CompressionType.
Proof. solve_decision. Defined.

Inductive FieldType :=
| UINT32 | STRING | FLOAT32 | BOOL | INT64
| UnknownType (tag : Z).
#[export] Instance FieldType_eq_decision : EqDecision FieldType.
Proof. solve_decision. Defined.

(** The stored byte of a field type, and the cast back. *)
Definition field_type_tag (t : FieldType) : Z :=
  match t with
  | UINT32 => 0 | STRING => 1 | FLOAT32 => 2 | BOOL => 3 | INT64 => 4
  | UnknownType tag => tag
  end.

Definition field_type_of_tag (tag : Z) : FieldType :=
  if bool_decide (tag = 0) then UINT32
  else if bool_decide (tag = 1) then STRING
  else if bool_decide (tag = 2) then FLOAT32
  else if bool_decide (tag = 3) then BOOL
  else if bool_decide (tag = 4) then INT64
  else UnknownType tag.

Definition field_type_width (t : FieldType) : Z :=
  match t with
  | UINT32 => 4
  | FLOAT32 => 4
  | BOOL => 1
  | INT64 => 8
  | STRING => 0
  | UnknownType _ => 0
  end.

Definition field_type_name (t : FieldType) : bytes :=
  match t with
  | UINT32 => str "uint32"
  | STRING => str "string"
  | FLOAT32 => str "float32"
  | BOOL => str "bool"
  | INT64 => str "int64"
  | UnknownType _ => str "unknown"
  end.

Definition parse_field_type (s : bytes) : outcome FieldType :=
  if bool_decide (s = str "uint32") then Ok UINT32
  else if bool_decide (s = str "string") then Ok STRING
  else if bool_decide (s = str "float32") then Ok FLOAT32
  else if bool_decide (s = str "bool") then Ok BOOL
  else if bool_decide (s = str "int64") then Ok INT64
  else Throw InvalidArgument.

Record FieldDef := mkFieldDef { fd_name : bytes; fd_type : FieldType }.
#[export] Instance FieldDef_eq_decision : EqDecision FieldDef.
Proof. solve_decision. Defined.

Record Schema := mkSchema { fields : list FieldDef; ver : Z }.
#[export] Instance Schema_eq_decision : EqDecision Schema.
Proof. solve_decision. Defined.

(** [Schema(std::initializer_list<FieldDef>)]: version 1. *)
Definition schema_of (defs : list FieldDef) : Schema := mkSchema defs 1.

(** The loop of [Schema::field_index], [i] being the loop variable. *)
Fixpoint field_index_from (i : Z) (fs : list FieldDef) (name : bytes) : Z :=
  match fs with
  | [] => -1
  | f :: fs => if bool_decide (fd_name f = name) then i else field_index_from (i + 1) fs name
  end.

Definition field_index (s : Schema) (name : bytes) : Z := field_index_from 0 (fields s) name.

(** The two nested loops of [Schema::validate]. *)
Fixpoint has_duplicate_name (fs : list FieldDef) : bool :=
  match fs with
  | [] => false
  | f :: fs => existsb (fun g => bool_decide (fd_name f = fd_name g)) fs || has_duplicate_name fs
  end.

Definition validate (s : Schema) : outcome unit :=
  if bool_decide (fields s = []) then Throw InvalidArgument
  else if has_duplicate_name (fields s) then Throw InvalidArgument
  else Ok tt.

(** [std::variant<uint32_t, std::string, float, bool, int64_t>] *)
Inductive FieldValue :=
| VUint32 (v : Z)
| VString (s : bytes)
| VFloat (bits : Z)
| VBool (b : bool)
| VInt64 (v : Z).
#[export] Instance FieldValue_eq_decision : EqDecision FieldValue.
Proof. solve_decision. Defined.

(** A default-constructed variant holds the first alternative. *)
#[export] Instance FieldValue_inhabited : Inhabited FieldValue := populate (VUint32 0).

Record Row := mkRow { row_id : Z; row_fields : list FieldValue }.
#[export] Instance Row_eq_decision : EqDecision Row.
Proof. solve_decision. Defined.

(** [std::get<T>(v)] *)
Definition get_u32 (v : FieldValue) : outcome Z :=
  match v with VUint32 n => Ok n | _ => Throw BadVariantAccess end.
Definition get_str (v : FieldValue) : outcome bytes :=
  match v with VString s => Ok s | _ => Throw BadVariantAccess end.
Definition get_f32 (v : FieldValue) : outcome Z :=
  match v with VFloat b => Ok b | _ => Throw BadVariantAccess end.
Definition get_b (v : FieldValue) : outcome bool :=
  match v with VBool b => Ok b | _ => Throw BadVariantAccess end.
Definition get_i64 (v : FieldValue) : outcome Z :=
  match v with VInt64 n => Ok n | _ => Throw BadVariantAccess end.

(** [v.at(i)] *)
Definition at_ {A} (l : list A) (i : Z) : outcome A :=
  if bool_decide (0 <= i) then
    match l !! Z.to_nat i with Some x => Ok x | None => Throw OutOfRange end
  else Throw OutOfRange.

(** [v[i]]: out of range is undefined. *)
Definition index_ {A} (l : list A) (i : Z) : outcome A :=
  if bool_decide (0 <= i) then
    match l !! Z.to_nat i with Some x => Ok x | None => UB end
  else UB.

Definition get_uint32 (r : Row) (idx : Z) : outcome Z := at_ (row_fields r) idx ≫= get_u32.
Definition get_string (r : Row) (idx : Z) : outcome bytes := at_ (row_fields r) idx ≫= get_str.
Definition get_float32 (r : Row) (idx : Z) : outcome Z := at_ (row_fields r) idx ≫= get_f32.
Definition get_bool (r : Row) (idx : Z) : outcome bool := at_ (row_fields r) idx ≫= get_b.
Definition get_int64 (r : Row) (idx : Z) : outcome Z := at_ (row_fields r) idx ≫= get_i64.

(** The named accessors: look the index up, then the positional accessor. *)
Definition named {A} (acc : Row -> Z -> outcome A) (r : Row) (s : Schema) (name : bytes) : outcome A :=
  let idx := field_index s name in
  if bool_decide (idx < 0) then Throw InvalidArgument else acc r idx.

Definition get_uint32_named := named get_uint32.
Definition get_string_named := named get_string.
Definition get_float32_named := named get_float32.
Definition get_bool_named := named get_bool.
Definition get_int64_named := named get_int64.

(** [Row::set] *)
Definition set_field (r : Row) (idx : Z) (v : FieldValue) : outcome Row :=
  _ ← at_ (row_fields r) idx;
  Ok (mkRow (row_id r) (<[Z.to_nat idx := v]> (row_fields r))).

(** *** Well-formed values *)

(** Every value a C++ object of the type can hold. *)
Definition value_wf (v : FieldValue) : Prop :=
  match v with
  | VUint32 n => 0 <= n < 2 ^ 32
  | VFloat b => 0 <= b < 2 ^ 32
  | VInt64 n => - 2 ^ 63 <= n < 2 ^ 63
  | VString _ | VBool _ => True
  end.

(** The variant holds the alternative that the schema declares. *)
Definition value_has_type (t : FieldType) (v : FieldValue) : Prop :=
  match t, v with
  | UINT32, VUint32 _ | STRING, VString _ | FLOAT32, VFloat _
  | BOOL, VBool _ | INT64, VInt64 _ => True
  | _, _ => False
  end.

#[export] Instance value_wf_dec v : Decision (value_wf v).
Proof. destruct v; simpl; apply _. Defined.
#[export] Instance value_has_type_dec t v : Decision (value_has_type t v).
Proof. destruct t, v; simpl; apply _. Defined.

(** ** Lemmas *)

Lemma at_index {A} (l : list A) (i : nat) x : l !! i = Some x -> at_ l (Z.of_nat i) = Ok x.
Proof. intros H. unfold at_. bd. by rewrite Nat2Z.id, H. Qed.

Lemma index_lookup {A} (l : list A) (i : nat) x : l !! i = Some x -> index_ l (Z.of_nat i) = Ok x.
Proof. intros H. unfold index_. bd. by rewrite Nat2Z.id, H. Qed.

Lemma at_inv {A} (l : list A) i x : at_ l i = Ok x -> 0 <= i /\ l !! Z.to_nat i = Some x.
Proof. unfold at_. case_bool_decide; [|done]. case_match; by intros; simplify_eq. Qed.

Lemma field_type_of_tag_tag t :
  (forall tag, t = UnknownType tag -> 5 <= tag) -> field_type_of_tag (field_type_tag t) = t.
Proof.
  destruct t as [| | | | |tag]; intros H; try reflexivity.
  specialize (H tag eq_refl). unfold field_type_of_tag; simpl. by bd.
Qed.

Lemma field_index_from_spec i fs name :
  match list_find (fun f => fd_name f = name) fs with
  | Some (k, _) => field_index_from i fs name = i + Z.of_nat k
  | None => field_index_from i fs name = -1
  end.
Proof.
  revert i; induction fs as [|f fs IH]; intros i; [done|]. cbn [list_find field_index_from].
  case_bool_decide as Hf; [rewrite decide_True by done; lia|]. rewrite decide_False by done.
  specialize (IH (i + 1)). destruct (list_find _ fs) as [[k g]|]; simpl; lia.
Qed.

(** The index of a field is its first position, and -1 stands for absent. *)
Lemma field_index_Some s name (k : nat) f :
  list_find (fun f => fd_name f = name) (fields s) = Some (k, f) ->
  field_index s name = Z.of_nat k.
Proof. intros H. pose proof (field_index_from_spec 0 (fields s) name). by rewrite H in *. Qed.

Lemma field_index_None s name :
  Forall (fun f => fd_name f <> name) (fields s) -> field_index s name = -1.
Proof.
  intros H. apply (list_find_None (fun f => fd_name f = name)) in H.
  pose proof (field_index_from_spec 0 (fields s) name). by rewrite H in *.
Qed.

Lemma field_index_nonneg s name :
  0 <= field_index s name ->
  exists k f, field_index s name = Z.of_nat k /\ fields s !! k = Some f /\ fd_name f = name.
Proof.
  intros H. pose proof (field_index_from_spec 0 (fields s) name) as Hs.
  unfold field_index in *. destruct (list_find _ (fields s)) as [[k f]|] eqn:E; [|lia].
  apply list_find_Some in E as (? & ? & _). exists k, f. split; [lia|done].
Qed.

Lemma field_index_lookup s (k : nat) f :
  NoDup (fd_name <$> fields s) -> fields s !! k = Some f -> field_index s (fd_name f) = Z.of_nat k.
Proof.
  intros Hnd Hk. eapply field_index_Some, list_find_Some; split_and!; [done..|].
  intros j g Hj Hlt Heq. enough (j = k) by lia.
  eapply (NoDup_lookup _ j k (fd_name f) Hnd); rewrite list_lookup_fmap, ?Hj, ?Hk; simpl; congruence.
Qed.

Lemma field_index_range s name : -1 <= field_index s name < zlen (fields s).
Proof.
  destruct (Z_lt_le_dec (field_index s name) 0) as [H|H].
  - pose proof (field_index_from_spec 0 (fields s) name) as Hs. unfold field_index in *.
    destruct (list_find _ _) as [[??]|]; lia.
  - apply field_index_nonneg in H as (k & f & -> & Hk & _). apply lookup_lt_Some in Hk. lia.
Qed.

Lemma has_duplicate_name_spec fs : has_duplicate_name fs = false <-> NoDup (fd_name <$> fs).
Proof.
  induction fs as [|f fs IH]; simpl; [split; [constructor|done]|].
  rewrite orb_false_iff, NoDup_cons, IH. apply and_iff_compat_r.
  rewrite <- Bool.not_true_iff_false, existsb_exists, list_elem_of_fmap. apply not_iff_compat. split.
  - intros (g & Hin & Hg%bool_decide_eq_true). exists g. by rewrite list_elem_of_In.
  - intros (g & Hg & Hin%list_elem_of_In). exists g. by rewrite bool_decide_eq_true.
Qed.

(** [validate] accepts exactly the non-empty schemas with distinct names. *)
Lemma validate_spec s :
  validate s = if bool_decide (fields s <> [] /\ NoDup (fd_name <$> fields s))
               then Ok tt else Throw InvalidArgument.
Proof.
  unfold validate. case_bool_decide as H1; [by bd; rewrite bool_decide_eq_false_2 by tauto|].
  destruct (has_duplicate_name (fields s)) eqn:E.
  - rewrite bool_decide_eq_false_2; [done|]. intros [_ Hn%has_duplicate_name_spec]. congruence.
  - apply has_duplicate_name_spec in E. by rewrite bool_decide_eq_true_2.
Qed.

(** A type's printed name is parsed back to the type. *)
Lemma parse_field_type_name t :
  (forall tag, t <> UnknownType tag) -> parse_field_type (field_type_name t) = Ok t.
Proof. destruct t; intros H; [by vm_compute..|by destruct (H tag)]. Qed.

Lemma set_field_get r i v w :
  at_ (row_fields r) i = Ok w ->
  exists r', set_field r i v = Ok r' /\ at_ (row_fields r') i = Ok v /\
             (forall j, j <> i -> at_ (row_fields r') j = at_ (row_fields r) j).
Proof.
  intros H. unfold set_field. rewrite H. eexists; split; [done|].
  apply at_inv in H as [Hi Hl]. simpl. split.
  - unfold at_. bd. rewrite list_lookup_insert_eq; [done|]. by eapply lookup_lt_Some.
  - intros j Hj. unfold at_. case_bool_decide; [|done].
    rewrite list_lookup_insert_ne; [done|]. intros Heq. apply Hj. lia.
Qed.
