(* ===== verification/Serialise.v ===== *)
(** The little-endian helpers of [include/xdl/page.h], namespace [serialise],
    against the reference encodings [le_bytes] and [le_val]: every writer stores
    the encoding, every reader loads and decodes it, and a reader is undefined
    exactly when the bytes are not all inside the buffer. *)
From S2P Require Import Prelude Types.

(** ** Definitions *)

Definition write_u8 (dst v : Z) : M bytes unit := store_byte dst v.

Definition write_u16 (dst v : Z) : M bytes unit :=
  store_byte dst (Z.land v 0xFF) ;;
  store_byte (dst + 1) (Z.land (Z.shiftr v 8) 0xFF).

Definition write_u32 (dst v : Z) : M bytes unit :=
  store_byte dst (Z.land v 0xFF) ;;
  store_byte (dst + 1) (Z.land (Z.shiftr v 8) 0xFF) ;;
  store_byte (dst + 2) (Z.land (Z.shiftr v 16) 0xFF) ;;
  store_byte (dst + 3) (Z.land (Z.shiftr v 24) 0xFF).

Definition write_u64 (dst v : Z) : M bytes unit :=
  mfor (fun i => store_byte (dst + i) (Z.land (Z.shiftr v (i * 8)) 0xFF)) (zseq 8).

Definition read_u8 (m : bytes) (src : Z) : outcome Z := load_byte m src.

Definition read_u16 (m : bytes) (src : Z) : outcome Z :=
  b0 ← load_byte m src;
  b1 ← load_byte m (src + 1);
  Ok (u16 (Z.lor b0 (Z.shiftl b1 8))).

Definition read_u32 (m : bytes) (src : Z) : outcome Z :=
  b0 ← load_byte m src;
  b1 ← load_byte m (src + 1);
  b2 ← load_byte m (src + 2);
  b3 ← load_byte m (src + 3);
  Ok (u32 (Z.lor (Z.lor (Z.lor b0 (Z.shiftl b1 8)) (Z.shiftl b2 16)) (Z.shiftl b3 24))).

(** The loop of [read_u64], from index [i] with accumulator [v]. *)
Fixpoint read_u64_loop (m : bytes) (src : Z) (k : nat) (i v : Z) : outcome Z :=
  match k with
  | O => Ok v
  | S k =>
      b ← load_byte m (src + i);
      read_u64_loop m src k (i + 1) (Z.lor v (u64 (Z.shiftl b (i * 8))))
  end.

Definition read_u64 (m : bytes) (src : Z) : outcome Z := read_u64_loop m src 8 0 0.

(** [memcpy] of four bytes into a [float]. *)
Definition read_f32 (m : bytes) (src : Z) : outcome Z := read_u32 m src.

(** ** Lemmas *)

Lemma load_byte_inv m i v :
  load_byte m i = Ok v -> 0 <= i /\ exists b, m !! Z.to_nat i = Some b /\ v = byte_Z b.
Proof.
  unfold load_byte. case_bool_decide; [|done]. destruct (m !! Z.to_nat i) eqn:E; [|done].
  intros; simplify_eq. eauto.
Qed.

Lemma load_byte_ub m i : ~ (0 <= i < zlen m) -> load_byte m i = UB.
Proof.
  intros H. unfold load_byte. case_bool_decide; [|done]. by rewrite lookup_ge_None_2 by lia.
Qed.

Lemma load_byte_app m1 b m2 i : i = zlen m1 -> load_byte (m1 ++ b :: m2) i = Ok (byte_Z b).
Proof. intros ->. apply load_byte_lookup. by apply list_lookup_middle. Qed.

Lemma load_ub m src n : ~ (0 <= src /\ 0 <= n /\ src + n <= zlen m) -> load m src n = UB.
Proof. intros. unfold load. by bd. Qed.

(** A buffer around a range that lies inside it. *)
Lemma split_mem (m : bytes) src n :
  0 <= src -> 0 <= n -> src + n <= zlen m ->
  exists m1 bs m2, m = m1 ++ bs ++ m2 /\ zlen m1 = src /\ zlen bs = n.
Proof.
  intros. exists (take (Z.to_nat src) m), (take (Z.to_nat n) (drop (Z.to_nat src) m)),
    (drop (Z.to_nat n) (drop (Z.to_nat src) m)).
  rewrite !take_drop, !length_take, length_drop. split_and!; [done|lia..].
Qed.

Lemma load_inv m src n bs :
  load m src n = Ok bs ->
  exists m1 m2, m = m1 ++ bs ++ m2 /\ src = zlen m1 /\ n = zlen bs.
Proof.
  intros H. assert (0 <= src /\ 0 <= n /\ src + n <= zlen m) as (?&?&?).
  { unfold load in H. by case_bool_decide. }
  destruct (split_mem m src n) as (m1 & bs' & m2 & -> & <- & <-); [done..|].
  rewrite load_app_mid in H by done. simplify_eq. eauto.
Qed.

(** Byte [k] of a range in the middle of a buffer. *)
Lemma load_byte_mid m1 bs m2 k i b :
  bs !! k = Some b -> i = zlen m1 + Z.of_nat k -> load_byte (m1 ++ bs ++ m2) i = Ok (byte_Z b).
Proof.
  intros Hb ->. pose proof (lookup_lt_Some _ _ _ Hb).
  rewrite <- Nat2Z.inj_add. apply load_byte_lookup.
  rewrite lookup_app_r by lia. rewrite lookup_app_l by lia. by rewrite Nat.add_comm, Nat.add_sub.
Qed.

Lemma read_u16_mid m1 b0 b1 m2 i :
  i = zlen m1 -> read_u16 (m1 ++ [b0; b1] ++ m2) i = Ok (le_val [b0; b1]).
Proof.
  intros ->. unfold read_u16.
  rewrite (load_byte_mid m1 [b0; b1] m2 0 (zlen m1) b0),
    (load_byte_mid m1 [b0; b1] m2 1 (zlen m1 + 1) b1) by (first [reflexivity | lia]).
  cbn [mbind outcome_bind le_val]. f_equal.
  pose proof (byte_Z_range b0); pose proof (byte_Z_range b1).
  rewrite lor_shiftl_add by lia. unfold u16. rewrite Z.mod_small; lia.
Qed.

Lemma read_u32_mid m1 b0 b1 b2 b3 m2 i :
  i = zlen m1 -> read_u32 (m1 ++ [b0; b1; b2; b3] ++ m2) i = Ok (le_val [b0; b1; b2; b3]).
Proof.
  intros ->. unfold read_u32.
  set (bs := [b0; b1; b2; b3]).
  rewrite (load_byte_mid m1 bs m2 0 (zlen m1) b0), (load_byte_mid m1 bs m2 1 (zlen m1 + 1) b1),
    (load_byte_mid m1 bs m2 2 (zlen m1 + 2) b2), (load_byte_mid m1 bs m2 3 (zlen m1 + 3) b3)
    by (first [reflexivity | lia]).
  subst bs.
  cbn [mbind outcome_bind le_val]. f_equal.
  pose proof (byte_Z_range b0); pose proof (byte_Z_range b1);
    pose proof (byte_Z_range b2); pose proof (byte_Z_range b3).
  rewrite (lor_shiftl_add _ _ 8), (lor_shiftl_add _ _ 16), (lor_shiftl_add _ _ 24) by lia. unfold u32. rewrite Z.mod_small; lia.
Qed.

Lemma read_u64_loop_mid m1 bs m2 i v :
  let k := (8 - Z.to_nat i)%nat in
  zlen bs = Z.of_nat k -> 0 <= i <= 8 -> 0 <= v < 2 ^ (8 * i) ->
  read_u64_loop (m1 ++ bs ++ m2) (zlen m1 - i) k i v = Ok (v + 2 ^ (8 * i) * le_val bs).
Proof.
  intros k; subst k. revert m1 i v. induction bs as [|b bs IH]; intros m1 i v Hl Hi Hv.
  - simpl in Hl. replace (8 - Z.to_nat i)%nat with O by lia. simpl. f_equal. lia.
  - simpl in Hl. destruct (8 - Z.to_nat i)%nat as [|k] eqn:Hk; [lia|]. cbn [read_u64_loop].
    rewrite (load_byte_mid m1 (b :: bs) m2 0 _ b) by (first [reflexivity | lia]).
    cbn [mbind outcome_bind le_val].
    assert (Hp : 2 ^ (8 * (i + 1)) = 256 * 2 ^ (8 * i))
      by (replace (8 * (i + 1)) with (8 + 8 * i) by lia; rewrite Z.pow_add_r by lia; done).
    pose proof (byte_Z_range b). assert (0 < 2 ^ (8 * i)) by (apply Z.pow_pos_nonneg; lia).
    assert (Hs : u64 (Z.shiftl (byte_Z b) (i * 8)) = Z.shiftl (byte_Z b) (8 * i)).
    { rewrite (Z.mul_comm i 8). unfold u64. rewrite Z.shiftl_mul_pow2 by lia. apply Z.mod_small.
      assert (2 ^ (8 * i) <= 2 ^ 56) by (apply Z.pow_le_mono_r; lia). nia. }
    rewrite Hs, lor_shiftl_add by lia.
    specialize (IH (m1 ++ [b]) (i + 1) (v + 2 ^ (8 * i) * byte_Z b)).
    rewrite <- !app_assoc, length_app in IH. cbn [length app] in IH.
    replace (8 - Z.to_nat (i + 1))%nat with k in IH by lia.
    replace (Z.of_nat (length m1 + 1) - (i + 1)) with (zlen m1 - i) in IH by lia.
    cbn [app]. rewrite IH by (rewrite ?Hp; nia). f_equal. rewrite Hp. lia.
Qed.

Lemma read_u64_mid m1 bs m2 i :
  i = zlen m1 -> length bs = 8%nat -> read_u64 (m1 ++ bs ++ m2) i = Ok (le_val bs).
Proof.
  intros -> H. unfold read_u64.
  pose proof (read_u64_loop_mid m1 bs m2 0 0) as Hl. rewrite Z.sub_0_r in Hl.
  cbv zeta in Hl. change (8 - Z.to_nat 0)%nat with 8%nat in Hl.
  rewrite Hl by lia. f_equal. lia.
Qed.

Lemma list_of_length_2 {A} (l : list A) : zlen l = 2 -> exists a b, l = [a; b].
Proof. destruct l as [|a [|b [|]]]; simpl; intros; try lia. eauto. Qed.

Lemma list_of_length_4 {A} (l : list A) : zlen l = 4 -> exists a b c d, l = [a; b; c; d].
Proof. destruct l as [|a [|b [|c [|d [|]]]]]; simpl; intros; try lia. eauto. Qed.

(** The reference reader: load the bytes, decode them. *)
Definition read_le (n : Z) (m : bytes) (src : Z) : outcome Z :=
  bs ← load m src n; Ok (le_val bs).

Lemma read_le_mid n m1 bs m2 i : i = zlen m1 -> n = zlen bs -> read_le n (m1 ++ bs ++ m2) i = Ok (le_val bs).
Proof. intros -> ->. unfold read_le. by rewrite load_app_mid. Qed.

Lemma load_byte_total m i :
  (exists b, load_byte m i = Ok (byte_Z b) /\ 0 <= i < zlen m) \/ (load_byte m i = UB /\ ~ (0 <= i < zlen m)).
Proof.
  destruct (decide (0 <= i < zlen m)) as [H|H].
  - left. destruct (lookup_lt_is_Some_2 m (Z.to_nat i)) as [b Hb]; [lia|].
    exists b. split; [|done]. apply load_byte_lookup in Hb. rewrite Z2Nat.id in Hb by lia. done.
  - right. by rewrite load_byte_ub.
Qed.

Ltac load_cases m i :=
  let b := fresh "b" in
  destruct (load_byte_total m i) as [(b & -> & ?)|[-> ?]]; cbn [mbind outcome_bind]; try done; try lia.

(** Each reader is the reference reader of its width: it decodes the bytes as
    little-endian, and is undefined exactly when some byte is outside. *)
Lemma read_u16_le m src : read_u16 m src = read_le 2 m src.
Proof.
  destruct (decide (0 <= src /\ src + 2 <= zlen m)) as [H|H].
  - destruct (split_mem m src 2) as (m1 & bs & m2 & -> & <- & Hb); [lia..|].
    rewrite read_le_mid by done. destruct (list_of_length_2 bs) as (b0 & b1 & ->); [done|].
    by apply read_u16_mid.
  - unfold read_le. rewrite load_ub by lia. unfold read_u16.
    load_cases m src. load_cases m (src + 1).
Qed.

Lemma read_u32_le m src : read_u32 m src = read_le 4 m src.
Proof.
  destruct (decide (0 <= src /\ src + 4 <= zlen m)) as [H|H].
  - destruct (split_mem m src 4) as (m1 & bs & m2 & -> & <- & Hb); [lia..|].
    rewrite read_le_mid by done. destruct (list_of_length_4 bs) as (b0 & b1 & b2 & b3 & ->); [done|].
    by apply read_u32_mid.
  - unfold read_le. rewrite load_ub by lia. unfold read_u32.
    load_cases m src. load_cases m (src + 1). load_cases m (src + 2). load_cases m (src + 3).
Qed.

Lemma read_u64_loop_ub m src k i v :
  (0 < k)%nat -> ~ (0 <= src + i /\ src + i + Z.of_nat k <= zlen m) -> read_u64_loop m src k i v = UB.
Proof.
  revert i v; induction k as [|k IH]; intros i v Hk Hn; [lia|].
  cbn [read_u64_loop]. load_cases m (src + i). apply IH; lia.
Qed.

Lemma read_u64_le m src : read_u64 m src = read_le 8 m src.
Proof.
  destruct (decide (0 <= src /\ src + 8 <= zlen m)) as [H|H].
  - destruct (split_mem m src 8) as (m1 & bs & m2 & -> & <- & Hb); [lia..|].
    rewrite read_le_mid by done. apply read_u64_mid; lia.
  - unfold read_le. rewrite load_ub by lia. apply read_u64_loop_ub; lia.
Qed.

Lemma read_f32_le m src : read_f32 m src = read_le 4 m src.
Proof. apply read_u32_le. Qed.

(** *** Writers *)

Lemma store_byte_ok dst v m :
  0 <= dst < zlen m -> store_byte dst v m = (Ok tt, splice (Z.to_nat dst) [Z_byte v] m).
Proof. intros. unfold store_byte. rewrite store_ok; simpl; try lia. done. Qed.

(** A store of one byte followed by the stores of the rest is one store. *)
Lemma store_cons dst b bs m (k : M bytes unit) :
  0 <= dst -> dst + 1 + zlen bs <= zlen m ->
  (forall m1, zlen m1 = zlen m -> k m1 = store (dst + 1) bs m1) ->
  (store dst [b] ;; k) m = store dst (b :: bs) m.
Proof.
  intros Hd Hl Hk. erewrite M_bind_ok by (apply store_ok; simpl; lia).
  assert (Hlen : length (splice (Z.to_nat dst) [b] m) = length m)
    by (apply length_splice; simpl; lia).
  rewrite Hk by lia. rewrite !store_ok by (simpl; lia). f_equal.
  replace (Z.to_nat (dst + 1)) with (Z.to_nat dst + length [b])%nat by (simpl; lia).
  rewrite splice_app; [done|]. simpl. lia.
Qed.

Lemma store_nil dst m : 0 <= dst <= zlen m -> store dst [] m = (Ok tt, m).
Proof.
  intros. rewrite store_ok by (simpl; lia). unfold splice. simpl.
  by rewrite Nat.add_0_r, take_drop.
Qed.

Lemma write_u8_store dst v m : write_u8 dst v m = store dst (le_bytes 1 v) m.
Proof. done. Qed.

Ltac store_chain :=
  lazymatch goal with
  | |- mbind _ (store ?d [?b]) ?m = store ?d (?b :: ?bs) ?m =>
      apply (store_cons d b bs m); [lia | simpl; lia | intros; store_chain]
  | |- store ?d ?l ?m = store ?d' ?l ?m => replace d' with d by lia; reflexivity
  | |- mbind _ (store ?d [?b]) ?m = store ?d' (?b :: ?bs) ?m =>
      replace d' with d by lia; store_chain
  | |- mret tt ?m = store ?d [] ?m => rewrite store_nil by lia; reflexivity
  end.

(** Evaluate the constant divisors. *)
Ltac eval_div v :=
  repeat match goal with
  | |- context [v / ?e] => let x := eval vm_compute in e in progress change (v / e) with (v / x)
  end.

Lemma write_u16_store dst v m :
  0 <= dst -> dst + 2 <= zlen m -> write_u16 dst v m = store dst (le_bytes 2 v) m.
Proof.
  intros. unfold write_u16, store_byte. rewrite (land_255 v), shiftr_land_255 by lia.
  cbn [le_bytes]. eval_div v. store_chain.
Qed.

Lemma write_u32_store dst v m :
  0 <= dst -> dst + 4 <= zlen m -> write_u32 dst v m = store dst (le_bytes 4 v) m.
Proof.
  intros. unfold write_u32, store_byte. rewrite (land_255 v), !shiftr_land_255 by lia.
  cbn [le_bytes]. rewrite !Z.div_div by lia. eval_div v. store_chain.
Qed.

Lemma write_u64_store dst v m :
  0 <= dst -> dst + 8 <= zlen m -> write_u64 dst v m = store dst (le_bytes 8 v) m.
Proof.
  intros. unfold write_u64, store_byte. change (zseq 8) with [0; 1; 2; 3; 4; 5; 6; 7].
  cbn [mfor le_bytes]. rewrite !shiftr_land_255 by lia. rewrite !Z.div_div by lia.
  rewrite Z.mul_0_l, Z.pow_0_r, Z.div_1_r, Z.add_0_r. eval_div v. store_chain.
Qed.

(** Round trip of a width: what a writer stores, the reader of the same width
    returns, reduced to the width. *)
Lemma read_le_le_bytes (n : nat) m1 m2 v i :
  i = zlen m1 -> read_le (Z.of_nat n) (m1 ++ le_bytes n v ++ m2) i = Ok (v mod 256 ^ Z.of_nat n).
Proof.
  intros ->. rewrite read_le_mid by (rewrite ?length_le_bytes; done). by rewrite le_val_le_bytes.
Qed.
