(* ===== verification/Page.v ===== *)
(** Pages and the row wire format ([include/xdl/page.h], [src/page.cpp]).

    The operations are translated as they are written, on the raw byte buffer
    with explicit offsets; a read or write outside the buffer is [UB].  The
    lemmas relate them to an abstract page, the list of its rows: [page_rep]. *)
From S2P Require Import Prelude Types Serialise.

(** ** Definitions *)

(** [struct PageHeader], 20 bytes packed. *)
Record PageHeader := mkPageHeader {
  ph_page_id : Z;
  ph_compressed_size : Z;
  ph_uncompressed_size : Z;
  ph_row_count : Z;
  ph_compression_type : Z;
}.

(** [struct Page] *)
Record Page := mkPage {
  p_id : Z;
  p_data : bytes;
  p_row_count : Z;
  p_dirty : bool;
  p_row_offsets : list Z;
}.

(** [Page(page_id)] *)
Definition new_Page (page_id : Z) : Page := mkPage page_id [] 0 false [].

Definition set_data (d : bytes) (p : Page) : Page :=
  mkPage (p_id p) d (p_row_count p) (p_dirty p) (p_row_offsets p).
Definition set_row_count (n : Z) (p : Page) : Page :=
  mkPage (p_id p) (p_data p) n (p_dirty p) (p_row_offsets p).
Definition set_dirty (b : bool) (p : Page) : Page :=
  mkPage (p_id p) (p_data p) (p_row_count p) b (p_row_offsets p).
Definition set_row_offsets (o : list Z) (p : Page) : Page :=
  mkPage (p_id p) (p_data p) (p_row_count p) (p_dirty p) o.

(** [field_byte_size]: the serialised size of one field, after checking that the
    variant holds the declared type. *)
Definition field_byte_size (v : FieldValue) (type : FieldType) : outcome Z :=
  match type with
  | UINT32 => match v with VUint32 _ => Ok 4 | _ => Throw XDLError end
  | STRING =>
      match v with
      | VString s =>
          if bool_decide (zlen s > 65535) then Throw XDLError else Ok (u32 (2 + u32 (zlen s)))
      | _ => Throw XDLError
      end
  | FLOAT32 => match v with VFloat _ => Ok 4 | _ => Throw XDLError end
  | BOOL => match v with VBool _ => Ok 1 | _ => Throw XDLError end
  | INT64 => match v with VInt64 _ => Ok 8 | _ => Throw XDLError end
  | UnknownType _ => Throw XDLError
  end.

(** The loop of [row_byte_size] over the schema's fields, [i] the loop variable
    and [sz] the accumulated [uint32_t]. *)
Fixpoint row_byte_size_loop (row : Row) (i : Z) (fs : list FieldDef) (sz : Z) : outcome Z :=
  match fs with
  | [] => Ok sz
  | f :: fs =>
      v ← at_ (row_fields row) i;
      n ← field_byte_size v (fd_type f);
      row_byte_size_loop row (i + 1) fs (u32 (sz + n))
  end.

Definition row_byte_size (row : Row) (schema : Schema) : outcome Z :=
  row_byte_size_loop row 0 (fields schema) (4 + 4).

Definition serialised_row_size (row : Row) (schema : Schema) : outcome Z := row_byte_size row schema.

(** One case of the writing [switch] of [append_row]; returns the advanced
    [dst]. *)
Definition append_field (t : FieldType) (v : FieldValue) (dst : Z) : M bytes Z :=
  match t with
  | UINT32 => n ← lift (get_u32 v); write_u32 dst n ;; mret (dst + 4)
  | STRING =>
      s ← lift (get_str v);
      let len := u16 (zlen s) in
      write_u16 dst len ;;
      store (dst + 2) (take (Z.to_nat len) s) ;;
      mret (dst + 2 + len)
  | FLOAT32 => bits ← lift (get_f32 v); write_u32 dst bits ;; mret (dst + 4)
  | BOOL => b ← lift (get_b v); write_u8 dst (Z.b2z b) ;; mret (dst + 1)
  | INT64 => n ← lift (get_i64 v); write_u64 dst (u64_of_i64 n) ;; mret (dst + 8)
  | UnknownType _ => mret dst
  end.

Fixpoint append_fields (row : Row) (i : Z) (fs : list FieldDef) (dst : Z) : M bytes unit :=
  match fs with
  | [] => mret tt
  | f :: fs =>
      v ← lift (match fd_type f with
                | UnknownType _ => Ok (VUint32 0)
                | _ => at_ (row_fields row) i
                end);
      dst' ← append_field (fd_type f) v dst;
      append_fields row (i + 1) fs dst'
  end.

(** [Page::append_row] *)
Definition append_row (row : Row) (schema : Schema) : M Page unit :=
  p ← get;
  let offset := u32 (zlen (p_data p)) in
  total ← lift (row_byte_size row schema);
  if bool_decide (total > PAGE_SIZE) then throw XDLError else
  modify (fun p => set_data (resize (u32 (offset + total)) (p_data p)) p) ;;
  zoom p_data set_data
    (write_u32 offset total ;;
     write_u32 (offset + 4) (row_id row) ;;
     append_fields row 0 (fields schema) (offset + 8)) ;;
  modify (fun p => set_row_offsets (p_row_offsets p ++ [offset]) p) ;;
  modify (fun p => set_row_count (u32 (p_row_count p + 1)) p) ;;
  modify (set_dirty true).

(** [v.erase(v.begin() + start, v.begin() + start + n)] *)
Definition erase_range {A} (start n : Z) (m : list A) : outcome (list A) :=
  if bool_decide (0 <= start /\ 0 <= n /\ start + n <= zlen m)
  then Ok (take (Z.to_nat start) m ++ drop (Z.to_nat (start + n)) m)
  else UB.

(** [row_offsets[i] -= total] *)
Definition sub_offset (total i : Z) : M (list Z) unit :=
  offs ← get;
  o ← lift (index_ offs i);
  put (<[Z.to_nat i := u32 (o - total)]> offs).

(** [Page::erase_row] *)
Definition erase_row (idx : Z) : M Page unit :=
  p ← get;
  if bool_decide (idx >= p_row_count p) then throw XDLError else
  start ← lift (index_ (p_row_offsets p) idx);
  total ← lift (read_u32 (p_data p) start);
  data' ← lift (erase_range start total (p_data p));
  modify (set_data data') ;;
  offs' ← lift (erase_range idx 1 (p_row_offsets p));
  modify (set_row_offsets offs') ;;
  let rc := u32 (p_row_count p - 1) in
  modify (set_row_count rc) ;;
  zoom p_row_offsets set_row_offsets (mfor (sub_offset total) (seqZ idx (rc - idx))) ;;
  modify (set_dirty true).

(** [Page::row_id_at] *)
Definition row_id_at (p : Page) (idx : Z) : outcome Z :=
  o ← index_ (p_row_offsets p) idx;
  read_u32 (p_data p) (o + 4).

Definition has_capacity (p : Page) : bool := bool_decide (p_row_count p < MAX_ROWS_PER_PAGE).

(** One case of the reading [switch] of [get_row]: the values appended and the
    advanced [src]. *)
Definition decode_field (t : FieldType) (m : bytes) (src : Z) : outcome (list FieldValue * Z) :=
  match t with
  | UINT32 => v ← read_u32 m src; Ok ([VUint32 v], src + 4)
  | STRING =>
      len ← read_u16 m src;
      s ← load m (src + 2) len;
      Ok ([VString s], src + 2 + len)
  | FLOAT32 => v ← read_f32 m src; Ok ([VFloat v], src + 4)
  | BOOL => v ← read_u8 m src; Ok ([VBool (negb (bool_decide (v = 0)))], src + 1)
  | INT64 => u ← read_u64 m src; Ok ([VInt64 (i64_of_u64 u)], src + 8)
  | UnknownType _ => Ok ([], src)
  end.

Fixpoint decode_fields (fs : list FieldDef) (m : bytes) (src : Z) : outcome (list FieldValue) :=
  match fs with
  | [] => Ok []
  | f :: fs =>
      '(vs, src') ← decode_field (fd_type f) m src;
      rest ← decode_fields fs m src';
      Ok (vs ++ rest)
  end.

(** [Page::get_row] *)
Definition get_row (p : Page) (idx : Z) (schema : Schema) : outcome Row :=
  if bool_decide (idx >= p_row_count p) then Throw XDLError else
  src ← index_ (p_row_offsets p) idx;
  id ← read_u32 (p_data p) (src + 4);
  fv ← decode_fields (fields schema) (p_data p) (src + 8);
  Ok (mkRow id fv).

(** The loop of [Page::find_row], over the remaining [k] indices from [i]. *)
Fixpoint find_row_loop (p : Page) (id : Z) (k : nat) (i : Z) : outcome Z :=
  match k with
  | O => Ok (-1)
  | S k =>
      o ← index_ (p_row_offsets p) i;
      rid ← read_u32 (p_data p) (o + 4);
      if bool_decide (rid = id) then Ok i else find_row_loop p id k (i + 1)
  end.

Definition find_row (p : Page) (id : Z) : outcome Z :=
  find_row_loop p id (Z.to_nat (p_row_count p)) 0.

(** [Page::row_data_copy] *)
Definition row_data_copy (p : Page) (idx : Z) : outcome bytes :=
  if bool_decide (idx >= p_row_count p) then Throw XDLError else
  base ← index_ (p_row_offsets p) idx;
  total ← read_u32 (p_data p) base;
  load (p_data p) base total.

(** [Page::row_data_ptr]: the offset of the row in [data]. *)
Definition row_data_ptr (p : Page) (idx : Z) : outcome Z := index_ (p_row_offsets p) idx.

Definition row_data_len (p : Page) (idx : Z) : outcome Z :=
  o ← index_ (p_row_offsets p) idx;
  read_u32 (p_data p) o.

(** The loop of [Pager::rebuild_row_offsets]: [k] rows are left, [pos] is the
    position of the next one. *)
Fixpoint rebuild_loop (k : nat) (pos : Z) : M Page unit :=
  match k with
  | O => mret tt
  | S k =>
      p ← get;
      if bool_decide (u32 (pos + 4) > zlen (p_data p)) then throw CorruptionError else
      modify (fun p => set_row_offsets (p_row_offsets p ++ [pos]) p) ;;
      row_len ← lift (read_u32 (p_data p) pos);
      rebuild_loop k (u32 (pos + row_len))
  end.

Definition rebuild_row_offsets : M Page unit :=
  modify (set_row_offsets []) ;;
  p ← get;
  rebuild_loop (Z.to_nat (p_row_count p)) 0.

(** *** The wire format and the abstract page *)

Definition encode_value (v : FieldValue) : bytes :=
  match v with
  | VUint32 n => le_bytes 4 n
  | VString s => le_bytes 2 (zlen s) ++ s
  | VFloat b => le_bytes 4 b
  | VBool b => le_bytes 1 (Z.b2z b)
  | VInt64 n => le_bytes 8 (u64_of_i64 n)
  end.

Definition encode_values (vs : list FieldValue) : bytes := concat (encode_value <$> vs).

Definition encode_row (r : Row) : bytes :=
  let body := encode_values (row_fields r) in
  le_bytes 4 (8 + zlen body) ++ le_bytes 4 (row_id r) ++ body.

(** The value fits the declared field and the format. *)
Definition value_ok (f : FieldDef) (v : FieldValue) : Prop :=
  value_has_type (fd_type f) v /\ value_wf v /\
  match v with VString s => zlen s <= 65535 | _ => True end.

(** A row that the engine accepts: typed, and small enough for a page. *)
Definition row_ok (schema : Schema) (r : Row) : Prop :=
  0 <= row_id r < 2 ^ 32 /\
  Forall2 value_ok (fields schema) (row_fields r) /\
  zlen (encode_row r) <= PAGE_SIZE.

(** The fields of the row that the schema has. *)
Definition row_stored (schema : Schema) (r : Row) : Row := mkRow (row_id r) (take (length (fields schema)) (row_fields r)).

#[export] Instance value_ok_dec f v : Decision (value_ok f v).
Proof. unfold value_ok. destruct v; apply _. Defined.
#[export] Instance row_ok_dec s r : Decision (row_ok s r).
Proof. unfold row_ok. apply _. Defined.

Definition encode_rows (rows : list Row) : bytes := concat (encode_row <$> rows).

Fixpoint offsets_from (o : Z) (rows : list Row) : list Z :=
  match rows with
  | [] => []
  | r :: rows => o :: offsets_from (o + zlen (encode_row r)) rows
  end.

(** The page holds exactly these rows, in slot order. *)
Record page_rep (schema : Schema) (rows : list Row) (p : Page) : Prop := {
  rep_data : p_data p = encode_rows rows;
  rep_offsets : p_row_offsets p = offsets_from 0 rows;
  rep_count : p_row_count p = zlen rows;
  rep_rows : Forall (row_ok schema) rows;
  rep_size : zlen (p_data p) < 2 ^ 31;
}.

(** ** Lemmas: the wire format *)

Lemma length_encode_value v :
  zlen (encode_value v) =
  match v with
  | VUint32 _ | VFloat _ => 4 | VString s => 2 + zlen s | VBool _ => 1 | VInt64 _ => 8
  end.
Proof. destruct v; cbn [encode_value]; rewrite ?length_app, ?length_le_bytes; lia. Qed.

Lemma length_encode_row r : zlen (encode_row r) = 8 + zlen (encode_values (row_fields r)).
Proof. unfold encode_row. rewrite !length_app, !length_le_bytes. lia. Qed.

Lemma encode_values_cons v vs : encode_values (v :: vs) = encode_value v ++ encode_values vs.
Proof. done. Qed.

Lemma encode_rows_app r1 r2 : encode_rows (r1 ++ r2) = encode_rows r1 ++ encode_rows r2.
Proof. unfold encode_rows. by rewrite fmap_app, concat_app. Qed.

Lemma encode_rows_cons r rs : encode_rows (r :: rs) = encode_row r ++ encode_rows rs.
Proof. done. Qed.

(** *** Sizes *)

Lemma field_byte_size_ok f v :
  value_ok f v -> field_byte_size v (fd_type f) = Ok (zlen (encode_value v)).
Proof.
  intros (Ht & Hw & Hs). rewrite length_encode_value.
  destruct (fd_type f), v; cbn in *; try done.
  rewrite bool_decide_eq_false_2 by lia. unfold u32.
  by rewrite (Z.mod_small (zlen s)), Z.mod_small by lia.
Qed.

Lemma field_byte_size_inv f v n :
  field_byte_size v (fd_type f) = Ok n -> value_wf v -> value_ok f v /\ n = zlen (encode_value v).
Proof.
  intros H Hw. assert (Hok : value_ok f v).
  { split_and!; [|done|]; destruct (fd_type f), v; cbn in *; try done.
    case_bool_decide; [done|lia]. }
  split; [done|]. rewrite (field_byte_size_ok f v Hok) in H. by simplify_eq.
Qed.

Lemma row_byte_size_loop_ok row i fs sz :
  Forall2 value_ok fs (drop i (row_fields row)) ->
  0 <= sz -> sz + zlen (encode_values (drop i (row_fields row))) < 2 ^ 32 ->
  row_byte_size_loop row (Z.of_nat i) fs sz = Ok (sz + zlen (encode_values (drop i (row_fields row)))).
Proof.
  revert i sz; induction fs as [|f fs IH]; intros i sz Hf Hsz Hlt.
  - apply Forall2_nil_inv_l in Hf. rewrite Hf. simpl. f_equal. lia.
  - apply Forall2_cons_inv_l in Hf as (v & vs & Hv & Hvs & Hd).
    assert (Hi : row_fields row !! i = Some v) by (rewrite <- (Nat.add_0_r i), <- lookup_drop, Hd; done).
    assert (Hd' : drop (S i) (row_fields row) = vs)
      by (replace (S i) with (i + 1)%nat by lia; rewrite <- drop_drop, Hd; done).
    cbn [row_byte_size_loop]. rewrite (at_index _ _ _ Hi). cbn [mbind outcome_bind].
    rewrite (field_byte_size_ok f v Hv). cbn [mbind outcome_bind].
    rewrite Hd in Hlt |- *. rewrite encode_values_cons, length_app in Hlt |- *.
    replace (Z.of_nat i + 1) with (Z.of_nat (S i)) by lia.
    unfold u32. rewrite Z.mod_small by lia.
    rewrite IH; rewrite ?Hd'; [f_equal; lia|done|lia|lia].
Qed.

(** The computed size is the length of the serialised row. *)
Lemma row_byte_size_ok schema row :
  Forall2 value_ok (fields schema) (row_fields row) -> zlen (encode_row row) < 2 ^ 32 ->
  row_byte_size row schema = Ok (zlen (encode_row row)).
Proof.
  rewrite length_encode_row. intros Hf Hlt. unfold row_byte_size.
  pose proof (row_byte_size_loop_ok row 0 (fields schema) 8 Hf ltac:(lia) ltac:(rewrite drop_0; lia)) as H.
  rewrite drop_0 in H. done.
Qed.

Lemma row_byte_size_loop_inv row i fs sz n :
  Forall value_wf (row_fields row) ->
  row_byte_size_loop row (Z.of_nat i) fs sz = Ok n ->
  Forall2 value_ok fs (take (length fs) (drop i (row_fields row))).
Proof.
  intros Hw. revert i sz; induction fs as [|f fs IH]; intros i sz H; [constructor|].
  cbn [row_byte_size_loop] in H.
  apply outcome_bind_inv in H as (v & Hv & H). apply at_inv in Hv as [_ Hv].
  rewrite Nat2Z.id in Hv. apply outcome_bind_inv in H as (k & Hk & H).
  apply field_byte_size_inv in Hk as [Hok _]; [|by eapply Forall_lookup_1].
  rewrite (drop_S _ _ _ Hv). cbn [length take]. constructor; [done|].
  apply (IH (S i) (u32 (sz + k))). by replace (Z.of_nat (S i)) with (Z.of_nat i + 1) by lia.
Qed.

(** A row of the right arity whose size is computed is typed as declared. *)
Lemma row_byte_size_inv schema row n :
  Forall value_wf (row_fields row) -> length (row_fields row) = length (fields schema) ->
  row_byte_size row schema = Ok n -> Forall2 value_ok (fields schema) (row_fields row).
Proof.
  intros Hw Hl H. apply (row_byte_size_loop_inv row 0) in H; [|done].
  by rewrite drop_0, take_ge in H by lia.
Qed.

(** A [FieldType] outside the enumerators is rejected with [XDLError]; so is a
    value of another type, or a string above 65535 bytes. *)
Lemma field_byte_size_total v t :
  (exists n, field_byte_size v t = Ok n) \/ field_byte_size v t = Throw XDLError.
Proof. destruct t, v; cbn; eauto. case_bool_decide; eauto. Qed.

(** *** Writing *)

Section writing.
Context (m1 hole m2 : bytes).

Lemma write_u8_mid v dst :
  dst = zlen m1 -> zlen hole = 1 ->
  write_u8 dst v (m1 ++ hole ++ m2) = (Ok tt, m1 ++ le_bytes 1 v ++ m2).
Proof. intros -> H. rewrite write_u8_store. by apply store_app_mid; [|simpl; lia]. Qed.

Lemma write_u16_mid v dst :
  dst = zlen m1 -> zlen hole = 2 ->
  write_u16 dst v (m1 ++ hole ++ m2) = (Ok tt, m1 ++ le_bytes 2 v ++ m2).
Proof.
  intros -> H. rewrite write_u16_store by (rewrite ?length_app; lia).
  apply store_app_mid; rewrite ?length_le_bytes; lia.
Qed.

Lemma write_u32_mid v dst :
  dst = zlen m1 -> zlen hole = 4 ->
  write_u32 dst v (m1 ++ hole ++ m2) = (Ok tt, m1 ++ le_bytes 4 v ++ m2).
Proof.
  intros -> H. rewrite write_u32_store by (rewrite ?length_app; lia).
  apply store_app_mid; rewrite ?length_le_bytes; lia.
Qed.

Lemma write_u64_mid v dst :
  dst = zlen m1 -> zlen hole = 8 ->
  write_u64 dst v (m1 ++ hole ++ m2) = (Ok tt, m1 ++ le_bytes 8 v ++ m2).
Proof.
  intros -> H. rewrite write_u64_store by (rewrite ?length_app; lia).
  apply store_app_mid; rewrite ?length_le_bytes; lia.
Qed.
End writing.

(** A list of known length split in two. *)
Lemma split_length {A} (l : list A) (n k : Z) :
  zlen l = n + k -> 0 <= n -> 0 <= k -> exists l1 l2, l = l1 ++ l2 /\ zlen l1 = n /\ zlen l2 = k.
Proof.
  intros. exists (take (Z.to_nat n) l), (drop (Z.to_nat n) l).
  rewrite take_drop, length_take, length_drop. split_and!; [done|lia..].
Qed.

Lemma append_field_mid f v m1 hole m2 dst :
  value_ok f v -> dst = zlen m1 -> length hole = length (encode_value v) ->
  append_field (fd_type f) v dst (m1 ++ hole ++ m2)
  = (Ok (dst + zlen (encode_value v)), m1 ++ encode_value v ++ m2).
Proof.
  intros (Ht & Hw & Hs) Hd Hh.
  assert (Hz : zlen hole = zlen (encode_value v)) by lia. rewrite length_encode_value in *.
  destruct (fd_type f), v as [n|s|b|b|n]; cbn [value_has_type value_wf] in *; try done;
    cbn [append_field get_u32 get_str get_f32 get_b get_i64 encode_value];
    rewrite (M_bind_ok (lift (Ok _)) _ _ _ _ eq_refl).
  - by rewrite (M_bind_ok _ _ _ _ _ (write_u32_mid _ _ _ _ _ Hd Hz)).
  - assert (Hl : u16 (zlen s) = zlen s) by (unfold u16; apply Z.mod_small; lia).
    rewrite Hl, Nat2Z.id, take_ge by lia.
    destruct (split_length hole 2 (zlen s)) as (h1 & h2 & -> & H1 & H2); [lia..|].
    rewrite <- app_assoc.
    rewrite (M_bind_ok _ _ _ _ _ (write_u16_mid m1 h1 (h2 ++ m2) _ _ Hd H1)).
    rewrite app_assoc.
    erewrite M_bind_ok by (apply store_app_mid; rewrite ?length_app, ?length_le_bytes; lia).
    rewrite <- !app_assoc. by rewrite Z.add_assoc.
  - by rewrite (M_bind_ok _ _ _ _ _ (write_u32_mid _ _ _ _ _ Hd Hz)).
  - by rewrite (M_bind_ok _ _ _ _ _ (write_u8_mid _ _ _ _ _ Hd Hz)).
  - by rewrite (M_bind_ok _ _ _ _ _ (write_u64_mid _ _ _ _ _ Hd Hz)).
Qed.

Lemma append_fields_mid row i fs m1 hole m2 dst :
  Forall2 value_ok fs (drop i (row_fields row)) ->
  dst = zlen m1 -> length hole = length (encode_values (drop i (row_fields row))) ->
  append_fields row (Z.of_nat i) fs dst (m1 ++ hole ++ m2)
  = (Ok tt, m1 ++ encode_values (drop i (row_fields row)) ++ m2).
Proof.
  revert i m1 hole dst. induction fs as [|f fs IH]; intros i m1 hole dst Hf Hd Hh.
  - apply Forall2_nil_inv_l in Hf. rewrite Hf in *. destruct hole; [done|done].
  - apply Forall2_cons_inv_l in Hf as (v & vs & Hv & Hvs & Hdr).
    assert (Hi : row_fields row !! i = Some v) by (rewrite <- (Nat.add_0_r i), <- lookup_drop, Hdr; done).
    assert (Hd' : drop (S i) (row_fields row) = vs)
      by (replace (S i) with (i + 1)%nat by lia; rewrite <- drop_drop, Hdr; done).
    rewrite Hdr, encode_values_cons in Hh |- *. rewrite length_app in Hh.
    destruct (split_length hole (zlen (encode_value v)) (zlen (encode_values vs)))
      as (h1 & h2 & -> & H1 & H2); [lia..|].
    cbn [append_fields].
    rewrite (M_bind_ok _ _ _ v (m1 ++ (h1 ++ h2) ++ m2))
      by (rewrite (at_index _ _ _ Hi); destruct Hv as [Hv _]; by destruct (fd_type f)).
    rewrite <- app_assoc.
    rewrite (M_bind_ok _ _ _ _ _ (append_field_mid f v m1 h1 (h2 ++ m2) dst Hv Hd ltac:(lia))).
    replace (Z.of_nat i + 1) with (Z.of_nat (S i)) by lia. rewrite <- Hd'.
    rewrite <- app_assoc, !(app_assoc m1). apply IH; rewrite ?Hd', ?length_app; [done|lia|lia].
Qed.

(** *** Offsets *)

Lemma length_offsets_from o rows : length (offsets_from o rows) = length rows.
Proof. revert o; induction rows; intros; simpl; auto. Qed.

Lemma offsets_from_app o r1 r2 :
  offsets_from o (r1 ++ r2) = offsets_from o r1 ++ offsets_from (o + zlen (encode_rows r1)) r2.
Proof.
  revert o; induction r1 as [|r r1 IH]; intros o; cbn [offsets_from app].
  - f_equal. change (zlen (encode_rows [])) with 0. lia.
  - rewrite IH, encode_rows_cons, length_app. do 3 f_equal. lia.
Qed.

Lemma offsets_from_shift o d rows :
  (fun x => x - d) <$> offsets_from o rows = offsets_from (o - d) rows.
Proof.
  revert o; induction rows as [|r rows IH]; intros o; [done|]. cbn [offsets_from].
  rewrite fmap_cons, IH. do 2 f_equal. lia.
Qed.

Lemma offsets_from_lookup o rows i r :
  rows !! i = Some r -> offsets_from o rows !! i = Some (o + zlen (encode_rows (take i rows))).
Proof.
  revert o i; induction rows as [|r0 rows IH]; intros o i H; [done|].
  destruct i as [|i]; cbn [offsets_from].
  - simpl. f_equal. lia.
  - cbn [lookup list_lookup take]. rewrite (IH _ i) by done.
    rewrite encode_rows_cons, length_app. f_equal. lia.
Qed.

Lemma length_encode_row_pos r : 8 <= zlen (encode_row r).
Proof. rewrite length_encode_row. lia. Qed.

(** The bytes of the row in slot [i]. *)
Lemma encode_rows_lookup rows i r :
  rows !! i = Some r ->
  encode_rows rows = encode_rows (take i rows) ++ encode_row r ++ encode_rows (drop (S i) rows).
Proof.
  intros H. rewrite <- (take_drop_middle rows i r H) at 1.
  by rewrite encode_rows_app, encode_rows_cons.
Qed.

(** *** Reading *)

Lemma read_le_bytes_mid (n : nat) k m1 m2 v i :
  i = zlen m1 -> k = Z.of_nat n -> 0 <= v < 256 ^ Z.of_nat n ->
  read_le k (m1 ++ le_bytes n v ++ m2) i = Ok v.
Proof. intros -> -> Hv. rewrite read_le_le_bytes by done. by rewrite Z.mod_small. Qed.

Lemma i64_u64_roundtrip n : - 2 ^ 63 <= n < 2 ^ 63 -> i64_of_u64 (u64_of_i64 n) = n.
Proof.
  intros H. unfold i64_of_u64, u64_of_i64. destruct (Z_lt_le_dec n 0).
  - rewrite <- (Z.mod_add n 1), Z.mod_small by lia. rewrite bool_decide_eq_false_2; lia.
  - rewrite Z.mod_small, bool_decide_eq_true_2; lia.
Qed.

Lemma u64_of_i64_range n : 0 <= u64_of_i64 n < 2 ^ 64.
Proof. apply Z.mod_pos_bound. lia. Qed.

Lemma decode_field_mid f v m1 m2 src :
  value_ok f v -> src = zlen m1 ->
  decode_field (fd_type f) (m1 ++ encode_value v ++ m2) src
  = Ok ([v], src + zlen (encode_value v)).
Proof.
  intros (Ht & Hw & Hs) ->. rewrite length_encode_value.
  destruct (fd_type f), v as [n|s|b|b|n]; cbn [value_has_type value_wf] in *; try done;
    cbn [decode_field encode_value].
  - by rewrite read_u32_le, (read_le_bytes_mid 4).
  - rewrite <- app_assoc, read_u16_le, (read_le_bytes_mid 2) by (simpl; lia).
    cbn [mbind outcome_bind]. rewrite app_assoc.
    rewrite load_app_mid' by (rewrite ?length_app, ?length_le_bytes; lia).
    cbn [mbind outcome_bind]. by rewrite Z.add_assoc.
  - by rewrite read_f32_le, (read_le_bytes_mid 4).
  - unfold read_u8. cbn [le_bytes app]. rewrite load_byte_app by done. by destruct b.
  - rewrite read_u64_le, (read_le_bytes_mid 8); [|done..|apply u64_of_i64_range].
    cbn [mbind outcome_bind]. by rewrite i64_u64_roundtrip.
Qed.

Lemma decode_fields_mid fs vs m1 m2 src :
  Forall2 value_ok fs vs -> src = zlen m1 ->
  decode_fields fs (m1 ++ encode_values vs ++ m2) src = Ok vs.
Proof.
  intros Hf. revert m1 src. induction Hf as [|f v fs vs Hv Hf IH]; intros m1 src ->; [done|].
  cbn [decode_fields]. rewrite encode_values_cons, <- app_assoc.
  rewrite (decode_field_mid f v) by done. cbn [mbind outcome_bind].
  rewrite app_assoc, IH by (rewrite length_app; lia). done.
Qed.

(** *** Operations on a represented page *)

Section page_ops.
Context (schema : Schema).
Implicit Types (rows : list Row) (r : Row) (p : Page).

Lemma row_ok_length r : row_ok schema r -> zlen (encode_row r) < 2 ^ 32.
Proof. intros (_ & _ & H). unfold PAGE_SIZE in H. lia. Qed.

Lemma page_rep_count rows p : page_rep schema rows p -> 8 * zlen rows <= zlen (p_data p).
Proof.
  intros [-> _ _ _ _]. induction rows as [|r rows IH]; [done|].
  rewrite encode_rows_cons, length_app. pose proof (length_encode_row_pos r).
  cbn [length]. lia.
Qed.

Lemma page_rep_new pid : page_rep schema [] (new_Page pid).
Proof. split; simpl; try done; constructor. Qed.

(** The slot of a row: its offset, and the buffer split around it. *)
Lemma page_rep_slot rows p i r :
  page_rep schema rows p -> rows !! i = Some r ->
  exists m1 m2, p_data p = m1 ++ encode_row r ++ m2 /\
    index_ (p_row_offsets p) (Z.of_nat i) = Ok (zlen m1) /\
    m1 = encode_rows (take i rows) /\ m2 = encode_rows (drop (S i) rows) /\
    row_ok schema r /\ Z.of_nat i < p_row_count p.
Proof.
  intros [Hd Ho Hc Hr Hs] Hi. do 2 eexists. split_and!.
  - rewrite Hd. by apply encode_rows_lookup.
  - rewrite Ho. apply index_lookup. rewrite (offsets_from_lookup 0 rows i r Hi). done.
  - done.
  - done.
  - by eapply Forall_lookup_1.
  - rewrite Hc. apply lookup_lt_Some in Hi. lia.
Qed.

Lemma read_row_len r m1 m2 :
  row_ok schema r -> read_u32 (m1 ++ encode_row r ++ m2) (zlen m1) = Ok (zlen (encode_row r)).
Proof.
  intros Hr%row_ok_length. rewrite length_encode_row in Hr |- *.
  unfold encode_row. rewrite <- app_assoc, read_u32_le, (read_le_bytes_mid 4); [done..|]. lia.
Qed.

Lemma read_row_id r m1 m2 :
  row_ok schema r -> read_u32 (m1 ++ encode_row r ++ m2) (zlen m1 + 4) = Ok (row_id r).
Proof.
  intros [Hid _]. unfold encode_row. rewrite <- !app_assoc, app_assoc, read_u32_le.
  apply (read_le_bytes_mid 4); [rewrite length_app, length_le_bytes; lia|done|lia].
Qed.

Lemma decode_row r m1 m2 :
  row_ok schema r ->
  decode_fields (fields schema) (m1 ++ encode_row r ++ m2) (zlen m1 + 8) = Ok (row_fields r).
Proof.
  intros (_ & Hf & _). unfold encode_row. rewrite <- !app_assoc, !app_assoc.
  rewrite <- (app_assoc _ (encode_values _)). apply decode_fields_mid; [done|].
  rewrite !length_app, !length_le_bytes. lia.
Qed.

Lemma get_row_rep rows p i r :
  page_rep schema rows p -> rows !! i = Some r -> get_row p (Z.of_nat i) schema = Ok r.
Proof.
  intros Hp Hi. destruct (page_rep_slot _ _ _ _ Hp Hi) as (m1 & m2 & Hd & Ho & _ & _ & Hr & Hc).
  unfold get_row. bd. rewrite Ho, Hd. cbn [mbind outcome_bind].
  rewrite read_row_id by done. cbn [mbind outcome_bind]. rewrite decode_row by done.
  by destruct r.
Qed.

Lemma get_row_oob rows p i :
  page_rep schema rows p -> zlen rows <= i -> get_row p i schema = Throw XDLError.
Proof. intros Hp Hi. unfold get_row. rewrite (rep_count _ _ _ Hp). by bd. Qed.

Lemma row_id_at_rep rows p i r :
  page_rep schema rows p -> rows !! i = Some r -> row_id_at p (Z.of_nat i) = Ok (row_id r).
Proof.
  intros Hp Hi. destruct (page_rep_slot _ _ _ _ Hp Hi) as (m1 & m2 & Hd & Ho & _ & _ & Hr & Hc).
  unfold row_id_at. rewrite Ho, Hd. cbn [mbind outcome_bind]. by apply read_row_id.
Qed.

Lemma row_data_len_rep rows p i r :
  page_rep schema rows p -> rows !! i = Some r ->
  row_data_len p (Z.of_nat i) = Ok (zlen (encode_row r)).
Proof.
  intros Hp Hi. destruct (page_rep_slot _ _ _ _ Hp Hi) as (m1 & m2 & Hd & Ho & _ & _ & Hr & Hc).
  unfold row_data_len. rewrite Ho, Hd. cbn [mbind outcome_bind]. by apply read_row_len.
Qed.

Lemma row_data_copy_rep rows p i r :
  page_rep schema rows p -> rows !! i = Some r -> row_data_copy p (Z.of_nat i) = Ok (encode_row r).
Proof.
  intros Hp Hi. destruct (page_rep_slot _ _ _ _ Hp Hi) as (m1 & m2 & Hd & Ho & _ & _ & Hr & Hc).
  unfold row_data_copy. bd. rewrite Ho, Hd. cbn [mbind outcome_bind].
  rewrite read_row_len by done. cbn [mbind outcome_bind]. by apply load_app_mid.
Qed.

Lemma find_row_loop_rep rows p id k i :
  page_rep schema rows p -> (i + k = length rows)%nat ->
  find_row_loop p id k (Z.of_nat i) =
  Ok match list_find (fun r => row_id r = id) (drop i rows) with
     | Some (j, _) => Z.of_nat (i + j)
     | None => -1
     end.
Proof.
  intros Hp. revert i; induction k as [|k IH]; intros i Hl; cbn [find_row_loop].
  - rewrite drop_ge by lia. done.
  - destruct (lookup_lt_is_Some_2 rows i) as [r Hi]; [lia|].
    pose proof (row_id_at_rep _ _ _ _ Hp Hi) as Hid. unfold row_id_at in Hid.
    apply outcome_bind_inv in Hid as (o & Ho & Hid). rewrite Ho. cbn [mbind outcome_bind].
    rewrite Hid. cbn [mbind outcome_bind]. rewrite (drop_S _ _ _ Hi). cbn [list_find].
    destruct (decide (row_id r = id)); [bd; do 2 f_equal; lia|]. bd.
    replace (Z.of_nat i + 1) with (Z.of_nat (S i)) by lia. rewrite IH by lia.
    destruct (list_find _ _) as [[j ?]|]; simpl; do 2 f_equal; lia.
Qed.

Lemma find_row_rep rows p id :
  page_rep schema rows p ->
  find_row p id = Ok match list_find (fun r => row_id r = id) rows with
                     | Some (j, _) => Z.of_nat j
                     | None => -1
                     end.
Proof.
  intros Hp. unfold find_row. rewrite (rep_count _ _ _ Hp), Nat2Z.id.
  pose proof (find_row_loop_rep rows p id (length rows) 0 Hp eq_refl) as H.
  by rewrite drop_0 in H.
Qed.
End page_ops.

(** *** Mutations of a represented page *)

Section page_mutations.
Context (schema : Schema).
Implicit Types (rows : list Row) (r : Row) (p : Page).

Lemma append_row_run r p :
  row_ok schema r -> zlen (p_data p) + zlen (encode_row r) < 2 ^ 32 ->
  append_row r schema p =
  (Ok tt, mkPage (p_id p) (p_data p ++ encode_row r) (u32 (p_row_count p + 1)) true
            (p_row_offsets p ++ [zlen (p_data p)])).
Proof.
  intros Hr Hlt. pose proof (row_ok_length _ _ Hr) as Hlen. destruct Hr as (Hid & Hf & Hsz).
  pose proof (length_encode_row r) as Hle.
  assert (Ho : u32 (zlen (p_data p)) = zlen (p_data p)) by (apply Z.mod_small; lia).
  assert (Hn : u32 (zlen (p_data p) + zlen (encode_row r)) = zlen (p_data p) + zlen (encode_row r))
    by (apply Z.mod_small; lia).
  unfold append_row. rewrite (M_bind_ok get _ p p p eq_refl). cbv zeta. rewrite !Ho.
  rewrite (M_bind_ok (lift _) _ p (zlen (encode_row r)) p)
    by (unfold lift; by rewrite row_byte_size_ok).
  rewrite bool_decide_eq_false_2 by lia.
  rewrite Hn, (M_bind_ok (modify _) _ p tt _ eq_refl).
  set (n := zlen (p_data p)).
  rewrite (M_bind_ok (zoom _ _ _) _ _ tt (set_data (p_data p ++ encode_row r) p)).
  { by unfold set_dirty, set_row_count, set_row_offsets, set_data. }
  unfold zoom. cbn [p_data set_data]. rewrite resize_grow by lia.
  destruct (split_length (replicate (Z.to_nat (n + zlen (encode_row r)) - length (p_data p)) x00)
              4 (4 + zlen (encode_values (row_fields r)))) as (h1 & h' & -> & H1 & H');
    [rewrite length_replicate; lia|lia|lia|].
  destruct (split_length h' 4 (zlen (encode_values (row_fields r)))) as (h2 & h3 & -> & H2 & H3);
    [lia..|].
  rewrite (M_bind_ok _ _ _ tt _ (write_u32_mid (p_data p) h1 (h2 ++ h3) _ n eq_refl H1)).
  rewrite app_assoc.
  rewrite (M_bind_ok _ _ _ tt _ (write_u32_mid (p_data p ++ le_bytes 4 _) h2 h3 _ (n + 4)
             ltac:(rewrite length_app, length_le_bytes; lia) H2)).
  rewrite app_assoc, <- (app_nil_r h3).
  pose proof (append_fields_mid r 0 (fields schema)
    ((p_data p ++ le_bytes 4 (zlen (encode_row r))) ++ le_bytes 4 (row_id r)) h3 [] (n + 8)) as Ha.
  rewrite drop_0 in Ha. change (Z.of_nat 0) with 0 in Ha. rewrite Ha; [|done|rewrite !length_app, !length_le_bytes; lia|lia].
  unfold set_data; cbn [p_id p_data p_row_count p_dirty p_row_offsets].
  do 2 f_equal. rewrite app_nil_r, Hle. unfold encode_row. by rewrite <- !app_assoc.
Qed.

Lemma page_rep_snoc rows r p :
  page_rep schema rows p -> row_ok schema r -> zlen (p_data p) + zlen (encode_row r) < 2 ^ 31 ->
  page_rep schema (rows ++ [r])
    (mkPage (p_id p) (p_data p ++ encode_row r) (u32 (p_row_count p + 1)) true
       (p_row_offsets p ++ [zlen (p_data p)])).
Proof.
  intros Hp Hr Hlt. pose proof (page_rep_count _ _ _ Hp). destruct Hp as [Hd Ho Hc Hrs Hs].
  split; cbn [p_data p_row_offsets p_row_count].
  - rewrite encode_rows_app, encode_rows_cons, Hd. f_equal. symmetry; apply app_nil_r.
  - rewrite offsets_from_app, Ho, Hd. done.
  - rewrite Hc, length_app. unfold u32. rewrite Z.mod_small; simpl; lia.
  - by apply Forall_app; split; [|constructor].
  - rewrite length_app. lia.
Qed.

Lemma seqZ_cons_step i n : 0 < n -> seqZ i n = i :: seqZ (i + 1) (n - 1).
Proof. intros. rewrite seqZ_cons by lia. by rewrite Z.sub_1_r, <- Z.add_1_r. Qed.

(** The compaction loop subtracts [total] from every later offset. *)
Lemma sub_offset_loop total pre post :
  0 <= total -> Forall (fun o => total <= o < 2 ^ 32) post ->
  mfor (sub_offset total) (seqZ (zlen pre) (zlen post)) (pre ++ post)
  = (Ok tt, pre ++ ((fun o => o - total) <$> post)).
Proof.
  intros Htot. revert pre; induction post as [|o post IH]; intros pre Hf; [done|].
  apply Forall_cons in Hf as [Ho Hf]. rewrite seqZ_cons_step by (simpl; lia). cbn [mfor].
  rewrite (M_bind_ok _ _ _ tt ((pre ++ [o - total]) ++ post)).
  - rewrite fmap_cons. replace (zlen pre + 1) with (zlen (pre ++ [o - total]))
      by (rewrite length_app; simpl; lia).
    replace (zlen (o :: post) - 1) with (zlen post) by (simpl; lia).
    rewrite IH by done. by rewrite <- app_assoc.
  - unfold sub_offset. rewrite (M_bind_ok get _ _ _ _ eq_refl).
    rewrite (M_bind_ok (lift _) _ _ o (pre ++ o :: post))
      by (unfold lift; by rewrite (index_lookup _ (length pre) o) by by apply list_lookup_middle).
    unfold put. f_equal. rewrite Nat2Z.id, insert_app_r_alt, Nat.sub_diag by lia. cbn.
    rewrite <- app_assoc. unfold u32. rewrite Z.mod_small; [done|lia].
Qed.

Lemma offsets_from_bounds rows o :
  0 <= o -> Forall (fun x => o <= x <= o + zlen (encode_rows rows)) (offsets_from o rows).
Proof.
  revert o; induction rows as [|r rows IH]; intros o Ho; cbn [offsets_from]; constructor.
  - lia.
  - eapply Forall_impl; [apply (IH (o + zlen (encode_row r))); lia|]. cbv beta. intros x Hx.
    rewrite encode_rows_cons, length_app. lia.
Qed.

(** Removing the middle element of a list. *)
Lemma erase_range_mid {A} (l1 l2 l3 : list A) i n :
  i = zlen l1 -> n = zlen l2 -> erase_range i n (l1 ++ l2 ++ l3) = Ok (l1 ++ l3).
Proof.
  intros -> ->. unfold erase_range. rewrite !length_app. bd.
  by rewrite <- Nat2Z.inj_add, !Nat2Z.id, take_app_length, <- drop_drop, !drop_app_length.
Qed.

Lemma offsets_from_split rows i r :
  rows !! i = Some r ->
  let o := zlen (encode_rows (take i rows)) in
  offsets_from 0 rows =
  offsets_from 0 (take i rows) ++ [o] ++ offsets_from (o + zlen (encode_row r)) (drop (S i) rows).
Proof.
  intros Hi o. rewrite <- (take_drop_middle rows i r Hi) at 1.
  by rewrite offsets_from_app.
Qed.

Lemma erase_row_run rows p i r :
  page_rep schema rows p -> rows !! i = Some r ->
  erase_row (Z.of_nat i) p =
  (Ok tt, mkPage (p_id p) (encode_rows (delete i rows)) (zlen (delete i rows)) true
            (offsets_from 0 (delete i rows))).
Proof.
  intros Hp Hi. destruct (page_rep_slot _ _ _ _ _ Hp Hi) as (m1 & m2 & Hd & Ho & -> & -> & Hr & Hc).
  pose proof (page_rep_count _ _ _ Hp) as H8.
  pose proof (rep_size _ _ _ Hp) as Hsz. pose proof (rep_count _ _ _ Hp) as Hn.
  assert (Hdel : delete i rows = take i rows ++ drop (S i) rows) by apply delete_take_drop.
  assert (Hlen : zlen rows = Z.of_nat i + 1 + zlen (drop (S i) rows)).
  { rewrite length_drop. apply lookup_lt_Some in Hi. lia. }
  assert (Hti : zlen (take i rows) = Z.of_nat i).
  { rewrite length_take. apply lookup_lt_Some in Hi. lia. }
  set (o := zlen (encode_rows (take i rows))) in *. set (total := zlen (encode_row r)).
  unfold erase_row. rewrite (M_bind_ok get _ _ _ _ eq_refl). rewrite bool_decide_eq_false_2 by lia.
  rewrite (M_bind_ok (lift _) _ p o p) by (unfold lift; by rewrite Ho).
  rewrite (M_bind_ok (lift _) _ p total p) by (unfold lift; rewrite Hd; by rewrite (read_row_len schema)).
  rewrite (M_bind_ok (lift _) _ p (encode_rows (delete i rows)) p)
    by (unfold lift; rewrite Hd, Hdel, encode_rows_app; by rewrite erase_range_mid).
  rewrite (M_bind_ok (modify _) _ _ _ _ eq_refl).
  pose proof (offsets_from_split rows i r Hi) as Hoff. cbv zeta in Hoff. fold o total in Hoff.
  rewrite (M_bind_ok (lift _) _ _
             (offsets_from 0 (take i rows) ++ offsets_from (o + total) (drop (S i) rows))
             (set_data (encode_rows (delete i rows)) p)).
  2: { unfold lift. rewrite (rep_offsets _ _ _ Hp), Hoff.
       by rewrite erase_range_mid by (rewrite ?length_offsets_from; simpl; lia). }
  assert (Hrc : u32 (p_row_count p - 1) = zlen (delete i rows)).
  { rewrite Hn, Hdel, length_app. unfold u32. rewrite Z.mod_small; lia. }
  rewrite !Hrc. do 2 rewrite (M_bind_ok (modify _) _ _ _ _ eq_refl).
  unfold zoom at 1. cbn [p_row_offsets set_row_offsets set_row_count set_data].
  assert (Hloop : seqZ (Z.of_nat i) (zlen (delete i rows) - Z.of_nat i)
            = seqZ (zlen (offsets_from 0 (take i rows))) (zlen (offsets_from (o + total) (drop (S i) rows)))).
  { rewrite !length_offsets_from, Hdel, length_app. f_equal; lia. }
  rewrite Hloop.
  rewrite (M_bind_ok _ _ _ tt (set_row_offsets (offsets_from 0 (delete i rows))
             (set_row_count (zlen (delete i rows)) (set_data (encode_rows (delete i rows)) p)))).
  { by unfold modify, set_dirty, set_row_offsets, set_row_count, set_data. }
  rewrite sub_offset_loop.
  - rewrite offsets_from_shift, Z.add_simpl_r.
    replace (offsets_from 0 (take i rows) ++ offsets_from o (drop (S i) rows))
      with (offsets_from 0 (delete i rows)) by (by rewrite Hdel, offsets_from_app).
    done.
  - unfold total; lia.
  - eapply Forall_impl; [apply (offsets_from_bounds _ (o + total)); unfold o, total; lia|].
    intros x Hx. rewrite Hd, !length_app in Hsz. fold o total in Hsz. unfold total, o in *. lia.
Qed.
End page_mutations.

(** *** Rebuilding the offsets of a loaded page *)

Section rebuild.
Context (schema : Schema).

Lemma rebuild_loop_rep pre post p :
  p_data p = encode_rows (pre ++ post) -> zlen (p_data p) < 2 ^ 31 ->
  p_row_offsets p = offsets_from 0 pre -> Forall (row_ok schema) post ->
  rebuild_loop (length post) (zlen (encode_rows pre)) p
  = (Ok tt, set_row_offsets (offsets_from 0 (pre ++ post)) p).
Proof.
  revert pre p; induction post as [|r post IH]; intros pre p Hd Hsz Ho Hf; cbn [rebuild_loop length].
  - rewrite app_nil_r, <- Ho. by destruct p.
  - apply Forall_cons in Hf as [Hr Hf]. rewrite (M_bind_ok get _ _ _ _ eq_refl).
    pose proof (length_encode_row_pos r) as H8. pose proof Hsz as Hsz'.
    rewrite Hd, encode_rows_app, encode_rows_cons, !length_app in Hsz'.
    assert (H4 : u32 (zlen (encode_rows pre) + 4) = zlen (encode_rows pre) + 4)
      by (apply Z.mod_small; lia).
    rewrite H4, bool_decide_eq_false_2
      by (rewrite Hd, encode_rows_app, encode_rows_cons, !length_app; lia).
    rewrite (M_bind_ok (modify _) _ _ _ _ eq_refl).
    rewrite (M_bind_ok (lift _) _ _ (zlen (encode_row r))
               (set_row_offsets (p_row_offsets p ++ [zlen (encode_rows pre)]) p)).
    2: { unfold lift. rewrite Hd, encode_rows_app, encode_rows_cons.
         by rewrite (read_row_len schema). }
    assert (Hn : u32 (zlen (encode_rows pre) + zlen (encode_row r)) = zlen (encode_rows (pre ++ [r]))).
    { rewrite encode_rows_app, (encode_rows_cons r []), !length_app.
      change (length (encode_rows [])) with O. unfold u32. rewrite Z.mod_small; lia. }
    rewrite Hn. rewrite IH; cbn [p_data p_row_offsets set_row_offsets].
    + by rewrite <- app_assoc.
    + by rewrite <- app_assoc.
    + done.
    + rewrite Ho, offsets_from_app. done.
    + done.
Qed.

Lemma rebuild_row_offsets_run rows p :
  p_data p = encode_rows rows -> p_row_count p = zlen rows -> zlen (p_data p) < 2 ^ 31 ->
  Forall (row_ok schema) rows ->
  rebuild_row_offsets p = (Ok tt, set_row_offsets (offsets_from 0 rows) p).
Proof.
  intros Hd Hc Hsz Hf. unfold rebuild_row_offsets.
  rewrite (M_bind_ok (modify _) _ _ _ _ eq_refl), (M_bind_ok get _ _ _ _ eq_refl).
  cbn [p_row_count set_row_offsets]. rewrite Hc, Nat2Z.id.
  exact (rebuild_loop_rep [] rows (set_row_offsets [] p) Hd Hsz eq_refl Hf).
Qed.
End rebuild.

(** *** Rejected rows *)

Lemma row_byte_size_loop_cases row i fs sz :
  (i + length fs <= length (row_fields row))%nat ->
  (exists n, row_byte_size_loop row (Z.of_nat i) fs sz = Ok n) \/
  row_byte_size_loop row (Z.of_nat i) fs sz = Throw XDLError.
Proof.
  revert i sz; induction fs as [|f fs IH]; intros i sz Hl; cbn [row_byte_size_loop]; [eauto|].
  cbn [length] in Hl. destruct (lookup_lt_is_Some_2 (row_fields row) i) as [v Hv]; [lia|].
  rewrite (at_index _ _ _ Hv). cbn [mbind outcome_bind].
  destruct (field_byte_size_total v (fd_type f)) as [[n ->]| ->]; cbn [mbind outcome_bind]; [|eauto].
  replace (Z.of_nat i + 1) with (Z.of_nat (S i)) by lia. apply IH. lia.
Qed.

Lemma encode_values_bound fs vs :
  Forall2 value_ok fs vs -> zlen (encode_values vs) <= 65537 * zlen fs.
Proof.
  induction 1 as [|f v fs vs (Ht & Hw & Hs) Hf IH]; [done|].
  rewrite encode_values_cons, length_app. cbn [length]. rewrite Nat2Z.inj_add, length_encode_value.
  destruct v; lia.
Qed.

(** The size of a row of the right arity, or the rejection of the row. *)
Lemma row_byte_size_cases schema row :
  Forall value_wf (row_fields row) -> length (row_fields row) = length (fields schema) ->
  zlen (fields schema) <= 65534 ->
  (Forall2 value_ok (fields schema) (row_fields row) /\ zlen (encode_row row) < 2 ^ 32 /\
   row_byte_size row schema = Ok (zlen (encode_row row))) \/
  (~ Forall2 value_ok (fields schema) (row_fields row) /\ row_byte_size row schema = Throw XDLError).
Proof.
  intros Hw Hl Hn.
  destruct (decide (Forall2 value_ok (fields schema) (row_fields row))) as [Hf|Hf].
  - left. pose proof (encode_values_bound _ _ Hf). pose proof (length_encode_row row).
    assert (zlen (encode_row row) < 2 ^ 32) by lia. split_and!; [done..|]. by apply row_byte_size_ok.
  - right. split; [done|].
    destruct (row_byte_size_loop_cases row 0 (fields schema) (4 + 4)) as [[n Hok]|Ht]; [lia| |done].
    by apply row_byte_size_inv in Hok.
Qed.

Lemma append_row_throw schema r p :
  Forall value_wf (row_fields r) -> length (row_fields r) = length (fields schema) ->
  zlen (fields schema) <= 65534 -> 0 <= row_id r < 2 ^ 32 -> ~ row_ok schema r ->
  append_row r schema p = (Throw XDLError, p).
Proof.
  intros Hw Hl Hn Hid Hr. unfold append_row. rewrite (M_bind_ok get _ _ _ _ eq_refl). cbv zeta.
  destruct (row_byte_size_cases schema r Hw Hl Hn) as [(Hf & Hlt & Hs)|[_ Hs]].
  - rewrite (M_bind_ok (lift _) _ _ (zlen (encode_row r)) p) by (unfold lift; by rewrite Hs).
    destruct (decide (zlen (encode_row r) <= PAGE_SIZE)); [by destruct Hr|]. by bd.
  - unfold lift, mbind, M_bind. by rewrite Hs.
Qed.

(** *** Rows of another arity *)

Lemma at_take {A} n (l : list A) (i : nat) : (i < n)%nat -> at_ (take n l) (Z.of_nat i) = at_ l (Z.of_nat i).
Proof. intros Hi. unfold at_. by rewrite Nat2Z.id, lookup_take_lt by lia. Qed.

(** The loops look at no field behind those of the schema. *)
Lemma row_byte_size_loop_take row n i fs sz :
  (i + length fs <= n)%nat ->
  row_byte_size_loop (mkRow (row_id row) (take n (row_fields row))) (Z.of_nat i) fs sz = row_byte_size_loop row (Z.of_nat i) fs sz.
Proof.
  revert i sz. induction fs as [|f fs IH]; intros i sz Hi; [done|]. cbn [row_byte_size_loop row_fields length] in *.
  rewrite at_take by lia. replace (Z.of_nat i + 1) with (Z.of_nat (S i)) by lia.
  destruct (at_ (row_fields row) (Z.of_nat i)) as [v|e|]; [|done..]. cbn [mbind outcome_bind].
  destruct (field_byte_size v (fd_type f)) as [k|e|]; [|done..]. cbn [mbind outcome_bind]. apply IH. lia.
Qed.

Lemma append_fields_take row n i fs dst m :
  (i + length fs <= n)%nat ->
  append_fields (mkRow (row_id row) (take n (row_fields row))) (Z.of_nat i) fs dst m = append_fields row (Z.of_nat i) fs dst m.
Proof.
  revert i dst m. induction fs as [|f fs IH]; intros i dst m Hi; [done|]. cbn [append_fields row_fields length] in *.
  rewrite at_take by lia. replace (Z.of_nat i + 1) with (Z.of_nat (S i)) by lia. unfold mbind, M_bind.
  destruct (lift _ m) as [[v|e|] m1]; [|done..]. destruct (append_field (fd_type f) v dst m1) as [[d|e|] m2]; [|done..].
  apply IH. lia.
Qed.

Lemma append_row_stored schema r p : append_row r schema p = append_row (row_stored schema r) schema p.
Proof.
  unfold append_row. apply bind_pointwise; [done|]. intros p0 p1 _. cbv zeta.
  apply bind_pointwise; [unfold lift; f_equal; symmetry; apply (row_byte_size_loop_take r _ 0); lia|].
  intros total p2 _. case_bool_decide; [done|]. apply bind_pointwise; [done|]. intros _ p3 _. apply bind_pointwise; [|done].
  apply zoom_pointwise. apply bind_pointwise; [done|]. intros _ m1 _. apply bind_pointwise; [done|]. intros _ m2 _.
  symmetry. apply (append_fields_take r _ 0). lia.
Qed.

(** A row with too few fields: the first field that is missing or wrong decides. *)
Lemma row_byte_size_short row i fs sz :
  Forall value_wf (row_fields row) -> (length (drop i (row_fields row)) < length fs)%nat ->
  row_byte_size_loop row (Z.of_nat i) fs sz =
  Throw (if bool_decide (Forall2 value_ok (take (length (drop i (row_fields row))) fs) (drop i (row_fields row))) then OutOfRange else XDLError).
Proof.
  intros Hw. revert i sz. induction fs as [|f fs IH]; intros i sz Hl; [cbn in Hl; lia|]. cbn [row_byte_size_loop].
  destruct (row_fields row !! i) as [v|] eqn:Hv.
  - rewrite (at_index _ _ _ Hv), (drop_S _ _ _ Hv) in *. cbn [mbind outcome_bind length take] in *.
    replace (Z.of_nat i + 1) with (Z.of_nat (S i)) by lia. pose proof (proj1 (Forall_lookup _ _) Hw i v Hv) as Hwv.
    destruct (field_byte_size v (fd_type f)) as [k|e|] eqn:Hk; cbn [mbind outcome_bind].
    + rewrite IH by lia. f_equal. apply field_byte_size_inv in Hk as [Hok _]; [|done].
      rewrite (bool_decide_ext (Forall2 value_ok (f :: _) _) (Forall2 value_ok (take (length (drop (S i) (row_fields row))) fs) (drop (S i) (row_fields row)))); [done|].
      rewrite Forall2_cons. tauto.
    + destruct (field_byte_size_total v (fd_type f)) as [[n Hn]|Hn]; [congruence|]. rewrite bool_decide_eq_false_2; [congruence|].
      intros [Hok _]%Forall2_cons. by rewrite (field_byte_size_ok f v Hok) in Hk.
    + by destruct (field_byte_size_total v (fd_type f)) as [[n Hn]|Hn]; congruence.
  - assert (Hd : drop i (row_fields row) = []) by (apply drop_ge; by apply lookup_ge_None in Hv). rewrite Hd. cbn [length take].
    rewrite bool_decide_eq_true_2 by constructor. unfold at_. by rewrite bool_decide_eq_true_2, Nat2Z.id, Hv by lia.
Qed.

(** ** Properties *)

(** A concrete schema, rows and page for the witnesses. *)
Definition demo_schema : Schema :=
  schema_of [mkFieldDef (str "age") UINT32; mkFieldDef (str "name") STRING;
             mkFieldDef (str "score") FLOAT32; mkFieldDef (str "active") BOOL;
             mkFieldDef (str "big") INT64].

Definition demo_row (id age : Z) : Row :=
  mkRow id [VUint32 age; VString (str "alice"); VFloat 0x4048F5C3; VBool true; VInt64 (-7)].

Definition demo_page : Page :=
  (append_row (demo_row 2 30) demo_schema (append_row (demo_row 1 25) demo_schema (new_Page 3)).2).2.

Lemma demo_page_rep : page_rep demo_schema [demo_row 1 25; demo_row 2 30] demo_page.
Proof.
  split; [vm_compute; reflexivity..| |vm_compute; reflexivity].
  vm_decide.
Qed.

(** C28: [Page::append_row] is total.  It stores the fields that the schema has: when they
    are typed as declared, strings fit the 16-bit length and the size fits a page, the
    row is appended after the rows already there (its bytes, offset and count), and
    fields behind those of the schema are not stored.  Otherwise it throws and leaves the
    page unchanged: [XDLError], but [std::out_of_range] when the row has too few fields
    and those it has are good. *)
Theorem append_row_total schema rows p r :
  page_rep schema rows p ->
  Forall value_wf (row_fields r) -> zlen (fields schema) <= 65534 -> 0 <= row_id r < 2 ^ 32 ->
  zlen (p_data p) + PAGE_SIZE < 2 ^ 31 ->
  if bool_decide (row_ok schema (row_stored schema r))
  then exists p', append_row r schema p = (Ok tt, p') /\ page_rep schema (rows ++ [row_stored schema r]) p' /\
                  p_id p' = p_id p /\ p_dirty p' = true
  else append_row r schema p =
         (Throw (if bool_decide (length (row_fields r) < length (fields schema))%nat &&
                    bool_decide (Forall2 value_ok (take (length (row_fields r)) (fields schema)) (row_fields r))
                 then OutOfRange else XDLError), p).
Proof.
  intros Hp Hw Hn Hid Hsz. case_bool_decide as Hr.
  - pose proof (proj2 (proj2 Hr)) as Hlen. rewrite append_row_stored. eexists. split.
    + apply append_row_run; [done|lia].
    + split; [|done]. apply page_rep_snoc; [done..|lia].
  - case_bool_decide as Hl; cbn [andb].
    + pose proof (row_byte_size_short r 0 (fields schema) (4 + 4) Hw) as Hs. rewrite drop_0 in Hs. specialize (Hs Hl).
      unfold append_row. rewrite (M_bind_ok get _ _ _ _ eq_refl). apply M_bind_throw. unfold lift. by rewrite (Hs : row_byte_size r schema = _).
    + rewrite append_row_stored. apply append_row_throw; [by apply Forall_take| |done..]. cbn. rewrite length_take. lia.
Qed.

Lemma append_row_total_witness :
  exists p', append_row (demo_row 9 1) demo_schema demo_page = (Ok tt, p') /\
    page_rep demo_schema ([demo_row 1 25; demo_row 2 30] ++ [demo_row 9 1]) p' /\
    p_id p' = p_id demo_page /\ p_dirty p' = true.
Proof.
  pose proof (append_row_total demo_schema _ demo_page (demo_row 9 1) demo_page_rep) as H.
  rewrite bool_decide_eq_true_2 in H by vm_decide.
  apply H; vm_decide.
Defined.

(** [Page::erase_row] removes exactly the row of the slot, keeps the order
    of the others, and leaves every remaining row readable at its new slot; out
    of range it throws and changes nothing. *)
Theorem erase_row_total schema rows p (i : nat) :
  page_rep schema rows p ->
  if bool_decide (i < length rows)%nat
  then exists p', erase_row (Z.of_nat i) p = (Ok tt, p') /\
         page_rep schema (delete i rows) p' /\
         (forall j r, delete i rows !! j = Some r -> get_row p' (Z.of_nat j) schema = Ok r)
  else erase_row (Z.of_nat i) p = (Throw XDLError, p).
Proof.
  intros Hp. case_bool_decide as Hi.
  - destruct (lookup_lt_is_Some_2 rows i Hi) as [r Hr]. eexists. split; [by eapply erase_row_run|].
    assert (Hrep : page_rep schema (delete i rows)
      (mkPage (p_id p) (encode_rows (delete i rows)) (zlen (delete i rows)) true
         (offsets_from 0 (delete i rows)))).
    { split; try done; cbn [p_data].
      - rewrite delete_take_drop, Forall_app. split; [apply Forall_take|apply Forall_drop]; apply Hp.
      - pose proof (rep_size _ _ _ Hp) as Hsz. rewrite (rep_data _ _ _ Hp) in Hsz.
        rewrite (encode_rows_lookup _ _ _ Hr), !length_app in Hsz.
        rewrite delete_take_drop, encode_rows_app, length_app. lia. }
    split; [done|]. intros j r' Hj. by eapply get_row_rep.
  - unfold erase_row. rewrite (M_bind_ok get _ _ _ _ eq_refl), (rep_count _ _ _ Hp). by bd.
Qed.

Lemma erase_row_total_witness :
  exists p', erase_row 0 demo_page = (Ok tt, p') /\ page_rep demo_schema [demo_row 2 30] p' /\
    (forall j r, [demo_row 2 30] !! j = Some r -> get_row p' (Z.of_nat j) demo_schema = Ok r).
Proof. exact (erase_row_total demo_schema _ demo_page 0 demo_page_rep). Defined.

(** Lookups in a page.  [find_row] returns the first slot holding the id
    and -1 when no row has it; at a found slot, [row_id_at], [row_data_copy],
    [row_data_len] and [get_row] agree with the stored row. *)
Theorem page_lookup schema rows p id :
  page_rep schema rows p ->
  match list_find (fun r => row_id r = id) rows with
  | Some (i, r) =>
      find_row p id = Ok (Z.of_nat i) /\ row_id_at p (Z.of_nat i) = Ok id /\
      row_data_copy p (Z.of_nat i) = Ok (encode_row r) /\
      row_data_len p (Z.of_nat i) = Ok (zlen (encode_row r)) /\
      get_row p (Z.of_nat i) schema = Ok r
  | None => find_row p id = Ok (-1) /\ Forall (fun r => row_id r <> id) rows
  end.
Proof.
  intros Hp. pose proof (find_row_rep schema rows p id Hp) as Hf.
  destruct (list_find _ rows) as [[i r]|] eqn:E.
  - apply list_find_Some in E as (Hi & <- & _). split_and!; [done|..].
    + by eapply row_id_at_rep.
    + by eapply row_data_copy_rep.
    + by eapply row_data_len_rep.
    + by eapply get_row_rep.
  - split; [done|]. by apply list_find_None in E.
Qed.

Lemma page_lookup_witness :
  find_row demo_page 2 = Ok 1 /\ row_id_at demo_page 1 = Ok 2 /\
  row_data_copy demo_page 1 = Ok (encode_row (demo_row 2 30)) /\
  row_data_len demo_page 1 = Ok (zlen (encode_row (demo_row 2 30))) /\
  get_row demo_page 1 demo_schema = Ok (demo_row 2 30).
Proof. exact (page_lookup demo_schema _ demo_page 2 demo_page_rep). Defined.

(** The offset table is redundant: a page loaded from disk, with the same
    bytes and row count and any offsets, gets the original table back. *)
Theorem rebuild_row_offsets_restores schema rows p stale :
  page_rep schema rows p ->
  rebuild_row_offsets (set_row_offsets stale p) = (Ok tt, p).
Proof.
  intros Hp. destruct Hp as [Hd Ho Hc Hr Hs].
  rewrite (rebuild_row_offsets_run schema rows); [|done..].
  rewrite <- Ho. by destruct p.
Qed.

Lemma rebuild_row_offsets_restores_witness :
  rebuild_row_offsets (set_row_offsets [5; 77] demo_page) = (Ok tt, demo_page).
Proof. exact (rebuild_row_offsets_restores demo_schema _ demo_page [5; 77] demo_page_rep). Defined.

(** The guard [pos + 4 > data.size()] of [rebuild_row_offsets] is computed in
    32 bits.  On a page whose first length word is at least [2^32 - 4] it wraps
    around, so the next length word is read far outside the buffer instead of
    raising [CorruptionError]. *)
Theorem rebuild_row_offsets_wraps p rest len :
  2 ^ 32 - 4 <= len < 2 ^ 32 -> 2 <= p_row_count p ->
  p_data p = le_bytes 4 len ++ rest -> zlen (p_data p) < 2 ^ 31 ->
  (rebuild_row_offsets p).1 = UB.
Proof.
  intros Hlen Hc Hd Hsz. unfold rebuild_row_offsets.
  rewrite (M_bind_ok (modify _) _ _ _ _ eq_refl), (M_bind_ok get _ _ _ _ eq_refl).
  cbn [p_row_count set_row_offsets].
  destruct (Z.to_nat (p_row_count p)) as [|[|k]] eqn:Hk; [lia..|]. cbn [rebuild_loop].
  rewrite (M_bind_ok get _ _ _ _ eq_refl). cbn [p_data set_row_offsets].
  rewrite Hd in Hsz. rewrite length_app, length_le_bytes in Hsz.
  change (u32 (0 + 4)) with 4.
  rewrite bool_decide_eq_false_2 by (rewrite Hd, length_app, length_le_bytes; lia).
  rewrite (M_bind_ok (modify _) _ _ _ _ eq_refl).
  rewrite (M_bind_ok (lift _) _ _ len (set_row_offsets ([] ++ [0]) p)).
  2: { unfold lift. cbn [p_data set_row_offsets]. rewrite Hd, read_u32_le. f_equal.
       apply (read_le_bytes_mid 4 4 [] rest len 0); [done..|]. change (256 ^ Z.of_nat 4) with (2 ^ 32). lia. }
  rewrite (M_bind_ok get _ _ _ _ eq_refl). cbn [p_data set_row_offsets].
  assert (H1 : u32 (0 + len) = len) by (apply Z.mod_small; lia). rewrite H1.
  assert (H2 : u32 (len + 4) = len + 4 - 2 ^ 32).
  { unfold u32. rewrite <- (Z.mod_small (len + 4 - 2 ^ 32) (2 ^ 32)) by lia.
    rewrite <- (Z.mod_add (len + 4 - 2 ^ 32) 1) by lia. f_equal. lia. }
  rewrite H2, bool_decide_eq_false_2 by (rewrite Hd, length_app, length_le_bytes; lia).
  rewrite (M_bind_ok (modify _) _ _ _ _ eq_refl). unfold mbind, M_bind, lift.
  cbn [p_data set_row_offsets]. rewrite read_u32_le. unfold read_le.
  rewrite load_ub; [done|]. rewrite Hd, length_app, length_le_bytes. lia.
Qed.

Lemma rebuild_row_offsets_wraps_witness :
  (rebuild_row_offsets (mkPage 0 (le_bytes 4 0xFFFFFFFF ++ [x00; x00]) 2 false [])).1 = UB.
Proof.
  apply (rebuild_row_offsets_wraps _ [x00; x00] 0xFFFFFFFF); [lia|simpl; lia|reflexivity|simpl; lia].
Defined.
