(* ===== verification/Float.v ===== *)
(** [float] values as their IEEE 754 bit patterns: the value a pattern denotes
    and the C++ comparisons on it, and the sign-magnitude integer that orders
    the values that are not NaN. *)
From Stdlib Require Import SpecFloat.
From S2P Require Import Prelude.

(** ** Definitions *)

(** The value of a magnitude (the low 31 bits) with a sign. *)
Definition f32_of_mag (s : bool) (mag : Z) : spec_float :=
  let e := mag / 2 ^ 23 in
  let m := mag mod 2 ^ 23 in
  if bool_decide (e = 255) then
    if bool_decide (m = 0) then S754_infinity s else S754_nan
  else if bool_decide (e = 0) then
    match m with Zpos p => S754_finite s p (-149) | _ => S754_zero s end
  else
    match m + 2 ^ 23 with Zpos p => S754_finite s p (e - 150) | _ => S754_nan end.

Definition f32_neg (b : Z) : bool := bool_decide (2 ^ 31 <= b).
Definition f32_mag (b : Z) : Z := b mod 2 ^ 31.
Definition f32_of_bits (b : Z) : spec_float := f32_of_mag (f32_neg b) (f32_mag b).

(** [a < b], [a == b] and [a <= b] on [float]: false when one is NaN. *)
Definition f32_lt (a b : Z) : bool := SFltb (f32_of_bits a) (f32_of_bits b).
Definition f32_eq (a b : Z) : bool := SFeqb (f32_of_bits a) (f32_of_bits b).
Definition f32_le (a b : Z) : bool := SFleb (f32_of_bits a) (f32_of_bits b).

Definition f32_is_nan (b : Z) : bool := bool_decide (255 * 2 ^ 23 < f32_mag b).

(** Sign and magnitude as one integer: both zeros are 0. *)
Definition f32_key (b : Z) : Z := if f32_neg b then - f32_mag b else f32_mag b.

(** ** Lemmas *)

(** The three shapes of a magnitude that is not a NaN. *)
Lemma f32_of_mag_zero s : f32_of_mag s 0 = S754_zero s.
Proof. done. Qed.

Lemma f32_of_mag_inf s : f32_of_mag s (255 * 2 ^ 23) = S754_infinity s.
Proof. done. Qed.

Lemma f32_of_mag_finite s mag :
  0 < mag < 255 * 2 ^ 23 ->
  exists p e, f32_of_mag s mag = S754_finite s p e /\
    ((e = -149 /\ Zpos p = mag /\ mag < 2 ^ 23) \/
     (-149 <= e /\ mag = (e + 150) * 2 ^ 23 + (Zpos p - 2 ^ 23) /\ 2 ^ 23 <= Zpos p < 2 ^ 24)).
Proof.
  intros H. unfold f32_of_mag.
  pose proof (Z.div_mod mag (2 ^ 23) ltac:(lia)) as Hdm.
  pose proof (Z.mod_pos_bound mag (2 ^ 23) ltac:(lia)) as Hm.
  rewrite bool_decide_eq_false_2 by lia. case_bool_decide as He.
  - destruct (mag mod 2 ^ 23) as [|p|p] eqn:E; [lia| |lia]. exists p, (-149). split; [done|]. lia.
  - destruct (mag mod 2 ^ 23 + 2 ^ 23) as [|p|p] eqn:E; [lia| |lia].
    exists p, (mag / 2 ^ 23 - 150). split; [done|]. lia.
Qed.

Lemma pos_compare_cont p q : Pos.compare_cont Eq p q = (Zpos p ?= Zpos q).
Proof. done. Qed.

Definition mag_compare (s1 : bool) (m1 : Z) (s2 : bool) (m2 : Z) : comparison :=
  (if s1 then - m1 else m1) ?= (if s2 then - m2 else m2).

Ltac cmp_solve :=
  match goal with
  | |- Some ?c = Some (?a ?= ?b) => f_equal
  | |- ?c = (?a ?= ?b) => idtac
  end;
  symmetry;
  first [ apply Z.compare_lt_iff; lia | apply Z.compare_gt_iff; lia | apply Z.compare_eq_iff; lia ].

Lemma SFcompare_mag s1 m1 s2 m2 :
  0 <= m1 <= 255 * 2 ^ 23 -> 0 <= m2 <= 255 * 2 ^ 23 ->
  SFcompare (f32_of_mag s1 m1) (f32_of_mag s2 m2) = Some (mag_compare s1 m1 s2 m2).
Proof.
  intros H1 H2. unfold mag_compare.
  assert (C1 : m1 = 0 \/ m1 = 255 * 2 ^ 23 \/ 0 < m1 < 255 * 2 ^ 23) by lia.
  assert (C2 : m2 = 0 \/ m2 = 255 * 2 ^ 23 \/ 0 < m2 < 255 * 2 ^ 23) by lia.
  destruct C1 as [-> | [-> | C1]]; [| |destruct (f32_of_mag_finite s1 m1 C1) as (p1 & e1 & -> & S1)];
  (destruct C2 as [-> | [-> | C2]]; [| |destruct (f32_of_mag_finite s2 m2 C2) as (p2 & e2 & -> & S2)]);
  rewrite ?f32_of_mag_zero, ?f32_of_mag_inf; destruct s1, s2; cbn [SFcompare];
  try (cmp_solve; fail).
  all: f_equal; rewrite pos_compare_cont; destruct (Z.compare_spec e1 e2) as [He|He|He];
    try (cmp_solve; fail).
  all: destruct (Z.compare_spec (Zpos p1) (Zpos p2)) as [Hp|Hp|Hp]; cbn [CompOpp]; cmp_solve.
Qed.

Lemma f32_mag_range b : 0 <= b < 2 ^ 32 -> 0 <= f32_mag b < 2 ^ 31.
Proof. intros. apply Z.mod_pos_bound. lia. Qed.

(** On values that are not NaN the IEEE comparison is the comparison of the
    sign-magnitude keys. *)
Lemma f32_compare a b :
  0 <= a < 2 ^ 32 -> 0 <= b < 2 ^ 32 -> f32_is_nan a = false -> f32_is_nan b = false ->
  SFcompare (f32_of_bits a) (f32_of_bits b) = Some (f32_key a ?= f32_key b).
Proof.
  unfold f32_is_nan. intros Ha Hb Na%bool_decide_eq_false Nb%bool_decide_eq_false.
  pose proof (f32_mag_range a Ha); pose proof (f32_mag_range b Hb).
  unfold f32_of_bits. by rewrite SFcompare_mag by lia.
Qed.

Section order.
Context (a b : Z) (Ha : 0 <= a < 2 ^ 32) (Hb : 0 <= b < 2 ^ 32)
  (Na : f32_is_nan a = false) (Nb : f32_is_nan b = false).

Lemma f32_lt_key : f32_lt a b = bool_decide (f32_key a < f32_key b).
Proof.
  unfold f32_lt, SFltb. rewrite f32_compare by done.
  destruct (Z.compare_spec (f32_key a) (f32_key b)); symmetry; first [apply bool_decide_eq_true_2; lia | apply bool_decide_eq_false_2; lia].
Qed.

Lemma f32_le_key : f32_le a b = bool_decide (f32_key a <= f32_key b).
Proof.
  unfold f32_le, SFleb. rewrite f32_compare by done.
  destruct (Z.compare_spec (f32_key a) (f32_key b)); symmetry; first [apply bool_decide_eq_true_2; lia | apply bool_decide_eq_false_2; lia].
Qed.

Lemma f32_eq_key : f32_eq a b = bool_decide (f32_key a = f32_key b).
Proof.
  unfold f32_eq, SFeqb. rewrite f32_compare by done.
  destruct (Z.compare_spec (f32_key a) (f32_key b)); symmetry; first [apply bool_decide_eq_true_2; lia | apply bool_decide_eq_false_2; lia].
Qed.
End order.
