(* ===== verification/Std.v ===== *)
(** The standard-library algorithms the engine calls: [std::lower_bound] as the
    binary search it is, [std::find], [std::remove], [std::merge], [memcmp].
    The lemmas give their contracts. *)
From S2P Require Import Prelude.

(** ** Definitions *)

Section lower_bound.
Context {A : Type}.

(** The loop of [std::lower_bound]: the answer is in [first, first + len].  Every
    round at least halves [len], so [len] rounds are enough. *)
Fixpoint lower_bound_loop (fuel : nat) (lt : A -> bool) (l : list A) (first len : nat) : nat :=
  match fuel with
  | O => first
  | S fuel =>
      if bool_decide (len = 0%nat) then first else
      let half := (len / 2)%nat in
      match l !! (first + half)%nat with
      | Some x =>
          if lt x then lower_bound_loop fuel lt l (first + half + 1) (len - half - 1)
          else lower_bound_loop fuel lt l first half
      | None => first
      end
  end.

Definition lower_bound (lt : A -> bool) (l : list A) : nat :=
  lower_bound_loop (length l) lt l 0 (length l).

(** [v.insert(v.begin() + i, x)] *)
Definition vec_insert (i : nat) (x : A) (l : list A) : list A := take i l ++ x :: drop i l.
End lower_bound.

(** [std::merge] of two ranges, the first range first among equivalent
    elements. *)
Fixpoint std_merge {A} (lt : A -> A -> bool) (l1 : list A) : list A -> list A :=
  fix go l2 :=
    match l1, l2 with
    | [], _ => l2
    | _, [] => l1
    | x :: l1', y :: l2' => if lt y x then y :: go l2' else x :: std_merge lt l1' l2
    end.

(** [std::find(v.begin(), v.end(), x) != v.end()] *)
Definition vec_contains (x : Z) (l : list Z) : bool := existsb (Z.eqb x) l.

(** [v.erase(std::remove(v.begin(), v.end(), x), v.end())] *)
Definition vec_remove (x : Z) (l : list Z) : list Z := filter (fun y => y <> x) l.

(** The sign of [memcmp(a, b, n)]: bytes compare as unsigned. *)
Fixpoint memcmp (a b : bytes) (n : nat) : Z :=
  match n, a, b with
  | S n, x :: a, y :: b =>
      if bool_decide (byte_Z x < byte_Z y) then -1
      else if bool_decide (byte_Z x > byte_Z y) then 1
      else memcmp a b n
  | _, _, _ => 0
  end.

(** ** Vectors sorted by a key, and the finite map they stand for *)

(** Both indexes of the engine keep a vector sorted by a key and search it with
    [std::lower_bound]. *)
Section sorted_vector.
Context {A K V : Type} (key : A -> K) (val : A -> V) (R : K -> K -> Prop).
Context `{Countable K}.

Definition keys_below (k : K) (l : list A) : Prop := Forall (fun e => R (key e) k) l.
Definition keys_above (k : K) (l : list A) : Prop := Forall (fun e => R k (key e)) l.

Definition sv_sorted (l : list A) : Prop := StronglySorted R (key <$> l).

(** The map from keys to values. *)
Definition sv_map (l : list A) : gmap K V := list_to_map ((fun e => (key e, val e)) <$> l).

(** Where a search for [k], which lands at index [n], splits a sorted vector. *)
Inductive sv_view (l : list A) (k : K) (n : nat) : Prop :=
| view_found l1 e l2 :
    l = l1 ++ e :: l2 -> key e = k -> keys_below k l1 -> keys_above k l2 ->
    n = length l1 -> sv_view l k n
| view_absent l1 l2 :
    l = l1 ++ l2 -> keys_below k l1 -> keys_above k l2 -> n = length l1 -> sv_view l k n.
End sorted_vector.

(** ** Lemmas *)

Section lower_bound_lemmas.
Context {A : Type}.
Implicit Types (l : list A) (lt : A -> bool).

(** [k] splits the list into elements that satisfy [lt] and elements that do
    not. *)
Definition partition_point lt l (k : nat) : Prop :=
  (k <= length l)%nat /\
  (forall i x, l !! i = Some x -> (i < k)%nat -> lt x = true) /\
  (forall i x, l !! i = Some x -> (k <= i)%nat -> lt x = false).

Lemma lower_bound_loop_spec fuel lt l k first len :
  partition_point lt l k -> (len <= fuel)%nat -> (first <= k <= first + len)%nat ->
  (first + len <= length l)%nat -> lower_bound_loop fuel lt l first len = k.
Proof.
  intros (Hk & Hlo & Hhi). revert first len; induction fuel as [|fuel IH]; intros first len Hf Hb Hl.
  - simpl. lia.
  - cbn [lower_bound_loop]. case_bool_decide as Hlen; [lia|].
    pose proof (Nat.div_lt len 2 ltac:(lia) ltac:(lia)) as Hhalf.
    destruct (lookup_lt_is_Some_2 l (first + len / 2)) as [x Hx]; [lia|]. rewrite Hx.
    destruct (lt x) eqn:E.
    + apply IH; try lia. destruct (decide (k <= first + len / 2)%nat); [|lia].
      rewrite (Hhi _ _ Hx) in E by done. done.
    + apply IH; try lia. destruct (decide (first + len / 2 < k)%nat); [|lia].
      rewrite (Hlo _ _ Hx) in E by done. done.
Qed.

Lemma lower_bound_spec lt l k : partition_point lt l k -> lower_bound lt l = k.
Proof.
  intros Hp. pose proof Hp as [Hk _]. unfold lower_bound. eapply lower_bound_loop_spec; [done|lia..].
Qed.

(** The split as an append. *)
Lemma partition_point_app lt l1 l2 :
  Forall (fun x => lt x = true) l1 -> Forall (fun x => lt x = false) l2 ->
  partition_point lt (l1 ++ l2) (length l1).
Proof.
  intros H1 H2. split_and!; [rewrite length_app; lia|..]; intros i x Hi Hlt.
  - rewrite lookup_app_l in Hi by done. by eapply Forall_lookup_1 in H1.
  - rewrite lookup_app_r in Hi by done. by eapply Forall_lookup_1 in H2.
Qed.

Lemma lower_bound_app lt l1 l2 :
  Forall (fun x => lt x = true) l1 -> Forall (fun x => lt x = false) l2 ->
  lower_bound lt (l1 ++ l2) = length l1.
Proof. intros. by apply lower_bound_spec, partition_point_app. Qed.

Lemma vec_insert_app x l1 l2 : vec_insert (length l1) x (l1 ++ l2) = l1 ++ x :: l2.
Proof. unfold vec_insert. by rewrite take_app_length, drop_app_length. Qed.
End lower_bound_lemmas.

Lemma vec_contains_spec x l : vec_contains x l = bool_decide (x ∈ l).
Proof.
  unfold vec_contains. apply Bool.eq_iff_eq_true. rewrite existsb_exists, bool_decide_eq_true. split.
  - intros (y & Hy & ->%Z.eqb_eq). by apply list_elem_of_In.
  - intros H%list_elem_of_In. exists x. by rewrite Z.eqb_refl.
Qed.

Section merge.
Context {A : Type} (lt : A -> A -> bool).

Lemma std_merge_nil_l l : std_merge lt [] l = l.
Proof. by destruct l. Qed.
Lemma std_merge_nil_r l : std_merge lt l [] = l.
Proof. by destruct l. Qed.
Lemma std_merge_cons x l1 y l2 :
  std_merge lt (x :: l1) (y :: l2) =
  if lt y x then y :: std_merge lt (x :: l1) l2 else x :: std_merge lt l1 (y :: l2).
Proof. done. Qed.

Lemma std_merge_perm l1 l2 : std_merge lt l1 l2 ≡ₚ l1 ++ l2.
Proof.
  revert l2; induction l1 as [|x l1 IH]; intros l2; [by rewrite std_merge_nil_l|].
  induction l2 as [|y l2 IH2]; [by rewrite std_merge_nil_r, app_nil_r|].
  rewrite std_merge_cons. destruct (lt y x).
  - rewrite IH2. by rewrite (Permutation_middle (x :: l1) l2 y).
  - by rewrite IH.
Qed.
End merge.

Section sorted_vector_lemmas.
Context {A K V : Type} (key : A -> K) (val : A -> V) (R : K -> K -> Prop).
Context `{Countable K} `{!Transitive R} `{!Irreflexive R}.
Context (Rtot : forall a b, R a b \/ a = b \/ R b a).
Implicit Types (l : list A) (e : A) (k : K).

Local Abbreviation keys_below := (keys_below key R).
Local Abbreviation keys_above := (keys_above key R).
Local Abbreviation sv_sorted := (sv_sorted key R).
Local Abbreviation sv_map := (sv_map key val).

Lemma sv_sorted_cons e l : sv_sorted (e :: l) <-> sv_sorted l /\ keys_above (key e) l.
Proof.
  unfold Std.sv_sorted. rewrite fmap_cons. split.
  - intros [? Hf]%StronglySorted_inv. by rewrite Forall_fmap in Hf.
  - intros [? ?]. constructor; [done|]. by rewrite Forall_fmap.
Qed.

Lemma keys_below_irrefl k l : keys_below k l -> Forall (fun e => key e <> k) l.
Proof. intros Hf. eapply Forall_impl; [exact Hf|]. intros e He <-. by apply (irreflexivity R (key e)). Qed.

Lemma keys_above_irrefl k l : keys_above k l -> Forall (fun e => key e <> k) l.
Proof. intros Hf. eapply Forall_impl; [exact Hf|]. intros e He <-. by apply (irreflexivity R (key e)). Qed.

(** A vector sorted by key is split by any key; the search that tests
    [key e < k] finds the split. *)
Lemma sv_view_total (lt : K -> A -> bool) l k :
  (forall e, lt k e = true <-> R (key e) k) -> sv_sorted l ->
  sv_view key R l k (lower_bound (lt k) l).
Proof.
  intros Hlt Hs.
  assert (Hb : forall l, keys_below k l -> Forall (fun e => lt k e = true) l).
  { intros l' Hf. eapply Forall_impl; [exact Hf|]. intros e. apply Hlt. }
  assert (Ha : forall l, keys_above k l -> Forall (fun e => lt k e = false) l).
  { intros l' Hf. eapply Forall_impl; [exact Hf|]. intros e He. apply Bool.not_true_is_false.
    rewrite Hlt. intros He'. apply (irreflexivity R k). by trans (key e). }
  assert (Hsplit : exists l1 l2, l = l1 ++ l2 /\ keys_below k l1 /\
    match l2 with e :: l3 => ~ R (key e) k /\ keys_above (key e) l3 | [] => True end).
  { induction l as [|e l IH].
    - exists [], []. split_and!; [done|constructor|done].
    - apply sv_sorted_cons in Hs as [Hs Hf]. destruct (Rtot (key e) k) as [He|[He|He]].
      + destruct (IH Hs) as (l1 & l2 & -> & H1 & H2).
        exists (e :: l1), l2. split_and!; [done|by constructor|done].
      + exists [], (e :: l). split_and!; [done|constructor| |done]. rewrite He. apply irreflexivity, _.
      + exists [], (e :: l). split_and!; [done|constructor| |done].
        intros He'. apply (irreflexivity R k). by trans (key e). }
  destruct Hsplit as (l1 & l2 & -> & H1 & H2). destruct l2 as [|e l3].
  - eapply view_absent; [done|done|constructor|]. apply lower_bound_app; [auto|constructor].
  - destruct H2 as [He H3]. destruct (Rtot (key e) k) as [?|[Heq|Hgt]]; [done|..].
    + rewrite Heq in H3. eapply view_found; [done..|]. apply lower_bound_app; [auto|].
      constructor; [|auto]. apply Bool.not_true_is_false. by rewrite Hlt.
    + assert (keys_above k (e :: l3)).
      { constructor; [done|]. eapply Forall_impl; [exact H3|]. intros f Hf. by trans (key e). }
      eapply view_absent; [done..|]. apply lower_bound_app; auto.
Qed.

Lemma sv_map_app l1 l2 : sv_map (l1 ++ l2) = sv_map l1 ∪ sv_map l2.
Proof. unfold Std.sv_map. by rewrite fmap_app, list_to_map_app. Qed.

Lemma sv_map_cons e l : sv_map (e :: l) = <[key e := val e]> (sv_map l).
Proof. done. Qed.

Lemma sv_map_notin k l : Forall (fun e => key e <> k) l -> sv_map l !! k = None.
Proof. induction 1 as [|e l He Hf IH]; [apply lookup_empty|]. by rewrite sv_map_cons, lookup_insert_ne. Qed.

Lemma sv_map_middle l1 e l2 :
  Forall (fun f => key f <> key e) l1 -> sv_map (l1 ++ e :: l2) = <[key e := val e]> (sv_map (l1 ++ l2)).
Proof. intros Hn%sv_map_notin. rewrite !sv_map_app, sv_map_cons. by rewrite insert_union_r. Qed.

Lemma sv_map_middle_lookup l1 e l2 k :
  Forall (fun f => key f <> k) l1 -> key e = k -> sv_map (l1 ++ e :: l2) !! k = Some (val e).
Proof. intros Hn <-. by rewrite sv_map_middle, lookup_insert_eq. Qed.

Lemma sv_map_split_None l1 l2 k :
  Forall (fun f => key f <> k) l1 -> Forall (fun f => key f <> k) l2 -> sv_map (l1 ++ l2) !! k = None.
Proof. intros H1%sv_map_notin H2%sv_map_notin. rewrite sv_map_app. by apply lookup_union_None_2. Qed.

Lemma sv_map_delete l1 e l2 :
  Forall (fun f => key f <> key e) l1 -> Forall (fun f => key f <> key e) l2 ->
  sv_map (l1 ++ l2) = delete (key e) (sv_map (l1 ++ e :: l2)).
Proof.
  intros H1 H2. rewrite sv_map_middle, delete_insert_id; [done| |done]. by apply sv_map_split_None.
Qed.

(** Replacing the value of a key, when no other element has the key. *)
Lemma sv_map_replace l1 e e' l2 :
  Forall (fun f => key f <> key e) l1 -> key e' = key e ->
  sv_map (l1 ++ e' :: l2) = <[key e := val e']> (sv_map (l1 ++ e :: l2)).
Proof. intros H1 Heq. rewrite !sv_map_middle by (rewrite ?Heq; done). by rewrite Heq, insert_insert_eq. Qed.

Lemma sv_map_perm l1 l2 : NoDup (key <$> l1) -> l1 ≡ₚ l2 -> sv_map l1 = sv_map l2.
Proof.
  intros Hnd Hp. apply list_to_map_proper; [|by rewrite Hp].
  by rewrite <- list_fmap_compose.
Qed.

Lemma sv_map_elem l e : NoDup (key <$> l) -> e ∈ l -> sv_map l !! key e = Some (val e).
Proof.
  intros Hnd Hin. apply elem_of_list_to_map_1; [by rewrite <- list_fmap_compose|].
  apply list_elem_of_fmap. eauto.
Qed.

Lemma sv_map_Some l k v : sv_map l !! k = Some v -> exists e, e ∈ l /\ key e = k /\ val e = v.
Proof.
  intros Hl%elem_of_list_to_map_2. apply list_elem_of_fmap in Hl as (e & Heq & Hin). simplify_eq. eauto.
Qed.

Lemma sv_sorted_middle l1 e l2 :
  sv_sorted (l1 ++ e :: l2) <-> sv_sorted (l1 ++ l2) /\ keys_below (key e) l1 /\ keys_above (key e) l2.
Proof.
  clear val. unfold Std.keys_below.
  induction l1 as [|f l1 IH]; cbn [app]; rewrite !sv_sorted_cons.
  - rewrite Forall_nil. tauto.
  - rewrite IH. unfold Std.keys_above. rewrite !Forall_app, !Forall_cons. tauto.
Qed.

Lemma sv_sorted_filter l (P : A -> Prop) `{!forall e, Decision (P e)} :
  sv_sorted l -> sv_sorted (filter P l).
Proof.
  induction l as [|e l IH]; [done|]. intros [Hs Hf]%sv_sorted_cons.
  destruct (decide (P e)); [rewrite filter_cons_True by done|rewrite filter_cons_False by done; auto].
  apply sv_sorted_cons. split; [auto|]. apply Forall_forall. intros x [_ Hx]%list_elem_of_filter.
  unfold Std.keys_above in Hf. rewrite Forall_forall in Hf. by apply Hf.
Qed.

Lemma sv_sorted_NoDup l : sv_sorted l -> NoDup (key <$> l).
Proof.
  unfold Std.sv_sorted. induction 1 as [|k ks Hs IH Hf]; constructor; [|done].
  intros Hin. rewrite Forall_forall in Hf. by apply Hf, irreflexivity in Hin.
Qed.
End sorted_vector_lemmas.

Section at_split.
Context {A : Type}.
Implicit Types (l : list A).

Lemma lookup_split l1 x l2 n : n = length l1 -> (l1 ++ x :: l2) !! n = Some x.
Proof. intros ->. by apply list_lookup_middle. Qed.

Lemma insert_split l1 x y l2 n : n = length l1 -> <[n := y]> (l1 ++ x :: l2) = l1 ++ y :: l2.
Proof. intros ->. rewrite insert_app_r_alt, Nat.sub_diag by lia. done. Qed.

Lemma delete_split l1 x l2 n : n = length l1 -> delete n (l1 ++ x :: l2) = l1 ++ l2.
Proof. intros ->. apply delete_middle. Qed.

Lemma lookup_split_Forall (P : A -> Prop) l1 l2 n x :
  n = length l1 -> Forall P l2 -> (l1 ++ l2) !! n = Some x -> P x.
Proof.
  intros -> Hf Hx. rewrite lookup_app_r, Nat.sub_diag in Hx by lia. by eapply Forall_lookup_1 in Hf.
Qed.
End at_split.

(** The merge of two vectors sorted by key, with no key in common, is sorted. *)
Section merge_sorted.
Context {A K : Type} (key : A -> K) (R : K -> K -> Prop) `{!Transitive R}.
Context (Rtot : forall a b, R a b \/ a = b \/ R b a).
Context (lt : A -> A -> bool) (Hlt : forall a b, lt a b = true <-> R (key a) (key b)).

Lemma std_merge_sorted l1 l2 :
  sv_sorted key R l1 -> sv_sorted key R l2 -> (forall a b, a ∈ l1 -> b ∈ l2 -> key a <> key b) ->
  sv_sorted key R (std_merge lt l1 l2).
Proof.
  revert l2; induction l1 as [|x l1 IH]; intros l2 H1 H2 Hd; [by rewrite std_merge_nil_l|].
  induction l2 as [|y l2 IH2]; [by rewrite std_merge_nil_r|].
  pose proof H1 as [H1s H1a]%sv_sorted_cons. pose proof H2 as [H2s H2a]%sv_sorted_cons.
  assert (Htrans : forall a b l, R (key a) (key b) -> keys_above key R (key b) l -> keys_above key R (key a) l).
  { intros a b l Hab Hf. eapply Forall_impl; [exact Hf|]. intros c Hc. by trans (key b). }
  rewrite std_merge_cons. destruct (lt y x) eqn:E.
  - apply Hlt in E. apply sv_sorted_cons. split; [apply IH2; [done|]; set_solver|].
    unfold keys_above. rewrite std_merge_perm. apply Forall_app. split; [|done].
    constructor; [done|by eapply Htrans].
  - apply sv_sorted_cons. split; [apply IH; [done|done|]; set_solver|].
    assert (Hxy : R (key x) (key y)).
    { destruct (Rtot (key x) (key y)) as [?|[?|?%Hlt]]; [done| |congruence].
      destruct (Hd x y); [left|left|done]. }
    unfold keys_above. rewrite std_merge_perm. apply Forall_app. split; [done|].
    constructor; [done|by eapply Htrans].
Qed.

Lemma merge_sort_sorted (le : A -> A -> Prop) `{!RelDecision le, !Transitive le, !Total le} l :
  (forall a b, le a b -> R (key a) (key b) \/ key a = key b) ->
  NoDup (key <$> l) -> sv_sorted key R (merge_sort le l).
Proof.
  intros Hle Hnd. pose proof (StronglySorted_merge_sort le l) as Hs.
  rewrite <- (merge_sort_Permutation le l) in Hnd.
  induction Hs as [|x l' Hs IH Hf]; [constructor|].
  rewrite fmap_cons in Hnd. apply NoDup_cons in Hnd as [Hni Hnd].
  apply sv_sorted_cons. split; [auto|]. apply Forall_forall. intros y Hy.
  rewrite Forall_forall in Hf. destruct (Hle x y (Hf y Hy)) as [?|Heq]; [done|].
  destruct Hni. rewrite Heq. apply list_elem_of_fmap. eauto.
Qed.
End merge_sorted.
