(* ===== verification/BPTree.v ===== *)
(** The secondary index ([include/xdl/bptree.h], [src/bptree.cpp]): the
    order-preserving key encoding, the key order, and the sorted vector of
    entries with its binary-search operations.

    [BPTree] is refined by a finite map from encoded keys to the list of row
    ids, [bpt_map]; the visitor of [range_scan] is the sequence of the entries
    it is called on. *)
From S2P Require Import Prelude Types Float Std.

(** ** Definitions *)

(** [encode_int_be]: the loop writes the low byte of [val] at the last index
    and moves towards the first; [acc] is what is already written. *)
Fixpoint encode_int_be_loop (n : nat) (val : Z) (acc : bytes) : bytes :=
  match n with
  | O => acc
  | S n => encode_int_be_loop n (Z.shiftr val 8) (Z_byte (Z.land val 0xFF) :: acc)
  end.

Definition encode_int_be (size : nat) (val : Z) : bytes := encode_int_be_loop size val [].

(** [encode_signed_be]: flip the sign bit of the unsigned reinterpretation. *)
Definition encode_signed_be (size : nat) (val : Z) : bytes :=
  let bits := 8 * Z.of_nat size in
  let uval := val mod 2 ^ bits in
  encode_int_be size (Z.lxor uval (Z.shiftl 1 (bits - 1))).

Definition encode_float_ordered (bits : Z) : bytes :=
  encode_int_be 4
    (if bool_decide (Z.land bits 0x80000000 <> 0)
     then Z.lxor bits 0xFFFFFFFF else Z.lxor bits 0x80000000).

(** [struct KeyBuffer]: the 32-byte array and the length. *)
Record KeyBuffer := mkKeyBuffer { kb_buf : bytes; kb_len : Z }.

Definition kb_fill (k : bytes) (len : Z) : KeyBuffer :=
  mkKeyBuffer (k ++ replicate (32 - length k) x00) len.

Definition kb_lt (a b : KeyBuffer) : bool :=
  let min_len := Z.min (kb_len a) (kb_len b) in
  let cmp := memcmp (kb_buf a) (kb_buf b) (Z.to_nat min_len) in
  if bool_decide (cmp <> 0) then bool_decide (cmp < 0) else bool_decide (kb_len a < kb_len b).

Definition kb_eq (a b : KeyBuffer) : bool :=
  bool_decide (kb_len a = kb_len b) &&
  bool_decide (memcmp (kb_buf a) (kb_buf b) (Z.to_nat (kb_len a)) = 0).

(** [bptree_key_encode]: the fixed-size variant, strings cut at 32 bytes. *)
Definition bptree_key_encode (fv : FieldValue) (type : FieldType) : outcome KeyBuffer :=
  match type with
  | UINT32 => n ← get_u32 fv; Ok (kb_fill (encode_int_be 4 n) 4)
  | INT64 => n ← get_i64 fv; Ok (kb_fill (encode_signed_be 8 n) 8)
  | FLOAT32 => b ← get_f32 fv; Ok (kb_fill (encode_float_ordered b) 4)
  | BOOL => b ← get_b fv; Ok (kb_fill [Z_byte (Z.b2z b)] 1)
  | STRING =>
      s ← get_str fv;
      if bool_decide (zlen s <= 32) then Ok (kb_fill s (u8 (zlen s)))
      else Ok (kb_fill (take 32 s) 32)
  | UnknownType _ => Ok (kb_fill [] 0)
  end.

(** [bptree_key_encode_vec] *)
Definition bptree_key_encode_vec (fv : FieldValue) (type : FieldType) : outcome bytes :=
  match type with
  | UINT32 => n ← get_u32 fv; Ok (encode_int_be 4 n)
  | INT64 => n ← get_i64 fv; Ok (encode_signed_be 8 n)
  | FLOAT32 => b ← get_f32 fv; Ok (encode_float_ordered b)
  | BOOL => b ← get_b fv; Ok [Z_byte (Z.b2z b)]
  | STRING => s ← get_str fv; Ok s
  | UnknownType _ => Ok []
  end.

(** [bptree_key_compare] *)
Definition bptree_key_compare (a b : bytes) : Z :=
  let min_len := Nat.min (length a) (length b) in
  let cmp := if bool_decide (min_len = 0%nat) then 0 else memcmp a b min_len in
  if bool_decide (cmp <> 0) then cmp
  else if bool_decide (zlen a < zlen b) then -1
  else if bool_decide (zlen a > zlen b) then 1
  else 0.

Record Entry := mkEntry { key_data : bytes; ids : list Z }.
#[export] Instance Entry_eq_decision : EqDecision Entry.
Proof. solve_decision. Defined.

(** [BPTree::entries_] *)
Abbreviation BPTree := (list Entry).

(** The comparator of the two [lower_bound] members. *)
Definition entry_lt (key : bytes) (e : Entry) : bool :=
  bool_decide (bptree_key_compare (key_data e) key < 0).

Definition bpt_lower_bound (t : BPTree) (key : bytes) : nat := lower_bound (entry_lt key) t.

(** [BPTree::find_entry] *)
Definition find_entry (t : BPTree) (key : bytes) : option Entry :=
  match t !! bpt_lower_bound t key with
  | None => None
  | Some e => if bool_decide (bptree_key_compare (key_data e) key <> 0) then None else Some e
  end.

(** [BPTree::insert] *)
Definition bpt_insert (key : FieldValue) (key_type : FieldType) (row_id : Z) : M BPTree unit :=
  kb ← lift (bptree_key_encode_vec key key_type);
  t ← get;
  let it := bpt_lower_bound t kb in
  match t !! it with
  | Some e =>
      if bool_decide (bptree_key_compare (key_data e) kb = 0) then
        if vec_contains row_id (ids e) then mret tt
        else put (<[it := mkEntry (key_data e) (ids e ++ [row_id])]> t)
      else put (vec_insert it (mkEntry kb [row_id]) t)
  | None => put (vec_insert it (mkEntry kb [row_id]) t)
  end.

(** [BPTree::erase] *)
Definition bpt_erase (key : FieldValue) (key_type : FieldType) (row_id : Z) : M BPTree unit :=
  kb ← lift (bptree_key_encode_vec key key_type);
  t ← get;
  let it := bpt_lower_bound t kb in
  match t !! it with
  | None => mret tt
  | Some e =>
      if bool_decide (bptree_key_compare (key_data e) kb <> 0) then mret tt else
      let ids' := vec_remove row_id (ids e) in
      if bool_decide (ids' = []) then put (delete it t)
      else put (<[it := mkEntry (key_data e) ids']> t)
  end.

(** [BPTree::find] *)
Definition bpt_find (t : BPTree) (key : FieldValue) (key_type : FieldType) : outcome (option (list Z)) :=
  kb ← bptree_key_encode_vec key key_type;
  Ok (ids <$> find_entry t kb).

(** [if (lo) lo_kb = ...]: encode a bound that is present. *)
Definition encode_bound (o : option FieldValue) (t : FieldType) : outcome (option bytes) :=
  match o with
  | None => Ok None
  | Some v => k ← bptree_key_encode_vec v t; Ok (Some k)
  end.

(** The second loop of [range_scan], up to the upper bound. *)
Fixpoint scan_up_to (hi : option bytes) (hi_inclusive : bool) (t : list Entry) : list Entry :=
  match t with
  | [] => []
  | e :: t =>
      match hi with
      | None => e :: scan_up_to hi hi_inclusive t
      | Some hk =>
          let cmp := bptree_key_compare (key_data e) hk in
          if bool_decide (cmp > 0) then []
          else if bool_decide (cmp = 0) && negb hi_inclusive then []
          else e :: scan_up_to hi hi_inclusive t
      end
  end.

(** The position where the scan starts. *)
Definition scan_start (t : BPTree) (lo : option bytes) (lo_inclusive : bool) : nat :=
  match lo with
  | None => 0%nat
  | Some lk =>
      let it := bpt_lower_bound t lk in
      match t !! it with
      | Some e =>
          if negb lo_inclusive && bool_decide (bptree_key_compare (key_data e) lk = 0)
          then S it else it
      | None => it
      end
  end.

(** [BPTree::range_scan]: the entries visited, in order. *)
Definition range_scan (t : BPTree) (lo : option FieldValue) (lo_type : FieldType) (lo_inclusive : bool)
    (hi : option FieldValue) (hi_type : FieldType) (hi_inclusive : bool) : outcome (list Entry) :=
  lo_kb ← encode_bound lo lo_type;
  hi_kb ← encode_bound hi hi_type;
  Ok (scan_up_to hi_kb hi_inclusive (drop (scan_start t lo_kb lo_inclusive) t)).

(** [empty()] and [size()] *)
Definition bpt_empty (t : BPTree) : bool := bool_decide (t = []).
Definition bpt_size (t : BPTree) : Z := zlen t.

(** *** Reference: the key order, the invariant, the abstract map *)

(** Lexicographic comparison of byte strings. *)
Fixpoint lex (a b : bytes) : comparison :=
  match a, b with
  | [], [] => Eq
  | [], _ :: _ => Lt
  | _ :: _, [] => Gt
  | x :: a, y :: b =>
      match byte_Z x ?= byte_Z y with Eq => lex a b | c => c end
  end.

Definition key_lt (a b : bytes) : Prop := lex a b = Lt.
#[export] Instance key_lt_dec a b : Decision (key_lt a b).
Proof. unfold key_lt. apply _. Defined.

(** Keys strictly increasing; every entry has at least one id, none twice. *)
Record bpt_wf (t : BPTree) : Prop := {
  wf_sorted : StronglySorted key_lt (key_data <$> t);
  wf_ids : Forall (fun e => ids e <> [] /\ NoDup (ids e)) t;
}.

Definition bpt_map (t : BPTree) : gmap bytes (list Z) := sv_map key_data ids t.

(** The keys a range admits. *)
Definition above (lo : option bytes) (incl : bool) (k : bytes) : bool :=
  match lo with
  | None => true
  | Some l => match lex k l with Lt => false | Eq => incl | Gt => true end
  end.
Definition below (hi : option bytes) (incl : bool) (k : bytes) : bool :=
  match hi with
  | None => true
  | Some h => match lex k h with Lt => true | Eq => incl | Gt => false end
  end.

(** The order of the values of one type. *)
Definition value_lt (t : FieldType) (a b : FieldValue) : Prop :=
  match t, a, b with
  | UINT32, VUint32 x, VUint32 y => x < y
  | INT64, VInt64 x, VInt64 y => x < y
  | STRING, VString x, VString y => lex x y = Lt
  | BOOL, VBool x, VBool y => x = false /\ y = true
  | FLOAT32, VFloat x, VFloat y => f32_lt x y = true
  | _, _, _ => False
  end.

(** ** Lemmas: the key order *)

Lemma lex_refl a : lex a a = Eq.
Proof. induction a as [|x a IH]; [done|]. simpl. by rewrite Z.compare_refl. Qed.

Lemma lex_eq a b : lex a b = Eq <-> a = b.
Proof.
  split; [|intros ->; apply lex_refl].
  revert b; induction a as [|x a IH]; intros [|y b]; simpl; try done.
  destruct (Z.compare_spec (byte_Z x) (byte_Z y)) as [H|H|H]; try done.
  intros Hl. apply byte_Z_inj in H. by rewrite H, (IH b).
Qed.

Lemma lex_antisym a b : lex b a = CompOpp (lex a b).
Proof.
  revert b; induction a as [|x a IH]; intros [|y b]; simpl; try done.
  rewrite (Z.compare_antisym (byte_Z x) (byte_Z y)).
  destruct (byte_Z x ?= byte_Z y); simpl; [apply IH|done|done].
Qed.

Lemma lex_gt a b : lex a b = Gt <-> key_lt b a.
Proof. unfold key_lt. rewrite (lex_antisym a b). destruct (lex a b); simpl; split; congruence. Qed.

Lemma key_lt_trans a b c : key_lt a b -> key_lt b c -> key_lt a c.
Proof.
  unfold key_lt. revert b c; induction a as [|x a IH]; intros [|y b] [|z c]; simpl; try done.
  destruct (Z.compare_spec (byte_Z x) (byte_Z y)), (Z.compare_spec (byte_Z y) (byte_Z z));
    destruct (Z.compare_spec (byte_Z x) (byte_Z z)); try done; try lia.
  apply IH.
Qed.

Lemma key_lt_irrefl a : ~ key_lt a a.
Proof. unfold key_lt. by rewrite lex_refl. Qed.

Lemma key_lt_ne a b : key_lt a b -> a <> b.
Proof. intros H ->. by apply key_lt_irrefl in H. Qed.

#[export] Instance key_lt_Transitive : Transitive key_lt.
Proof. intros a b c. apply key_lt_trans. Qed.
#[export] Instance key_lt_Irreflexive : Irreflexive key_lt.
Proof. intros a. apply key_lt_irrefl. Qed.

(** The order is total: the three cases of a comparison. *)
Lemma lex_spec a b : CompareSpec (a = b) (key_lt a b) (key_lt b a) (lex a b).
Proof.
  destruct (lex a b) eqn:E; constructor; [by apply lex_eq|done|by apply lex_gt].
Qed.

Definition comparison_sign (c : comparison) : Z := match c with Lt => -1 | Eq => 0 | Gt => 1 end.

Lemma memcmp_lex a b :
  memcmp a b (Nat.min (length a) (length b)) =
  match lex (take (length b) a) (take (length a) b) with c => comparison_sign c end.
Proof.
  revert b; induction a as [|x a IH]; intros [|y b]; cbn [length Nat.min memcmp take lex]; try done.
  destruct (Z.compare_spec (byte_Z x) (byte_Z y)) as [H|H|H];
    [rewrite !bool_decide_eq_false_2 by lia; apply IH|by bd|].
  rewrite bool_decide_eq_false_2, bool_decide_eq_true_2 by lia. done.
Qed.

Lemma lex_take a b :
  lex a b = match lex (take (length b) a) (take (length a) b) with
            | Eq => Nat.compare (length a) (length b)
            | c => c
            end.
Proof.
  revert b; induction a as [|x a IH]; intros [|y b]; cbn [length take lex Nat.compare]; try done.
  destruct (byte_Z x ?= byte_Z y); [apply IH|done|done].
Qed.

(** [memcmp] on the common length and then the lengths is the lexicographic
    order. *)
Lemma bptree_key_compare_lex a b : bptree_key_compare a b = comparison_sign (lex a b).
Proof.
  unfold bptree_key_compare.
  replace (if bool_decide (Nat.min (length a) (length b) = 0%nat) then 0
           else memcmp a b (Nat.min (length a) (length b)))
    with (memcmp a b (Nat.min (length a) (length b)))
    by (case_bool_decide as H; [by rewrite H; destruct a, b|done]).
  rewrite memcmp_lex, (lex_take a b).
  destruct (lex (take _ a) (take _ b)); cbn [comparison_sign]; [|done|done].
  rewrite bool_decide_eq_false_2 by lia.
  destruct (Nat.compare_spec (length a) (length b)); cbn [comparison_sign];
    repeat (case_bool_decide; try lia).
Qed.

Lemma key_compare_lt a b : bool_decide (bptree_key_compare a b < 0) = bool_decide (lex a b = Lt).
Proof.
  rewrite bptree_key_compare_lex. apply bool_decide_ext. destruct (lex a b); simpl; split; (done || lia).
Qed.

Lemma key_compare_eq a b : bptree_key_compare a b = 0 <-> a = b.
Proof. rewrite bptree_key_compare_lex, <- lex_eq. destruct (lex a b); simpl; split; (done || lia). Qed.

Lemma key_compare_gt a b : bptree_key_compare a b > 0 <-> key_lt b a.
Proof. rewrite bptree_key_compare_lex, <- lex_gt. destruct (lex a b); simpl; split; (done || lia). Qed.

(** *** Encodings *)

Lemma be_bytes_S n z : be_bytes (S n) z = be_bytes n (z / 256) ++ [Z_byte z].
Proof. unfold be_bytes. cbn [le_bytes]. by rewrite reverse_cons. Qed.

Lemma length_be_bytes n z : length (be_bytes n z) = n.
Proof. unfold be_bytes. by rewrite length_reverse, length_le_bytes. Qed.

Lemma encode_int_be_loop_spec n z acc : encode_int_be_loop n z acc = be_bytes n z ++ acc.
Proof.
  revert z acc; induction n as [|n IH]; intros z acc; [done|]. cbn [encode_int_be_loop].
  rewrite IH, land_255, be_bytes_S, <- app_assoc.
  by rewrite Z.shiftr_div_pow2 by lia.
Qed.

Lemma encode_int_be_spec n z : encode_int_be n z = be_bytes n z.
Proof. unfold encode_int_be. by rewrite encode_int_be_loop_spec, app_nil_r. Qed.

Lemma lex_snoc a b x y :
  length a = length b ->
  lex (a ++ [x]) (b ++ [y]) = match lex a b with Eq => byte_Z x ?= byte_Z y | c => c end.
Proof.
  revert b; induction a as [|c a IH]; intros [|d b] H; try done; simpl in *.
  - by destruct (byte_Z x ?= byte_Z y).
  - destruct (byte_Z c ?= byte_Z d); [apply IH; lia|done|done].
Qed.

(** Big-endian strings of one width compare as the numbers. *)
Lemma lex_be_bytes n x y :
  0 <= x < 256 ^ Z.of_nat n -> 0 <= y < 256 ^ Z.of_nat n ->
  lex (be_bytes n x) (be_bytes n y) = (x ?= y).
Proof.
  revert x y; induction n as [|n IH]; intros x y Hx Hy.
  - simpl in *. by replace x with y by lia; rewrite Z.compare_refl.
  - rewrite Nat2Z.inj_succ, Z.pow_succ_r in Hx, Hy by lia.
    pose proof (Z.div_mod x 256 ltac:(lia)); pose proof (Z.div_mod y 256 ltac:(lia)).
    pose proof (Z.mod_pos_bound x 256 ltac:(lia)); pose proof (Z.mod_pos_bound y 256 ltac:(lia)).
    rewrite !be_bytes_S, lex_snoc by (by rewrite !length_be_bytes).
    rewrite IH by lia. rewrite !byte_Z_of_Z.
    destruct (Z.compare_spec (x / 256) (y / 256)) as [H'|H'|H'].
    + destruct (Z.compare_spec (x mod 256) (y mod 256)); symmetry;
        [apply Z.compare_eq_iff|apply Z.compare_lt_iff|apply Z.compare_gt_iff]; lia.
    + symmetry. apply Z.compare_lt_iff. lia.
    + symmetry. apply Z.compare_gt_iff. lia.
Qed.

(** Flipping the top bit of a [w]-bit number adds half the range, modulo. *)
Lemma lxor_top n z :
  0 <= n -> 0 <= z < 2 ^ (n + 1) ->
  Z.lxor z (Z.shiftl 1 n) = if bool_decide (z < 2 ^ n) then z + 2 ^ n else z - 2 ^ n.
Proof.
  intros Hn Hz. rewrite Z.shiftl_1_l. rewrite Z.pow_add_r, Z.pow_1_r in Hz by lia.
  assert (Hbit : forall a, 0 <= a < 2 ^ n -> Z.testbit a n = false).
  { intros a Ha. rewrite <- (Z.mod_small a (2 ^ n)) by done. apply Z.mod_pow2_bits_high. lia. }
  assert (Hland : forall a, 0 <= a < 2 ^ n -> Z.land a (2 ^ n) = 0).
  { intros a Ha. apply Z.bits_inj'. intros i Hi. rewrite Z.land_spec, Z.bits_0, Z.pow2_bits_eqb by lia.
    destruct (Z.eqb_spec n i) as [<-|]; [rewrite Hbit by done|]; by rewrite ?andb_false_r. }
  case_bool_decide as Hlt.
  - symmetry. apply Z.add_nocarry_lxor, Hland. lia.
  - replace z with ((z - 2 ^ n) + 2 ^ n) at 1 by lia.
    rewrite Z.add_nocarry_lxor by (apply Hland; lia).
    by rewrite Z.lxor_assoc, Z.lxor_nilpotent, Z.lxor_0_r.
Qed.

Lemma encode_signed_be_spec n :
  - 2 ^ 63 <= n < 2 ^ 63 -> encode_signed_be 8 n = be_bytes 8 (n + 2 ^ 63).
Proof.
  intros Hn. unfold encode_signed_be. rewrite encode_int_be_spec. f_equal.
  change (8 * Z.of_nat 8 - 1) with 63. change (8 * Z.of_nat 8) with 64.
  rewrite lxor_top by (try apply Z.mod_pos_bound; lia).
  destruct (Z_lt_le_dec n 0).
  - rewrite <- (Z.mod_add n 1), Z.mod_small by lia. rewrite bool_decide_eq_false_2; lia.
  - rewrite Z.mod_small, bool_decide_eq_true_2; lia.
Qed.

(** The integer behind the float encoding: negative values are reflected below
    [2^31], the others are above. *)
Definition float_rank (b : Z) : Z := if f32_neg b then 2 ^ 32 - 1 - b else b + 2 ^ 31.

(** Complementing the low bits. *)
Lemma lxor_ones n b : 0 <= n -> 0 <= b < 2 ^ n -> Z.lxor b (Z.ones n) = 2 ^ n - 1 - b.
Proof.
  intros Hn Hb. assert (H : b + Z.lxor b (Z.ones n) = Z.ones n).
  { rewrite Z.add_nocarry_lxor.
    - by rewrite <- Z.lxor_assoc, Z.lxor_nilpotent, Z.lxor_0_l.
    - apply Z.bits_inj'. intros i Hi. rewrite Z.land_spec, Z.lxor_spec, Z.bits_0.
      destruct (Z_lt_le_dec i n).
      + rewrite Z.ones_spec_low by lia. by destruct (Z.testbit b i).
      + rewrite <- (Z.mod_small b (2 ^ n)), Z.mod_pow2_bits_high by lia. done. }
  rewrite Z.ones_equiv in H. rewrite Z.ones_equiv. lia.
Qed.

Lemma land_top n b : 0 <= n -> 0 <= b < 2 ^ (n + 1) -> Z.land b (2 ^ n) <> 0 <-> 2 ^ n <= b.
Proof.
  intros Hn Hb. rewrite Z.pow_add_r, Z.pow_1_r in Hb by lia. assert (0 < 2 ^ n) by lia.
  assert (Hbit : Z.testbit b n = bool_decide (2 ^ n <= b)).
  { rewrite Z.testbit_eqb by lia. case_bool_decide.
    - replace (b / 2 ^ n) with 1 by (apply Z.div_unique with (b - 2 ^ n); lia). done.
    - by rewrite Z.div_small by lia. }
  split.
  - intros Hne. apply (bool_decide_eq_true_1 (2 ^ n <= b)). rewrite <- Hbit. apply Bool.not_false_iff_true.
    intros Hf. apply Hne, Z.bits_inj'. intros i Hi.
    rewrite Z.land_spec, Z.bits_0, Z.pow2_bits_eqb by lia.
    destruct (Z.eqb_spec n i) as [<-|]; [by rewrite Hf|apply andb_false_r].
  - intros Hle H0. assert (Ht : Z.testbit (Z.land b (2 ^ n)) n = true).
    { rewrite Z.land_spec, Z.pow2_bits_true, Hbit, bool_decide_eq_true_2 by lia. done. }
    rewrite H0, Z.bits_0 in Ht. done.
Qed.

Lemma encode_float_ordered_spec b :
  0 <= b < 2 ^ 32 -> encode_float_ordered b = be_bytes 4 (float_rank b).
Proof.
  intros Hb. unfold encode_float_ordered, float_rank, f32_neg. rewrite encode_int_be_spec. f_equal.
  rewrite (bool_decide_ext _ _ (land_top 31 b ltac:(lia) Hb)). case_bool_decide as H.
  - exact (lxor_ones 32 b ltac:(lia) Hb).
  - change 0x80000000 with (Z.shiftl 1 31). rewrite lxor_top by lia. by bd.
Qed.

Lemma float_rank_range b : 0 <= b < 2 ^ 32 -> 0 <= float_rank b < 2 ^ 32.
Proof. unfold float_rank, f32_neg. intros. case_bool_decide; lia. Qed.

Lemma float_rank_inj a b :
  0 <= a < 2 ^ 32 -> 0 <= b < 2 ^ 32 -> float_rank a = float_rank b -> a = b.
Proof. unfold float_rank, f32_neg. intros. repeat case_bool_decide; lia. Qed.

(** The rank refines the IEEE key: only the two zeros are split. *)
Lemma float_rank_key a b :
  0 <= a < 2 ^ 32 -> 0 <= b < 2 ^ 32 ->
  (f32_key a < f32_key b -> float_rank a < float_rank b) /\
  (float_rank a < float_rank b -> f32_key a <= f32_key b).
Proof.
  intros Ha Hb. unfold f32_key, float_rank, f32_neg, f32_mag.
  assert (Hm : forall c, 0 <= c < 2 ^ 32 -> c mod 2 ^ 31 = if bool_decide (2 ^ 31 <= c) then c - 2 ^ 31 else c).
  { intros c Hc. case_bool_decide.
    - rewrite <- (Z.mod_add c (-1)) by lia. rewrite Z.mod_small; lia.
    - apply Z.mod_small; lia. }
  rewrite !Hm by done. repeat case_bool_decide; lia.
Qed.

(** The key of a value that has the declared type. *)
Lemma encode_vec_typed v t :
  match bptree_key_encode_vec v t with
  | Ok _ => value_has_type t v \/ exists tag, t = UnknownType tag
  | Throw e => e = BadVariantAccess
  | UB => False
  end.
Proof. destruct t, v; simpl; eauto. Qed.

(** *** The sorted vector *)

Local Abbreviation keys_below := (keys_below key_data key_lt).
Local Abbreviation keys_above := (keys_above key_data key_lt).

Lemma key_lt_total a b : key_lt a b \/ a = b \/ key_lt b a.
Proof. destruct (lex_spec a b); auto. Qed.

(** Where the binary search for a key lands. *)
Lemma bpt_view_total t k : bpt_wf t -> sv_view key_data key_lt t k (bpt_lower_bound t k).
Proof.
  intros [Hs _]. apply (sv_view_total key_data key_lt key_lt_total entry_lt); [|done].
  intros e. unfold entry_lt. by rewrite key_compare_lt, bool_decide_eq_true.
Qed.

Lemma bpt_lookup_found (t1 t2 : list Entry) e k :
  key_data e = k -> keys_below k t1 -> bpt_map (t1 ++ e :: t2) !! k = Some (ids e).
Proof. intros He H1. apply sv_map_middle_lookup; [|done]. by apply (keys_below_irrefl _ key_lt). Qed.

Lemma bpt_lookup_absent (t1 t2 : list Entry) k :
  keys_below k t1 -> keys_above k t2 -> bpt_map (t1 ++ t2) !! k = None.
Proof.
  intros H1 H2. apply sv_map_split_None; [by apply (keys_below_irrefl _ key_lt)|by apply (keys_above_irrefl _ key_lt)].
Qed.

Lemma bpt_map_middle (t1 t2 : list Entry) e :
  keys_below (key_data e) t1 -> bpt_map (t1 ++ e :: t2) = <[key_data e := ids e]> (bpt_map (t1 ++ t2)).
Proof. intros H1. apply sv_map_middle. by apply (keys_below_irrefl _ key_lt). Qed.

Lemma key_absent k (t1 t2 : list Entry) e n :
  (t1 ++ t2) !! n = Some e -> n = length t1 -> keys_above k t2 ->
  bptree_key_compare (key_data e) k <> 0.
Proof.
  intros He Hn H%(keys_above_irrefl _ key_lt). rewrite key_compare_eq.
  exact (lookup_split_Forall (fun e => key_data e <> k) _ _ _ _ Hn H He).
Qed.

Lemma bpt_wf_middle t1 e t2 :
  bpt_wf (t1 ++ e :: t2) <->
  bpt_wf (t1 ++ t2) /\ keys_below (key_data e) t1 /\ keys_above (key_data e) t2 /\
  ids e <> [] /\ NoDup (ids e).
Proof.
  split.
  - intros [Hs Hi]. apply (sv_sorted_middle key_data key_lt) in Hs as (Hs & ? & ?).
    rewrite Forall_app, Forall_cons in Hi. destruct Hi as (? & [? ?] & ?).
    split_and!; try done. split; [done|]. by apply Forall_app.
  - intros ([Hs Hi] & ? & ? & ? & ?). split; [by apply (sv_sorted_middle key_data key_lt)|].
    rewrite Forall_app in Hi. rewrite Forall_app, Forall_cons. tauto.
Qed.

(** *** Runs of the operations *)

Definition add_id (id : Z) (o : option (list Z)) : list Z :=
  match o with
  | None => [id]
  | Some l => if bool_decide (id ∈ l) then l else l ++ [id]
  end.

Definition remove_id (id : Z) (o : option (list Z)) : option (list Z) :=
  l ← o; let l' := vec_remove id l in if bool_decide (l' = []) then None else Some l'.

Section runs.
Context (v : FieldValue) (ty : FieldType) (id : Z) (t : BPTree) (k : bytes).
Context (Hwf : bpt_wf t) (Hk : bptree_key_encode_vec v ty = Ok k).

Lemma bpt_insert_run :
  exists t', bpt_insert v ty id t = (Ok tt, t') /\ bpt_wf t' /\
             bpt_map t' = <[k := add_id id (bpt_map t !! k)]> (bpt_map t).
Proof.
  unfold bpt_insert. rewrite (M_bind_ok (lift _) _ _ k t) by (unfold lift; by rewrite Hk).
  rewrite (M_bind_ok get _ _ _ _ eq_refl). cbv zeta.
  destruct (bpt_view_total t k Hwf) as [t1 e t2 -> He H1 H2 Hlb|t1 t2 -> H1 H2 Hlb].
  - rewrite (lookup_split t1 e t2) by done. apply key_compare_eq in He as Hc.
    rewrite bool_decide_eq_true_2, vec_contains_spec, bpt_lookup_found by done. cbn [add_id].
    pose proof (proj1 (bpt_wf_middle t1 e t2) Hwf) as (Hwf' & Hkb & Hka & Hnil & Hnd).
    case_bool_decide as Hid; (eexists; split_and!; [done|..]).
    + done.
    + by rewrite insert_id by (by apply bpt_lookup_found).
    + rewrite insert_split by done. apply bpt_wf_middle. split_and!; try done; cbn.
      * by destruct (ids e).
      * apply NoDup_app. split_and!; [done| |apply NoDup_singleton].
        by intros x Hx ->%list_elem_of_singleton.
    + rewrite insert_split by done. rewrite !bpt_map_middle by (cbn; rewrite ?He; done).
      cbn [key_data ids]. by rewrite He, insert_insert_eq.
  - exists (t1 ++ mkEntry k [id] :: t2). rewrite bpt_lookup_absent by done. split_and!.
    + rewrite Hlb, vec_insert_app. destruct ((t1 ++ t2) !! length t1) as [e|] eqn:He; [|done].
      by rewrite bool_decide_eq_false_2 by (by eapply key_absent).
    + apply bpt_wf_middle. cbn. split_and!; try done. apply NoDup_singleton.
    + by rewrite bpt_map_middle.
Qed.

Lemma bpt_erase_run :
  exists t', bpt_erase v ty id t = (Ok tt, t') /\ bpt_wf t' /\
             bpt_map t' = partial_alter (remove_id id) k (bpt_map t).
Proof.
  unfold bpt_erase. rewrite (M_bind_ok (lift _) _ _ k t) by (unfold lift; by rewrite Hk).
  rewrite (M_bind_ok get _ _ _ _ eq_refl). cbv zeta.
  destruct (bpt_view_total t k Hwf) as [t1 e t2 -> He H1 H2 Hlb|t1 t2 -> H1 H2 Hlb].
  - rewrite (lookup_split t1 e t2) by done. apply key_compare_eq in He as Hc.
    rewrite bool_decide_eq_false_2 by (intros H; by apply H).
    pose proof (proj1 (bpt_wf_middle t1 e t2) Hwf) as (Hwf' & Hkb & Hka & Hnil & Hnd).
    case_bool_decide as Hid; (eexists; split_and!; [done|..]).
    + by rewrite delete_split.
    + rewrite delete_split by done. apply map_eq. intros k'.
      destruct (decide (k' = k)) as [->|Hne].
      * rewrite lookup_partial_alter_eq, bpt_lookup_found, bpt_lookup_absent by done.
        cbn. by rewrite bool_decide_eq_true_2.
      * by rewrite lookup_partial_alter_ne, bpt_map_middle, lookup_insert_ne by (rewrite ?He; done).
    + rewrite insert_split by done. apply bpt_wf_middle. cbn. split_and!; try done.
      by apply NoDup_filter.
    + rewrite insert_split by done. apply map_eq. intros k'.
      destruct (decide (k' = k)) as [->|Hne].
      * rewrite lookup_partial_alter_eq, !bpt_lookup_found by done. cbn.
        by rewrite bool_decide_eq_false_2.
      * rewrite lookup_partial_alter_ne, !bpt_map_middle by (cbn; rewrite ?He; done). cbn.
        by rewrite He, !lookup_insert_ne.
  - exists (t1 ++ t2). split_and!; [|done|].
    + rewrite Hlb. destruct ((t1 ++ t2) !! length t1) as [e|] eqn:He; [|done].
      by rewrite bool_decide_eq_true_2 by (by eapply key_absent).
    + apply map_eq. intros k'. destruct (decide (k' = k)) as [->|Hne].
      * by rewrite lookup_partial_alter_eq, bpt_lookup_absent.
      * by rewrite lookup_partial_alter_ne.
Qed.
End runs.

Lemma find_entry_run t k : bpt_wf t -> ids <$> find_entry t k = bpt_map t !! k.
Proof.
  intros Hwf. unfold find_entry.
  destruct (bpt_view_total t k Hwf) as [t1 e t2 -> He H1 H2 Hlb|t1 t2 -> H1 H2 Hlb].
  - rewrite (lookup_split t1 e t2) by done. apply key_compare_eq in He as Hc.
    rewrite bool_decide_eq_false_2 by (intros H; by apply H). by rewrite bpt_lookup_found.
  - rewrite bpt_lookup_absent by done. rewrite Hlb.
    destruct ((t1 ++ t2) !! length t1) as [e|] eqn:He; [|done].
    by rewrite bool_decide_eq_true_2 by (by eapply key_absent).
Qed.

(** *** Scans *)

Definition in_range (lo : option bytes) (li : bool) (hi : option bytes) (hi_incl : bool) (e : Entry) : Prop :=
  above lo li (key_data e) = true /\ below hi hi_incl (key_data e) = true.
#[export] Instance in_range_dec lo li hi hii e : Decision (in_range lo li hi hii e).
Proof. unfold in_range. apply _. Defined.

Lemma scan_up_to_filter hi hii t :
  StronglySorted key_lt (key_data <$> t) ->
  scan_up_to hi hii t = filter (fun e => below hi hii (key_data e) = true) t.
Proof.
  induction t as [|e t IH]; [done|]. intros [Hs Hf]%(sv_sorted_cons key_data key_lt). cbn [scan_up_to].
  destruct hi as [h|].
  - assert (Hnone : lex (key_data e) h <> Lt -> filter (fun e => below (Some h) hii (key_data e) = true) t = []).
    { intros Hne. apply filter_none_in. intros f Hfin. assert (Hef : key_lt (key_data e) (key_data f)).
      { unfold Std.keys_above in Hf. rewrite Forall_forall in Hf. by apply Hf. }
      cbn [below]. assert (Hgt : lex (key_data f) h = Gt).
      { apply lex_gt. destruct (lex_spec (key_data e) h) as [Heq|?|Hgt]; [by rewrite <- Heq|done|by etrans]. }
      by rewrite Hgt. }
    rewrite bptree_key_compare_lex.
    destruct (lex (key_data e) h) eqn:E; cbn [comparison_sign].
    + rewrite bool_decide_eq_false_2, bool_decide_eq_true_2 by lia. destruct hii; cbn [negb andb].
      * rewrite filter_cons_True by (cbn [below]; by rewrite E). by rewrite IH.
      * rewrite filter_cons_False by (cbn [below]; by rewrite E). by rewrite Hnone.
    + rewrite bool_decide_eq_false_2, bool_decide_eq_false_2 by lia. cbn [andb].
      rewrite filter_cons_True by (cbn [below]; by rewrite E). by rewrite IH.
    + rewrite bool_decide_eq_true_2 by lia.
      rewrite filter_cons_False by (cbn [below]; by rewrite E). by rewrite Hnone.
  - rewrite IH by done. by rewrite filter_cons_True.
Qed.

Lemma scan_start_filter t lo li :
  bpt_wf t -> drop (scan_start t lo li) t = filter (fun e => above lo li (key_data e) = true) t.
Proof.
  intros Hwf. destruct lo as [l|]; cbn [scan_start].
  2: { by rewrite filter_all by (apply Forall_forall; done). }
  cbv zeta.
  assert (Hbelow : forall t, keys_below l t -> filter (fun e => above (Some l) li (key_data e) = true) t = []).
  { intros t' H. apply filter_none. eapply Forall_impl; [exact H|]. intros e He. unfold above, key_lt in *. by rewrite He. }
  assert (Habove : forall t, keys_above l t -> filter (fun e => above (Some l) li (key_data e) = true) t = t).
  { intros t' H. apply filter_all. eapply Forall_impl; [exact H|]. intros e He.
    apply lex_gt in He. unfold above. by rewrite He. }
  destruct (bpt_view_total t l Hwf) as [t1 e t2 -> He H1 H2 Hlb|t1 t2 -> H1 H2 Hlb]; rewrite Hlb.
  - rewrite (lookup_split t1 e t2) by done. rewrite filter_app, Hbelow by done. apply key_compare_eq in He as Hc.
    rewrite bool_decide_eq_true_2 by done. destruct li; cbn [negb andb app].
    + rewrite drop_app_length, filter_cons_True by (rewrite He; unfold above; by rewrite lex_refl).
      by rewrite Habove.
    + replace (S (length t1)) with (length t1 + 1)%nat by lia.
      rewrite drop_app_add, filter_cons_False by (rewrite He; unfold above; by rewrite lex_refl).
      by rewrite Habove.
  - rewrite filter_app, Hbelow, Habove by done. cbn [app].
    assert (Hd : (match (t1 ++ t2) !! length t1 with
      | Some e => if negb li && bool_decide (bptree_key_compare (key_data e) l = 0) then S (length t1) else length t1
      | None => length t1 end) = length t1).
    { destruct ((t1 ++ t2) !! length t1) as [e|] eqn:He; [|done].
      rewrite bool_decide_eq_false_2 by (by eapply key_absent). by rewrite andb_false_r. }
    by rewrite Hd, drop_app_length.
Qed.

Lemma range_scan_run t lo lt_ li hi ht hii lk hk :
  bpt_wf t -> encode_bound lo lt_ = Ok lk -> encode_bound hi ht = Ok hk ->
  range_scan t lo lt_ li hi ht hii = Ok (filter (in_range lk li hk hii) t).
Proof.
  intros Hwf Hl Hh. unfold range_scan. rewrite Hl, Hh. cbn [mbind outcome_bind]. f_equal.
  rewrite scan_start_filter by done. rewrite scan_up_to_filter.
  - rewrite filter_filter. done.
  - by apply (sv_sorted_filter key_data key_lt), Hwf.
Qed.

(** An entry of the vector is a binding of the map. *)
Lemma bpt_map_lookup t e : bpt_wf t -> e ∈ t <-> bpt_map t !! key_data e = Some (ids e).
Proof.
  intros Hwf. split.
  - apply sv_map_elem, (sv_sorted_NoDup key_data key_lt), Hwf.
  - intros ([k l] & Hin & Hk & Hv)%sv_map_Some. cbn in *. destruct e; cbn in *. by simplify_eq.
Qed.

(** *** The key order *)

Lemma key_lt_be_bytes n x y :
  0 <= x < 256 ^ Z.of_nat n -> 0 <= y < 256 ^ Z.of_nat n ->
  key_lt (be_bytes n x) (be_bytes n y) <-> x < y.
Proof. intros. unfold key_lt. rewrite lex_be_bytes by done. apply Z.compare_lt_iff. Qed.

Lemma be_bytes_inj n x y :
  0 <= x < 256 ^ Z.of_nat n -> 0 <= y < 256 ^ Z.of_nat n -> be_bytes n x = be_bytes n y -> x = y.
Proof. intros ? ? H%lex_eq. rewrite lex_be_bytes in H by done. by apply Z.compare_eq_iff. Qed.

Lemma bool_key_lt x y : key_lt [Z_byte (Z.b2z x)] [Z_byte (Z.b2z y)] <-> x = false /\ y = true.
Proof. destruct x, y; vm_compute; tauto || (split; [done|intros []; done]). Qed.

(** The part of the order theorem that every type shares. *)
Lemma key_encode_exact t a b ka kb :
  t <> FLOAT32 -> value_wf a -> value_wf b ->
  bptree_key_encode_vec a t = Ok ka -> bptree_key_encode_vec b t = Ok kb ->
  (forall tag, t <> UnknownType tag) ->
  (value_lt t a b <-> key_lt ka kb) /\ (ka = kb -> a = b).
Proof.
  intros Hf Ha Hb Hka Hkb Hu.
  destruct t; [..|by destruct (Hu tag)]; destruct a, b; try done; apply (inj Ok) in Hka as <-, Hkb as <-;
    cbn [value_lt value_wf] in *.
  - rewrite !encode_int_be_spec. split; [by rewrite key_lt_be_bytes|].
    intros ?%be_bytes_inj; [congruence|done..].
  - split; [done|congruence].
  - rewrite bool_key_lt. split; [done|]. by destruct b0, b.
  - rewrite !encode_signed_be_spec by done.
    split; [rewrite key_lt_be_bytes by (change (256 ^ Z.of_nat 8) with (2 ^ 64); lia); lia|].
    intros H%be_bytes_inj; try (change (256 ^ Z.of_nat 8) with (2 ^ 64); lia). f_equal; lia.
Qed.

Lemma key_encode_float a b :
  0 <= a < 2 ^ 32 -> 0 <= b < 2 ^ 32 ->
  (key_lt (encode_float_ordered a) (encode_float_ordered b) <-> float_rank a < float_rank b) /\
  (encode_float_ordered a = encode_float_ordered b -> a = b).
Proof.
  intros Ha Hb. rewrite !encode_float_ordered_spec by done.
  pose proof (float_rank_range a Ha); pose proof (float_rank_range b Hb).
  split; [by apply (key_lt_be_bytes 4)|]. intros H1%be_bytes_inj; [|done..].
  by apply float_rank_inj.
Qed.

(** ** Properties *)

Definition demo_tree : BPTree :=
  (bpt_insert (VInt64 (-3)) INT64 7 (bpt_insert (VInt64 10) INT64 9 (bpt_insert (VInt64 10) INT64 8 []).2).2).2.

Lemma demo_tree_wf : bpt_wf demo_tree.
Proof.
  split.
  - repeat constructor.
  - vm_compute. repeat constructor; vm_decide || done.
Qed.

(** C34: the key encoding preserves and reflects order.  For every type but
    [FLOAT32] the byte order of two keys is exactly the order of the values, and
    the encoding is injective.  For floats that are not NaN, a smaller value has
    a smaller key, and a smaller key never belongs to a greater value. *)
Theorem key_encode_order t a b ka kb :
  value_wf a -> value_wf b ->
  bptree_key_encode_vec a t = Ok ka -> bptree_key_encode_vec b t = Ok kb ->
  match t with
  | UnknownType _ => ka = [] /\ kb = []
  | FLOAT32 =>
      exists x y, a = VFloat x /\ b = VFloat y /\ (ka = kb -> x = y) /\
        (f32_is_nan x = false -> f32_is_nan y = false ->
         (f32_lt x y = true -> key_lt ka kb) /\ (key_lt ka kb -> f32_le x y = true))
  | _ => (value_lt t a b <-> key_lt ka kb) /\ (ka = kb -> a = b)
  end.
Proof.
  intros Ha Hb Hka Hkb.
  destruct t; try (eapply key_encode_exact; eauto; done).
  - destruct a as [| |x| |], b as [| |y| |]; try done. apply (inj Ok) in Hka as <-, Hkb as <-.
    destruct (key_encode_float x y Ha Hb) as [Hlt Hinj]. exists x, y. split_and!; [done..|].
    intros Nx Ny. rewrite Hlt, f32_lt_key, f32_le_key by done.
    destruct (float_rank_key x y Ha Hb) as [H1 H2]. split.
    + intros ?%bool_decide_eq_true. auto.
    + intros ?. apply bool_decide_eq_true. auto.
  - by apply (inj Ok) in Hka as <-, Hkb as <-.
Qed.

Lemma key_encode_order_witness :
  (value_lt INT64 (VInt64 (-5)) (VInt64 3) <->
   key_lt [x7f; xff; xff; xff; xff; xff; xff; xfb] [x80; x00; x00; x00; x00; x00; x00; x03]) /\
  ([x7f; xff; xff; xff; xff; xff; xff; xfb] = [x80; x00; x00; x00; x00; x00; x00; x03] ->
   VInt64 (-5) = VInt64 3).
Proof.
  apply (key_encode_order INT64 (VInt64 (-5)) (VInt64 3)); [vm_decide|vm_decide|reflexivity|reflexivity].
Defined.

(** C32: [BPTree::insert] refines the update of a finite map from keys to id
    lists: the id is appended to its key's list unless it is already there; a
    value of another type than the key type is [bad_variant_access] and changes
    nothing; the vector stays sorted with non-empty, duplicate-free lists. *)
Theorem bpt_insert_refines v ty id t :
  bpt_wf t ->
  match bptree_key_encode_vec v ty with
  | Ok k => exists t', bpt_insert v ty id t = (Ok tt, t') /\ bpt_wf t' /\
                       bpt_map t' = <[k := add_id id (bpt_map t !! k)]> (bpt_map t)
  | _ => bpt_insert v ty id t = (Throw BadVariantAccess, t)
  end.
Proof.
  intros Hwf. pose proof (encode_vec_typed v ty) as Ht.
  destruct (bptree_key_encode_vec v ty) as [k|e|] eqn:E; [by apply bpt_insert_run| |done].
  subst e. unfold bpt_insert, mbind, M_bind, lift. by rewrite E.
Qed.

Lemma bpt_insert_refines_witness :
  exists t', bpt_insert (VInt64 10) INT64 4 demo_tree = (Ok tt, t') /\ bpt_wf t' /\
    bpt_map t' = <[encode_signed_be 8 10 := add_id 4 (bpt_map demo_tree !! encode_signed_be 8 10)]>
                   (bpt_map demo_tree).
Proof. exact (bpt_insert_refines (VInt64 10) INT64 4 demo_tree demo_tree_wf). Defined.

(** [BPTree::erase] removes the id from its key's list and the key when the
    list becomes empty; an absent key changes nothing; the invariant is kept. *)
Theorem bpt_erase_refines v ty id t :
  bpt_wf t ->
  match bptree_key_encode_vec v ty with
  | Ok k => exists t', bpt_erase v ty id t = (Ok tt, t') /\ bpt_wf t' /\
                       bpt_map t' = partial_alter (remove_id id) k (bpt_map t)
  | _ => bpt_erase v ty id t = (Throw BadVariantAccess, t)
  end.
Proof.
  intros Hwf. pose proof (encode_vec_typed v ty) as Ht.
  destruct (bptree_key_encode_vec v ty) as [k|e|] eqn:E; [by apply bpt_erase_run| |done].
  subst e. unfold bpt_erase, mbind, M_bind, lift. by rewrite E.
Qed.

Lemma bpt_erase_refines_witness :
  exists t', bpt_erase (VInt64 10) INT64 8 demo_tree = (Ok tt, t') /\ bpt_wf t' /\
    bpt_map t' = partial_alter (remove_id 8) (encode_signed_be 8 10) (bpt_map demo_tree).
Proof. exact (bpt_erase_refines (VInt64 10) INT64 8 demo_tree demo_tree_wf). Defined.

(** C33: [BPTree::find] looks the key up in the abstract map, and
    [BPTree::range_scan] visits, in key order, exactly the entries whose key is
    within the bounds, inclusive or exclusive as asked. *)
Theorem bpt_query_refines t lo li hi hii ty v k lk hk :
  bpt_wf t -> bptree_key_encode_vec v ty = Ok k ->
  encode_bound lo ty = Ok lk -> encode_bound hi ty = Ok hk ->
  bpt_find t v ty = Ok (bpt_map t !! k) /\
  exists visited, range_scan t lo ty li hi ty hii = Ok visited /\
    StronglySorted key_lt (key_data <$> visited) /\
    forall e, e ∈ visited <-> bpt_map t !! key_data e = Some (ids e) /\
                              above lk li (key_data e) = true /\ below hk hii (key_data e) = true.
Proof.
  intros Hwf Hk Hl Hh. split.
  - unfold bpt_find. rewrite Hk. cbn [mbind outcome_bind]. by rewrite find_entry_run.
  - eexists. split; [by apply range_scan_run|]. split; [apply (sv_sorted_filter key_data key_lt), Hwf|].
    intros e. rewrite list_elem_of_filter, bpt_map_lookup by done. unfold in_range. tauto.
Qed.

Lemma bpt_query_refines_witness :
  bpt_find demo_tree (VInt64 10) INT64 = Ok (bpt_map demo_tree !! encode_signed_be 8 10) /\
  exists visited,
    range_scan demo_tree (Some (VInt64 (-3))) INT64 false (Some (VInt64 10)) INT64 true = Ok visited /\
    StronglySorted key_lt (key_data <$> visited) /\
    forall e, e ∈ visited <->
      bpt_map demo_tree !! key_data e = Some (ids e) /\
      above (Some (encode_signed_be 8 (-3))) false (key_data e) = true /\
      below (Some (encode_signed_be 8 10)) true (key_data e) = true.
Proof. apply (bpt_query_refines demo_tree); [exact demo_tree_wf|reflexivity..]. Defined.
