(* ===== verification/Index.v ===== *)
(** The primary index ([include/xdl/index.h]): a vector sorted by row id, an
    unsorted write buffer with its hash set of ids, and the reverse map from
    pages to row ids.

    The hash containers are [gset] and [gmap].  The order in which
    [update_offsets_for_page] visits a hash set is unspecified in C++; here it is
    the order of [elements], and the refinement shows that it does not matter.

    The theorems show that the manager implements a finite map from row ids to
    locations, whatever sequence of operations, merges included, led to its
    state. *)
From S2P Require Import Prelude Types Std.

(** ** Definitions *)

Record IndexEntry := mkIndexEntry { page_id : Z; page_offset : Z; row_slot : Z }.
#[export] Instance IndexEntry_eq_decision : EqDecision IndexEntry.
Proof. solve_decision. Defined.

(** [IndexManager::Pair] *)
Record Pair := mkPair { pid : Z; entry : IndexEntry }.

Definition pair_lt (a b : Pair) : bool := bool_decide (pid a < pid b).

Record IndexManager := mkIndexManager {
  entries_ : list Pair;
  buf_ : list Pair;
  buf_ids_ : gset Z;
  prepared_ : bool;
  page_to_ids_ : gmap Z (gset Z);
}.

Definition new_IndexManager : IndexManager := mkIndexManager [] [] ∅ false ∅.

Definition MERGE_THRESHOLD : Z := 1024.

Definition idx_lower_bound (l : list Pair) (id : Z) : nat :=
  lower_bound (fun p => bool_decide (pid p < id)) l.

(** [it != entries_.end() && it->id == id], with the element found. *)
Definition idx_search (l : list Pair) (id : Z) : option (nat * Pair) :=
  let it := idx_lower_bound l id in
  p ← l !! it; if bool_decide (pid p = id) then Some (it, p) else None.

(** [std::sort] by id. *)
Definition pair_le (a b : Pair) : Prop := pid a <= pid b.
#[export] Instance pair_le_dec a b : Decision (pair_le a b).
Proof. unfold pair_le. apply _. Defined.

(** [IndexManager::merge] *)
Definition idx_merge (s : IndexManager) : IndexManager :=
  if bool_decide (buf_ s = []) then s
  else mkIndexManager (std_merge pair_lt (entries_ s) (merge_sort pair_le (buf_ s)))
         [] ∅ (prepared_ s) (page_to_ids_ s).

(** [page_to_ids_[page].insert(id)] and [.erase(id)]: [operator[]] creates the
    set of a page that has none. *)
Definition page_add (page id : Z) (m : gmap Z (gset Z)) : gmap Z (gset Z) :=
  <[page := default ∅ (m !! page) ∪ {[id]}]> m.
Definition page_del (page id : Z) (m : gmap Z (gset Z)) : gmap Z (gset Z) :=
  <[page := default ∅ (m !! page) ∖ {[id]}]> m.

(** [IndexManager::insert] *)
Definition idx_insert (id : Z) (e : IndexEntry) : M IndexManager unit :=
  s0 ← get;
  (if prepared_ s0 && bool_decide (zlen (buf_ s0) >= MERGE_THRESHOLD)
   then modify idx_merge else mret tt) ;;
  s ← get;
  if prepared_ s && bool_decide (is_Some (idx_search (entries_ s) id)) then throw DuplicateKeyError else
  if bool_decide (id ∈ buf_ids_ s) then throw DuplicateKeyError else
  put (mkIndexManager (entries_ s) (buf_ s ++ [mkPair id e]) (buf_ids_ s ∪ {[id]}) (prepared_ s)
         (page_add (page_id e) id (page_to_ids_ s))).

(** The first element of the buffer with the id, and its position. *)
Definition buf_search (l : list Pair) (id : Z) : option (nat * Pair) :=
  list_find (fun p => pid p = id) l.

(** [IndexManager::find] *)
Definition idx_find (s : IndexManager) (id : Z) : option IndexEntry :=
  match (if prepared_ s then idx_search (entries_ s) id else None) with
  | Some (_, p) => Some (entry p)
  | None =>
      if bool_decide (id ∉ buf_ids_ s) then None
      else (fun ip => entry ip.2) <$> buf_search (buf_ s) id
  end.

(** [IndexManager::remove] *)
Definition idx_remove (id : Z) : M IndexManager bool :=
  s ← get;
  match (if prepared_ s then idx_search (entries_ s) id else None) with
  | Some (it, p) =>
      put (mkIndexManager (delete it (entries_ s)) (buf_ s) (buf_ids_ s) (prepared_ s)
             (page_del (page_id (entry p)) id (page_to_ids_ s))) ;;
      mret true
  | None =>
      match buf_search (buf_ s) id with
      | Some (it, p) =>
          put (mkIndexManager (entries_ s) (delete it (buf_ s)) (buf_ids_ s ∖ {[id]}) (prepared_ s)
                 (page_del (page_id (entry p)) id (page_to_ids_ s))) ;;
          mret true
      | None => mret false
      end
  end.

(** The common body of [update_offset] and [update_slot]: change one field of
    the entry of an id, in the sorted part or else in the buffer. *)
Definition idx_update (f : IndexEntry -> IndexEntry) (id : Z) (s : IndexManager) : IndexManager :=
  match (if prepared_ s then idx_search (entries_ s) id else None) with
  | Some (it, p) =>
      mkIndexManager (<[it := mkPair (pid p) (f (entry p))]> (entries_ s)) (buf_ s) (buf_ids_ s)
        (prepared_ s) (page_to_ids_ s)
  | None =>
      match buf_search (buf_ s) id with
      | Some (it, p) =>
          mkIndexManager (entries_ s) (<[it := mkPair (pid p) (f (entry p))]> (buf_ s)) (buf_ids_ s)
            (prepared_ s) (page_to_ids_ s)
      | None => s
      end
  end.

Definition set_page_offset (o : Z) (e : IndexEntry) : IndexEntry :=
  mkIndexEntry (page_id e) o (row_slot e).
Definition set_row_slot (n : Z) (e : IndexEntry) : IndexEntry :=
  mkIndexEntry (page_id e) (page_offset e) n.

Definition update_offset (id new_offset : Z) : M IndexManager unit :=
  modify (idx_update (set_page_offset new_offset) id).
Definition update_slot (id new_slot : Z) : M IndexManager unit :=
  modify (idx_update (set_row_slot new_slot) id).

(** [IndexManager::ids_for_page] *)
Definition ids_for_page (s : IndexManager) (page : Z) : option (gset Z) := page_to_ids_ s !! page.

(** [IndexManager::update_offsets_for_page] *)
Definition update_offsets_for_page (page new_offset : Z) : M IndexManager unit :=
  s ← get;
  match ids_for_page s page with
  | None => mret tt
  | Some ids => mfor (fun id => update_offset id new_offset) (elements ids)
  end.

Definition idx_empty (s : IndexManager) : bool :=
  bool_decide (entries_ s = []) && bool_decide (buf_ s = []).
Definition idx_size (s : IndexManager) : Z := zlen (entries_ s) + zlen (buf_ s).

(** [IndexManager::prepare] *)
Definition idx_prepare : M IndexManager unit :=
  s ← get;
  (if bool_decide (buf_ s = []) then mret tt else modify idx_merge) ;;
  modify (fun s => mkIndexManager (entries_ s) (buf_ s) (buf_ids_ s) true (page_to_ids_ s)).

(** [IndexManager::for_each]: the sequence of calls. *)
Definition idx_for_each (s : IndexManager) : list (Z * IndexEntry) :=
  (fun p => (pid p, entry p)) <$> entries_ s ++ buf_ s.

(** *** The abstract index: a finite map *)

Definition idx_map (s : IndexManager) : gmap Z IndexEntry := sv_map pid entry (entries_ s ++ buf_ s).

(** The ids that the map places on a page. *)
Definition on_page (m : gmap Z IndexEntry) (page id : Z) : Prop :=
  exists e, m !! id = Some e /\ page_id e = page.

Record idx_wf (s : IndexManager) : Prop := {
  iwf_sorted : sv_sorted pid Z.lt (entries_ s);
  iwf_nodup : NoDup (pid <$> entries_ s ++ buf_ s);
  iwf_buf : buf_ids_ s = list_to_set (pid <$> buf_ s);
  iwf_unprepared : prepared_ s = false -> entries_ s = [];
  iwf_pages : forall page id,
    id ∈ default ∅ (page_to_ids_ s !! page) <-> on_page (idx_map s) page id;
}.

(** The operations and their specification on the map. *)
Inductive idx_op :=
| OpInsert (id : Z) (e : IndexEntry)
| OpRemove (id : Z)
| OpUpdateOffset (id off : Z)
| OpUpdateSlot (id slot : Z)
| OpUpdatePage (page off : Z)
| OpPrepare.

Definition idx_run (o : idx_op) : M IndexManager bool :=
  match o with
  | OpInsert id e => idx_insert id e ;; mret true
  | OpRemove id => idx_remove id
  | OpUpdateOffset id off => update_offset id off ;; mret true
  | OpUpdateSlot id slot => update_slot id slot ;; mret true
  | OpUpdatePage page off => update_offsets_for_page page off ;; mret true
  | OpPrepare => idx_prepare ;; mret true
  end.

Definition move_page (page off : Z) (e : IndexEntry) : IndexEntry :=
  if bool_decide (page_id e = page) then set_page_offset off e else e.

Definition idx_spec (o : idx_op) (m : gmap Z IndexEntry) : outcome bool * gmap Z IndexEntry :=
  match o with
  | OpInsert id e =>
      if bool_decide (is_Some (m !! id)) then (Throw DuplicateKeyError, m) else (Ok true, <[id := e]> m)
  | OpRemove id => (Ok (bool_decide (is_Some (m !! id))), delete id m)
  | OpUpdateOffset id off => (Ok true, alter (set_page_offset off) id m)
  | OpUpdateSlot id slot => (Ok true, alter (set_row_slot slot) id m)
  | OpUpdatePage page off => (Ok true, move_page page off <$> m)
  | OpPrepare => (Ok true, m)
  end.

(** A client's sequence of calls, each with its outcome; the client goes on
    after an exception. *)
Fixpoint idx_trace (ops : list idx_op) (s : IndexManager) : list (outcome bool) * IndexManager :=
  match ops with
  | [] => ([], s)
  | o :: ops =>
      let '(r, s1) := idx_run o s in
      let '(rs, s2) := idx_trace ops s1 in (r :: rs, s2)
  end.

Fixpoint spec_trace (ops : list idx_op) (m : gmap Z IndexEntry) : list (outcome bool) * gmap Z IndexEntry :=
  match ops with
  | [] => ([], m)
  | o :: ops =>
      let '(r, m1) := idx_spec o m in
      let '(rs, m2) := spec_trace ops m1 in (r :: rs, m2)
  end.

(** ** Lemmas *)

#[export] Instance pair_le_Total : Total pair_le.
Proof. intros a b. unfold pair_le. lia. Qed.
#[export] Instance pair_le_Transitive : Transitive pair_le.
Proof. intros a b c. unfold pair_le. lia. Qed.
#[export] Instance Zlt_Irreflexive : Irreflexive Z.lt.
Proof. intros a. unfold complement. lia. Qed.

Lemma Zlt_total_3 (a b : Z) : a < b \/ a = b \/ b < a.
Proof. lia. Qed.

(** *** Searches *)

Abbreviation no_id id := (Forall (fun p => pid p <> id)).

Lemma idx_search_view l id :
  sv_sorted pid Z.lt l ->
  (exists l1 p l2, l = l1 ++ p :: l2 /\ pid p = id /\ no_id id l1 /\ idx_search l id = Some (length l1, p)) \/
  (no_id id l /\ idx_search l id = None).
Proof.
  intros Hs. unfold idx_search.
  destruct (sv_view_total pid Z.lt Zlt_total_3 (fun id p => bool_decide (pid p < id)) l id) as
    [l1 p l2 -> Hp H1 H2 Hn|l1 l2 -> H1 H2 Hn]; [by intros e; rewrite bool_decide_eq_true|done|..];
    fold (idx_lower_bound) in Hn; unfold idx_lower_bound.
  - left. exists l1, p, l2. split_and!; [done..|by apply (keys_below_irrefl pid Z.lt)|].
    rewrite (lookup_split l1 p l2) by done. cbn. by rewrite bool_decide_eq_true_2, Hn.
  - right. apply (keys_below_irrefl pid Z.lt) in H1. apply (keys_above_irrefl pid Z.lt) in H2.
    split; [by apply Forall_app|]. destruct ((l1 ++ l2) !! _) as [p|] eqn:He; [|done]. cbn.
    rewrite bool_decide_eq_false_2; [done|].
    exact (lookup_split_Forall (fun p => pid p <> id) _ _ _ _ Hn H2 He).
Qed.

Lemma buf_search_view l id :
  (exists l1 p l2, l = l1 ++ p :: l2 /\ pid p = id /\ no_id id l1 /\ buf_search l id = Some (length l1, p)) \/
  (no_id id l /\ buf_search l id = None).
Proof.
  unfold buf_search. destruct (list_find _ l) as [[i p]|] eqn:E.
  - left. pose proof E as (Hi & Hp & Hn)%list_find_Some.
    exists (take i l), p, (drop (S i) l). rewrite take_drop_middle by done. split_and!; [done..| |].
    + apply Forall_forall. intros q (j & Hj)%list_elem_of_lookup.
      pose proof (lookup_lt_Some _ _ _ Hj) as Hlt. rewrite length_take in Hlt.
      rewrite lookup_take_lt in Hj by lia. eapply Hn; [done|lia].
    + rewrite length_take_le; [done|]. apply lookup_lt_Some in Hi. lia.
  - right. by apply list_find_None in E.
Qed.

(** *** The reverse map *)

Definition pages_ok (pg : gmap Z (gset Z)) (m : gmap Z IndexEntry) : Prop :=
  forall page id, id ∈ default ∅ (pg !! page) <-> on_page m page id.

Lemma pages_ok_insert pg m id e :
  m !! id = None -> pages_ok pg m -> pages_ok (page_add (page_id e) id pg) (<[id := e]> m).
Proof.
  intros Hm Hok page id'. unfold page_add. specialize (Hok page id').
  assert (Hon : on_page (<[id := e]> m) page id' <->
                if decide (id' = id) then page = page_id e else on_page m page id').
  { unfold on_page. case_decide as Hid; [subst|by rewrite lookup_insert_ne].
    rewrite lookup_insert_eq. split; [by intros (e' & [= <-] & <-)|intros ->; eauto]. }
  rewrite Hon. destruct (decide (page = page_id e)) as [->|Hne].
  - rewrite lookup_insert_eq. cbn. rewrite elem_of_union, elem_of_singleton, Hok.
    case_decide; [tauto|]. tauto.
  - rewrite lookup_insert_ne, Hok by done. case_decide as Hid; [subst|done].
    unfold on_page. rewrite Hm. split; [by intros (e' & [=] & _)|done].
Qed.

Lemma pages_ok_delete pg m id e :
  m !! id = Some e -> pages_ok pg m -> pages_ok (page_del (page_id e) id pg) (delete id m).
Proof.
  intros Hm Hok page id'. unfold page_del. specialize (Hok page id').
  assert (Hon : on_page (delete id m) page id' <-> id' <> id /\ on_page m page id').
  { unfold on_page. destruct (decide (id' = id)) as [->|Hid].
    - rewrite lookup_delete_eq. split; [by intros (e' & [=] & _)|tauto].
    - rewrite lookup_delete_ne by done. tauto. }
  rewrite Hon. destruct (decide (page = page_id e)) as [->|Hne].
  - rewrite lookup_insert_eq. cbn. rewrite elem_of_difference, elem_of_singleton, Hok. tauto.
  - rewrite lookup_insert_ne, Hok by done. split; [|tauto]. intros Hp. split; [|done].
    intros ->. destruct Hp as (e' & He' & <-). congruence.
Qed.

Lemma pages_ok_alter pg m f id :
  (forall e, page_id (f e) = page_id e) -> pages_ok pg m -> pages_ok pg (alter f id m).
Proof.
  intros Hf Hok page id'. rewrite (Hok page id'). unfold on_page.
  destruct (decide (id' = id)) as [->|Hid]; [|by rewrite lookup_alter_ne].
  rewrite lookup_alter_eq. destruct (m !! id) as [e|]; cbn; [|done]. split.
  - intros (e' & [= <-] & <-). eauto.
  - intros (e' & [= <-] & <-). eauto.
Qed.

(** *** Where an id lives *)

Definition main_search (s : IndexManager) (id : Z) : option (nat * Pair) :=
  if prepared_ s then idx_search (entries_ s) id else None.

Inductive idx_view (s : IndexManager) (id : Z) : Prop :=
| in_entries l1 p l2 :
    entries_ s = l1 ++ p :: l2 -> pid p = id -> prepared_ s = true ->
    main_search s id = Some (length l1, p) ->
    no_id id l1 -> no_id id (l2 ++ buf_ s) -> id ∉ buf_ids_ s -> idx_view s id
| in_buffer l1 p l2 :
    buf_ s = l1 ++ p :: l2 -> pid p = id -> main_search s id = None ->
    buf_search (buf_ s) id = Some (length l1, p) ->
    no_id id (entries_ s ++ l1) -> no_id id l2 -> id ∈ buf_ids_ s -> idx_view s id
| nowhere :
    main_search s id = None -> buf_search (buf_ s) id = None ->
    no_id id (entries_ s ++ buf_ s) -> id ∉ buf_ids_ s -> idx_view s id.

(** Distinct ids: around an element no other has its id. *)
Lemma NoDup_no_id (l1 : list Pair) p l2 :
  NoDup (pid <$> l1 ++ p :: l2) -> no_id (pid p) l1 /\ no_id (pid p) l2.
Proof.
  rewrite fmap_app, fmap_cons. intros (_ & Hd & Hn)%NoDup_app. apply NoDup_cons in Hn as [Hn _].
  split; apply Forall_forall; intros q Hq Heq.
  - apply (Hd (pid p)); [|by left]. rewrite <- Heq. apply list_elem_of_fmap. eauto.
  - apply Hn. rewrite <- Heq. apply list_elem_of_fmap. eauto.
Qed.

Lemma NoDup_drop_mid (l1 : list Pair) p l2 : NoDup (pid <$> l1 ++ p :: l2) -> NoDup (pid <$> l1 ++ l2).
Proof.
  intros Hn. assert (Hp : l1 ++ p :: l2 ≡ₚ p :: (l1 ++ l2)) by (by rewrite Permutation_middle).
  rewrite Hp, fmap_cons in Hn. by apply NoDup_cons in Hn as [_ ?].
Qed.

Lemma no_id_buf s id : idx_wf s -> no_id id (buf_ s) <-> id ∉ buf_ids_ s.
Proof.
  intros Hwf. rewrite (iwf_buf _ Hwf), elem_of_list_to_set, list_elem_of_fmap, Forall_forall.
  split; [intros H (p & -> & Hp); by eapply H|]. intros H p Hp <-. apply H. eauto.
Qed.

Lemma idx_view_total s id : idx_wf s -> idx_view s id.
Proof.
  intros Hwf. pose proof Hwf as [Hs Hnd Hb Hu _].
  pose proof (no_id_buf s id Hwf) as Hbuf.
  assert (Hmain : (exists l1 p l2, entries_ s = l1 ++ p :: l2 /\ pid p = id /\ prepared_ s = true /\
                     main_search s id = Some (length l1, p)) \/
                  (no_id id (entries_ s) /\ main_search s id = None)).
  { unfold main_search. destruct (prepared_ s) eqn:Hp.
    - destruct (idx_search_view (entries_ s) id Hs) as [(l1 & p & l2 & He & Hid & _ & Hf)|[H Hf]]; [left|right; done].
      exists l1, p, l2. done.
    - right. by rewrite Hu. }
  destruct Hmain as [(l1 & p & l2 & He & <- & Hp & Hm)|[Hne Hm]].
  - rewrite He, <- app_assoc in Hnd. cbn in Hnd. apply NoDup_no_id in Hnd as [H1 H2].
    eapply in_entries; [done..|]. apply Hbuf. by apply Forall_app in H2 as [_ ?].
  - destruct (buf_search_view (buf_ s) id) as [(l1 & p & l2 & He & <- & Hn & Hf)|[Hn Hf]].
    + rewrite He, app_assoc in Hnd. apply NoDup_no_id in Hnd as [H1 H2].
      eapply in_buffer; [done..|]. rewrite Hb, elem_of_list_to_set. apply list_elem_of_fmap.
      exists p. split; [done|]. rewrite He. apply elem_of_app. right. left.
    + apply nowhere; [done..| |by apply Hbuf]. by apply Forall_app.
Qed.

(** *** The map at a located element *)

(** Both storage cases put the element in the middle of [entries_ ++ buf_]. *)
Section middle.
Context (k1 k2 : list Pair) (p : Pair) (H1 : no_id (pid p) k1) (H2 : no_id (pid p) k2).

Local Abbreviation to_map := (sv_map pid entry).

Lemma mid_lookup : to_map (k1 ++ p :: k2) !! pid p = Some (entry p).
Proof. by apply sv_map_middle_lookup. Qed.

Lemma mid_delete : to_map (k1 ++ k2) = delete (pid p) (to_map (k1 ++ p :: k2)).
Proof. by apply sv_map_delete. Qed.

Lemma mid_update f :
  to_map (k1 ++ mkPair (pid p) (f (entry p)) :: k2) = alter f (pid p) (to_map (k1 ++ p :: k2)).
Proof.
  rewrite (sv_map_replace pid entry k1 p) by done. apply map_eq. intros j.
  destruct (decide (j = pid p)) as [->|Hj].
  - by rewrite lookup_insert_eq, lookup_alter_eq, mid_lookup.
  - by rewrite lookup_insert_ne, lookup_alter_ne.
Qed.
End middle.

Lemma idx_map_notin s id : no_id id (entries_ s ++ buf_ s) -> idx_map s !! id = None.
Proof. apply sv_map_notin. Qed.

(** *** Runs of the operations *)

Lemma idx_find_run s id : idx_wf s -> idx_find s id = idx_map s !! id.
Proof.
  intros Hwf. unfold idx_find. fold (main_search s id). unfold idx_map.
  destruct (idx_view_total s id Hwf) as [l1 p l2 He <- Hp Hm H1 H2 Hn|l1 p l2 He <- Hm Hb H1 H2 Hn|Hm Hb H1 Hn].
  - rewrite Hm, He, <- app_assoc. cbn [app]. by rewrite mid_lookup.
  - rewrite Hm, bool_decide_eq_false_2, Hb, He, app_assoc, mid_lookup by (done || tauto). done.
  - rewrite Hm, bool_decide_eq_true_2 by done. by rewrite sv_map_notin.
Qed.

Lemma idx_update_run f id s :
  (forall e, page_id (f e) = page_id e) -> idx_wf s ->
  idx_wf (idx_update f id s) /\ idx_map (idx_update f id s) = alter f id (idx_map s).
Proof.
  intros Hf Hwf. pose proof Hwf as [Hs Hnd Hb Hu Hpg]. unfold idx_update. fold (main_search s id).
  assert (Hkeep : forall s', idx_map s' = alter f id (idx_map s) ->
    sv_sorted pid Z.lt (entries_ s') -> (pid <$> entries_ s') = (pid <$> entries_ s) ->
    (pid <$> buf_ s') = (pid <$> buf_ s) -> buf_ids_ s' = buf_ids_ s ->
    prepared_ s' = prepared_ s -> page_to_ids_ s' = page_to_ids_ s -> idx_wf s').
  { intros s' Hm Hss He Hbb Hbi Hp Hpp. split.
    - done.
    - rewrite fmap_app, He, Hbb, <- fmap_app. done.
    - by rewrite Hbi, Hbb.
    - intros Hpf. rewrite Hp in Hpf. apply Hu in Hpf. rewrite Hpf in He. by apply fmap_nil_inv in He.
    - rewrite Hpp, Hm. by apply pages_ok_alter. }
  destruct (idx_view_total s id Hwf) as [l1 p l2 He <- Hp Hm H1 H2 Hn|l1 p l2 He <- Hm Hbs H1 H2 Hn|Hm Hbs H1 Hn];
    rewrite Hm.
  - rewrite He, insert_split by done.
    set (s' := mkIndexManager _ _ _ _ _).
    assert (Heq : idx_map s' = alter f (pid p) (idx_map s)).
    { unfold idx_map, s'. cbn [entries_ buf_]. rewrite He, <- !app_assoc. cbn [app]. by apply mid_update. }
    split; [|done]. subst s'. apply Hkeep; cbn; try done.
    + rewrite He in Hs. apply (sv_sorted_middle pid Z.lt) in Hs. by apply (sv_sorted_middle pid Z.lt).
    + by rewrite He, !fmap_app.
  - rewrite Hbs, He, insert_split by done.
    set (s' := mkIndexManager _ _ _ _ _).
    assert (Heq : idx_map s' = alter f (pid p) (idx_map s)).
    { unfold idx_map, s'. cbn [entries_ buf_]. rewrite He, !app_assoc. by apply mid_update. }
    split; [|done]. subst s'. apply Hkeep; cbn; try done. by rewrite He, !fmap_app.
  - rewrite Hbs. split; [done|]. rewrite alter_id; [done|]. intros e.
    rewrite idx_map_notin by done. done.
Qed.

Lemma idx_remove_run id s :
  idx_wf s ->
  exists s', idx_remove id s = (Ok (bool_decide (is_Some (idx_map s !! id))), s') /\
             idx_wf s' /\ idx_map s' = delete id (idx_map s).
Proof.
  intros Hwf. pose proof Hwf as [Hs Hnd Hb Hu Hpg]. unfold idx_remove.
  rewrite (M_bind_ok get _ _ _ _ eq_refl). fold (main_search s id).
  destruct (idx_view_total s id Hwf) as [l1 p l2 He <- Hp Hm H1 H2 Hn|l1 p l2 He <- Hm Hbs H1 H2 Hn|Hm Hbs H1 Hn];
    rewrite Hm.
  - assert (Hlk : idx_map s !! pid p = Some (entry p))
      by (unfold idx_map; rewrite He, <- app_assoc; by apply mid_lookup).
    eexists. split; [rewrite Hlk; reflexivity|]. rewrite He, delete_split by done.
    set (s' := mkIndexManager _ _ _ _ _).
    assert (Heq : idx_map s' = delete (pid p) (idx_map s)).
    { unfold idx_map, s'. cbn [entries_ buf_]. rewrite He, <- !app_assoc. by apply mid_delete. }
    split; [|done]. assert (Hpg' : pages_ok (page_to_ids_ s') (idx_map s'))
      by (rewrite Heq; by apply pages_ok_delete).
    subst s'. split; cbn; try done.
    + rewrite He in Hs. by apply (sv_sorted_middle pid Z.lt) in Hs as [? _].
    + rewrite He, <- app_assoc in Hnd. rewrite <- app_assoc. by eapply NoDup_drop_mid.
    + congruence.
  - assert (Hlk : idx_map s !! pid p = Some (entry p))
      by (unfold idx_map; rewrite He, app_assoc; by apply mid_lookup).
    rewrite Hbs. eexists. split; [rewrite Hlk; reflexivity|]. rewrite He, delete_split by done.
    set (s' := mkIndexManager _ _ _ _ _).
    assert (Heq : idx_map s' = delete (pid p) (idx_map s)).
    { unfold idx_map, s'. cbn [entries_ buf_]. rewrite He, !app_assoc. by apply mid_delete. }
    split; [|done]. assert (Hpg' : pages_ok (page_to_ids_ s') (idx_map s'))
      by (rewrite Heq; by apply pages_ok_delete).
    subst s'. split; cbn; try done.
    + rewrite He, app_assoc in Hnd. rewrite app_assoc. by eapply NoDup_drop_mid.
    + rewrite Hb, He. apply Forall_app in H1 as [_ H1]. apply set_eq. intros x.
      rewrite elem_of_difference, !elem_of_list_to_set, elem_of_singleton, !fmap_app, fmap_cons.
      rewrite !elem_of_app, elem_of_cons, !list_elem_of_fmap. rewrite Forall_forall in H1, H2.
      split.
      * intros [[Hx|[->|Hx]] Hne]; [by left|done|by right].
      * intros [(q & -> & Hq)|(q & -> & Hq)]; (split; [eauto|auto]).
  - rewrite Hbs. exists s. rewrite idx_map_notin by done. split_and!; [done|done|].
    by rewrite delete_id by (by apply idx_map_notin).
Qed.

(** Merging, when the index is used as prepared. *)
Definition prepared (s : IndexManager) : IndexManager :=
  mkIndexManager (entries_ s) (buf_ s) (buf_ids_ s) true (page_to_ids_ s).

Lemma idx_merge_run s :
  idx_wf s -> idx_wf (prepared (idx_merge s)) /\ idx_map (prepared (idx_merge s)) = idx_map s.
Proof.
  intros Hwf. pose proof Hwf as [Hs Hnd Hb Hu Hpg]. unfold idx_merge.
  case_bool_decide as Hn; [by split|]. set (e' := std_merge _ _ _).
  assert (Hperm : e' ≡ₚ entries_ s ++ buf_ s)
    by (unfold e'; rewrite std_merge_perm; by rewrite merge_sort_Permutation).
  assert (Hmap : sv_map pid entry (e' ++ []) = idx_map s).
  { rewrite app_nil_r. apply sv_map_perm; [|done]. by rewrite Hperm. }
  split; [|done].
  assert (Hpg' : pages_ok (page_to_ids_ s) (sv_map pid entry (e' ++ []))) by (by rewrite Hmap).
  split; cbn; try done.
  - rewrite fmap_app in Hnd. apply NoDup_app in Hnd as (_ & Hd & Hnb).
    apply (std_merge_sorted pid Z.lt Zlt_total_3); [|done| |].
    + intros a b. unfold pair_lt. apply bool_decide_eq_true.
    + apply merge_sort_sorted; [apply _|apply _|intros a b; unfold pair_le; lia|done].
    + intros a b Ha Hbb Heq. rewrite merge_sort_Permutation in Hbb.
      apply (Hd (pid a)); [apply list_elem_of_fmap; eauto|].
      rewrite Heq. apply list_elem_of_fmap; eauto.
  - rewrite app_nil_r. by rewrite Hperm.
Qed.

Lemma idx_merge_prepared s : prepared_ s = true -> prepared (idx_merge s) = idx_merge s.
Proof. intros Hp. unfold idx_merge. case_bool_decide; destruct s; cbn in *; by subst. Qed.

Lemma idx_prepare_run s :
  idx_wf s -> exists s', idx_prepare s = (Ok tt, s') /\ idx_wf s' /\ idx_map s' = idx_map s.
Proof.
  intros Hwf. exists (prepared (idx_merge s)). split; [|by apply idx_merge_run].
  unfold idx_prepare. rewrite (M_bind_ok get _ _ _ _ eq_refl).
  case_bool_decide as Hn; [|done]. unfold idx_merge. by rewrite bool_decide_eq_true_2.
Qed.

(** Insertion after the possible merge. *)
Definition idx_insert_body (id : Z) (e : IndexEntry) : M IndexManager unit :=
  s ← get;
  if prepared_ s && bool_decide (is_Some (idx_search (entries_ s) id)) then throw DuplicateKeyError else
  if bool_decide (id ∈ buf_ids_ s) then throw DuplicateKeyError else
  put (mkIndexManager (entries_ s) (buf_ s ++ [mkPair id e]) (buf_ids_ s ∪ {[id]}) (prepared_ s)
         (page_add (page_id e) id (page_to_ids_ s))).

Lemma idx_insert_body_run id e s :
  idx_wf s ->
  if bool_decide (is_Some (idx_map s !! id)) then idx_insert_body id e s = (Throw DuplicateKeyError, s)
  else exists s', idx_insert_body id e s = (Ok tt, s') /\ idx_wf s' /\ idx_map s' = <[id := e]> (idx_map s).
Proof.
  intros Hwf. pose proof Hwf as [Hs Hnd Hb Hu Hpg]. unfold idx_insert_body.
  rewrite (M_bind_ok get _ _ _ _ eq_refl).
  assert (Hsrch : prepared_ s && bool_decide (is_Some (idx_search (entries_ s) id))
                  = bool_decide (is_Some (main_search s id))).
  { unfold main_search. by destruct (prepared_ s). }
  rewrite Hsrch, <- idx_find_run by done. unfold idx_find. fold (main_search s id).
  destruct (idx_view_total s id Hwf) as [l1 p l2 He <- Hp Hm H1 H2 Hn|l1 p l2 He <- Hm Hbs H1 H2 Hn|Hm Hbs H1 Hn];
    rewrite Hm.
  - rewrite (bool_decide_eq_true_2 (is_Some (Some (entry p)))) by eauto.
    by rewrite bool_decide_eq_true_2 by eauto.
  - rewrite (bool_decide_eq_false_2 (_ ∉ _)), Hbs by tauto. cbn [fmap option_fmap option_map].
    rewrite (bool_decide_eq_true_2 (is_Some (Some _))) by eauto.
    rewrite bool_decide_eq_false_2 by (by intros [? ?]). by rewrite bool_decide_eq_true_2.
  - rewrite (bool_decide_eq_true_2 (_ ∉ _)) by done.
    rewrite !bool_decide_eq_false_2 by (done || by intros [? ?]).
    eexists. split; [reflexivity|]. set (s' := mkIndexManager _ _ _ _ _).
    assert (Heq : idx_map s' = <[id := e]> (idx_map s)).
    { unfold idx_map, s'. cbn [entries_ buf_]. rewrite app_assoc.
      rewrite (sv_map_middle pid entry _ (mkPair id e) []) by done. by rewrite app_nil_r. }
    split; [|done]. assert (Hpg' : pages_ok (page_to_ids_ s') (idx_map s')).
    { rewrite Heq. apply pages_ok_insert; [by apply idx_map_notin|done]. }
    subst s'. split; cbn; try done.
    + rewrite app_assoc, fmap_app. cbn. rewrite (Permutation_app_comm _ [id]). apply NoDup_cons. split; [|done].
      rewrite list_elem_of_fmap. intros (q & -> & Hq). rewrite Forall_forall in H1. by eapply H1.
    + rewrite Hb, fmap_app, list_to_set_app_L. cbn. by rewrite union_empty_r_L.
Qed.

Lemma idx_insert_run id e s :
  idx_wf s ->
  exists s', idx_insert id e s =
      (if bool_decide (is_Some (idx_map s !! id)) then Throw DuplicateKeyError else Ok tt, s') /\
    idx_wf s' /\
    idx_map s' = if bool_decide (is_Some (idx_map s !! id)) then idx_map s else <[id := e]> (idx_map s).
Proof.
  intros Hwf. assert (Hmid : exists s1, idx_insert id e s = idx_insert_body id e s1 /\ idx_wf s1 /\
                                         idx_map s1 = idx_map s).
  { unfold idx_insert. rewrite (M_bind_ok get _ _ _ _ eq_refl). destruct (prepared_ s) eqn:Hp; cbn [andb].
    - case_bool_decide.
      + exists (idx_merge s). rewrite (M_bind_ok (modify _) _ _ _ _ eq_refl).
        rewrite <- (idx_merge_prepared s Hp). by split; [|apply idx_merge_run].
      + exists s. by rewrite (M_bind_ok (mret tt) _ _ _ _ eq_refl).
    - exists s. by rewrite (M_bind_ok (mret tt) _ _ _ _ eq_refl). }
  destruct Hmid as (s1 & -> & Hwf1 & Hm1). pose proof (idx_insert_body_run id e s1 Hwf1) as H.
  rewrite <- Hm1. case_bool_decide; [by exists s1|]. exact H.
Qed.

(** The loop over the ids of a page. *)
Lemma update_offset_loop off l s :
  idx_wf s ->
  exists s', mfor (fun id => update_offset id off) l s = (Ok tt, s') /\ idx_wf s' /\
    forall id, idx_map s' !! id = if bool_decide (id ∈ l) then set_page_offset off <$> idx_map s !! id
                                  else idx_map s !! id.
Proof.
  revert s; induction l as [|x l IH]; intros s Hwf; [by exists s|].
  destruct (idx_update_run (set_page_offset off) x s) as [Hwf1 Hm1]; [done|done|].
  destruct (IH _ Hwf1) as (s' & Hr & Hwf' & Hm'). exists s'. split_and!; [|done|].
  - exact Hr.
  - intros id. rewrite Hm', Hm1. destruct (decide (id = x)) as [->|Hne].
    + rewrite lookup_alter_eq, (bool_decide_eq_true_2 (x ∈ x :: l)) by left.
      case_bool_decide; [|done]. by destruct (idx_map s !! x).
    + rewrite lookup_alter_ne by done. rewrite (bool_decide_ext (id ∈ x :: l) (id ∈ l)); [done|].
      rewrite elem_of_cons. split; [by intros [?|?]|by right].
Qed.

Lemma update_page_run page off s :
  idx_wf s ->
  exists s', update_offsets_for_page page off s = (Ok tt, s') /\ idx_wf s' /\
             idx_map s' = move_page page off <$> idx_map s.
Proof.
  intros Hwf. unfold update_offsets_for_page. rewrite (M_bind_ok get _ _ _ _ eq_refl).
  assert (Hon : forall ids s', default ∅ (ids_for_page s page) = ids ->
    (forall id, idx_map s' !! id = if bool_decide (id ∈ elements ids)
       then set_page_offset off <$> idx_map s !! id else idx_map s !! id) ->
    idx_map s' = move_page page off <$> idx_map s).
  { intros ids s' <- Hm. apply map_eq. intros id. rewrite Hm, lookup_fmap.
    pose proof (iwf_pages _ Hwf page id) as Hp. unfold ids_for_page.
    destruct (idx_map s !! id) as [e|] eqn:E; cbn; [|by case_bool_decide].
    unfold move_page. case_bool_decide as Hin.
    - apply elem_of_elements, Hp in Hin as (e' & He' & <-). rewrite bool_decide_eq_true_2; congruence.
    - rewrite bool_decide_eq_false_2; [done|]. intros Hpage. apply Hin, elem_of_elements, Hp. by exists e. }
  destruct (ids_for_page s page) as [ids|] eqn:E.
  - destruct (update_offset_loop off (elements ids) s Hwf) as (s' & Hr & Hwf' & Hm).
    exists s'. split_and!; [done..|]. by eapply Hon.
  - exists s. split_and!; [done..|]. eapply Hon; [done|]. intros id. cbn. by rewrite elements_empty.
Qed.

(** One operation simulates its specification. *)
Lemma idx_run_sim o s :
  idx_wf s ->
  exists s', idx_run o s = ((idx_spec o (idx_map s)).1, s') /\ idx_wf s' /\
             idx_map s' = (idx_spec o (idx_map s)).2.
Proof.
  intros Hwf. destruct o as [id e|id|id off|id slot|page off|]; cbn [idx_run idx_spec].
  - destruct (idx_insert_run id e s Hwf) as (s' & Hr & Hwf' & Hm). exists s'.
    split; [|by case_bool_decide]. unfold mbind, M_bind. rewrite Hr. by case_bool_decide.
  - destruct (idx_remove_run id s Hwf) as (s' & Hr & Hwf' & Hm). by exists s'.
  - eexists. split; [reflexivity|]. by apply idx_update_run.
  - eexists. split; [reflexivity|]. by apply idx_update_run.
  - destruct (update_page_run page off s Hwf) as (s' & Hr & Hwf' & Hm). exists s'.
    unfold mbind, M_bind. by rewrite Hr.
  - destruct (idx_prepare_run s Hwf) as (s' & Hr & Hwf' & Hm). exists s'.
    unfold mbind, M_bind. by rewrite Hr.
Qed.

Lemma new_IndexManager_wf : idx_wf new_IndexManager.
Proof.
  split; cbn; try done; [constructor|constructor|].
  intros page id. rewrite lookup_empty. cbn. split; [done|]. intros (e & He & _). done.
Qed.

Lemma idx_trace_sim ops s :
  idx_wf s ->
  (idx_trace ops s).1 = (spec_trace ops (idx_map s)).1 /\
  idx_wf (idx_trace ops s).2 /\ idx_map (idx_trace ops s).2 = (spec_trace ops (idx_map s)).2.
Proof.
  revert s; induction ops as [|o ops IH]; intros s Hwf; [done|]. cbn [idx_trace spec_trace].
  destruct (idx_run_sim o s Hwf) as (s1 & -> & Hwf1 & Hm1).
  destruct (idx_spec o (idx_map s)) as [r m1] eqn:E. cbn in Hm1 |- *. subst m1.
  destruct (IH s1 Hwf1) as (Hr & Hw & Hm).
  destruct (idx_trace ops s1), (spec_trace ops (idx_map s1)). cbn in *. by subst.
Qed.

Lemma idx_for_each_perm s : idx_wf s -> idx_for_each s ≡ₚ map_to_list (idx_map s).
Proof.
  intros Hwf. symmetry. apply map_to_list_to_map.
  unfold idx_for_each. rewrite <- list_fmap_compose. apply Hwf.
Qed.

(** ** Properties *)

(** C31: the primary index is a finite map.  For every sequence of insertions,
    removals, updates of an offset, of a slot or of the offsets of a page, and
    [prepare] calls, starting from a new manager, with the merges that the
    threshold triggers: the outcomes (duplicate keys included) are those of the
    map; afterwards [find], [size], [empty], the entries of [for_each] and the
    ids of every page are those of the map. *)
Theorem index_refines_map ops :
  let '(rs, s) := idx_trace ops new_IndexManager in
  let '(rs', m) := spec_trace ops ∅ in
  rs = rs' /\
  (forall id, idx_find s id = m !! id) /\
  idx_for_each s ≡ₚ map_to_list m /\
  idx_size s = Z.of_nat (size m) /\ idx_empty s = bool_decide (m = ∅) /\
  (forall page id, id ∈ default ∅ (ids_for_page s page) <-> on_page m page id).
Proof.
  destruct (idx_trace_sim ops new_IndexManager new_IndexManager_wf) as (Hr & Hwf & Hm).
  change (idx_map new_IndexManager) with (∅ : gmap Z IndexEntry) in *.
  destruct (idx_trace ops new_IndexManager) as [rs s], (spec_trace ops ∅) as [rs' m].
  cbn in Hr, Hwf, Hm. subst rs' m. pose proof (idx_for_each_perm s Hwf) as Hp.
  assert (Hlen : length (entries_ s ++ buf_ s) = size (idx_map s)).
  { rewrite <- length_map_to_list, <- Hp. unfold idx_for_each. by rewrite length_fmap. }
  split_and!; [done|by intros; apply idx_find_run|done| | |apply Hwf].
  - unfold idx_size. rewrite <- Hlen, length_app. lia.
  - unfold idx_empty. apply Bool.eq_iff_eq_true.
    rewrite andb_true_iff, !bool_decide_eq_true, <- map_size_empty_iff, <- Hlen, length_app.
    destruct (entries_ s), (buf_ s); cbn; split; (done || lia || naive_solver).
Qed.
