(* ===== verification/Posix.v ===== *)
(** Files as the engine uses them: the system calls are not part of the
    repository, so they are an interface, the class [FileSys], whose laws
    [FileLaws] state the documented behaviour of POSIX files, short transfers and
    failures included.  [MemFile] is an instance that transfers at most a given
    number of bytes per call.

    On top of the interface: the retry loops [safe_write] ([src/wal.cpp]),
    [safe_pread] and [safe_pwrite] ([src/storage.cpp]). *)
From S2P Require Import Prelude.

(** ** The interface *)

(** Bytes [bs] written at offset [p] of a file: a gap is filled with zeros. *)
Definition file_write (p : Z) (bs m : bytes) : bytes :=
  splice (Z.to_nat p) bs (m ++ replicate (Z.to_nat p - length m) x00).

(** A file at a path.  [f_synced] is what a crash cannot lose: the content at
    the last [fsync] that succeeded. *)
Class FileSys (F : Type) := {
  f_exists : F -> bool;
  f_content : F -> bytes;
  f_synced : F -> bytes;
  f_pos : F -> Z;
  sys_open : bool -> F -> bool * F;       (* with O_CREAT or not; success *)
  sys_write : bytes -> F -> Z * F;        (* the result of write *)
  sys_read : Z -> F -> bytes * F;         (* the bytes read; none on end or error *)
  sys_lseek : Z -> F -> F;
  sys_pread : Z -> Z -> F -> bytes;       (* count, offset *)
  sys_pwrite : bytes -> Z -> F -> Z * F;
  sys_fstat : F -> option Z;              (* the size *)
  sys_fsync : F -> Z * F;
  sys_unlink : F -> bool * F;
}.

Class FileLaws (F : Type) `{FileSys F} := {
  open_law creat f ok f' :
    sys_open creat f = (ok, f') ->
    f_synced f' = f_synced f /\
    if ok then (creat = true \/ f_exists f = true) /\ f_exists f' = true /\
               f_content f' = f_content f /\ f_pos f' = 0
    else f' = f;
  absent_law f : f_exists f = false -> f_content f = [];
  write_law bs f n f' :
    sys_write bs f = (n, f') ->
    n <= zlen bs /\ f_exists f' = f_exists f /\ f_synced f' = f_synced f /\
    f_content f' = (if bool_decide (0 < n) then file_write (f_pos f) (take (Z.to_nat n) bs) (f_content f)
                    else f_content f) /\
    f_pos f' = f_pos f + Z.max 0 n;
  read_law n f bs f' :
    sys_read n f = (bs, f') ->
    (exists k, bs = take k (drop (Z.to_nat (f_pos f)) (f_content f))) /\ zlen bs <= Z.max 0 n /\
    f_exists f' = f_exists f /\ f_content f' = f_content f /\ f_synced f' = f_synced f /\
    f_pos f' = f_pos f + zlen bs;
  lseek_law p f :
    f_pos (sys_lseek p f) = p /\ f_content (sys_lseek p f) = f_content f /\
    f_synced (sys_lseek p f) = f_synced f /\ f_exists (sys_lseek p f) = f_exists f;
  pread_law n off f :
    (exists k, sys_pread n off f = take k (drop (Z.to_nat off) (f_content f))) /\
    zlen (sys_pread n off f) <= Z.max 0 n;
  pwrite_law bs off f n f' :
    sys_pwrite bs off f = (n, f') ->
    n <= zlen bs /\ f_exists f' = f_exists f /\ f_synced f' = f_synced f /\ f_pos f' = f_pos f /\
    f_content f' = (if bool_decide (0 < n) then file_write off (take (Z.to_nat n) bs) (f_content f)
                    else f_content f);
  fstat_law f n : sys_fstat f = Some n -> n = zlen (f_content f);
  fsync_law f r f' :
    sys_fsync f = (r, f') ->
    f_content f' = f_content f /\ f_pos f' = f_pos f /\ f_exists f' = f_exists f /\
    f_synced f' = if bool_decide (r = 0) then f_content f else f_synced f;
  unlink_law f ok f' :
    sys_unlink f = (ok, f') ->
    if ok then f_exists f' = false /\ f_content f' = [] else f' = f;
}.

(** The calls succeed: what an environment without I/O errors adds. *)
Class FileReliable (F : Type) `{FileSys F} := {
  open_ok creat f : creat = true \/ f_exists f = true -> (sys_open creat f).1 = true;
  write_ok bs f : f_exists f = true -> bs <> [] -> 0 < (sys_write bs f).1;
  read_ok n f : 0 < n -> 0 <= f_pos f < zlen (f_content f) -> (sys_read n f).1 <> [];
  pread_ok n off f : 0 < n -> 0 <= off < zlen (f_content f) -> sys_pread n off f <> [];
  pwrite_ok bs off f : f_exists f = true -> bs <> [] -> 0 < (sys_pwrite bs off f).1;
  fstat_ok f : is_Some (sys_fstat f);
  fsync_ok f : (sys_fsync f).1 = 0;
  unlink_ok f : (sys_unlink f).1 = true;
}.

(** ** The retry loops *)

Section loops.
Context {F : Type} `{FileSys F}.

Definition sys (A : Type) (m : F -> A * F) : M F A := fun f => let '(a, f') := m f in (Ok a, f').

(** [safe_write] of [wal.cpp]: [data] is what is left to write.  Every round
    that goes on writes at least one byte, so [length data] rounds are enough. *)
Fixpoint safe_write_loop (fuel : nat) (data : bytes) : M F unit :=
  if bool_decide (data = []) then mret tt else
  match fuel with
  | O => ub
  | S fuel =>
      n ← sys Z (sys_write data);
      if bool_decide (n <= 0) then throw IOError else
      safe_write_loop fuel (drop (Z.to_nat n) data)
  end.

Definition safe_write (data : bytes) : M F unit := safe_write_loop (length data) data.

(** [safe_pread] of [storage.cpp], into a buffer: what was read so far is
    [acc]. *)
Fixpoint safe_pread_loop (fuel : nat) (count offset : Z) (acc : bytes) : M F bytes :=
  let done := zlen acc in
  if bool_decide (done >= count) then mret acc else
  match fuel with
  | O => ub
  | S fuel =>
      f ← get;
      let bs := sys_pread (count - done) (offset + done) f in
      if bool_decide (zlen bs <= 0) then throw IOError else
      safe_pread_loop fuel count offset (acc ++ bs)
  end.

Definition safe_pread (count offset : Z) : M F bytes := safe_pread_loop (Z.to_nat count) count offset [].

(** [safe_pwrite] of [storage.cpp]. *)
Fixpoint safe_pwrite_loop (fuel : nat) (buf : bytes) (offset : Z) : M F unit :=
  if bool_decide (buf = []) then mret tt else
  match fuel with
  | O => ub
  | S fuel =>
      n ← sys Z (sys_pwrite buf offset);
      if bool_decide (n <= 0) then throw IOError else
      safe_pwrite_loop fuel (drop (Z.to_nat n) buf) (offset + n)
  end.

Definition safe_pwrite (buf : bytes) (offset : Z) : M F unit := safe_pwrite_loop (length buf) buf offset.

Definition fsync : M F unit := _ ← sys Z sys_fsync; mret tt.
End loops.

(** ** An instance: a file in memory that moves at most [chunk] bytes a call,
    and whose [fsync] works or not. *)
Record MemFile (chunk : Z) (fsync_works : bool) := mkMemFile {
  mf_exists : bool; mf_bytes : bytes; mf_synced : bytes; mf_pos : Z;
}.
Arguments mkMemFile {chunk fsync_works}.
Arguments mf_exists {_ _}. Arguments mf_bytes {_ _}. Arguments mf_synced {_ _}. Arguments mf_pos {_ _}.

Definition mf_content {k y} (f : MemFile k y) : bytes := if mf_exists f then mf_bytes f else [].

(** [n] bytes written at an offset. *)
Definition mf_put {k y} (bs : bytes) (off : Z) (f : MemFile k y) : Z * bytes :=
  let n := if mf_exists f then Z.min k (zlen bs) else -1 in
  (n, if bool_decide (0 < n) then file_write off (take (Z.to_nat n) bs) (mf_bytes f) else mf_bytes f).

Definition mf_get {k y} (n off : Z) (f : MemFile k y) : bytes :=
  take (Z.to_nat (Z.min k n)) (drop (Z.to_nat off) (mf_content f)).

#[export] Instance MemFile_sys k y : FileSys (MemFile k y) := {
  f_exists := mf_exists; f_content := mf_content; f_synced := mf_synced; f_pos := mf_pos;
  sys_open creat f :=
    if creat || mf_exists f then (true, mkMemFile true (mf_content f) (mf_synced f) 0) else (false, f);
  sys_write bs f :=
    let '(n, c) := mf_put bs (mf_pos f) f in
    (n, mkMemFile (mf_exists f) c (mf_synced f) (mf_pos f + Z.max 0 n));
  sys_read n f :=
    let bs := mf_get n (mf_pos f) f in
    (bs, mkMemFile (mf_exists f) (mf_bytes f) (mf_synced f) (mf_pos f + zlen bs));
  sys_lseek p f := mkMemFile (mf_exists f) (mf_bytes f) (mf_synced f) p;
  sys_pread n off f := mf_get n off f;
  sys_pwrite bs off f :=
    let '(n, c) := mf_put bs off f in (n, mkMemFile (mf_exists f) c (mf_synced f) (mf_pos f));
  sys_fstat f := Some (zlen (mf_content f));
  sys_fsync f :=
    if y then (0, mkMemFile (mf_exists f) (mf_bytes f) (mf_content f) (mf_pos f)) else (-1, f);
  sys_unlink f := (true, mkMemFile false [] (mf_synced f) 0);
}.

(** ** Lemmas *)

#[export] Instance MemFile_laws k y : FileLaws (MemFile k y).
Proof.
  split.
  - intros [] [[] c s p] ok f' [= <- <-]; cbn; naive_solver.
  - intros [[]] He; cbn in *; done.
  - intros bs [[] c s p] n f' [= <- <-]; cbn; split_and!; try done; lia || by case_bool_decide.
  - intros n [e c s p] bs f' [= <- <-]; cbn. split_and!; try done; unfold mf_get; [eauto|].
    rewrite length_take. lia.
  - done.
  - intros n off [e c s p]; cbn. unfold mf_get. split; [eauto|]. rewrite length_take. lia.
  - intros bs off [[] c s p] n f' [= <- <-]; cbn; split_and!; try done; lia || by case_bool_decide.
  - by intros f n [= <-].
  - intros [[] c s p] r f'; destruct y; intros [= <- <-]; cbn; done.
  - intros f ok f' [= <- <-]. done.
Qed.

#[export] Instance MemFile_reliable p : FileReliable (MemFile (Zpos p) true).
Proof.
  split.
  - intros [] [[]] [|]; cbn in *; done.
  - intros [|b bs] [[]]; cbn; intros; done || lia.
  - intros n [e c s q]; cbn [f_pos f_content MemFile_sys mf_pos]. intros Hn Hq Hnil.
    apply (f_equal length) in Hnil. cbn [sys_read MemFile_sys fst] in Hnil. unfold mf_get in Hnil.
    rewrite length_take, length_drop in Hnil. cbn [mf_pos length] in Hnil. lia.
  - intros n off [e c s q]; cbn [f_content MemFile_sys]. intros Hn Hq Hnil.
    apply (f_equal length) in Hnil. cbn [sys_pread MemFile_sys] in Hnil. unfold mf_get in Hnil.
    rewrite length_take, length_drop in Hnil. cbn [length] in Hnil. lia.
  - intros [|b bs] off [[]]; cbn; intros; done || lia.
  - cbn. eauto.
  - done.
  - done.
Qed.

(** *** Writing at an offset *)

Lemma file_write_end bs m : file_write (zlen m) bs m = m ++ bs.
Proof.
  unfold file_write. rewrite Nat2Z.id, Nat.sub_diag, app_nil_r. unfold splice.
  rewrite take_ge, drop_ge by lia. by rewrite app_nil_r.
Qed.

Lemma file_write_inside p bs m :
  0 <= p -> p + zlen bs <= zlen m -> file_write p bs m = splice (Z.to_nat p) bs m.
Proof.
  intros. unfold file_write. replace (Z.to_nat p - length m)%nat with O by lia. by rewrite app_nil_r.
Qed.

Lemma length_file_write p bs m :
  0 <= p -> zlen (file_write p bs m) = Z.max (zlen m) (p + zlen bs).
Proof.
  intros. unfold file_write, splice.
  rewrite !length_app, length_take, length_drop, length_app, length_replicate. lia.
Qed.

Lemma file_write_nil p m : 0 <= p <= zlen m -> file_write p [] m = m.
Proof.
  intros. unfold file_write, splice. replace (Z.to_nat p - length m)%nat with O by lia.
  rewrite app_nil_r. cbn. by rewrite Nat.add_0_r, take_drop.
Qed.

(** Two writes side by side are one. *)
Lemma file_write_app p bs1 bs2 m :
  0 <= p -> bs1 <> [] ->
  file_write (p + zlen bs1) bs2 (file_write p bs1 m) = file_write p (bs1 ++ bs2) m.
Proof.
  intros Hp Hne. unfold file_write at 1. rewrite Z2Nat.inj_add, Nat2Z.id by lia.
  assert (Hlen : (Z.to_nat p + length bs1 - length (file_write p bs1 m))%nat = O).
  { pose proof (length_file_write p bs1 m Hp). lia. }
  rewrite Hlen. cbn [replicate]. rewrite app_nil_r. unfold file_write, splice.
  set (z := m ++ replicate _ x00). assert (Hz : (Z.to_nat p <= length z)%nat).
  { unfold z. rewrite length_app, length_replicate. lia. }
  rewrite take_app_add' by (rewrite length_take; lia). rewrite take_app_length, <- !app_assoc.
  do 3 f_equal. rewrite drop_app_ge, length_take by (rewrite length_take; lia).
  rewrite drop_app_ge, drop_drop, length_app by lia. f_equal. lia.
Qed.

(** What lies outside the written range is unchanged. *)
Lemma file_write_lookup_lt p bs m i :
  (i < Z.to_nat p)%nat -> (i < length m)%nat -> file_write p bs m !! i = m !! i.
Proof.
  intros Hi Hm. unfold file_write, splice.
  rewrite lookup_app_l by (rewrite length_take, length_app, length_replicate; lia).
  rewrite lookup_take_lt by done. by rewrite lookup_app_l.
Qed.

Section loop_lemmas.
Context {F : Type} `{FileLaws F}.

(** A [safe_write] that returns has written everything; otherwise it raises
    [IOError], and a part of the data may be in the file. *)
Lemma safe_write_loop_spec fuel data f :
  (length data <= fuel)%nat -> 0 <= f_pos f ->
  exists k f', (k <= length data)%nat /\
    f_synced f' = f_synced f /\ f_exists f' = f_exists f /\ f_pos f' = f_pos f + Z.of_nat k /\
    (f_content f' = if bool_decide (k = O) then f_content f
                    else file_write (f_pos f) (take k data) (f_content f)) /\
    ((safe_write_loop fuel data f = (Ok tt, f') /\ k = length data) \/
     safe_write_loop fuel data f = (Throw IOError, f')).
Proof.
  revert data f; induction fuel as [|fuel IH]; intros data f Hf Hp; cbn [safe_write_loop].
  - destruct data; [|cbn in Hf; lia]. exists O, f. split_and!; cbn; [lia|done|done|lia|done|by left].
  - case_bool_decide as Hd; [subst; exists O, f; split_and!; cbn; [lia|done|done|lia|done|by left]|].
    unfold sys, mbind, M_bind. destruct (sys_write data f) as [n f1] eqn:E.
    apply write_law in E as (Hn & He & Hs & Hc & Hpos).
    destruct (decide (n <= 0)) as [Hle|Hle];
      [rewrite (bool_decide_eq_true_2 (n <= 0)) by done|rewrite (bool_decide_eq_false_2 (n <= 0)) by done].
    + exists O, f1. split_and!; [lia|done|done|rewrite Hpos; lia| |by right].
      rewrite Hc. by rewrite bool_decide_eq_false_2 by lia.
    + destruct (IH (drop (Z.to_nat n) data) f1) as (k & f' & Hk & Hs' & He' & Hp' & Hc' & Hres);
        [rewrite length_drop; lia|rewrite Hpos; lia|]. rewrite length_drop in Hk.
      exists (Z.to_nat n + k)%nat, f'. split_and!; [lia|congruence|congruence|rewrite Hp', Hpos; lia| |].
      * rewrite (bool_decide_eq_false_2 (_ + _ = _)%nat) by lia.
        rewrite Hc', Hc, (bool_decide_eq_true_2 (0 < n)) by lia.
        replace (take (Z.to_nat n + k) data) with (take (Z.to_nat n) data ++ take k (drop (Z.to_nat n) data))
          by (by rewrite take_take_drop).
        case_bool_decide as Hk0; [by rewrite Hk0, take_0, app_nil_r|].
        rewrite <- file_write_app; [|done|].
        -- do 2 f_equal. rewrite Hpos, length_take. lia.
        -- destruct data; [done|]. replace (Z.to_nat n) with (S (Z.to_nat n - 1)) by lia. done.
      * destruct Hres as [[Hr Hl]|Hr]; [left|right; exact Hr]. split; [exact Hr|].
        rewrite length_drop in Hl. lia.
Qed.

Lemma safe_write_ok `{!FileReliable F} data f :
  f_exists f = true -> 0 <= f_pos f ->
  exists f', safe_write data f = (Ok tt, f') /\ f_synced f' = f_synced f /\ f_exists f' = f_exists f /\
    f_pos f' = f_pos f + zlen data /\
    f_content f' = if bool_decide (data = []) then f_content f else file_write (f_pos f) data (f_content f).
Proof.
  intros Hex Hp. unfold safe_write.
  assert (Hnt : forall fuel data f f', f_exists f = true -> safe_write_loop fuel data f <> (Throw IOError, f')).
  { clear data f Hex Hp. induction fuel as [|fuel IH]; intros data f f' Hex; cbn; case_bool_decide as Hd; try done.
    unfold sys, mbind, M_bind. pose proof (write_ok data f Hex Hd) as Hw.
    destruct (sys_write data f) as [n f1] eqn:E. cbn in Hw. apply write_law in E as (_ & He & _).
    rewrite bool_decide_eq_false_2 by lia. apply IH. congruence. }
  destruct (safe_write_loop_spec (length data) data f) as (k & f' & Hk & Hs & He & Hpos & Hc & Hr); [done|done|].
  destruct Hr as [[Hr ->]|Hr]; [|by apply Hnt in Hr].
  exists f'. split_and!; [done..|]. rewrite Hc, take_ge by lia. destruct data; [done|].
  rewrite !bool_decide_eq_false_2 by done. done.
Qed.
End loop_lemmas.

(** *** Reading and writing at an offset *)

Lemma load_file_write p bs m : 0 <= p -> load (file_write p bs m) p (zlen bs) = Ok bs.
Proof.
  intros Hp. pose proof (length_file_write p bs m Hp) as Hl.
  unfold load. rewrite bool_decide_eq_true_2 by lia. f_equal. unfold file_write, splice.
  set (z := m ++ replicate _ x00). assert (Hz : (Z.to_nat p <= length z)%nat).
  { unfold z. rewrite length_app, length_replicate. lia. }
  rewrite drop_app_length' by (rewrite length_take; lia). by rewrite Nat2Z.id, take_app_length.
Qed.

Lemma load_lookup m src n bs :
  load m src n = Ok bs <->
  0 <= src /\ 0 <= n /\ src + n <= zlen m /\ length bs = Z.to_nat n /\
  forall i, (i < Z.to_nat n)%nat -> bs !! i = m !! (Z.to_nat src + i)%nat.
Proof.
  unfold load. split.
  - case_bool_decide as H; [|done]. intros [= <-]. split_and!; try lia.
    + rewrite length_take, length_drop. lia.
    + intros i Hi. by rewrite lookup_take_lt, lookup_drop.
  - intros (H1 & H2 & H3 & Hl & Hi). rewrite bool_decide_eq_true_2 by lia. f_equal.
    apply list_eq. intros i. destruct (decide (i < Z.to_nat n)%nat).
    + rewrite lookup_take_lt, lookup_drop by done. symmetry. by apply Hi.
    + rewrite (lookup_ge_None_2 bs) by lia. apply lookup_ge_None_2. rewrite length_take. lia.
Qed.

Lemma file_write_lookup_ge p bs m i :
  0 <= p -> (Z.to_nat p + length bs <= i)%nat -> file_write p bs m !! i = m !! i.
Proof.
  intros Hp Hi. unfold file_write, splice. set (z := m ++ replicate _ x00).
  assert (Hz : (Z.to_nat p <= length z)%nat) by (unfold z; rewrite length_app, length_replicate; lia).
  rewrite lookup_app_r by (rewrite length_take; lia). rewrite lookup_app_r by (rewrite length_take; lia).
  rewrite lookup_drop, length_take. replace (_ + _)%nat with i by lia. unfold z.
  destruct (decide (i < length m)%nat); [by rewrite lookup_app_l|].
  rewrite (lookup_ge_None_2 m) by lia. rewrite lookup_app_r by lia. apply lookup_replicate_None. lia.
Qed.

(** What lies beside the written range is unchanged. *)
Lemma load_file_write_other p bs m src n r :
  0 <= p -> src + n <= p \/ p + zlen bs <= src ->
  load m src n = Ok r -> load (file_write p bs m) src n = Ok r.
Proof.
  intros Hp Hd. rewrite !load_lookup. intros (H1 & H2 & H3 & H4 & H5). split_and!; try done.
  - rewrite length_file_write by done. lia.
  - intros i Hi. rewrite H5 by done. destruct Hd as [Hd|Hd].
    + by rewrite file_write_lookup_lt by lia.
    + by rewrite file_write_lookup_ge by lia.
Qed.

Lemma load_split m src n1 n2 b1 b2 :
  load m src n1 = Ok b1 -> load m (src + n1) n2 = Ok b2 -> load m src (n1 + n2) = Ok (b1 ++ b2).
Proof.
  rewrite !load_lookup. intros (? & ? & ? & Hl1 & Hb1) (? & ? & ? & Hl2 & Hb2). split_and!; try lia.
  - rewrite length_app. lia.
  - intros i Hi. destruct (decide (i < length b1)%nat).
    + rewrite lookup_app_l by done. apply Hb1. lia.
    + rewrite lookup_app_r, Hb2 by lia. f_equal. lia.
Qed.

Lemma load_unsplit m src n b1 b2 :
  load m src n = Ok (b1 ++ b2) -> load m src (zlen b1) = Ok b1 /\ load m (src + zlen b1) (zlen b2) = Ok b2.
Proof.
  rewrite !load_lookup. rewrite length_app. intros (? & ? & ? & Hl & Hb). split; split_and!; try lia.
  - intros i Hi. rewrite <- Hb by lia. by rewrite lookup_app_l by lia.
  - intros i Hi. specialize (Hb (length b1 + i)%nat ltac:(lia)). rewrite lookup_app_r in Hb by lia.
    replace (length b1 + i - length b1)%nat with i in Hb by lia. rewrite Hb. f_equal. lia.
Qed.

Lemma load_nil m src : 0 <= src <= zlen m -> load m src 0 = Ok [].
Proof. intros. unfold load. by bd. Qed.

Lemma load_all bs : load bs 0 (zlen bs) = Ok bs.
Proof. rewrite <- (app_nil_r bs) at 1. by apply (load_app_mid [] bs []). Qed.

Section pread_lemmas.
Context {F : Type} `{FileLaws F}.

(** The bytes a call returns are those at the offset. *)
Lemma sys_pread_load n off f :
  0 <= off -> sys_pread n off f <> [] ->
  load (f_content f) off (zlen (sys_pread n off f)) = Ok (sys_pread n off f) /\ zlen (sys_pread n off f) <= Z.max 0 n.
Proof.
  intros Ho Hne. destruct (pread_law n off f) as [[k Hk] Hlen]. split; [|done].
  set (bs := sys_pread n off f) in *. assert (0 < zlen bs) by (destruct bs; [done|cbn; lia]).
  apply (f_equal length) in Hk as Hl. rewrite length_take, length_drop in Hl.
  apply load_lookup. split_and!; [lia..|]. intros i Hi. rewrite Hk.
  rewrite lookup_take_lt by lia. by rewrite lookup_drop.
Qed.

(** A [safe_pread] that returns has the bytes; it changes nothing. *)
Lemma safe_pread_loop_spec fuel count offset acc f :
  0 <= offset -> zlen acc <= count -> count - zlen acc <= Z.of_nat fuel ->
  (exists bs, safe_pread_loop fuel count offset acc f = (Ok (acc ++ bs), f) /\
     (count = zlen acc /\ bs = [] \/ load (f_content f) (offset + zlen acc) (count - zlen acc) = Ok bs)) \/
  safe_pread_loop fuel count offset acc f = (Throw IOError, f).
Proof.
  revert acc. induction fuel as [|fuel IH]; intros acc Ho Hc Hf; cbn [safe_pread_loop]; cbv zeta.
  - rewrite bool_decide_eq_true_2 by lia. left. exists []. rewrite app_nil_r. split; [done|]. left. split; [lia|done].
  - case_bool_decide as Hn; [left; exists []; rewrite app_nil_r; split; [done|]; left; split; [lia|done]|].
    rewrite (M_bind_ok get _ _ _ _ eq_refl).
    pose proof (sys_pread_load (count - zlen acc) (offset + zlen acc) f ltac:(lia)) as Hld.
    set (bs := sys_pread _ _ f) in *. clearbody bs.
    case_bool_decide as Hb; [by right|].
    destruct Hld as [Hload Hlen]; [by intros ->|].
    destruct (IH (acc ++ bs)) as [(bs' & Hr & Hb')|Hr]; rewrite ?length_app in *; [lia..| |by right].
    left. exists (bs ++ bs'). rewrite app_assoc. split; [done|]. right.
    replace (count - zlen acc) with (zlen bs + (count - (zlen acc + zlen bs))) by lia. apply load_split; [done|].
    destruct Hb' as [[Hz ->]|Hb'].
    + replace (count - _) with 0 by lia. apply load_nil. apply load_lookup in Hload as (? & ? & ? & _). lia.
    + rewrite <- Hb'. f_equal; lia.
Qed.

Lemma safe_pread_spec count offset f :
  0 <= offset -> 0 <= count ->
  (exists bs, safe_pread count offset f = (Ok bs, f) /\
     (count = 0 /\ bs = [] \/ load (f_content f) offset count = Ok bs)) \/
  safe_pread count offset f = (Throw IOError, f).
Proof.
  intros Ho Hc. unfold safe_pread.
  destruct (safe_pread_loop_spec (Z.to_nat count) count offset [] f) as [(bs & Hr & Hb)|Hr]; [done|cbn; lia..| |by right].
  left. exists bs. split; [exact Hr|]. cbn [length] in Hb. change (Z.of_nat 0) with 0 in Hb.
  rewrite Z.add_0_r, Z.sub_0_r in Hb. done.
Qed.

Lemma safe_pread_ok `{!FileReliable F} count offset f bs :
  load (f_content f) offset count = Ok bs -> safe_pread count offset f = (Ok bs, f).
Proof.
  intros Hl. pose proof Hl as (Ho & Hc & Hlen & _)%load_lookup.
  destruct (safe_pread_spec count offset f) as [(bs' & Hr & Hb)|Hr]; [done|done| |].
  - destruct Hb as [[-> ->]|Hb]; [|congruence]. rewrite Hr. rewrite load_nil in Hl by lia. by injection Hl as <-.
  - exfalso. revert Hr. unfold safe_pread.
    assert (Hnt : forall fuel acc f', zlen acc <= count ->
      safe_pread_loop fuel count offset acc f <> (Throw IOError, f')).
    { induction fuel as [|fuel IH]; intros acc f' Hacc; cbn [safe_pread_loop]; cbv zeta; case_bool_decide as Hn; try done.
      rewrite (M_bind_ok get _ _ _ _ eq_refl).
      assert (Hne : sys_pread (count - zlen acc) (offset + zlen acc) f <> []) by (apply pread_ok; lia).
      destruct (pread_law (count - zlen acc) (offset + zlen acc) f) as [_ Hle].
      rewrite bool_decide_eq_false_2 by (destruct (sys_pread _ _ f); [done|cbn; lia]).
      apply IH. rewrite length_app. lia. }
    apply Hnt. cbn. lia.
Qed.

Lemma safe_pwrite_loop_spec fuel data offset f :
  (length data <= fuel)%nat -> 0 <= offset ->
  exists k f', (k <= length data)%nat /\
    f_synced f' = f_synced f /\ f_exists f' = f_exists f /\ f_pos f' = f_pos f /\
    (f_content f' = if bool_decide (k = O) then f_content f
                    else file_write offset (take k data) (f_content f)) /\
    ((safe_pwrite_loop fuel data offset f = (Ok tt, f') /\ k = length data) \/
     safe_pwrite_loop fuel data offset f = (Throw IOError, f')).
Proof.
  revert data offset f; induction fuel as [|fuel IH]; intros data offset f Hf Hp; cbn [safe_pwrite_loop].
  - destruct data; [|cbn in Hf; lia]. exists O, f. split_and!; cbn; [lia|done..|by left].
  - case_bool_decide as Hd; [subst; exists O, f; split_and!; cbn; [lia|done..|by left]|].
    unfold sys, mbind, M_bind. destruct (sys_pwrite data offset f) as [n f1] eqn:E.
    apply pwrite_law in E as (Hn & He & Hs & Hpos & Hc).
    destruct (decide (n <= 0)) as [Hle|Hle];
      [rewrite (bool_decide_eq_true_2 (n <= 0)) by done|rewrite (bool_decide_eq_false_2 (n <= 0)) by done].
    + exists O, f1. split_and!; [lia|done..| |by right]. rewrite Hc. by rewrite bool_decide_eq_false_2 by lia.
    + destruct (IH (drop (Z.to_nat n) data) (offset + n) f1) as (k & f' & Hk & Hs' & He' & Hp' & Hc' & Hres);
        [rewrite length_drop; lia|lia|]. rewrite length_drop in Hk.
      exists (Z.to_nat n + k)%nat, f'. split_and!; [lia|congruence|congruence|congruence| |].
      * rewrite (bool_decide_eq_false_2 (_ + _ = _)%nat) by lia.
        rewrite Hc', Hc, (bool_decide_eq_true_2 (0 < n)) by lia.
        replace (take (Z.to_nat n + k) data) with (take (Z.to_nat n) data ++ take k (drop (Z.to_nat n) data))
          by (by rewrite take_take_drop).
        case_bool_decide as Hk0; [by rewrite Hk0, take_0, app_nil_r|].
        rewrite <- file_write_app; [|done|].
        -- do 2 f_equal. rewrite length_take. lia.
        -- destruct data; [done|]. replace (Z.to_nat n) with (S (Z.to_nat n - 1)) by lia. done.
      * destruct Hres as [[Hr Hl]|Hr]; [left|right; exact Hr]. split; [exact Hr|].
        rewrite length_drop in Hl. lia.
Qed.

(** A reliable [safe_pwrite] writes the data at the offset. *)
Lemma safe_pwrite_ok `{!FileReliable F} data offset f :
  f_exists f = true -> 0 <= offset -> data <> [] ->
  exists f', safe_pwrite data offset f = (Ok tt, f') /\ f_synced f' = f_synced f /\ f_exists f' = true /\
    f_pos f' = f_pos f /\ f_content f' = file_write offset data (f_content f).
Proof.
  intros Hex Hp Hne. unfold safe_pwrite.
  assert (Hnt : forall fuel data offset f f', f_exists f = true ->
    safe_pwrite_loop fuel data offset f <> (Throw IOError, f')).
  { clear data offset f Hex Hp Hne. induction fuel as [|fuel IH]; intros data offset f f' Hex; cbn;
      case_bool_decide as Hd; try done.
    unfold sys, mbind, M_bind. pose proof (pwrite_ok data offset f Hex Hd) as Hw.
    destruct (sys_pwrite data offset f) as [n f1] eqn:E. cbn in Hw. apply pwrite_law in E as (_ & He & _).
    rewrite bool_decide_eq_false_2 by lia. apply IH. congruence. }
  destruct (safe_pwrite_loop_spec (length data) data offset f) as (k & f' & Hk & Hs & He & Hpos & Hc & Hr); [done..|].
  destruct Hr as [[Hr ->]|Hr]; [|by apply Hnt in Hr].
  exists f'. split_and!; [done|done|congruence|done|]. rewrite Hc, take_ge by lia.
  rewrite bool_decide_eq_false_2; [done|]. by destruct data.
Qed.
(** A reliable [fsync] makes the content durable. *)
Lemma fsync_run `{!FileReliable F} f :
  exists f', fsync f = (Ok tt, f') /\ f_content f' = f_content f /\ f_pos f' = f_pos f /\
             f_exists f' = f_exists f /\ f_synced f' = f_content f.
Proof.
  unfold fsync, sys, mbind, M_bind. pose proof (fsync_ok f) as Hr.
  destruct (sys_fsync f) as [r f'] eqn:E. apply fsync_law in E as (? & ? & ? & Hs). cbn in Hr.
  rewrite bool_decide_eq_true_2 in Hs by done. by exists f'.
Qed.

End pread_lemmas.
