(* ===== verification/Crc.v ===== *)
(** The CRC-32 of the log ([src/wal.cpp]): the lookup table, the table-driven
    update, and the bit-by-bit polynomial division it implements.  The lemmas
    give the detection power of the code: a checksum is a number of rounds on the
    running value and the message together, a round is linear, and no round takes a
    32-bit word other than 0 to 0, so that a change within 32 consecutive bits shows. *)
From S2P Require Import Prelude Types.

(** ** Definitions *)

(** One round of the inner loop of [init_crc32_table]. *)
Definition crc_round (crc : Z) : Z :=
  if bool_decide (Z.land crc 1 <> 0)
  then Z.lxor (Z.shiftr crc 1) 0xEDB88320
  else Z.shiftr crc 1.

(** [crc32_table[i]] *)
Definition crc_entry (i : Z) : Z := Nat.iter 8 crc_round i.

(** [init_crc32_table] *)
Definition crc32_table : list Z := crc_entry <$> zseq 256.

(** [crc = table[(crc ^ b) & 0xFF] ^ (crc >> 8)] *)
Definition crc_update (crc : Z) (b : byte) : Z :=
  Z.lxor (nth (Z.to_nat (Z.land (Z.lxor crc (byte_Z b)) 0xFF)) crc32_table 0) (Z.shiftr crc 8).

Definition crc_from (crc : Z) (data : bytes) : Z := foldl crc_update crc data.

(** [WAL::compute_crc] *)
Definition compute_crc (data : bytes) : Z := crc_from WAL_CHECKSUM_SEED data.

(** The reference: divide one bit at a time. *)
Definition crc_bitwise_byte (crc : Z) (b : byte) : Z := Nat.iter 8 crc_round (Z.lxor crc (byte_Z b)).
Definition crc_bitwise (crc : Z) (data : bytes) : Z := foldl crc_bitwise_byte crc data.

(** Damage within 32 consecutive bits: two messages of one length that differ by [x],
    [s] bits from the start.  The bits of a byte count from the lowest, the order in
    which the division takes them. *)
Definition burst (m m' : bytes) : Prop :=
  length m = length m' /\ exists x s, 0 < x < 2 ^ 32 /\ 0 <= s /\ Z.lxor (le_val m) (le_val m') = Z.shiftl x s.

(** ** Lemmas *)

Lemma crc_from_app crc d1 d2 : crc_from crc (d1 ++ d2) = crc_from (crc_from crc d1) d2.
Proof. apply foldl_app. Qed.

Lemma crc_from_cons crc b d : crc_from crc (b :: d) = crc_from (crc_update crc b) d.
Proof. done. Qed.

Lemma compute_crc_app d1 d2 : compute_crc (d1 ++ d2) = crc_from (crc_from WAL_CHECKSUM_SEED d1) d2.
Proof. apply foldl_app. Qed.

Lemma crc_from_single crc b : crc_from crc [b] = crc_update crc b.
Proof. done. Qed.

(** *** Ranges of bit operations *)

Lemma lxor_range n a b : 0 <= n -> 0 <= a < 2 ^ n -> 0 <= b < 2 ^ n -> 0 <= Z.lxor a b < 2 ^ n.
Proof.
  intros Hn Ha Hb. assert (H0 : 0 <= Z.lxor a b) by (apply Z.lxor_nonneg; lia). split; [done|].
  destruct (Z.eq_dec (Z.lxor a b) 0) as [->|Hne]; [lia|].
  apply Z.log2_lt_pow2; [lia|]. pose proof (Z.log2_lxor a b ltac:(lia) ltac:(lia)) as Hl.
  assert (Hlog : forall c, 0 <= c < 2 ^ n -> c = 0 \/ Z.log2 c < n).
  { intros c Hc. destruct (Z.eq_dec c 0); [by left|right]. apply Z.log2_lt_pow2; lia. }
  destruct (Hlog a Ha) as [->|?], (Hlog b Hb) as [->|?];
    rewrite ?Z.lxor_0_l, ?Z.lxor_0_r in *; try lia.
Qed.

Lemma land_lxor_distr a b c : Z.land (Z.lxor a b) c = Z.lxor (Z.land a c) (Z.land b c).
Proof.
  apply Z.bits_inj'. intros i _. rewrite Z.lxor_spec, !Z.land_spec, Z.lxor_spec.
  by destruct (Z.testbit a i), (Z.testbit b i), (Z.testbit c i).
Qed.

Lemma land_255_mod a : Z.land a 255 = a mod 256.
Proof. change 255 with (Z.ones 8). apply Z.land_ones. lia. Qed.

Lemma shiftr_range a k n : 0 <= k -> 0 <= n -> 0 <= a < 2 ^ (n + k) -> 0 <= Z.shiftr a k < 2 ^ n.
Proof.
  intros Hk Hn Ha. rewrite Z.shiftr_div_pow2 by done. rewrite Z.pow_add_r in Ha by done.
  split; [apply Z.div_pos; lia|apply Z.div_lt_upper_bound; lia].
Qed.

(** *** The round is linear over [lxor] *)

Lemma crc_round_testbit crc :
  crc_round crc = Z.lxor (Z.shiftr crc 1) (if Z.testbit crc 0 then 0xEDB88320 else 0).
Proof.
  unfold crc_round. replace (Z.land crc 1) with (Z.b2z (Z.testbit crc 0)).
  - destruct (Z.testbit crc 0); cbn [Z.b2z]; bd; by rewrite ?Z.lxor_0_r.
  - change 1 with (Z.ones 1). rewrite Z.land_ones, Z.pow_1_r by lia. apply Z.bit0_mod.
Qed.

Lemma crc_round_lxor a b : crc_round (Z.lxor a b) = Z.lxor (crc_round a) (crc_round b).
Proof.
  rewrite !crc_round_testbit, Z.shiftr_lxor, Z.lxor_spec.
  apply Z.bits_inj'. intros i Hi. rewrite !Z.lxor_spec.
  destruct (Z.testbit a 0), (Z.testbit b 0); cbn [xorb]; rewrite ?Z.bits_0;
    repeat destruct (Z.testbit _ i); done.
Qed.

Lemma crc_round_shiftl a n : 0 < n -> crc_round (Z.shiftl a n) = Z.shiftl a (n - 1).
Proof.
  intros Hn. rewrite crc_round_testbit, Z.shiftl_spec_low by lia.
  rewrite Z.lxor_0_r, Z.shiftr_shiftl_l by lia. done.
Qed.

Lemma iter_round_lxor k a b :
  Nat.iter k crc_round (Z.lxor a b) = Z.lxor (Nat.iter k crc_round a) (Nat.iter k crc_round b).
Proof. induction k as [|k IH]; [done|]. by rewrite !Nat.iter_succ, IH, crc_round_lxor. Qed.

Lemma iter_round_shiftl k a n :
  Z.of_nat k <= n -> Nat.iter k crc_round (Z.shiftl a n) = Z.shiftl a (n - Z.of_nat k).
Proof.
  induction k as [|k IH]; intros Hn; [by rewrite Z.sub_0_r|].
  rewrite Nat.iter_succ, IH, crc_round_shiftl by lia. f_equal. lia.
Qed.

Lemma crc_table_nth i : 0 <= i < 256 -> nth (Z.to_nat i) crc32_table 0 = crc_entry i.
Proof.
  intros Hi. apply nth_lookup_Some. unfold crc32_table, zseq. rewrite list_lookup_fmap.
  rewrite lookup_seqZ_lt by lia.
  by replace (0 + Z.of_nat (Z.to_nat i)) with i by lia.
Qed.

(** Low byte and the rest. *)
Lemma split_low a : a = Z.lxor (a mod 256) (Z.shiftl (Z.shiftr a 8) 8).
Proof.
  apply Z.bits_inj'. intros i Hi. rewrite Z.lxor_spec. change 256 with (2 ^ 8).
  destruct (Z_lt_le_dec i 8).
  - rewrite (Z.mod_pow2_bits_low a 8 i), Z.shiftl_spec_low by lia. by rewrite xorb_false_r.
  - rewrite (Z.mod_pow2_bits_high a 8 i), Z.shiftl_spec, Z.shiftr_spec by lia.
    rewrite xorb_false_l. f_equal. lia.
Qed.

Lemma shiftr_byte b : Z.shiftr (byte_Z b) 8 = 0.
Proof. rewrite Z.shiftr_div_pow2 by lia. apply Z.div_small, byte_Z_range. Qed.

(** The table-driven update is eight rounds of the bitwise division. *)
Lemma crc_update_bitwise crc b : crc_update crc b = crc_bitwise_byte crc b.
Proof.
  unfold crc_update, crc_bitwise_byte.
  set (x := Z.lxor crc (byte_Z b)).
  assert (Hx : Z.shiftr x 8 = Z.shiftr crc 8) by (unfold x; by rewrite Z.shiftr_lxor, shiftr_byte, Z.lxor_0_r).
  rewrite land_255_mod, crc_table_nth by (apply Z.mod_pos_bound; lia).
  rewrite <- Hx. rewrite (split_low x) at 3. rewrite iter_round_lxor.
  unfold crc_entry. f_equal. rewrite iter_round_shiftl by lia. by rewrite Z.shiftl_0_r.
Qed.

Lemma crc_from_bitwise crc data : crc_from crc data = crc_bitwise crc data.
Proof.
  revert crc; induction data as [|b data IH]; intros crc; [done|].
  change (crc_from (crc_update crc b) data = crc_bitwise (crc_bitwise_byte crc b) data).
  rewrite <- crc_update_bitwise. apply IH.
Qed.

(** *** Ranges *)

Lemma crc_round_range crc : 0 <= crc < 2 ^ 32 -> 0 <= crc_round crc < 2 ^ 32.
Proof.
  intros H. rewrite crc_round_testbit.
  pose proof (shiftr_range crc 1 31 ltac:(lia) ltac:(lia) ltac:(lia)).
  apply lxor_range; [lia|lia|]. by destruct (Z.testbit crc 0).
Qed.

Lemma crc_update_range crc b : 0 <= crc < 2 ^ 32 -> 0 <= crc_update crc b < 2 ^ 32.
Proof.
  intros H. rewrite crc_update_bitwise. unfold crc_bitwise_byte.
  assert (H0 : 0 <= Z.lxor crc (byte_Z b) < 2 ^ 32).
  { apply lxor_range; [lia|done|]. pose proof (byte_Z_range b). lia. }
  revert H0. generalize (Z.lxor crc (byte_Z b)) as x. generalize 8%nat as k.
  induction k as [|k IH]; intros x Hx; [done|]. rewrite Nat.iter_succ. by apply crc_round_range, IH.
Qed.

Lemma crc_from_range crc d : 0 <= crc < 2 ^ 32 -> 0 <= crc_from crc d < 2 ^ 32.
Proof.
  revert crc; induction d as [|b d IH]; intros crc H; [done|]. rewrite crc_from_cons. by apply IH, crc_update_range.
Qed.

Lemma compute_crc_range d : 0 <= compute_crc d < 2 ^ 32.
Proof. apply crc_from_range. unfold WAL_CHECKSUM_SEED. lia. Qed.

(** *** Detection *)

(** The checksum of a message is a number of rounds on the running value and the
    message as one number. *)
Lemma crc_from_iter crc d : crc_from crc d = Nat.iter (8 * length d) crc_round (Z.lxor crc (le_val d)).
Proof.
  rewrite crc_from_bitwise. revert crc. induction d as [|b d IH]; intros crc; [by rewrite Z.lxor_0_r|].
  change (crc_bitwise crc (b :: d)) with (crc_bitwise (crc_bitwise_byte crc b) d). rewrite IH.
  replace (8 * length (b :: d))%nat with (8 * length d + 8)%nat by (cbn; lia). rewrite Nat.iter_add. f_equal.
  assert (Hv : le_val (b :: d) = Z.lxor (byte_Z b) (Z.shiftl (le_val d) 8)).
  { rewrite (split_low (le_val (b :: d))). cbn [le_val]. pose proof (byte_Z_range b).
    replace (byte_Z b + 256 * le_val d) with (byte_Z b + le_val d * 256) by lia.
    rewrite Z.mod_add, Z.mod_small, Z.shiftr_div_pow2 by lia. change (2 ^ 8) with 256.
    by rewrite Z.div_add, Z.div_small by lia. }
  rewrite Hv, <- Z.lxor_assoc, iter_round_lxor, iter_round_shiftl by lia. by rewrite Z.shiftl_0_r.
Qed.

Lemma crc_round_pos x : 0 < x < 2 ^ 32 -> 0 < crc_round x < 2 ^ 32.
Proof.
  intros Hx. pose proof (crc_round_range x ltac:(lia)) as Hr. enough (crc_round x <> 0) by lia. clear Hr.
  rewrite crc_round_testbit. destruct (Z.testbit x 0) eqn:Hb.
  - intros H%(f_equal (fun y => Z.testbit y 31)). rewrite Z.lxor_spec, Z.shiftr_spec, Z.bits_0 in H by lia.
    rewrite (Z.bits_above_log2 x (31 + 1)) in H; [done|lia|]. apply Z.log2_lt_pow2; lia.
  - rewrite Z.lxor_0_r, Z.shiftr_div_pow2 by lia. rewrite Z.bit0_odd, <- Z.negb_even in Hb. apply negb_false_iff, Z.even_spec in Hb as [y ->].
    change (2 ^ 1) with 2. rewrite Z.mul_comm, Z.div_mul; lia.
Qed.

Lemma iter_round_pos k x : 0 < x < 2 ^ 32 -> 0 < Nat.iter k crc_round x < 2 ^ 32.
Proof. intros Hx. induction k as [|k IH]; [done|]. rewrite Nat.iter_succ. by apply crc_round_pos. Qed.

(** A burst changes the checksum. *)
Lemma compute_crc_burst pre m m' : burst m m' -> compute_crc (pre ++ m) <> compute_crc (pre ++ m').
Proof.
  intros (Hl & x & s & Hx & Hs & Hd) H. rewrite !compute_crc_app in H. generalize dependent (crc_from WAL_CHECKSUM_SEED pre). intros c H.
  rewrite !crc_from_iter, <- Hl in H. apply Z.lxor_eq_0_iff in H. rewrite <- iter_round_lxor in H.
  assert (Hc : Z.lxor (Z.lxor c (le_val m)) (Z.lxor c (le_val m')) = Z.shiftl x s).
  { rewrite <- Hd, (Z.lxor_comm c), Z.lxor_assoc, <- (Z.lxor_assoc c c), Z.lxor_nilpotent. by rewrite Z.lxor_0_l. }
  rewrite Hc in H. assert (Hlt : s < 8 * zlen m).
  { pose proof (le_val_range m) as Hm. pose proof (le_val_range m') as Hm'. rewrite <- Hl in Hm'.
    replace (256 ^ zlen m) with (2 ^ (8 * zlen m)) in * by (rewrite Z.pow_mul_r by lia; done).
    pose proof (lxor_range (8 * zlen m) _ _ ltac:(lia) Hm Hm') as Hr. rewrite Hd, Z.shiftl_mul_pow2 in Hr by lia.
    apply (Z.pow_lt_mono_r_iff 2); [lia|lia|]. nia. }
  replace (8 * length m)%nat with ((8 * length m - Z.to_nat s) + Z.to_nat s)%nat in H by lia.
  rewrite Nat.iter_add, iter_round_shiftl, Z2Nat.id, Z.sub_diag, Z.shiftl_0_r in H by lia.
  pose proof (iter_round_pos (8 * length m - Z.to_nat s) x Hx). lia.
Qed.

(** ** Properties *)

(** C37: the table-driven checksum of the log equals bit-by-bit polynomial
    division with the reflected polynomial [0xEDB88320], for every input. *)
Theorem crc_table_equiv data :
  compute_crc data = crc_bitwise WAL_CHECKSUM_SEED data.
Proof. apply crc_from_bitwise. Qed.
