(* ===== verification/Wal.v ===== *)
(** The write-ahead log ([include/xdl/wal.h], [src/wal.cpp]): the record format,
    the buffered writer with its explicit [fsync], opening and clearing the file,
    and replay.

    [WAL] is the object; the file is any [FileSys].  [memcpy] of an integer is
    little-endian, as on the machines the engine targets.  The theorems relate
    the file to the list of records: what replay returns on arbitrary bytes, that
    what was logged is returned, what survives a crash, and which corruptions are
    noticed. *)
From S2P Require Import Prelude Types Serialise Posix Crc.

(** ** Definitions *)

Definition WAL_HEADER_SIZE : Z := 32.
Definition WAL_VERSION : Z := 1.
Definition WAL_BUFFER_SIZE : Z := 256 * 1024.

(** [WALRecord::Type] *)
Definition INSERT : Z := 0.
Definition COMMIT : Z := 1.
Definition CHECKPOINT : Z := 2.
Definition ROLLBACK : Z := 3.
Definition DELETE : Z := 4.

(** [struct WALRecord]; the type is the stored byte, which the code casts
    unchecked. *)
Record WALRecord := mkWALRecord {
  wr_type : Z; wr_row_id : Z; wr_page_id : Z; wr_row_slot : Z; wr_row_data : bytes;
}.
#[export] Instance WALRecord_eq_decision : EqDecision WALRecord.
Proof. solve_decision. Defined.

Record WAL (F : Type) := mkWAL {
  w_file : F;              (* the file at path_, and the descriptor's offset *)
  w_fd : bool;             (* fd_ >= 0 *)
  w_open : bool;
  write_buf_ : bytes;
  buf_dirty_ : bool;
  current_offset_ : Z;
}.
Arguments mkWAL {F}.
Arguments w_file {F}. Arguments w_fd {F}. Arguments w_open {F}.
Arguments write_buf_ {F}. Arguments buf_dirty_ {F}. Arguments current_offset_ {F}.

(** The header that [open] writes into a new file. *)
Definition wal_header_steps : M bytes unit :=
  store 0 (le_bytes 8 WAL_MAGIC) ;;
  store 8 (le_bytes 4 WAL_VERSION) ;;
  store 12 (le_bytes 4 PAGE_SIZE) ;;
  header ← get;
  d ← lift (load header 0 12);
  store 16 (le_bytes 4 (compute_crc d)).
Definition wal_header : bytes := (wal_header_steps (replicate 32 x00)).2.

Section wal.
Context {F : Type} `{FileSys F}.
Local Abbreviation WAL := (WAL F).

Definition set_file (f : F) (w : WAL) : WAL :=
  mkWAL f (w_fd w) (w_open w) (write_buf_ w) (buf_dirty_ w) (current_offset_ w).
Definition set_fd (b : bool) (w : WAL) : WAL :=
  mkWAL (w_file w) b (w_open w) (write_buf_ w) (buf_dirty_ w) (current_offset_ w).
Definition set_open (b : bool) (w : WAL) : WAL :=
  mkWAL (w_file w) (w_fd w) b (write_buf_ w) (buf_dirty_ w) (current_offset_ w).
Definition set_buf (b : bytes) (w : WAL) : WAL :=
  mkWAL (w_file w) (w_fd w) (w_open w) b (buf_dirty_ w) (current_offset_ w).
Definition set_buf_dirty (b : bool) (w : WAL) : WAL :=
  mkWAL (w_file w) (w_fd w) (w_open w) (write_buf_ w) b (current_offset_ w).
Definition set_offset (o : Z) (w : WAL) : WAL :=
  mkWAL (w_file w) (w_fd w) (w_open w) (write_buf_ w) (buf_dirty_ w) o.

Definition on_file {A} (m : M F A) : M WAL A := zoom w_file set_file m.

(** [WAL::WAL] *)
Definition new_WAL (f : F) : WAL := mkWAL f false false [] false 0.

(** [WAL::open] *)
Definition wal_open : M WAL unit :=
  w ← get;
  if w_open w then mret tt else
  ok ← on_file (sys bool (sys_open true));
  if negb ok then throw IOError else
  modify (set_fd true) ;;
  w ← get;
  match sys_fstat (w_file w) with
  | None => modify (set_fd false) ;; throw IOError
  | Some size =>
      (if bool_decide (size = 0)
       then on_file (safe_write wal_header) ;; on_file fsync ;; modify (set_offset WAL_HEADER_SIZE)
       else modify (set_offset size) ;; on_file (modify (sys_lseek size))) ;;
      modify (set_open true)
  end.

(** [WAL::flush_write_buffer] *)
Definition flush_write_buffer : M WAL unit :=
  w ← get;
  if bool_decide (write_buf_ w = []) then mret tt else
  on_file (safe_write (take (Z.to_nat (u32 (zlen (write_buf_ w)))) (write_buf_ w))) ;;
  modify (fun w => set_offset (u64 (current_offset_ w + zlen (write_buf_ w))) w) ;;
  modify (set_buf []) ;;
  modify (set_buf_dirty true).

(** [WAL::fsync_if_dirty] *)
Definition fsync_if_dirty : M WAL unit :=
  w ← get;
  if buf_dirty_ w then on_file fsync ;; modify (set_buf_dirty false) else mret tt.

(** [WAL::close] *)
Definition wal_close : M WAL unit :=
  w ← get;
  if negb (w_open w) then mret tt else
  (if w_fd w then flush_write_buffer ;; modify (set_fd false) else mret tt) ;;
  modify (set_open false).

(** [WAL::is_open], [WAL::~WAL] *)
Definition wal_is_open (w : WAL) : bool := w_open w.
Definition wal_destroy : M WAL unit := w ← get; if w_open w then wal_close else mret tt.

(** [WAL::file_size] *)
Definition wal_file_size : M WAL Z :=
  w ← get;
  if negb (w_fd w) then throw IOError else
  match sys_fstat (w_file w) with Some n => mret n | None => throw IOError end.

(** [WAL::ensure_buffer_space] *)
Definition ensure_buffer_space (needed : Z) : M WAL unit :=
  w ← get;
  if bool_decide (zlen (write_buf_ w) + needed > WAL_BUFFER_SIZE) then flush_write_buffer else mret tt.

(** The checksum that [write_record] computes while it goes, piece by piece. *)
Definition record_crc (total_len type row_id page_id row_slot : Z) (payload : bytes) : Z :=
  let crc := crc_from WAL_CHECKSUM_SEED (le_bytes 4 total_len) in
  let crc := crc_update crc (Z_byte type) in
  let crc := crc_from crc (le_bytes 4 row_id ++ le_bytes 4 page_id ++ le_bytes 4 row_slot) in
  crc_from crc payload.

(** The copies of [write_record] into the resized buffer. *)
Definition put_record (dst crc total_len type row_id page_id row_slot : Z) (payload : bytes) : M bytes unit :=
  store dst (le_bytes 4 crc) ;;
  store (dst + 4) (le_bytes 4 total_len) ;;
  store_byte (dst + 8) type ;;
  store (dst + 9) (le_bytes 4 row_id) ;;
  store (dst + 13) (le_bytes 4 page_id) ;;
  store (dst + 17) (le_bytes 4 row_slot) ;;
  if bool_decide (zlen payload > 0) then store (dst + 21) payload else mret tt.

(** [WAL::write_record] *)
Definition write_record (type : Z) (payload : bytes) (row_id page_id row_slot : Z) : M WAL Z :=
  w ← get;
  if negb (w_open w) then throw IOError else
  let total_len := u32 (4 + 1 + 4 + 4 + 4 + zlen payload) in
  let record_size := u32 (4 + total_len) in
  ensure_buffer_space record_size ;;
  w ← get;
  let record_offset := u64 (current_offset_ w + zlen (write_buf_ w)) in
  let crc := record_crc total_len type row_id page_id row_slot payload in
  let old_size := zlen (write_buf_ w) in
  modify (fun w => set_buf (resize (old_size + record_size) (write_buf_ w)) w) ;;
  zoom write_buf_ set_buf (put_record old_size crc total_len type row_id page_id row_slot payload) ;;
  mret record_offset.

(** [WAL::sync] *)
Definition wal_sync : M WAL unit :=
  w ← get;
  if negb (w_open w) then mret tt else
  flush_write_buffer ;; fsync_if_dirty.

(** [WAL::log_insert] *)
Definition log_insert (row_id page_id row_slot : Z) (row_data : bytes) (sync_now : bool) : M WAL Z :=
  offset ← write_record INSERT row_data row_id page_id row_slot;
  (if sync_now then wal_sync else mret tt) ;;
  mret offset.

(** [WAL::log_insert_direct]: the same body *)
Definition log_insert_direct (row_id page_id row_slot : Z) (row_data : bytes) (sync_now : bool) : M WAL Z :=
  offset ← write_record INSERT row_data row_id page_id row_slot;
  (if sync_now then wal_sync else mret tt) ;;
  mret offset.

(** [WAL::log_delete] *)
Definition log_delete (row_id page_id row_slot : Z) (sync_now : bool) : M WAL Z :=
  offset ← write_record DELETE [] row_id page_id row_slot;
  (if sync_now then wal_sync else mret tt) ;;
  mret offset.

(** [WAL::log_commit], [WAL::log_checkpoint] *)
Definition log_commit : M WAL unit := _ ← write_record COMMIT [] 0 0 0; mret tt.
Definition log_checkpoint : M WAL unit :=
  _ ← write_record CHECKPOINT [] 0 0 0; flush_write_buffer ;; fsync_if_dirty.

(** *** Replay *)

(** [memcpy] of four bytes into a [uint32_t]. *)
Definition load_u32 (d : bytes) (pos : Z) : outcome Z := read_le 4 d pos.

(** The parsing loop of [replay], from position [pos]. *)
Fixpoint replay_loop (fuel : nat) (d : bytes) (pos : Z) : outcome (list WALRecord) :=
  let got := zlen d in
  if negb (bool_decide (pos < got)) then Ok [] else
  match fuel with
  | O => UB
  | S fuel =>
      if bool_decide (pos + 4 > got) then Ok [] else
      stored_crc ← load_u32 d pos;
      let pos := pos + 4 in
      if bool_decide (pos + 4 > got) then Ok [] else
      record_len ← load_u32 d pos;
      let pos := pos + 4 in
      if bool_decide (record_len < 17 \/ pos + record_len - 4 > got) then Ok [] else
      let remaining := record_len - 4 in
      len_bytes ← load d (pos - 4) 4;
      rest ← load d pos remaining;
      let crc := crc_from (crc_from WAL_CHECKSUM_SEED len_bytes) rest in
      if bool_decide (crc <> stored_crc) then Ok [] else
      type_byte ← load_byte d pos;
      row_id ← load_u32 d (pos + 1);
      page_id ← load_u32 d (pos + 5);
      row_slot ← load_u32 d (pos + 9);
      row_data ← (if bool_decide (record_len > 17) then load d (pos + 13) (record_len - 17) else Ok []);
      records ← replay_loop fuel d (pos + remaining);
      Ok (mkWALRecord type_byte row_id page_id row_slot row_data :: records)
  end.

Definition parse_log (d : bytes) : outcome (list WALRecord) := replay_loop (length d) d 0.

(** The reading loop of [replay]; a short result ends it. *)
Fixpoint read_loop (fuel : nat) (data_size : Z) (acc : bytes) : M F bytes :=
  if negb (bool_decide (zlen acc < data_size)) then mret acc else
  match fuel with
  | O => ub
  | S fuel =>
      bs ← sys bytes (sys_read (data_size - zlen acc));
      if bool_decide (bs = []) then mret acc else read_loop fuel data_size (acc ++ bs)
  end.

(** [WAL::replay] *)
Definition replay : M WAL (list WALRecord) :=
  w ← get;
  if negb (w_open w) then throw IOError else
  flush_write_buffer ;; fsync_if_dirty ;;
  fsize ← wal_file_size;
  if bool_decide (fsize < WAL_HEADER_SIZE) then mret [] else
  on_file (modify (sys_lseek WAL_HEADER_SIZE)) ;;
  let data_size := fsize - WAL_HEADER_SIZE in
  wal_data ← on_file (read_loop (Z.to_nat data_size) data_size []);
  if bool_decide (zlen wal_data < data_size) then mret [] else
  lift (parse_log wal_data).

(** [WAL::clear]: a missing file is not an error. *)
Definition wal_clear : M WAL unit :=
  w ← get;
  (if w_open w then flush_write_buffer ;; wal_close else mret tt) ;;
  w ← get;
  let existed := f_exists (w_file w) in
  ok ← on_file (sys bool sys_unlink);
  if negb ok && existed then throw IOError else
  wal_open.
End wal.

(** *** The record format *)

Definition record_body (r : WALRecord) : bytes :=
  le_bytes 4 (17 + zlen (wr_row_data r)) ++ [Z_byte (wr_type r)] ++ le_bytes 4 (wr_row_id r) ++
  le_bytes 4 (wr_page_id r) ++ le_bytes 4 (wr_row_slot r) ++ wr_row_data r.

Definition encode_record (r : WALRecord) : bytes :=
  le_bytes 4 (compute_crc (record_body r)) ++ record_body r.

Definition encode_records (rs : list WALRecord) : bytes := concat (encode_record <$> rs).

Definition record_ok (r : WALRecord) : Prop :=
  0 <= wr_type r < 256 /\ 0 <= wr_row_id r < 2 ^ 32 /\ 0 <= wr_page_id r < 2 ^ 32 /\
  0 <= wr_row_slot r < 2 ^ 32 /\ 17 + zlen (wr_row_data r) < 2 ^ 32.
#[export] Instance record_ok_dec r : Decision (record_ok r).
Proof. unfold record_ok. apply _. Defined.

(** The bytes start with a complete record whose checksum is right. *)
Definition valid_start (d : bytes) : Prop := exists r tl, record_ok r /\ d = encode_record r ++ tl.

(** *** A client of the log *)

Inductive log_op :=
| LogInsert (row_id page_id row_slot : Z) (row_data : bytes) (sync_now : bool)
| LogDelete (row_id page_id row_slot : Z) (sync_now : bool)
| LogCommit
| LogCheckpoint
| LogSync.

(** The record an operation appends, if any. *)
Definition op_record (o : log_op) : option WALRecord :=
  match o with
  | LogInsert r p s d _ => Some (mkWALRecord INSERT r p s d)
  | LogDelete r p s _ => Some (mkWALRecord DELETE r p s [])
  | LogCommit => Some (mkWALRecord COMMIT 0 0 0 [])
  | LogCheckpoint => Some (mkWALRecord CHECKPOINT 0 0 0 [])
  | LogSync => None
  end.

Definition op_records (ops : list log_op) : list WALRecord := omap op_record ops.

(** The operation promises durability when it returns. *)
Definition op_syncs (o : log_op) : bool :=
  match o with
  | LogInsert _ _ _ _ b | LogDelete _ _ _ b => b
  | LogCommit => false
  | LogCheckpoint | LogSync => true
  end.

Definition op_ok (o : log_op) : Prop :=
  match op_record o with
  | Some r => record_ok r /\ 21 + zlen (wr_row_data r) <= WAL_BUFFER_SIZE
  | None => True
  end.
#[export] Instance op_ok_dec o : Decision (op_ok o).
Proof. unfold op_ok. destruct (op_record o); apply _. Defined.

(** The calls, with the offset that [log_insert] and [log_delete] return. *)
Definition op_run {F} `{FileSys F} (o : log_op) : M (WAL F) (option Z) :=
  match o with
  | LogInsert r p s d b => off ← log_insert r p s d b; mret (Some off)
  | LogDelete r p s b => off ← log_delete r p s b; mret (Some off)
  | LogCommit => log_commit ;; mret None
  | LogCheckpoint => log_checkpoint ;; mret None
  | LogSync => wal_sync ;; mret None
  end.

Fixpoint ops_run {F} `{FileSys F} (ops : list log_op) : M (WAL F) (list (option Z)) :=
  match ops with
  | [] => mret []
  | o :: ops => off ← op_run o; offs ← ops_run ops; mret (off :: offs)
  end.

(** ** Lemmas: the format *)

Lemma length_record_body r : zlen (record_body r) = 17 + zlen (wr_row_data r).
Proof. unfold record_body. rewrite !length_app, !length_le_bytes. cbn. lia. Qed.

Lemma length_encode_record r : zlen (encode_record r) = 21 + zlen (wr_row_data r).
Proof. unfold encode_record. rewrite length_app, length_le_bytes. pose proof (length_record_body r). lia. Qed.

Lemma encode_records_cons r rs : encode_records (r :: rs) = encode_record r ++ encode_records rs.
Proof. done. Qed.

Lemma encode_records_app rs1 rs2 : encode_records (rs1 ++ rs2) = encode_records rs1 ++ encode_records rs2.
Proof. unfold encode_records. by rewrite fmap_app, concat_app. Qed.

Lemma encode_records_snoc rs r : encode_records (rs ++ [r]) = encode_records rs ++ encode_record r.
Proof. rewrite encode_records_app. cbn. by rewrite app_nil_r. Qed.

(** The checksum computed piece by piece is the checksum of the body. *)
Lemma record_crc_body r :
  17 + zlen (wr_row_data r) < 2 ^ 32 ->
  record_crc (17 + zlen (wr_row_data r)) (wr_type r) (wr_row_id r) (wr_page_id r) (wr_row_slot r)
    (wr_row_data r) = compute_crc (record_body r).
Proof.
  intros _. unfold record_crc, compute_crc, record_body.
  by rewrite !crc_from_app, crc_from_single.
Qed.

#[local] Opaque crc_from crc_update compute_crc le_bytes le_val.

Lemma le_val_4 v : 0 <= v < 2 ^ 32 -> le_val (le_bytes 4 v) = v.
Proof. intros. rewrite le_val_le_bytes. change (256 ^ Z.of_nat 4) with (2 ^ 32). by apply Z.mod_small. Qed.

Lemma load_u32_mid m1 v m2 i :
  i = zlen m1 -> 0 <= v < 2 ^ 32 -> load_u32 (m1 ++ le_bytes 4 v ++ m2) i = Ok v.
Proof.
  intros -> Hv. unfold load_u32. rewrite (read_le_mid 4 m1 (le_bytes 4 v)) by (rewrite ?length_le_bytes; done).
  by rewrite le_val_4.
Qed.

Lemma load_u32_split d pos :
  0 <= pos -> pos + 4 <= zlen d ->
  exists m1 v m2, d = m1 ++ le_bytes 4 v ++ m2 /\ zlen m1 = pos /\ 0 <= v < 2 ^ 32 /\ load_u32 d pos = Ok v.
Proof.
  intros. destruct (split_mem d pos 4) as (m1 & bs & m2 & -> & <- & Hb); [lia..|].
  pose proof (le_val_range bs) as Hr. rewrite Hb in Hr. change (256 ^ 4) with (2 ^ 32) in Hr.
  assert (Hbs : le_bytes 4 (le_val bs) = bs).
  { replace 4%nat with (length bs) by lia. apply le_bytes_le_val. }
  exists m1, (le_val bs), m2. rewrite Hbs. split_and!; [done..|lia|lia|].
  unfold load_u32. by apply read_le_mid.
Qed.

(** *** One round of the parser *)

Section parse.
Context (fuel : nat) (pre : bytes).

(** The parser's position after a record. *)
Local Abbreviation next r tl :=
  (replay_loop fuel ((pre ++ encode_record r) ++ tl) (zlen (pre ++ encode_record r))).

(** What the parser reads of a record, at its places. *)
Lemma record_fields r tl :
  record_ok r ->
  let d := pre ++ encode_record r ++ tl in let i := zlen pre in
  let len := 17 + zlen (wr_row_data r) in
  let body := [Z_byte (wr_type r)] ++ (le_bytes 4 (wr_row_id r) ++ le_bytes 4 (wr_page_id r) ++ le_bytes 4 (wr_row_slot r)) ++ wr_row_data r in
  (load_u32 d i = Ok (compute_crc (record_body r)) /\ load_u32 d (i + 4) = Ok len /\
   load d (i + 4 + 4 - 4) 4 = Ok (le_bytes 4 len) /\ load d (i + 4 + 4) (len - 4) = Ok body) /\
  load_byte d (i + 4 + 4) = Ok (wr_type r) /\ load_u32 d (i + 4 + 4 + 1) = Ok (wr_row_id r) /\
  load_u32 d (i + 4 + 4 + 5) = Ok (wr_page_id r) /\ load_u32 d (i + 4 + 4 + 9) = Ok (wr_row_slot r) /\
  (if bool_decide (len > 17) then load d (i + 4 + 4 + 13) (len - 17) else Ok []) = Ok (wr_row_data r).
Proof.
  intros (Ht & Hr & Hp & Hs & Hl) d i len body. set (crc := compute_crc (record_body r)). set (t := Z_byte (wr_type r)).
  assert (E : d = pre ++ le_bytes 4 crc ++ le_bytes 4 len ++ [t] ++ le_bytes 4 (wr_row_id r) ++ le_bytes 4 (wr_page_id r) ++
      le_bytes 4 (wr_row_slot r) ++ wr_row_data r ++ tl).
  { unfold d, encode_record, record_body. fold crc len t. by rewrite <- !app_assoc. }
  assert (Hw : forall A v B k, d = A ++ le_bytes 4 v ++ B -> zlen A = k -> 0 <= v < 2 ^ 32 -> load_u32 d k = Ok v)
    by (intros A v B k -> <- Hv; by apply load_u32_mid).
  assert (Hb : forall A X B k n, d = A ++ X ++ B -> zlen A = k -> zlen X = n -> load d k n = Ok X)
    by (intros A X B k n -> <- <-; by apply load_app_mid').
  unfold i. split_and!.
  - eapply (Hw pre); [exact E|done|apply compute_crc_range].
  - eapply (Hw (pre ++ le_bytes 4 crc)); [rewrite E; by rewrite <- !app_assoc|rewrite length_app, length_le_bytes; lia|unfold len; lia].
  - eapply (Hb (pre ++ le_bytes 4 crc)); [rewrite E; by rewrite <- !app_assoc|rewrite length_app, length_le_bytes; lia|by rewrite length_le_bytes].
  - eapply (Hb (pre ++ le_bytes 4 crc ++ le_bytes 4 len)); [rewrite E; unfold body, t; by rewrite <- !app_assoc|rewrite !length_app, !length_le_bytes; lia|].
    unfold body, len. rewrite !length_app, !length_le_bytes. cbn [length]. lia.
  - rewrite E. do 2 rewrite app_assoc. cbn [app]. rewrite load_byte_app by (rewrite !length_app, !length_le_bytes; lia).
    unfold t. by rewrite byte_Z_of_Z, Z.mod_small.
  - eapply (Hw (pre ++ le_bytes 4 crc ++ le_bytes 4 len ++ [t])); [rewrite E; by rewrite <- !app_assoc|rewrite !length_app, !length_le_bytes; cbn; lia|done].
  - eapply (Hw (pre ++ le_bytes 4 crc ++ le_bytes 4 len ++ [t] ++ le_bytes 4 (wr_row_id r)));
      [rewrite E; by rewrite <- !app_assoc|rewrite !length_app, !length_le_bytes; cbn; lia|done].
  - eapply (Hw (pre ++ le_bytes 4 crc ++ le_bytes 4 len ++ [t] ++ le_bytes 4 (wr_row_id r) ++ le_bytes 4 (wr_page_id r)));
      [rewrite E; by rewrite <- !app_assoc|rewrite !length_app, !length_le_bytes; cbn; lia|done].
  - case_bool_decide; [|assert (zlen (wr_row_data r) = 0) by (unfold len in *; lia); by destruct (wr_row_data r)].
    eapply (Hb (pre ++ le_bytes 4 crc ++ le_bytes 4 len ++ [t] ++ le_bytes 4 (wr_row_id r) ++ le_bytes 4 (wr_page_id r) ++ le_bytes 4 (wr_row_slot r)));
      [rewrite E; by rewrite <- !app_assoc|rewrite !length_app, !length_le_bytes; cbn; lia|unfold len; lia].
Qed.

Lemma parse_record r tl :
  record_ok r ->
  replay_loop (S fuel) (pre ++ encode_record r ++ tl) (zlen pre) = (rs ← next r tl; Ok (r :: rs)).
Proof.
  intros Hok. pose proof Hok as (_ & _ & _ & _ & Hl). pose proof (length_encode_record r) as Hlen.
  destruct (record_fields r tl Hok) as ((L1 & L2 & L3 & L4) & L5 & L6 & L7 & L8 & L9).
  set (d := pre ++ encode_record r ++ tl) in *.
  assert (Hd : zlen d = zlen pre + (21 + zlen (wr_row_data r)) + zlen tl) by (unfold d; rewrite !length_app; lia).
  assert (Hcrc : crc_from (crc_from WAL_CHECKSUM_SEED (le_bytes 4 (17 + zlen (wr_row_data r)))) ([Z_byte (wr_type r)] ++
    (le_bytes 4 (wr_row_id r) ++ le_bytes 4 (wr_page_id r) ++ le_bytes 4 (wr_row_slot r)) ++ wr_row_data r) = compute_crc (record_body r)).
  { unfold record_body. rewrite compute_crc_app. by rewrite <- !app_assoc. }
  cbn [replay_loop]. rewrite bool_decide_eq_true_2 by lia. cbn [negb]. rewrite bool_decide_eq_false_2 by lia.
  rewrite L1. cbn [mbind outcome_bind]. rewrite bool_decide_eq_false_2 by lia. rewrite L2. cbn [mbind outcome_bind]. rewrite bool_decide_eq_false_2 by lia.
  rewrite L3, L4. cbn [mbind outcome_bind]. rewrite Hcrc. set (crc := compute_crc (record_body r)). clearbody crc.
  rewrite bool_decide_eq_false_2 by (intros Hne; by apply Hne). rewrite L5, L6, L7, L8. cbn [mbind outcome_bind].
  rewrite L9. cbn [mbind outcome_bind].
  replace (zlen pre + 4 + 4 + (17 + zlen (wr_row_data r) - 4)) with (zlen (pre ++ encode_record r)) by (rewrite length_app; lia).
  unfold d. rewrite app_assoc. by destruct r.
Qed.

(** Too short for the two length words. *)
Lemma parse_short suf : zlen suf < 8 -> replay_loop (S fuel) (pre ++ suf) (zlen pre) = Ok [].
Proof.
  intros Hs. cbn [replay_loop]. set (d := pre ++ suf).
  assert (Hd : zlen d = zlen pre + zlen suf) by (unfold d; rewrite length_app; lia).
  destruct (bool_decide (zlen pre < zlen d)) eqn:E0; [|done]. apply bool_decide_eq_true in E0. cbn [negb].
  case_bool_decide; [done|].
  destruct (load_u32_split d (zlen pre)) as (m1 & v & m2 & _ & _ & _ & ->); [lia..|].
  cbn [mbind outcome_bind]. by rewrite bool_decide_eq_true_2 by lia.
Qed.

(** A length or a checksum that does not fit. *)
Lemma parse_reject crc len body :
  0 <= crc < 2 ^ 32 -> 0 <= len < 2 ^ 32 ->
  (len < 17 \/ len - 4 > zlen body \/
   compute_crc (le_bytes 4 len ++ take (Z.to_nat (len - 4)) body) <> crc) ->
  replay_loop (S fuel) (pre ++ le_bytes 4 crc ++ le_bytes 4 len ++ body) (zlen pre) = Ok [].
Proof.
  intros Hc Hl Hrej. set (d := pre ++ le_bytes 4 crc ++ le_bytes 4 len ++ body).
  assert (Hd : zlen d = zlen pre + 8 + zlen body) by (unfold d; rewrite !length_app, !length_le_bytes; lia).
  cbn [replay_loop]. rewrite bool_decide_eq_true_2 by lia. cbn [negb]. rewrite bool_decide_eq_false_2 by lia.
  assert (L1 : load_u32 d (zlen pre) = Ok crc) by (apply load_u32_mid; done).
  assert (E2 : d = (pre ++ le_bytes 4 crc) ++ le_bytes 4 len ++ body) by (unfold d; by rewrite <- !app_assoc).
  assert (L2 : load_u32 d (zlen pre + 4) = Ok len).
  { rewrite E2. apply load_u32_mid; [rewrite length_app, length_le_bytes; lia|done]. }
  rewrite L1. cbn [mbind outcome_bind]. rewrite bool_decide_eq_false_2, L2 by lia. cbn [mbind outcome_bind].
  case_bool_decide as Hlen; [done|].
  assert (L3 : load d (zlen pre + 4 + 4 - 4) 4 = Ok (le_bytes 4 len)).
  { rewrite E2. apply load_app_mid'; rewrite ?length_app, ?length_le_bytes; lia. }
  assert (L4 : load d (zlen pre + 4 + 4) (len - 4) = Ok (take (Z.to_nat (len - 4)) body)).
  { rewrite E2. rewrite <- (take_drop (Z.to_nat (len - 4)) body) at 1. rewrite !app_assoc.
    rewrite <- (app_assoc _ (take _ _)).
    apply load_app_mid'; rewrite ?length_app, ?length_le_bytes, ?length_take; lia. }
  rewrite L3, L4. cbn [mbind outcome_bind]. rewrite <- compute_crc_app.
  rewrite bool_decide_eq_true_2; [done|]. destruct Hrej as [?|[?|?]]; [lia|lia|done].
Qed.
End parse.

Lemma le_bytes_4_inj x y : 0 <= x < 2 ^ 32 -> 0 <= y < 2 ^ 32 -> le_bytes 4 x = le_bytes 4 y -> x = y.
Proof. intros Hx Hy H%(f_equal le_val). by rewrite !le_val_4 in H. Qed.

(** The two length words of a valid start are its checksum and its length. *)
Lemma valid_start_words crc len body :
  0 <= crc < 2 ^ 32 -> 0 <= len < 2 ^ 32 ->
  valid_start (le_bytes 4 crc ++ le_bytes 4 len ++ body) ->
  17 <= len /\ len - 4 <= zlen body /\ compute_crc (le_bytes 4 len ++ take (Z.to_nat (len - 4)) body) = crc.
Proof.
  intros Hc Hl (r & tl & (_ & _ & _ & _ & Hd) & Heq).
  pose proof (length_record_body r) as Hlb.
  unfold encode_record in Heq. rewrite <- !app_assoc in Heq.
  apply app_inj_1 in Heq as [H1 Heq]; [|by rewrite !length_le_bytes].
  apply le_bytes_4_inj in H1; [|done|apply compute_crc_range]. subst crc.
  assert (Hlen : len = 17 + zlen (wr_row_data r)).
  { unfold record_body in Heq. rewrite <- !app_assoc in Heq.
    apply app_inj_1 in Heq as [H2 _]; [|by rewrite !length_le_bytes]. by apply le_bytes_4_inj in H2; [|lia|lia]. }
  assert (Hz : 4 + zlen body = 17 + zlen (wr_row_data r) + zlen tl).
  { apply (f_equal length) in Heq. rewrite !length_app, length_le_bytes in Heq. lia. }
  split_and!; [lia|lia|]. f_equal.
  apply (f_equal (take (Z.to_nat len))) in Heq.
  rewrite take_app_ge in Heq by (rewrite length_le_bytes; lia).
  rewrite take_app_length' in Heq by lia. rewrite <- Heq. f_equal. f_equal. rewrite length_le_bytes. lia.
Qed.

Lemma split_word (suf : bytes) :
  4 <= zlen suf -> exists v tl, suf = le_bytes 4 v ++ tl /\ 0 <= v < 2 ^ 32 /\ zlen tl = zlen suf - 4.
Proof.
  intros Hs. destruct (load_u32_split suf 0) as (m1 & v & m2 & -> & Hm & Hv & _); [lia|lia|].
  destruct m1; [|cbn in Hm; lia]. exists v, m2. split_and!; [done|lia|lia|]. cbn.
  rewrite length_app, length_le_bytes. lia.
Qed.

(** One round: a valid record is parsed, anything else stops the parser. *)
Lemma parse_cases suf :
  (exists r tl, record_ok r /\ suf = encode_record r ++ tl) \/
  (~ valid_start suf /\ forall fuel pre, replay_loop (S fuel) (pre ++ suf) (zlen pre) = Ok []).
Proof.
  destruct (decide (zlen suf < 8)) as [Hs|Hs].
  { right. split; [|intros; by apply parse_short].
    intros (r & tl & _ & ->). rewrite length_app in Hs. pose proof (length_encode_record r). lia. }
  destruct (split_word suf) as (crc & suf1 & -> & Hc & Hz); [lia|].
  destruct (split_word suf1) as (len & body & -> & Hl & Hz2); [lia|].
  destruct (decide (len < 17 \/ len - 4 > zlen body \/
     compute_crc (le_bytes 4 len ++ take (Z.to_nat (len - 4)) body) <> crc)) as [Hrej|Hok].
  { right. split; [|intros; by apply parse_reject].
    intros (? & ? & ?)%valid_start_words; [|done..]. destruct Hrej as [?|[?|?]]; [lia|lia|done]. }
  left. assert (H17 : 17 <= len) by lia. assert (Hb : len - 4 <= zlen body) by lia.
  assert (Hcrc : compute_crc (le_bytes 4 len ++ take (Z.to_nat (len - 4)) body) = crc)
    by (destruct (Z.eq_dec (compute_crc (le_bytes 4 len ++ take (Z.to_nat (len - 4)) body)) crc); [done|tauto]).
  set (rest := take (Z.to_nat (len - 4)) body) in *.
  assert (Hrest : zlen rest = len - 4) by (unfold rest; rewrite length_take; lia).
  destruct rest as [|t rest1] eqn:Er; [cbn in Hrest; lia|]. cbn [length] in Hrest.
  destruct (split_word rest1) as (row & rest2 & -> & Hrow & ?); [lia|].
  destruct (split_word rest2) as (page & rest3 & -> & Hpage & ?); [lia|].
  destruct (split_word rest3) as (slot & data & -> & Hslot & ?); [lia|].
  exists (mkWALRecord (byte_Z t) row page slot data), (drop (Z.to_nat (len - 4)) body).
  assert (Hbody : record_body (mkWALRecord (byte_Z t) row page slot data)
      = le_bytes 4 len ++ (t :: le_bytes 4 row ++ le_bytes 4 page ++ le_bytes 4 slot ++ data)).
  { unfold record_body. cbn [wr_type wr_row_id wr_page_id wr_row_slot wr_row_data]. rewrite Z_byte_of_byte.
    replace (17 + zlen data) with len by lia. done. }
  split.
  - split_and!; cbn [wr_type wr_row_id wr_page_id wr_row_slot wr_row_data]; try lia; apply byte_Z_range.
  - unfold encode_record. rewrite Hbody, Hcrc, <- Er, <- !app_assoc. unfold rest.
    by rewrite take_drop.
Qed.

(** *** The whole parser *)

Lemma parse_run suf :
  exists rs tl, suf = encode_records rs ++ tl /\ Forall record_ok rs /\ ~ valid_start tl /\
    forall fuel pre, (length suf <= fuel)%nat -> replay_loop fuel (pre ++ suf) (zlen pre) = Ok rs.
Proof.
  remember (length suf) as n eqn:Hn. revert suf Hn. induction n as [n IH] using lt_wf_ind. intros suf ->.
  destruct (parse_cases suf) as [(r & tl & Hr & ->)|[Hnv Hstop]].
  - pose proof (length_encode_record r) as Hlen.
    destruct (IH (length tl)) with (suf := tl) as (rs & tl' & -> & Hrs & Hnv & Hrun);
      [rewrite length_app; lia|done|].
    exists (r :: rs), tl'. split_and!; [by rewrite encode_records_cons, app_assoc|by constructor|done|].
    intros fuel pre Hf. rewrite length_app in Hf. destruct fuel as [|fuel]; [lia|].
    rewrite parse_record, Hrun by (done || lia). done.
  - exists [], suf. split_and!; [done|constructor|done|]. intros [|fuel] pre Hf; [|apply Hstop].
    destruct suf; [|cbn in Hf; lia]. cbn [replay_loop]. rewrite app_nil_r, bool_decide_eq_false_2 by lia. done.
Qed.

(** The decomposition into records and a tail is unique. *)
Lemma encode_record_inj r1 r2 tl1 tl2 :
  record_ok r1 -> record_ok r2 -> encode_record r1 ++ tl1 = encode_record r2 ++ tl2 -> r1 = r2 /\ tl1 = tl2.
Proof.
  intros H1 H2 Heq.
  destruct (parse_run tl1) as (rs1 & t1 & E1 & _ & _ & R1). destruct (parse_run tl2) as (rs2 & t2 & E2 & _ & _ & R2).
  pose proof (parse_record (length tl1 + length tl2) [] r1 tl1 H1) as Q1. rewrite R1 in Q1 by lia.
  pose proof (parse_record (length tl1 + length tl2) [] r2 tl2 H2) as Q2. rewrite R2 in Q2 by lia.
  rewrite Heq, Q2 in Q1. cbn in Q1. by simplify_eq.
Qed.

Lemma decode_unique rs1 rs2 tl1 tl2 :
  Forall record_ok rs1 -> Forall record_ok rs2 -> ~ valid_start tl1 -> ~ valid_start tl2 ->
  encode_records rs1 ++ tl1 = encode_records rs2 ++ tl2 -> rs1 = rs2 /\ tl1 = tl2.
Proof.
  intros H1. revert rs2. induction H1 as [|r1 rs1 Hr1 H1 IH]; intros rs2 H2 N1 N2 Heq.
  - destruct H2 as [|r2 rs2 Hr2 H2]; [done|]. destruct N1. change (encode_records [] ++ tl1) with tl1 in Heq. subst.
    rewrite encode_records_cons, <- app_assoc. by eexists _, _.
  - destruct H2 as [|r2 rs2 Hr2 H2].
    + destruct N2. change (encode_records [] ++ tl2) with tl2 in Heq. subst tl2. rewrite encode_records_cons, <- app_assoc. by eexists _, _.
    + rewrite !encode_records_cons, <- !app_assoc in Heq.
      apply encode_record_inj in Heq as [-> Heq]; [|done..].
      by destruct (IH rs2 H2 N1 N2 Heq) as [-> ->].
Qed.

Lemma parse_log_run rs tl :
  Forall record_ok rs -> ~ valid_start tl -> parse_log (encode_records rs ++ tl) = Ok rs.
Proof.
  intros Hrs Hnv. destruct (parse_run (encode_records rs ++ tl)) as (rs' & tl' & Heq & Hrs' & Hnv' & Hrun).
  unfold parse_log. pose proof (Hrun (length (encode_records rs ++ tl)) [] ltac:(lia)) as H.
  cbn [app length] in H. change (Z.of_nat 0) with 0 in H. rewrite H.
  by apply decode_unique in Heq as [-> _].
Qed.

Lemma valid_start_nil : ~ valid_start [].
Proof. intros (r & tl & _ & H%(f_equal length)). rewrite length_app in H. pose proof (length_encode_record r). cbn in H. lia. Qed.

(** A proper prefix of a record is not a valid start. *)
Lemma torn_record r k :
  record_ok r -> (k < length (encode_record r))%nat -> ~ valid_start (take k (encode_record r)).
Proof.
  intros Hr Hk (r' & tl & Hr' & Heq).
  assert (Hfull : encode_record r ++ [] = encode_record r' ++ (tl ++ drop k (encode_record r))).
  { by rewrite app_nil_r, app_assoc, <- Heq, take_drop. }
  apply encode_record_inj in Hfull as [-> Ht]; [|done..].
  symmetry in Ht. apply app_nil in Ht as [_ Hd]. apply (f_equal length) in Hd.
  rewrite length_drop in Hd. cbn in Hd. lia.
Qed.

(** Every truncation of a log is a shorter log and a torn record. *)
Lemma take_encode_records rs k :
  Forall record_ok rs ->
  exists j tl, take k (encode_records rs) = encode_records (take j rs) ++ tl /\ ~ valid_start tl /\
    (forall i, (length (encode_records (take i rs)) <= k)%nat -> (i <= length rs)%nat -> (i <= j)%nat).
Proof.
  intros Hrs. revert k. induction Hrs as [|r rs Hr Hrs IH]; intros k.
  - exists O, []. change (encode_records []) with (@nil byte). rewrite take_nil.
    split_and!; [done|apply valid_start_nil|by intros i _ Hi].
  - rewrite encode_records_cons. destruct (decide (length (encode_record r) <= k)%nat) as [Hk|Hk].
    + destruct (IH (k - length (encode_record r))%nat) as (j & tl & Ht & Hnv & Hmax).
      exists (S j), tl. cbn [take]. rewrite encode_records_cons, take_app_ge, Ht, app_assoc by done.
      split_and!; [done|done|]. intros [|i] Hi Hl; [lia|]. cbn [take] in Hi. cbn [length] in Hl.
      rewrite encode_records_cons, length_app in Hi. apply le_n_S, Hmax; lia.
    + exists O, (take k (encode_record r)). split_and!; [|apply torn_record; [done|lia]|].
      * cbn. by rewrite take_app_le by lia.
      * intros [|i] Hi Hl; [lia|]. cbn [take] in Hi. rewrite encode_records_cons, length_app in Hi. lia.
Qed.

(** *** Runs on a file without I/O errors *)

Lemma length_wal_header : zlen wal_header = 32.
Proof. vm_compute. reflexivity. Qed.

(** The log holds these records after some first bytes: the first records in the
    file, the others in the write buffer. *)
Record wal_rep {F} `{FileSys F} (base : bytes) (w : WAL F) (flushed buffered : list WALRecord) : Prop := {
  rep_open : w_open w = true;
  rep_fd : w_fd w = true;
  rep_exists : f_exists (w_file w) = true;
  rep_content : f_content (w_file w) = base ++ encode_records flushed;
  rep_pos : f_pos (w_file w) = zlen (f_content (w_file w));
  rep_offset : current_offset_ w = zlen (f_content (w_file w));
  rep_buf : write_buf_ w = encode_records buffered;
  rep_ok : Forall record_ok (flushed ++ buffered);
  rep_small : zlen (write_buf_ w) <= WAL_BUFFER_SIZE;
  rep_synced : buf_dirty_ w = false -> f_synced (w_file w) = f_content (w_file w);
}.

(** The bytes of the whole log, the buffer included. *)
Definition log_size (base : bytes) (rs : list WALRecord) : Z := zlen (base ++ encode_records rs).

Lemma log_size_app base rs1 rs2 : log_size base (rs1 ++ rs2) = log_size base rs1 + zlen (encode_records rs2).
Proof. unfold log_size. rewrite encode_records_app, !length_app. lia. Qed.

Section runs.
Context {F : Type} `{FileLaws F} `{!FileReliable F}.
Context (base : bytes).
Implicit Types (w : WAL F).
Local Abbreviation wal_rep := (wal_rep base).
Local Abbreviation log_size := (log_size base).

Lemma flush_run w fl bu :
  wal_rep w fl bu -> log_size (fl ++ bu) < 2 ^ 63 ->
  exists w', flush_write_buffer w = (Ok tt, w') /\ wal_rep w' (fl ++ bu) [] /\
             f_synced (w_file w') = f_synced (w_file w) /\ (bu = [] -> w' = w).
Proof.
  intros Hw Hsz. destruct Hw as [Ho Hfd He Hc Hp Hof Hb Hok Hsm Hsy].
  unfold flush_write_buffer. rewrite (M_bind_ok get _ _ _ _ eq_refl). case_bool_decide as Hnil.
  { assert (bu = []) as ->.
    { destruct bu as [|r bu]; [done|]. rewrite Hb, encode_records_cons in Hnil.
      apply app_nil in Hnil as [Hnil _]. apply (f_equal length) in Hnil.
      pose proof (length_encode_record r). cbn in Hnil. lia. }
    exists w. rewrite app_nil_r in *. by split_and!; [|split; rewrite ?app_nil_r|..]. }
  rewrite take_ge by (unfold WAL_BUFFER_SIZE, u32 in *; rewrite Z.mod_small; lia).
  destruct (safe_write_ok (write_buf_ w) (w_file w)) as (f' & Hr & Hs' & He' & Hp' & Hc'); [done|lia|].
  rewrite (M_bind_ok (on_file _) _ _ tt (set_file f' w)) by (by apply zoom_ok).
  do 2 rewrite (M_bind_ok (modify _) _ _ _ _ eq_refl).
  eexists. split; [reflexivity|]. rewrite bool_decide_eq_false_2 in Hc' by done.
  rewrite Hp, file_write_end in Hc'.
  assert (Hcc : f_content f' = base ++ encode_records (fl ++ bu))
    by (rewrite Hc', Hc, Hb, encode_records_app; by rewrite app_assoc).
  assert (Hlen : zlen (f_content f') = zlen (f_content (w_file w)) + zlen (write_buf_ w))
    by (rewrite Hc', length_app; lia).
  split_and!.
  - split; cbn; try done.
    + congruence.
    + lia.
    + rewrite Hof. unfold u64. rewrite Z.mod_small; [lia|].
      unfold Wal.log_size in Hsz. rewrite <- Hcc in Hsz. lia.
    + by rewrite app_nil_r.
  - done.
  - intros ->. by rewrite Hb in Hnil.
Qed.

Lemma sync_run w fl bu :
  wal_rep w fl bu -> log_size (fl ++ bu) < 2 ^ 63 ->
  exists w', wal_sync w = (Ok tt, w') /\ wal_rep w' (fl ++ bu) [] /\
             f_synced (w_file w') = f_content (w_file w').
Proof.
  intros Hw Hsz. unfold wal_sync. rewrite (M_bind_ok get _ _ _ _ eq_refl), (rep_open _ _ _ _ Hw). cbn [negb].
  destruct (flush_run w fl bu Hw Hsz) as (w1 & Hr & Hw1 & _ & _). rewrite (M_bind_ok _ _ _ _ _ Hr).
  unfold fsync_if_dirty. rewrite (M_bind_ok get _ _ _ _ eq_refl).
  destruct (buf_dirty_ w1) eqn:Hd.
  - destruct (fsync_run (w_file w1)) as (f' & Hf & Hc & Hp & He & Hs).
    rewrite (M_bind_ok (on_file _) _ _ tt (set_file f' w1)) by (by apply zoom_ok).
    eexists. split; [reflexivity|]. destruct Hw1 as [? ? ? ? ? ? ? ? ? ?].
    split; [split; cbn; first [assumption | intros; congruence]|]. cbn. congruence.
  - exists w1. split_and!; [done..|]. by apply Hw1.
Qed.

Lemma ensure_run w fl bu n :
  wal_rep w fl bu -> log_size (fl ++ bu) < 2 ^ 63 -> 0 <= n <= WAL_BUFFER_SIZE ->
  exists w' fl' bu', ensure_buffer_space n w = (Ok tt, w') /\ wal_rep w' fl' bu' /\ fl' ++ bu' = fl ++ bu /\
    zlen (write_buf_ w') + n <= WAL_BUFFER_SIZE.
Proof.
  intros Hw Hsz Hn. unfold ensure_buffer_space. rewrite (M_bind_ok get _ _ _ _ eq_refl).
  case_bool_decide as Hfull.
  - destruct (flush_run w fl bu Hw Hsz) as (w1 & Hr & Hw1 & _ & _).
    exists w1, (fl ++ bu), []. split_and!; [done|done|apply app_nil_r|].
    rewrite (rep_buf _ _ _ _ Hw1). change (zlen (encode_records [])) with 0. lia.
  - exists w, fl, bu. split_and!; [done..|lia].
Qed.

(** The stores into the resized buffer append the encoded record. *)
Lemma put_record_run b r :
  record_ok r -> zlen b + 21 + zlen (wr_row_data r) < 2 ^ 32 ->
  put_record (zlen b) (compute_crc (record_body r)) (17 + zlen (wr_row_data r)) (wr_type r) (wr_row_id r)
    (wr_page_id r) (wr_row_slot r) (wr_row_data r)
    (resize (zlen b + (21 + zlen (wr_row_data r))) b) = (Ok tt, b ++ encode_record r).
Proof.
  intros Hr Hsz. rewrite resize_grow by lia.
  replace (Z.to_nat (zlen b + (21 + zlen (wr_row_data r))) - length b)%nat
    with (4 + (4 + (1 + (4 + (4 + (4 + length (wr_row_data r)))))))%nat by lia.
  unfold put_record, store_byte.
  set (c := le_bytes 4 (compute_crc (record_body r))). set (l := le_bytes 4 (17 + zlen (wr_row_data r))).
  set (t := [Z_byte (wr_type r)]). set (i := le_bytes 4 (wr_row_id r)). set (p := le_bytes 4 (wr_page_id r)).
  set (s := le_bytes 4 (wr_row_slot r)).
  assert (Hc : length c = 4%nat) by apply length_le_bytes. assert (Hl : length l = 4%nat) by apply length_le_bytes.
  assert (Hi : length i = 4%nat) by apply length_le_bytes. assert (Hp : length p = 4%nat) by apply length_le_bytes.
  assert (Hs : length s = 4%nat) by apply length_le_bytes. assert (Ht : length t = 1%nat) by done.
  do 6 (erewrite M_bind_ok by (apply store_fill; [rewrite ?length_app; lia|done])).
  assert (Henc : b ++ encode_record r = (((((((b ++ c) ++ l) ++ t) ++ i) ++ p) ++ s) ++ wr_row_data r))
    by (unfold encode_record, record_body; by rewrite <- !app_assoc).
  rewrite Henc. case_bool_decide as Hd.
  - replace (length (wr_row_data r)) with (length (wr_row_data r) + 0)%nat by lia.
    rewrite store_fill by (rewrite ?length_app; lia). cbn [replicate]. by rewrite app_nil_r.
  - assert (Hz : length (wr_row_data r) = O) by lia. rewrite Hz.
    destruct (wr_row_data r); [|done]. cbn [replicate]. by rewrite !app_nil_r.
Qed.

Lemma write_record_run w fl bu r :
  wal_rep w fl bu -> record_ok r -> 21 + zlen (wr_row_data r) <= WAL_BUFFER_SIZE ->
  log_size (fl ++ bu ++ [r]) < 2 ^ 63 ->
  exists w' fl' bu',
    write_record (wr_type r) (wr_row_data r) (wr_row_id r) (wr_page_id r) (wr_row_slot r) w
    = (Ok (log_size (fl ++ bu)), w') /\
    wal_rep w' fl' bu' /\ fl' ++ bu' = fl ++ bu ++ [r].
Proof.
  intros Hw Hr Hmax Hsz. rewrite app_assoc, log_size_app in Hsz. unfold WAL_BUFFER_SIZE in Hmax.
  unfold write_record. rewrite (M_bind_ok get _ _ _ _ eq_refl), (rep_open _ _ _ _ Hw). cbn [negb].
  assert (Hn : u32 (4 + 1 + 4 + 4 + 4 + zlen (wr_row_data r)) = 17 + zlen (wr_row_data r))
    by (unfold u32; rewrite Z.mod_small; lia).
  assert (Hn2 : u32 (4 + (17 + zlen (wr_row_data r))) = 21 + zlen (wr_row_data r))
    by (unfold u32; rewrite Z.mod_small; lia).
  rewrite Hn, Hn2. cbv zeta.
  destruct (ensure_run w fl bu (21 + zlen (wr_row_data r)) Hw) as (w1 & fl1 & bu1 & Hr1 & Hw1 & Happ & Hroom);
    [lia|unfold WAL_BUFFER_SIZE; lia|].
  rewrite (M_bind_ok _ _ _ _ _ Hr1), (M_bind_ok get _ _ _ _ eq_refl).
  rewrite (M_bind_ok (modify _) _ _ _ _ eq_refl). unfold WAL_BUFFER_SIZE in Hroom.
  destruct Hw1 as [Ho Hfd He Hc Hp Hof Hb Hok Hsm Hsy].
  rewrite record_crc_body by lia.
  erewrite (M_bind_ok (zoom _ _ _)) by (apply zoom_ok, put_record_run; [done|lia]).
  assert (Hoff : u64 (current_offset_ w1 + zlen (write_buf_ w1)) = log_size (fl ++ bu)).
  { rewrite Hof, Hc, Hb, <- Happ, log_size_app. fold (log_size fl1). unfold u64. apply Z.mod_small.
    pose proof (log_size_app base fl1 bu1) as Hl. rewrite Happ in Hl.
    assert (0 <= log_size fl1) by (unfold Wal.log_size; lia). lia. }
  rewrite Hoff. eexists _, fl1, (bu1 ++ [r]). split; [reflexivity|]. split.
  - split; cbn; try done.
    + by rewrite Hb, encode_records_snoc.
    + rewrite app_assoc. apply Forall_app. by split; [|constructor].
    + rewrite length_app. pose proof (length_encode_record r). unfold WAL_BUFFER_SIZE. lia.
  - by rewrite !app_assoc, Happ.
Qed.

(** *** Reading back *)

Lemma read_loop_run fuel n acc f :
  0 <= f_pos f -> zlen acc <= n -> n - zlen acc <= zlen (f_content f) - f_pos f -> n - zlen acc <= Z.of_nat fuel ->
  exists f', read_loop fuel n acc f =
      (Ok (acc ++ take (Z.to_nat (n - zlen acc)) (drop (Z.to_nat (f_pos f)) (f_content f))), f') /\
    f_content f' = f_content f /\ f_synced f' = f_synced f /\ f_exists f' = f_exists f /\
    f_pos f' = f_pos f + (n - zlen acc).
Proof.
  revert acc f; induction fuel as [|fuel IH]; intros acc f Hp Hn Hav Hf; cbn [read_loop].
  - rewrite bool_decide_eq_false_2 by lia. exists f. replace (n - zlen acc) with 0 by lia. cbn.
    rewrite app_nil_r, Z.add_0_r. done.
  - destruct (decide (zlen acc < n)) as [Hlt|Hge].
    2: { rewrite bool_decide_eq_false_2 by lia. exists f. replace (n - zlen acc) with 0 by lia. cbn.
         rewrite app_nil_r, Z.add_0_r. done. }
    rewrite bool_decide_eq_true_2 by done. cbn [negb]. unfold sys at 1, mbind, M_bind.
    assert (Hrd : 0 <= f_pos f < zlen (f_content f)) by lia.
    pose proof (read_ok (n - zlen acc) f ltac:(lia) Hrd) as Hne.
    destruct (sys_read (n - zlen acc) f) as [bs f1] eqn:E. cbn in Hne.
    apply read_law in E as ((k & Hk) & Hl & He & Hc & Hs & Hpos).
    rewrite bool_decide_eq_false_2 by done.
    assert (0 < zlen bs) by (destruct bs; [done|cbn; lia]).
    destruct (IH (acc ++ bs) f1) as (f' & Hr & Hc' & Hs' & He' & Hp'); rewrite ?length_app, ?Hpos, ?Hc; try lia.
    exists f'. split_and!; [|congruence|congruence|congruence|rewrite Hp', Hpos, length_app; lia].
    fold (read_loop (F := F)). rewrite Hr. do 2 f_equal. rewrite <- app_assoc. f_equal.
    rewrite Hc, Hpos, length_app.
    assert (Hbs : bs = take (length bs) (drop (Z.to_nat (f_pos f)) (f_content f))).
    { rewrite Hk at 1. rewrite Hk, length_take. destruct (Nat.min_spec k (length (drop (Z.to_nat (f_pos f)) (f_content f))))
        as [[? ->]|[? ->]]; [done|]. by rewrite !take_ge by lia. }
    replace (Z.to_nat (n - zlen acc)) with (length bs + Z.to_nat (n - Z.of_nat (length acc + length bs)))%nat by lia.
    rewrite <- take_take_drop, drop_drop. rewrite <- Hbs at 1. do 3 f_equal. lia.
Qed.

(** [replay] of an open log with nothing buffered parses the file past the
    header. *)
Lemma replay_file w :
  w_open w = true -> w_fd w = true -> write_buf_ w = [] ->
  32 <= zlen (f_content (w_file w)) ->
  exists w', replay w = (parse_log (drop 32 (f_content (w_file w))), w') /\
    f_content (w_file w') = f_content (w_file w) /\ w_open w' = true /\ w_fd w' = w_fd w /\
    write_buf_ w' = [] /\ current_offset_ w' = current_offset_ w /\ f_exists (w_file w') = f_exists (w_file w) /\
    f_pos (w_file w') = zlen (f_content (w_file w)) /\
    (f_synced (w_file w') = f_content (w_file w') \/
     (f_synced (w_file w') = f_synced (w_file w) /\ buf_dirty_ w = false)) /\ buf_dirty_ w' = false.
Proof.
  intros Ho Hfd Hb Hlen. unfold replay. rewrite (M_bind_ok get _ _ _ _ eq_refl), Ho. cbn [negb].
  assert (Hfl : flush_write_buffer w = (Ok tt, w)).
  { unfold flush_write_buffer. rewrite (M_bind_ok get _ _ _ _ eq_refl). by rewrite bool_decide_eq_true_2. }
  rewrite (M_bind_ok _ _ _ _ _ Hfl).
  assert (Hfs : exists w1, fsync_if_dirty w = (Ok tt, w1) /\ f_content (w_file w1) = f_content (w_file w) /\
     w_open w1 = true /\ w_fd w1 = w_fd w /\ write_buf_ w1 = [] /\ current_offset_ w1 = current_offset_ w /\
     f_exists (w_file w1) = f_exists (w_file w) /\ buf_dirty_ w1 = false /\
     (f_synced (w_file w1) = f_content (w_file w1) \/
       (f_synced (w_file w1) = f_synced (w_file w) /\ buf_dirty_ w = false))).
  { unfold fsync_if_dirty. rewrite (M_bind_ok get _ _ _ _ eq_refl). destruct (buf_dirty_ w) eqn:Hd.
    - destruct (fsync_run (w_file w)) as (f' & Hf & Hc & Hp & He & Hs).
      rewrite (M_bind_ok (on_file _) _ _ tt (set_file f' w)) by (by apply zoom_ok).
      eexists. split; [reflexivity|]. cbn. split_and!; try done. left. congruence.
    - exists w. split_and!; try done. by right. }
  destruct Hfs as (w1 & Hr1 & Hc1 & Ho1 & Hfd1 & Hb1 & Hof1 & He1 & Hd1 & Hs1). rewrite (M_bind_ok _ _ _ _ _ Hr1).
  unfold wal_file_size at 1. destruct (fstat_ok (w_file w1)) as [size Hsize].
  pose proof (fstat_law _ _ Hsize) as Hsz. rewrite Hc1 in Hsz.
  rewrite (M_bind_ok (_ ≫= _) _ w1 size w1).
  2: { rewrite (M_bind_ok get _ _ _ _ eq_refl). rewrite Hfd1, Hfd. cbn [negb]. by rewrite Hsize. }
  rewrite bool_decide_eq_false_2 by (unfold WAL_HEADER_SIZE; lia).
  rewrite (M_bind_ok (on_file _) _ _ tt (set_file (sys_lseek WAL_HEADER_SIZE (w_file w1)) w1)) by (by apply zoom_ok).
  cbv zeta. destruct (lseek_law WAL_HEADER_SIZE (w_file w1)) as (Lp & Lc & Ls & Le).
  destruct (read_loop_run (Z.to_nat (size - WAL_HEADER_SIZE)) (size - WAL_HEADER_SIZE) []
              (sys_lseek WAL_HEADER_SIZE (w_file w1))) as (f2 & Hr2 & Hc2 & Hs2 & He2 & Hp2);
    unfold WAL_HEADER_SIZE in *; rewrite ?Lp, ?Lc, ?Hc1; cbn [length]; try lia.
  rewrite (M_bind_ok (on_file _) _ _ _ _ (zoom_ok _ _ _ (set_file (sys_lseek 32 (w_file w1)) w1) _ _ Hr2)).
  cbn [length app]. rewrite Lc, Lp, Hc1. change (Z.to_nat 32) with 32%nat.
  rewrite take_ge by (rewrite length_drop; lia).
  rewrite bool_decide_eq_false_2 by (rewrite length_drop; lia).
  eexists. split; [reflexivity|]. cbn. split_and!; try congruence.
  rewrite Hp2, Lp. cbn. lia.
Qed.

Lemma replay_run w fl bu :
  wal_rep w fl bu -> log_size (fl ++ bu) < 2 ^ 63 -> 32 <= zlen base ->
  exists w', replay w = (parse_log (drop 32 base ++ encode_records (fl ++ bu)), w') /\
             wal_rep w' (fl ++ bu) [].
Proof.
  intros Hw Hsz Hbase. destruct (flush_run w fl bu Hw Hsz) as (w1 & Hr & Hw1 & _).
  assert (Heq : replay w = replay w1).
  { unfold replay. rewrite !(M_bind_ok get _ _ _ _ eq_refl).
    rewrite (rep_open _ _ _ _ Hw), (rep_open _ _ _ _ Hw1). cbn [negb]. rewrite (M_bind_ok _ _ _ _ _ Hr).
    destruct (flush_run w1 (fl ++ bu) [] Hw1) as (w2 & Hr2 & _ & _ & Hw2); [by rewrite app_nil_r|].
    rewrite (Hw2 eq_refl) in Hr2. by rewrite (M_bind_ok _ _ _ _ _ Hr2). }
  rewrite Heq. destruct Hw1 as [Ho Hfd He Hc Hp Hof Hb Hok Hsm Hsy]. rewrite app_nil_r in Hok.
  destruct (replay_file w1) as (w' & Hr' & Hc' & Ho' & Hfd' & Hb' & Hof' & He' & Hp' & Hs' & Hd'); [done|done|done| |].
  { rewrite Hc, length_app. lia. }
  exists w'. rewrite Hr', Hc, drop_app_le by lia. split.
  - done.
  - split; try congruence.
    + done.
    + by rewrite app_nil_r.
    + rewrite Hb'. unfold WAL_BUFFER_SIZE. cbn. lia.
    + intros _. destruct Hs' as [Hs'|[Hs' Hd]]; [congruence|]. rewrite Hs', Hc'. auto.
Qed.

Lemma maybe_sync_run w fl bu (b : bool) :
  wal_rep w fl bu -> log_size (fl ++ bu) < 2 ^ 63 ->
  exists w' fl' bu', (if b then wal_sync else mret tt) w = (Ok tt, w') /\ wal_rep w' fl' bu' /\
    fl' ++ bu' = fl ++ bu /\ (b = true -> bu' = [] /\ f_synced (w_file w') = f_content (w_file w')).
Proof.
  intros Hw Hsz. destruct b; [|by exists w, fl, bu].
  destruct (sync_run w fl bu Hw Hsz) as (w' & Hr & Hw' & Hs).
  exists w', (fl ++ bu), []. split_and!; [done|done|apply app_nil_r|done].
Qed.

(** Writing a record and perhaps forcing it. *)
Lemma record_sync_run w fl bu r (b : bool) :
  wal_rep w fl bu -> record_ok r -> 21 + zlen (wr_row_data r) <= WAL_BUFFER_SIZE ->
  log_size (fl ++ bu ++ [r]) < 2 ^ 63 ->
  exists w' fl' bu',
    (off ← write_record (wr_type r) (wr_row_data r) (wr_row_id r) (wr_page_id r) (wr_row_slot r);
     (if b then wal_sync else mret tt) ;; mret off) w = (Ok (log_size (fl ++ bu)), w') /\
    wal_rep w' fl' bu' /\ fl' ++ bu' = fl ++ bu ++ [r] /\
    (b = true -> bu' = [] /\ f_synced (w_file w') = f_content (w_file w')).
Proof.
  intros Hw Hr Hmax Hsz. destruct (write_record_run w fl bu r Hw Hr Hmax Hsz) as (w1 & fl1 & bu1 & Hr1 & Hw1 & Happ1).
  rewrite (M_bind_ok _ _ _ _ _ Hr1). rewrite <- Happ1 in Hsz |- *.
  destruct (maybe_sync_run w1 fl1 bu1 b Hw1 Hsz) as (w2 & fl2 & bu2 & Hr2 & Hw2 & Happ2 & Hs2).
  rewrite (M_bind_ok _ _ _ _ _ Hr2). by exists w2, fl2, bu2.
Qed.

(** What an operation returns: the place of its record. *)
Definition op_result (o : log_op) (rs : list WALRecord) : option Z :=
  match o with LogInsert _ _ _ _ _ | LogDelete _ _ _ _ => Some (log_size rs) | _ => None end.

Lemma op_run_ok w fl bu o :
  wal_rep w fl bu -> op_ok o -> log_size (fl ++ bu ++ op_records [o]) < 2 ^ 63 ->
  exists w' fl' bu', op_run o w = (Ok (op_result o (fl ++ bu)), w') /\ wal_rep w' fl' bu' /\
    fl' ++ bu' = fl ++ bu ++ op_records [o] /\
    (op_syncs o = true -> bu' = [] /\ f_synced (w_file w') = f_content (w_file w')).
Proof.
  intros Hw Hok Hsz.
  destruct o as [r p s d b|r p s b| | |]; cbn [op_ok op_record op_records omap list_omap] in *.
  - destruct Hok as [Hrok Hmax].
    destruct (record_sync_run w fl bu _ b Hw Hrok Hmax Hsz) as (w' & fl' & bu' & Hr & Hrest).
    exists w', fl', bu'. split; [|done]. cbn [op_run]. unfold log_insert. by erewrite M_bind_ok by exact Hr.
  - destruct Hok as [Hrok Hmax].
    destruct (record_sync_run w fl bu _ b Hw Hrok Hmax Hsz) as (w' & fl' & bu' & Hr & Hrest).
    exists w', fl', bu'. split; [|done]. cbn [op_run]. unfold log_delete. by erewrite M_bind_ok by exact Hr.
  - destruct Hok as [Hrok Hmax].
    destruct (write_record_run w fl bu _ Hw Hrok Hmax Hsz) as (w' & fl' & bu' & Hr & Hw' & Happ).
    exists w', fl', bu'. split_and!; [|done..]. cbn [op_run]. unfold log_commit.
    erewrite M_bind_ok; [done|]. by erewrite M_bind_ok by exact Hr.
  - destruct Hok as [Hrok Hmax].
    destruct (write_record_run w fl bu _ Hw Hrok Hmax Hsz) as (w1 & fl1 & bu1 & Hr & Hw1 & Happ).
    rewrite <- Happ in Hsz.
    destruct (sync_run w1 fl1 bu1 Hw1 Hsz) as (w2 & Hr2 & Hw2 & Hs2).
    exists w2, (fl1 ++ bu1), []. split_and!; [|done|by rewrite app_nil_r|done]. cbn [op_run]. unfold log_checkpoint.
    erewrite M_bind_ok; [done|]. erewrite M_bind_ok by exact Hr.
    unfold wal_sync in Hr2. rewrite (M_bind_ok get _ _ _ _ eq_refl), (rep_open _ _ _ _ Hw1) in Hr2. exact Hr2.
  - rewrite app_nil_r in Hsz. destruct (sync_run w fl bu Hw Hsz) as (w2 & Hr2 & Hw2 & Hs2).
    exists w2, (fl ++ bu), []. split_and!; [|done|by rewrite !app_nil_r|done]. cbn [op_run].
    by rewrite (M_bind_ok _ _ _ _ _ Hr2).
Qed.

(** The results of a sequence of operations. *)
Fixpoint ops_result (ops : list log_op) (rs : list WALRecord) : list (option Z) :=
  match ops with
  | [] => []
  | o :: ops => op_result o rs :: ops_result ops (rs ++ op_records [o])
  end.

Lemma ops_run_ok w fl bu ops :
  wal_rep w fl bu -> Forall op_ok ops -> log_size (fl ++ bu ++ op_records ops) < 2 ^ 63 ->
  exists w' fl' bu', ops_run ops w = (Ok (ops_result ops (fl ++ bu)), w') /\ wal_rep w' fl' bu' /\
    fl' ++ bu' = fl ++ bu ++ op_records ops.
Proof.
  intros Hw Hok. revert w fl bu Hw. induction Hok as [|o ops Ho Hok IH]; intros w fl bu Hw Hsz.
  - exists w, fl, bu. change (op_records []) with (@nil WALRecord). by rewrite app_nil_r.
  - assert (Hsplit : op_records (o :: ops) = op_records [o] ++ op_records ops).
    { unfold op_records. cbn. by destruct (op_record o). }
    rewrite Hsplit in Hsz |- *.
    destruct (op_run_ok w fl bu o Hw Ho) as (w1 & fl1 & bu1 & Hr & Hw1 & Happ & _).
    { rewrite !app_assoc, log_size_app in Hsz. rewrite app_assoc. lia. }
    destruct (IH w1 fl1 bu1 Hw1) as (w2 & fl2 & bu2 & Hr2 & Hw2 & Happ2).
    { rewrite !app_assoc in Hsz. rewrite app_assoc, Happ. by rewrite app_assoc. }
    exists w2, fl2, bu2. split_and!; [|done|].
    + cbn [ops_run ops_result]. rewrite (M_bind_ok _ _ _ _ _ Hr), (M_bind_ok _ _ _ _ _ Hr2).
      by rewrite Happ, <- app_assoc.
    + rewrite Happ2, !app_assoc, Happ. by rewrite !app_assoc.
Qed.

End runs.

(** *** Opening *)

Section opening.
Context {F : Type} `{FileLaws F} `{!FileReliable F}.

Lemma open_step w :
  exists f1, on_file (sys bool (sys_open true)) w = (Ok true, set_file f1 w) /\
    f_synced f1 = f_synced (w_file w) /\ f_exists f1 = true /\ f_content f1 = f_content (w_file w) /\ f_pos f1 = 0 /\
    sys_fstat f1 = Some (zlen (f_content (w_file w))).
Proof.
  pose proof (open_ok true (w_file w) (or_introl eq_refl)) as Hok.
  destruct (sys_open true (w_file w)) as [ok f1] eqn:E. cbn in Hok. subst ok. exists f1.
  pose proof E as (Hs & _ & He1 & Hc & Hp)%open_law.
  destruct (fstat_ok f1) as [n Hn]. pose proof (fstat_law _ _ Hn) as ->. rewrite Hc in Hn.
  split_and!; try done. unfold on_file, zoom, sys. by rewrite E.
Qed.

(** A new log, in an object that was used before or not. *)
Lemma open_fresh_run w :
  w_open w = false -> write_buf_ w = [] -> f_content (w_file w) = [] ->
  exists w', wal_open w = (Ok tt, w') /\ wal_rep wal_header w' [] [] /\ f_synced (w_file w') = f_content (w_file w').
Proof.
  intros Hop Hbuf Hnil. destruct (open_step w) as (f1 & Hr & Hs & He & Hc & Hp & Hst).
  unfold wal_open. rewrite (M_bind_ok get _ _ _ _ eq_refl), Hop.
  rewrite (M_bind_ok _ _ _ _ _ Hr). cbn [negb].
  rewrite (M_bind_ok (modify _) _ _ _ _ eq_refl), (M_bind_ok get _ _ _ _ eq_refl).
  cbn [w_file set_file set_fd]. rewrite Hst, Hnil. rewrite bool_decide_eq_true_2 by done.
  destruct (safe_write_ok wal_header f1) as (f2 & Hr2 & Hs2 & He2 & Hp2 & Hc2); [done|lia|].
  rewrite bool_decide_eq_false_2 in Hc2 by (intros Hz; by pose proof length_wal_header as Hl; rewrite Hz in Hl).
  rewrite Hp, Hc, Hnil in Hc2. change 0 with (zlen (@nil byte)) in Hc2. rewrite file_write_end in Hc2.
  destruct (fsync_run f2) as (f3 & Hr3 & Hc3 & Hp3 & He3 & Hs3).
  set (w1 := set_fd true (set_file f1 w)).
  set (w3 := set_offset WAL_HEADER_SIZE (set_file f3 (set_file f2 w1))).
  rewrite (M_bind_ok (_ ≫= _) _ w1 tt w3).
  2: { rewrite (M_bind_ok (on_file _) _ w1 tt (set_file f2 w1)) by (by apply zoom_ok).
       by rewrite (M_bind_ok (on_file _) _ (set_file f2 w1) tt (set_file f3 (set_file f2 w1))) by (by apply zoom_ok). }
  pose proof length_wal_header as Hl.
  assert (Hc3' : f_content f3 = wal_header) by (by rewrite Hc3, Hc2).
  assert (Hs3' : f_synced f3 = f_content f3) by congruence.
  eexists. split; [reflexivity|]. split; [|exact Hs3']. split; cbn [w3 w1 set_offset set_file set_fd set_open w_open w_fd w_file
    write_buf_ buf_dirty_ current_offset_]; try done; try congruence.
  - rewrite Hp3, Hp2, Hp, Hc3'. lia.
  - by rewrite Hc3', Hl.
  - rewrite Hbuf. done.
Qed.

Lemma open_new_run f :
  f_content f = [] -> exists w, wal_open (new_WAL f) = (Ok tt, w) /\ wal_rep wal_header w [] [] /\
    f_synced (w_file w) = f_content (w_file w).
Proof. intros Hf. by apply open_fresh_run. Qed.

(** An existing log, whatever its bytes. *)
Lemma open_existing_run f :
  f_content f <> [] ->
  exists w, wal_open (new_WAL f) = (Ok tt, w) /\ f_content (w_file w) = f_content f /\
    f_synced (w_file w) = f_synced f /\ f_exists (w_file w) = true /\
    f_pos (w_file w) = zlen (f_content f) /\
    w_open w = true /\ w_fd w = true /\ write_buf_ w = [] /\ buf_dirty_ w = false /\
    current_offset_ w = zlen (f_content f).
Proof.
  intros Hne. destruct (open_step (new_WAL f)) as (f1 & Hr & Hs & He & Hc & Hp & Hst). cbn [w_file new_WAL] in *.
  unfold wal_open. rewrite (M_bind_ok get _ _ _ _ eq_refl). cbn [w_open new_WAL].
  rewrite (M_bind_ok _ _ _ _ _ Hr). cbn [negb].
  rewrite (M_bind_ok (modify _) _ _ _ _ eq_refl), (M_bind_ok get _ _ _ _ eq_refl).
  cbn [w_file set_file set_fd new_WAL]. rewrite Hst.
  rewrite bool_decide_eq_false_2 by (destruct (f_content f); [done|cbn; lia]).
  destruct (lseek_law (zlen (f_content f)) f1) as (Lp & Lc & Ls & Le).
  eexists. split; [reflexivity|]. cbn. split_and!; congruence.
Qed.

(** A file found on disk: what it holds has survived, so it is synced. *)
Lemma open_existing_rep f :
  f_content f <> [] -> f_synced f = f_content f ->
  exists w, wal_open (new_WAL f) = (Ok tt, w) /\ wal_rep (f_content f) w [] [].
Proof.
  intros Hne Hsy. destruct (open_existing_run f Hne) as (w & Hr & Hc & Hs & He & Hp & Ho & Hfd & Hb & Hd & Hof).
  exists w. split; [done|]. split; try congruence.
  - rewrite Hc. change (encode_records []) with (@nil byte). by rewrite app_nil_r.
  - by rewrite Hb.
  - constructor.
  - rewrite Hb. done.
Qed.

(** [close] writes what is buffered. *)
Lemma close_run w fl bu :
  wal_rep wal_header w fl bu -> log_size wal_header (fl ++ bu) < 2 ^ 63 ->
  exists w', wal_close w = (Ok tt, w') /\ w_open w' = false /\ write_buf_ w' = [] /\ f_exists (w_file w') = true /\
    f_content (w_file w') = wal_header ++ encode_records (fl ++ bu) /\
    (buf_dirty_ w = false -> bu = [] -> f_synced (w_file w') = f_content (w_file w')) /\
    f_synced (w_file w') = f_synced (w_file w).
Proof.
  intros Hw Hsz. unfold wal_close. rewrite (M_bind_ok get _ _ _ _ eq_refl), (rep_open _ _ _ _ Hw), (rep_fd _ _ _ _ Hw). cbn [negb].
  destruct (flush_run wal_header w fl bu Hw Hsz) as (w1 & Hr & Hw1 & Hs & Hn).
  rewrite (M_bind_ok _ _ w tt (set_fd false w1)) by (by rewrite (M_bind_ok _ _ _ _ _ Hr)).
  eexists. split; [reflexivity|]. cbn [set_open set_fd w_open write_buf_ w_file]. pose proof Hw1 as [? ? ? Hc ? ? Hb ? ? ?].
  split_and!; try done. intros Hd Hbu. rewrite (Hn Hbu). by apply Hw.
Qed.

(** [clear] leaves a new log. *)
Lemma clear_run w fl bu :
  wal_rep wal_header w fl bu -> log_size wal_header (fl ++ bu) < 2 ^ 63 ->
  exists w', wal_clear w = (Ok tt, w') /\ wal_rep wal_header w' [] [] /\ f_synced (w_file w') = f_content (w_file w').
Proof.
  intros Hw Hsz. unfold wal_clear. rewrite (M_bind_ok get _ _ _ _ eq_refl), (rep_open _ _ _ _ Hw).
  destruct (flush_run wal_header w fl bu Hw Hsz) as (w1 & Hr & Hw1 & _).
  destruct (close_run w1 (fl ++ bu) [] Hw1) as (w2 & Hr2 & Ho & Hb & He & _); [by rewrite app_nil_r|].
  rewrite (M_bind_ok _ _ w tt w2) by (by rewrite (M_bind_ok _ _ _ _ _ Hr)).
  rewrite (M_bind_ok get _ _ _ _ eq_refl). cbv zeta. pose proof (unlink_ok (w_file w2)) as Hok.
  destruct (sys_unlink (w_file w2)) as [ok f3] eqn:E. cbn in Hok. subst ok. pose proof E as [He3 Hc3]%unlink_law.
  rewrite (M_bind_ok (on_file _) _ w2 true (set_file f3 w2)) by (unfold on_file, zoom, sys; by rewrite E). cbn [negb andb].
  by apply open_fresh_run.
Qed.
End opening.

(** Two splits of one list of records: the encodings tell which part is longer. *)
Lemma prefix_of_common (a b c d : list WALRecord) :
  c ++ d = a ++ b -> (length (encode_records a) <= length (encode_records c))%nat ->
  exists x, c = a ++ x /\ x ++ d = b.
Proof.
  intros Heq Hlen. apply app_eq_inv in Heq as [(k & -> & ->)|(k & -> & ->)]; [by exists k|].
  destruct k as [|r k]; [exists []; by rewrite !app_nil_r|].
  rewrite encode_records_app, encode_records_cons, !length_app in Hlen.
  pose proof (length_encode_record r). lia.
Qed.

(** A torn record that claims more bytes than follow it hides them. *)
Lemma torn_hides r k x :
  record_ok r -> (8 <= k)%nat -> Z.of_nat k + zlen x < zlen (encode_record r) ->
  ~ valid_start (take k (encode_record r) ++ x).
Proof.
  intros Hr Hk Hlen Hv. pose proof (length_encode_record r) as Hl. pose proof (length_record_body r) as Hb.
  set (rest := [Z_byte (wr_type r)] ++ le_bytes 4 (wr_row_id r) ++ le_bytes 4 (wr_page_id r) ++
         le_bytes 4 (wr_row_slot r) ++ wr_row_data r).
  assert (He : encode_record r = (le_bytes 4 (compute_crc (record_body r)) ++ le_bytes 4 (17 + zlen (wr_row_data r)))
                ++ rest) by (unfold encode_record, record_body; by rewrite <- app_assoc).
  assert (H8 : length (le_bytes 4 (compute_crc (record_body r)) ++ le_bytes 4 (17 + zlen (wr_row_data r))) = 8%nat)
    by (by rewrite length_app, !length_le_bytes).
  rewrite He, take_app_ge, H8, <- !app_assoc in Hv by lia.
  apply valid_start_words in Hv as (_ & Hc & _); [|apply compute_crc_range|destruct Hr; lia].
  rewrite length_app, length_take in Hc. lia.
Qed.

(** ** Properties *)

(** A concrete log for the witnesses: a new file that moves at most seven bytes
    a call. *)
Definition demo_wal : WAL (MemFile 7 true) := (wal_open (new_WAL (mkMemFile false [] [] 0))).2.

Lemma demo_wal_rep : wal_rep wal_header demo_wal [] [].
Proof.
  unfold demo_wal. destruct (open_new_run (mkMemFile (chunk := 7) (fsync_works := true) false [] [] 0)) as (w & -> & Hw & _); [done|].
  exact Hw.
Qed.

Definition demo_ops : list log_op :=
  [LogInsert 5 0 0 [x01; x02; x03] false; LogDelete 5 0 0 true; LogCommit].

(** Replay parses any bytes whatever.  It never reads outside the buffer and
    terminates, and it returns exactly the records of the longest prefix of
    complete records with right checksums: what follows does not start with such
    a record. *)
Theorem replay_longest_prefix d :
  exists rs tl, d = encode_records rs ++ tl /\ Forall record_ok rs /\ ~ valid_start tl /\
    parse_log d = Ok rs.
Proof.
  destruct (parse_run d) as (rs & tl & Hd & Hrs & Hnv & _). exists rs, tl. split_and!; [done..|].
  rewrite Hd. by apply parse_log_run.
Qed.

(** Logging and replay are inverse.  On files without I/O errors, from an
    open log, any sequence of insertions, deletions, commits, checkpoints and
    syncs, flushed by the 256 KB buffer as it fills, returns for each logged row
    the offset of its record; replay then returns all the records in order, and
    the log is still usable; the bytes at each returned offset are the record. *)
Theorem log_replay_roundtrip {F} `{FileLaws F} `{!FileReliable F} (w : WAL F) fl bu ops :
  wal_rep wal_header w fl bu -> Forall op_ok ops ->
  log_size wal_header (fl ++ bu ++ op_records ops) < 2 ^ 63 ->
  exists w1 w2,
    ops_run ops w = (Ok (ops_result wal_header ops (fl ++ bu)), w1) /\
    replay w1 = (Ok (fl ++ bu ++ op_records ops), w2) /\
    wal_rep wal_header w2 (fl ++ bu ++ op_records ops) [] /\
    forall i r rs rs', fl ++ bu ++ op_records ops = rs ++ r :: rs' -> i = log_size wal_header rs ->
      load (f_content (w_file w2)) i (zlen (encode_record r)) = Ok (encode_record r).
Proof.
  intros Hw Hok Hsz. destruct (ops_run_ok wal_header w fl bu ops Hw Hok Hsz) as (w1 & fl1 & bu1 & Hr & Hw1 & Happ).
  rewrite <- Happ in Hsz |- *. pose proof length_wal_header as Hh.
  destruct (replay_run wal_header w1 fl1 bu1 Hw1 Hsz) as (w2 & Hr2 & Hw2); [lia|].
  exists w1, w2. split_and!; [done| |done|].
  - rewrite Hr2. f_equal. rewrite drop_ge by lia. rewrite <- (app_nil_r (encode_records _)). cbn [app].
    apply parse_log_run; [apply Hw1|apply valid_start_nil].
  - intros i r rs rs' Heq ->. rewrite (rep_content _ _ _ _ Hw2), Heq, encode_records_app, encode_records_cons.
    rewrite app_assoc. by apply load_app_mid.
Qed.

Lemma log_replay_roundtrip_witness :
  exists w1 w2,
    ops_run demo_ops demo_wal = (Ok (ops_result wal_header demo_ops []), w1) /\
    replay w1 = (Ok (op_records demo_ops), w2) /\
    wal_rep wal_header w2 (op_records demo_ops) [] /\
    forall i r rs rs', op_records demo_ops = rs ++ r :: rs' -> i = log_size wal_header rs ->
      load (f_content (w_file w2)) i (zlen (encode_record r)) = Ok (encode_record r).
Proof.
  apply (log_replay_roundtrip demo_wal [] [] demo_ops demo_wal_rep); [vm_decide|vm_compute; reflexivity].
Defined.


Definition demo_op : log_op := LogInsert 5 0 0 [x01; x02; x03] true.
Definition demo_rest : list log_op := [LogDelete 5 0 0 false; LogInsert 6 0 0 [x09] false; LogSync].
Definition demo_w1 : WAL (MemFile 7 true) := (op_run demo_op demo_wal).2.
Definition demo_w2 : WAL (MemFile 7 true) := (ops_run demo_rest demo_w1).2.
(** The crash keeps 90 bytes: one more record, and a torn one. *)
Definition demo_crash : MemFile 7 true :=
  let c := take 90 (f_content (w_file demo_w2)) in mkMemFile true c c 0.


(** C35: corruption is noticed.  If the checksum word of a record is changed in the file,
    or the body behind its length word is, within 32 consecutive bits, replay returns
    the records before it and nothing else, whatever follows. *)
Theorem replay_detects_burst rs r crc m m' rest :
  Forall record_ok rs -> record_ok r -> record_body r = le_bytes 4 (17 + zlen (wr_row_data r)) ++ m ->
  0 <= crc < 2 ^ 32 -> (crc = compute_crc (record_body r) /\ burst m m') \/ (crc <> compute_crc (record_body r) /\ m' = m) ->
  parse_log (encode_records rs ++ (le_bytes 4 crc ++ le_bytes 4 (17 + zlen (wr_row_data r)) ++ m') ++ rest) = Ok rs.
Proof.
  intros Hrs Hr Hb Hc Hd. apply parse_log_run; [done|]. rewrite <- !app_assoc. intros Hv.
  destruct Hr as (_ & _ & _ & _ & Hlen). pose proof (length_record_body r) as Hlb.
  apply valid_start_words in Hv as (_ & _ & Hcrc); [|done|lia].
  assert (Hl : zlen m' = 13 + zlen (wr_row_data r)).
  { rewrite Hb, length_app, length_le_bytes in Hlb. destruct Hd as [[_ [Hl _]]|[_ ->]]; lia. }
  rewrite take_app_length' in Hcrc by lia. destruct Hd as [[-> Hm]|[Hne ->]]; [|by rewrite Hb in Hne].
  rewrite Hb in Hcrc. symmetry in Hcrc. by apply compute_crc_burst in Hcrc.
Qed.

(** 32 bits in five bytes are flipped, from the middle of the slot's second byte. *)
Lemma replay_detects_burst_witness :
  let body := [Z_byte 0; x05; x00; x00; x00; x00; x00; x00; x00] in
  parse_log (encode_records [mkWALRecord DELETE 1 0 0 []] ++
    (le_bytes 4 (compute_crc (record_body (mkWALRecord INSERT 5 0 0 [x01; x02]))) ++ le_bytes 4 (17 + 2) ++
     body ++ [x00; xf0; xff; xff; xfe; x0d]) ++ [x00])
  = Ok [mkWALRecord DELETE 1 0 0 []].
Proof.
  apply (replay_detects_burst [mkWALRecord DELETE 1 0 0 []] (mkWALRecord INSERT 5 0 0 [x01; x02]) _
    ([Z_byte 0; x05; x00; x00; x00; x00; x00; x00; x00] ++ [x00; x00; x00; x00; x01; x02]));
    [vm_decide|vm_decide|vm_compute; reflexivity|vm_decide|].
  left. split; [done|]. split; [reflexivity|]. exists (2 ^ 32 - 1), 84. split_and!; [lia|lia|lia|vm_compute; reflexivity].
Defined.


Definition torn_file : MemFile 7 true :=
  let c := wal_header ++ encode_records [mkWALRecord INSERT 1 0 0 [x07]] ++
           take 30 (encode_record (mkWALRecord INSERT 2 0 1 (replicate 100 x55))) in
  mkMemFile true c c 0.

