(* ===== verification/Lz4.v ===== *)
(** The bundled LZ4 block codec ([src/compression.cpp]): the hash-table
    compressor and the decompressor, as they are written, with pointers as
    offsets into the input.

    The output buffer is the list of the bytes written so far: [op] is its
    length, and a write past the capacity is [UB].  The reserved token byte is
    written as zero until the code assigns it.  Both directions meet in the
    format, a list of sequences ([lz_seq]) and the last literals. *)
From S2P Require Import Prelude Types Serialise.

(** ** Definitions *)

Definition MINMATCH : Z := 4.
Definition HASHLOG : Z := 12.
Definition HASHTABLESIZE : Z := 4096.
Definition LASTLITERALS : Z := 5.
Definition MFLIMIT : Z := MINMATCH + LASTLITERALS.

Definition LZ4_hash4 (v : Z) : Z := Z.shiftr (u32 (v * 2654435761)) (32 - HASHLOG).
Definition LZ4_read32 (src : bytes) (p : Z) : outcome Z := read_le 4 src p.
Definition LZ4_read16 (src : bytes) (p : Z) : outcome Z := read_le 2 src p.
Definition LZ4_compressBound (isize : Z) : Z := isize + isize / 255 + 16.

(** [*op++ = ...] *)
Definition emit (cap : Z) (bs out : bytes) : outcome bytes :=
  if bool_decide (zlen out + zlen bs <= cap) then Ok (out ++ bs) else UB.

(** [*token = v] and [*token |= v] *)
Definition set_token (t : nat) (v : Z) (out : bytes) : bytes := <[t := Z_byte v]> out.
Definition or_token (t : nat) (v : Z) (out : bytes) : outcome bytes :=
  b ← load_byte out (Z.of_nat t);
  Ok (<[t := Z_byte (Z.lor b v)]> out).

(** [while (ll >= 255) { *op++ = 255; ll -= 255; } *op++ = ll;] *)
Fixpoint emit_run (fuel : nat) (cap ll : Z) (out : bytes) : outcome bytes :=
  if bool_decide (ll >= 255) then
    match fuel with
    | O => UB
    | S fuel => out ← emit cap [xff] out; emit_run fuel cap (ll - 255) out
    end
  else emit cap [Z_byte ll] out.

Abbreviation htable := (list (option Z)).

(** The search loop: [Some (ip, match)], or [None] for [goto _last_literals]. *)
Fixpoint find_match (fuel : nat) (src : bytes) (ht : htable) (forwardip step searchMatchNb : Z)
    : outcome (option (Z * Z) * htable) :=
  match fuel with
  | O => UB
  | S fuel =>
      let mflimit := zlen src - MFLIMIT in
      v ← LZ4_read32 src forwardip;
      let h := LZ4_hash4 v in
      m ← index_ ht h;
      let ht := <[Z.to_nat h := Some forwardip]> ht in
      let ip := forwardip in
      let forwardip := forwardip + step in
      let step := Z.shiftr searchMatchNb 6 + 1 in
      let searchMatchNb := searchMatchNb + 1 in
      if bool_decide (forwardip > mflimit) then Ok (None, ht) else
      match m with
      | None => find_match fuel src ht forwardip step searchMatchNb
      | Some m =>
          if bool_decide (ip - m > 65535) then find_match fuel src ht forwardip step searchMatchNb else
          vm ← LZ4_read32 src m;
          vi ← LZ4_read32 src ip;
          if bool_decide (vm <> vi) then find_match fuel src ht forwardip step searchMatchNb
          else Ok (Some (ip, m), ht)
      end
  end.

(** The catch-up loop. *)
Fixpoint catch_up (fuel : nat) (src : bytes) (anchor ip m : Z) : outcome (Z * Z) :=
  if bool_decide (ip > anchor) && bool_decide (m > 0) then
    a ← load_byte src (ip - 1);
    b ← load_byte src (m - 1);
    if bool_decide (a = b) then
      match fuel with
      | O => UB
      | S fuel => catch_up fuel src anchor (ip - 1) (m - 1)
      end
    else Ok (ip, m)
  else Ok (ip, m).

(** [while (ipe < iend - LASTLITERALS && *mp == *ipe) { mp++; ipe++; ml++; }] *)
Fixpoint extend_match (fuel : nat) (src : bytes) (mp ipe ml : Z) : outcome (Z * Z) :=
  if bool_decide (ipe < zlen src - LASTLITERALS) then
    a ← load_byte src mp;
    b ← load_byte src ipe;
    if bool_decide (a = b) then
      match fuel with
      | O => UB
      | S fuel => extend_match fuel src (mp + 1) (ipe + 1) (ml + 1)
      end
    else Ok (ipe, ml)
  else Ok (ipe, ml).

(** [_last_literals]: the returned size (0 for failure) and the output. *)
Definition last_literals (src : bytes) (cap : Z) (out : bytes) (anchor : Z) : outcome (Z * bytes) :=
  let ll := zlen src - anchor in
  if bool_decide (zlen out + ll + 1 + Z.shiftr ll 8 + 4 > cap) then Ok (0, out) else
  out ← (if bool_decide (ll >= 15)
         then out ← emit cap [Z_byte (Z.shiftl 15 4)] out; emit_run (Z.to_nat ll) cap (ll - 15) out
         else emit cap [Z_byte (Z.shiftl ll 4)] out);
  lits ← load src anchor ll;
  out ← emit cap lits out;
  Ok (zlen out, out).

(** The literal part and the offset of a sequence. *)
Definition emit_literals (src : bytes) (cap : Z) (out : bytes) (anchor ip m : Z) : outcome bytes :=
  let literal_len := ip - anchor in
  let token := length out in
  out ← emit cap [x00] out;
  out ← (if bool_decide (literal_len >= 15)
         then emit_run (Z.to_nat literal_len) cap (literal_len - 15) (set_token token (Z.shiftl 15 4) out)
         else Ok (set_token token (Z.shiftl literal_len 4) out));
  lits ← load src anchor literal_len;
  out ← emit cap lits out;
  emit cap (le_bytes 2 (u16 (ip - m))) out.

(** The match length of a sequence. *)
Definition emit_match (cap : Z) (token : nat) (ml : Z) (out : bytes) : outcome bytes :=
  if bool_decide (ml >= 15)
  then out ← or_token token 15 out; emit_run (Z.to_nat ml) cap (ml - 15) out
  else or_token token ml out.

(** The main loop of [LZ4_compress_default]. *)
Fixpoint compress_loop (fuel : nat) (src : bytes) (cap : Z) (out : bytes) (ht : htable) (ip anchor : Z)
    : outcome (Z * bytes) :=
  match fuel with
  | O => UB
  | S fuel =>
      let mflimit := zlen src - MFLIMIT in
      '(found, ht) ← find_match (length src) src ht ip 1 1;
      match found with
      | None => last_literals src cap out anchor
      | Some (ip, m) =>
          '(ip, m) ← catch_up (length src) src anchor ip m;
          let literal_len := ip - anchor in
          if bool_decide ((zlen out + 1) + literal_len + (2 + 1 + LASTLITERALS) + Z.shiftr literal_len 8 > cap)
          then Ok (0, out) else
          let token := length out in
          out ← emit_literals src cap out anchor ip m;
          '(ip, ml) ← extend_match (length src) src (m + MINMATCH) (ip + MINMATCH) 0;
          out ← emit_match cap token ml out;
          let anchor := ip in
          if bool_decide (ip > mflimit) then last_literals src cap out anchor else
          v ← LZ4_read32 src (ip - 2);
          let ht := <[Z.to_nat (LZ4_hash4 v) := Some (ip - 2)]> ht in
          compress_loop fuel src cap out ht (ip + 1) anchor
      end
  end.

(** [LZ4_compress_default]: the returned size and the bytes of [dst]. *)
Definition LZ4_compress_default (src : bytes) (dstCapacity : Z) : outcome (Z * bytes) :=
  if bool_decide (zlen src < MFLIMIT) then last_literals src dstCapacity [] 0
  else compress_loop (length src) src dstCapacity [] (replicate (Z.to_nat HASHTABLESIZE) None) 1 0.

(** *** Decompression *)

(** [do { s = *ip++; ll += s; } while (s == 255 && ip < iend);] *)
Fixpoint read_run (fuel : nat) (src : bytes) (ip ll : Z) : outcome (Z * Z) :=
  match fuel with
  | O => UB
  | S fuel =>
      s ← load_byte src ip;
      let ip := ip + 1 in
      let ll := ll + s in
      if bool_decide (s = 255) && bool_decide (ip < zlen src) then read_run fuel src ip ll else Ok (ip, ll)
  end.

(** The overlapping copy: [match] is the position in the output; [k] bytes are
    left, [i] is the loop variable. *)
Fixpoint copy_overlap (k : nat) (i : Z) (m offset : Z) (out : bytes) : outcome bytes :=
  match k with
  | O => Ok out
  | S k =>
      if bool_decide (offset = 0) then UB else
      b ← load_byte out (m + i mod offset);
      copy_overlap k (i + 1) m offset (out ++ [Z_byte b])
  end.

(** [memcpy(op, match, ml)]: overlapping ranges are undefined. *)
Definition copy_forward (m ml : Z) (out : bytes) : outcome bytes :=
  bs ← load out m ml; Ok (out ++ bs).

(** The loop of [LZ4_decompress_safe]: the returned value and the output. *)
Fixpoint decompress_loop (fuel : nat) (src : bytes) (cap : Z) (ip : Z) (out : bytes) : outcome (Z * bytes) :=
  match fuel with
  | O => UB
  | S fuel =>
      let iend := zlen src in
      token ← load_byte src ip;
      let ip := ip + 1 in
      let ll := Z.shiftr token 4 in
      '(ip, ll) ← (if bool_decide (ll = 15) then read_run (S (length src)) src ip ll else Ok (ip, ll));
      if bool_decide (zlen out + ll > cap \/ ip + ll > iend) then Ok (-1, out) else
      lits ← load src ip ll;
      let out := out ++ lits in
      let ip := ip + ll in
      if bool_decide (ip >= iend) then Ok (zlen out, out) else
      offset ← LZ4_read16 src ip;
      let ip := ip + 2 in
      let m := zlen out - offset in
      if bool_decide (m < 0) then Ok (-1, out) else
      let ml := Z.land token 0xF + MINMATCH in
      '(ip, ml) ← (if bool_decide (ml = MINMATCH + 15) then read_run (S (length src)) src ip ml else Ok (ip, ml));
      if bool_decide (zlen out + ml > cap) then Ok (-1, out) else
      out ← (if bool_decide (offset < u16 ml) then copy_overlap (Z.to_nat ml) 0 m offset out
             else copy_forward m ml out);
      decompress_loop fuel src cap ip out
  end.

(** [LZ4_decompress_safe]: every round consumes a token, so one round per input
    byte, and one for an empty input, is enough. *)
Definition LZ4_decompress_safe (src : bytes) (dstCapacity : Z) : outcome (Z * bytes) :=
  decompress_loop (S (length src)) src dstCapacity 0 [].

(** *** The format *)

(** A sequence: literals, then a match [offset] bytes back, of [s_extra] bytes
    beyond the minimum. *)
Record lz_seq := mkSeq { s_lits : bytes; s_off : Z; s_extra : Z }.

(** A length in its nibble and in the bytes that follow. *)
Definition nibble (n : Z) : Z := Z.min n 15.
Definition run_bytes (n : Z) : bytes := replicate (Z.to_nat (n / 255)) xff ++ [Z_byte (n mod 255)].
Definition length_bytes (n : Z) : bytes := if bool_decide (n >= 15) then run_bytes (n - 15) else [].

Definition token_byte (ll ml : Z) : byte := Z_byte (16 * nibble ll + nibble ml).

Definition encode_seq (s : lz_seq) : bytes :=
  token_byte (zlen (s_lits s)) (s_extra s) :: length_bytes (zlen (s_lits s)) ++ s_lits s ++
  le_bytes 2 (s_off s) ++ length_bytes (s_extra s).

Definition encode_last (lits : bytes) : bytes := token_byte (zlen lits) 0 :: length_bytes (zlen lits) ++ lits.

Definition encode_stream (ss : list lz_seq) (lits : bytes) : bytes :=
  concat (encode_seq <$> ss) ++ encode_last lits.

(** [src] up to [p] followed by the sequence is [src] up to [q]. *)
Definition seq_step (src : bytes) (p : Z) (s : lz_seq) (q : Z) : Prop :=
  let c := p + zlen (s_lits s) in
  0 <= p /\ 0 <= s_extra s /\ q = c + MINMATCH + s_extra s /\ q <= zlen src /\
  take (length (s_lits s)) (drop (Z.to_nat p) src) = s_lits s /\
  0 < s_off s <= c /\ s_off s < 2 ^ 16 /\
  forall i, c <= i < q -> src !! Z.to_nat i = src !! Z.to_nat (i - s_off s).

(** The sequences cover [src] from [p] to [q]. *)
Fixpoint seqs_cover (src : bytes) (p : Z) (ss : list lz_seq) (q : Z) : Prop :=
  match ss with
  | [] => p = q
  | s :: ss => exists p', seq_step src p s p' /\ seqs_cover src p' ss q
  end.

(** ** Lemmas: lengths *)

Lemma length_run_bytes n : 0 <= n -> zlen (run_bytes n) = n / 255 + 1.
Proof.
  intros. unfold run_bytes. rewrite length_app, length_replicate. cbn.
  pose proof (Z.div_pos n 255). lia.
Qed.

Lemma run_bytes_small n : 0 <= n < 255 -> run_bytes n = [Z_byte n].
Proof. intros. unfold run_bytes. by rewrite Z.div_small, Z.mod_small by lia. Qed.

Lemma run_bytes_big n : 255 <= n -> run_bytes n = xff :: run_bytes (n - 255).
Proof.
  intros. unfold run_bytes.
  replace n with (n - 255 + 1 * 255) at 1 2 by lia. rewrite Z.div_add, Z.mod_add by lia.
  pose proof (Z.div_pos (n - 255) 255). rewrite Z2Nat.inj_add, Nat.add_1_r by lia. done.
Qed.

Lemma length_length_bytes n : 0 <= n -> zlen (length_bytes n) = if bool_decide (n >= 15) then (n - 15) / 255 + 1 else 0.
Proof. intros. unfold length_bytes. case_bool_decide; [apply length_run_bytes; lia|done]. Qed.

Lemma emit_ok cap bs out : zlen out + zlen bs <= cap -> emit cap bs out = Ok (out ++ bs).
Proof. intros. unfold emit. by rewrite bool_decide_eq_true_2. Qed.

Lemma emit_run_ok fuel cap n out :
  0 <= n -> n / 255 <= Z.of_nat fuel -> zlen out + zlen (run_bytes n) <= cap ->
  emit_run fuel cap n out = Ok (out ++ run_bytes n).
Proof.
  revert n out; induction fuel as [|fuel IH]; intros n out Hn Hf Hc; cbn [emit_run].
  - pose proof (Z.mul_succ_div_gt n 255). assert (n < 255) by lia.
    rewrite bool_decide_eq_false_2 by lia. rewrite run_bytes_small in Hc |- * by lia. by apply emit_ok.
  - destruct (decide (n >= 255)) as [Hb|Hb].
    + rewrite bool_decide_eq_true_2 by done. rewrite run_bytes_big in Hc |- * by lia. cbn [length] in Hc.
      rewrite emit_ok by (cbn; lia). cbn [mbind outcome_bind].
      assert (Hd : n / 255 = (n - 255) / 255 + 1).
      { replace n with (n - 255 + 1 * 255) at 1 by lia. by rewrite Z.div_add by lia. }
      rewrite IH; [by rewrite <- app_assoc|lia|lia|rewrite length_app; cbn [length]; lia].
    + rewrite bool_decide_eq_false_2 by done. rewrite run_bytes_small in Hc |- * by lia. by apply emit_ok.
Qed.

Lemma read_run_ok fuel pre n post ll :
  0 <= n -> n / 255 < Z.of_nat fuel ->
  read_run fuel (pre ++ run_bytes n ++ post) (zlen pre) ll = Ok (zlen (pre ++ run_bytes n), ll + n).
Proof.
  revert pre n ll; induction fuel as [|fuel IH]; intros pre n ll Hn Hf; [pose proof (Z.div_pos n 255); lia|].
  cbn [read_run]. destruct (decide (n >= 255)) as [Hb|Hb].
  - rewrite run_bytes_big by lia. cbn [app]. rewrite load_byte_app by done. cbn [mbind outcome_bind].
    change (byte_Z xff) with 255. rewrite bool_decide_eq_true_2 by done.
    pose proof (length_run_bytes (n - 255) ltac:(lia)) as Hl. pose proof (Z.div_pos (n - 255) 255 ltac:(lia) ltac:(lia)).
    rewrite bool_decide_eq_true_2 by (rewrite length_app; cbn [length]; rewrite length_app; lia). cbn [andb].
    assert (Hd : n / 255 = (n - 255) / 255 + 1).
    { replace n with (n - 255 + 1 * 255) at 1 by lia. by rewrite Z.div_add by lia. }
    specialize (IH (pre ++ [xff]) (n - 255) (ll + 255) ltac:(lia) ltac:(lia)).
    rewrite <- !app_assoc in IH. cbn [app] in IH.
    replace (zlen (pre ++ [xff])) with (zlen pre + 1) in IH by (rewrite length_app; cbn; lia).
    rewrite IH. do 2 f_equal. lia.
  - rewrite run_bytes_small by lia. cbn [app]. rewrite load_byte_app by done. cbn [mbind outcome_bind].
    rewrite byte_Z_of_Z, Z.mod_small by lia. rewrite bool_decide_eq_false_2 by lia. cbn [andb].
    rewrite length_app. cbn. do 2 f_equal. lia.
Qed.

(** *** Tokens *)

Lemma nibble_range n : 0 <= n -> 0 <= nibble n <= 15.
Proof. unfold nibble. lia. Qed.

Lemma token_byte_Z ll ml : 0 <= ll -> 0 <= ml -> byte_Z (token_byte ll ml) = 16 * nibble ll + nibble ml.
Proof.
  intros. unfold token_byte. rewrite byte_Z_of_Z. pose proof (nibble_range ll); pose proof (nibble_range ml).
  rewrite Z.mod_small; lia.
Qed.

Lemma token_high ll ml : 0 <= ll -> 0 <= ml -> Z.shiftr (byte_Z (token_byte ll ml)) 4 = nibble ll.
Proof.
  intros. rewrite token_byte_Z by done. pose proof (nibble_range ll); pose proof (nibble_range ml).
  rewrite Z.shiftr_div_pow2 by lia. change (2 ^ 4) with 16.
  rewrite Z.mul_comm, Z.div_add_l, Z.div_small by lia. lia.
Qed.

Lemma token_low ll ml : 0 <= ll -> 0 <= ml -> Z.land (byte_Z (token_byte ll ml)) 0xF = nibble ml.
Proof.
  intros. rewrite token_byte_Z by done. pose proof (nibble_range ll); pose proof (nibble_range ml).
  change 0xF with (Z.ones 4). rewrite Z.land_ones by lia. change (2 ^ 4) with 16.
  rewrite Z.add_comm, Z.mul_comm, Z.mod_add, Z.mod_small by lia. done.
Qed.

(** Reading a length: the nibble and the bytes after it. *)
Lemma read_length fuel pre n post base :
  0 <= n -> zlen (length_bytes n) <= Z.of_nat (S fuel) ->
  (if bool_decide (base + nibble n = base + 15)
   then read_run (S fuel) (pre ++ length_bytes n ++ post) (zlen pre) (base + nibble n)
   else Ok (zlen pre, base + nibble n)) = Ok (zlen (pre ++ length_bytes n), base + n).
Proof.
  intros Hn Hf. rewrite length_length_bytes in Hf by done. unfold nibble, length_bytes.
  destruct (decide (n >= 15)) as [Hb|Hb].
  - rewrite bool_decide_eq_true_2, bool_decide_eq_true_2 by lia. rewrite Z.min_r by lia.
    rewrite bool_decide_eq_true_2 in Hf by done. rewrite read_run_ok by lia. do 2 f_equal. lia.
  - rewrite bool_decide_eq_false_2, bool_decide_eq_false_2 by lia. rewrite app_nil_r, Z.min_l by lia. done.
Qed.

(** *** Copies *)

Section copy.
Context (T : bytes) (c off ml : Z).
Context (Hoff : 0 < off <= c) (Hend : c + ml <= zlen T).
Context (Hrep : forall i, c <= i < c + ml -> T !! Z.to_nat i = T !! Z.to_nat (i - off)).

Lemma match_periodic i : 0 <= i < ml -> T !! Z.to_nat (c + i) = T !! Z.to_nat (c - off + i mod off).
Proof.
  assert (Hj : forall (j : nat) r, 0 <= r < off -> r + off * Z.of_nat j < ml ->
            T !! Z.to_nat (c + (r + off * Z.of_nat j)) = T !! Z.to_nat (c - off + r)).
  { induction j as [|j IH]; intros r Hr Hlt.
    - rewrite Hrep by lia. f_equal. lia.
    - rewrite Hrep by nia. rewrite <- IH by nia. f_equal. lia. }
  intros Hi. pose proof (Z.mod_pos_bound i off ltac:(lia)). pose proof (Z.div_pos i off ltac:(lia) ltac:(lia)).
  pose proof (Z.div_mod i off ltac:(lia)).
  rewrite <- (Hj (Z.to_nat (i / off)) (i mod off)) by (rewrite ?Z2Nat.id; lia).
  do 2 f_equal. rewrite Z2Nat.id by lia. lia.
Qed.

(** The prefix of the target, as the output so far. *)
Local Abbreviation out_at i := (take (Z.to_nat (c + i)) T).

Lemma out_at_length i : 0 <= i <= ml -> zlen (out_at i) = c + i.
Proof. intros. rewrite length_take. lia. Qed.

Lemma copy_overlap_ok k i :
  0 <= i -> i + Z.of_nat k = ml ->
  copy_overlap k i (c - off) off (out_at i) = Ok (take (Z.to_nat (c + ml)) T).
Proof.
  revert i; induction k as [|k IH]; intros i Hi Hk; cbn [copy_overlap].
  - by replace i with ml by lia.
  - rewrite bool_decide_eq_false_2 by lia.
    pose proof (Z.mod_pos_bound i off ltac:(lia)) as Hm.
    destruct (lookup_lt_is_Some_2 T (Z.to_nat (c + i))) as [b Hb]; [lia|].
    assert (Hsrc : out_at i !! Z.to_nat (c - off + i mod off) = Some b).
    { rewrite lookup_take_lt by lia. rewrite <- match_periodic by lia. done. }
    apply load_byte_lookup in Hsrc. rewrite Z2Nat.id in Hsrc by lia.
    rewrite Hsrc. cbn [mbind outcome_bind]. rewrite Z_byte_of_byte.
    rewrite <- (IH (i + 1)) by lia. f_equal.
    replace (Z.to_nat (c + (i + 1))) with (S (Z.to_nat (c + i))) by lia. by rewrite (take_S_r _ _ b).
Qed.

Lemma copy_forward_ok :
  0 <= ml <= off -> copy_forward (c - off) ml (out_at 0) = Ok (take (Z.to_nat (c + ml)) T).
Proof.
  intros Hml. unfold copy_forward, load. rewrite bool_decide_eq_true_2 by (rewrite out_at_length; lia).
  cbn [mbind outcome_bind]. f_equal. apply list_eq. intros j. rewrite Z.add_0_r.
  destruct (decide (j < Z.to_nat c)%nat).
  - rewrite lookup_app_l by (rewrite length_take; lia). by rewrite !lookup_take_lt by lia.
  - rewrite lookup_app_r by (rewrite length_take; lia). rewrite length_take_le by lia.
    destruct (decide (j < Z.to_nat (c + ml))%nat).
    + rewrite (lookup_take_lt T) by lia. rewrite lookup_take_lt by lia. rewrite lookup_drop.
      rewrite lookup_take_lt by lia. pose proof (Hrep (Z.of_nat j) ltac:(lia)) as Hr. rewrite Nat2Z.id in Hr.
      rewrite Hr. f_equal. lia.
    + rewrite !lookup_take_ge by lia. done.
Qed.

(** The copy of a match, by either branch. *)
Lemma copy_match_ok :
  0 <= ml < 2 ^ 16 ->
  (if bool_decide (off < u16 ml) then copy_overlap (Z.to_nat ml) 0 (c - off) off (out_at 0)
   else copy_forward (c - off) ml (out_at 0)) = Ok (take (Z.to_nat (c + ml)) T).
Proof.
  intros Hml. unfold u16. rewrite Z.mod_small by lia. case_bool_decide.
  - apply copy_overlap_ok; lia.
  - apply copy_forward_ok. lia.
Qed.
End copy.

Lemma encode_last_ne lits : encode_last lits <> [].
Proof. done. Qed.

Lemma encode_stream_cons s ss lits : encode_stream (s :: ss) lits = encode_seq s ++ encode_stream ss lits.
Proof. unfold encode_stream. cbn. by rewrite <- app_assoc. Qed.

Lemma encode_stream_ne ss lits : encode_stream ss lits <> [].
Proof. unfold encode_stream. intros H%(f_equal length). rewrite length_app in H. cbn in H. lia. Qed.

(** *** The decompressor *)

Section decompress.
Context (T : bytes) (Hsmall : zlen T < 2 ^ 16).

(** What the decompressor reads of a sequence: the token, the number of literals, the
    literals, the offset and the length of the match, each behind the one before it. *)
Lemma seq_reads pre post lits off extra :
  0 <= zlen lits < 2 ^ 16 -> 0 <= extra < 2 ^ 16 -> 0 <= off < 2 ^ 16 ->
  let s := mkSeq lits off extra in let src := pre ++ encode_seq s ++ post in
  exists tok i1 i2,
    (load_byte src (zlen pre) = Ok (byte_Z tok) /\ Z.shiftr (byte_Z tok) 4 = nibble (zlen lits) /\ Z.land (byte_Z tok) 15 = nibble extra) /\
    (if bool_decide (nibble (zlen lits) = 15) then read_run (S (length src)) src (zlen pre + 1) (nibble (zlen lits))
     else Ok (zlen pre + 1, nibble (zlen lits))) = Ok (i1, zlen lits) /\
    load src i1 (zlen lits) = Ok lits /\ i1 + zlen lits = i2 /\ LZ4_read16 src i2 = Ok off /\
    (if bool_decide (nibble extra + 4 = 4 + 15) then read_run (S (length src)) src (i2 + 2) (nibble extra + 4)
     else Ok (i2 + 2, nibble extra + 4)) = Ok (zlen (pre ++ encode_seq s), extra + 4) /\
    0 <= i1 /\ i2 + 2 + zlen post <= zlen src.
Proof.
  intros Hl He Ho s src. set (tok := token_byte (zlen lits) extra). set (lb := length_bytes (zlen lits)). set (mb := length_bytes extra).
  assert (E1 : src = pre ++ tok :: (lb ++ lits ++ le_bytes 2 off ++ mb ++ post)).
  { unfold src, encode_seq. cbn [s s_lits s_off s_extra]. cbn [app]. by rewrite <- !app_assoc. }
  assert (E2 : src = (pre ++ [tok]) ++ lb ++ (lits ++ le_bytes 2 off ++ mb ++ post)) by (rewrite E1; by rewrite <- !app_assoc).
  assert (E3 : src = ((pre ++ [tok]) ++ lb) ++ lits ++ (le_bytes 2 off ++ mb ++ post)) by (rewrite E2; by rewrite <- !app_assoc).
  assert (E4 : src = (((pre ++ [tok]) ++ lb) ++ lits) ++ le_bytes 2 off ++ (mb ++ post)) by (rewrite E3; by rewrite <- !app_assoc).
  assert (E5 : src = ((((pre ++ [tok]) ++ lb) ++ lits) ++ le_bytes 2 off) ++ mb ++ post) by (rewrite E4; by rewrite <- !app_assoc).
  assert (E6 : pre ++ encode_seq s = ((((pre ++ [tok]) ++ lb) ++ lits) ++ le_bytes 2 off) ++ mb).
  { unfold encode_seq. cbn [s s_lits s_off s_extra]. fold tok lb mb. by rewrite <- !app_assoc. }
  exists tok, (zlen ((pre ++ [tok]) ++ lb)), (zlen (((pre ++ [tok]) ++ lb) ++ lits)). split_and!.
  - rewrite E1. by apply load_byte_app.
  - apply token_high; lia.
  - apply token_low; lia.
  - pose proof (read_length (length src) (pre ++ [tok]) (zlen lits) (lits ++ le_bytes 2 off ++ mb ++ post) 0) as Hr.
    rewrite !Z.add_0_l in Hr. fold lb in Hr. rewrite <- E2 in Hr.
    replace (zlen (pre ++ [tok])) with (zlen pre + 1) in Hr by (rewrite length_app; cbn; lia).
    apply Hr; [lia|]. fold lb. rewrite E2, !length_app. lia.
  - rewrite E3. by apply load_app_mid.
  - rewrite (length_app _ lits). lia.
  - unfold LZ4_read16. rewrite E4, (read_le_mid 2) by (rewrite ?length_le_bytes; done).
    rewrite le_val_le_bytes. f_equal. apply Z.mod_small. change (256 ^ Z.of_nat 2) with (2 ^ 16). lia.
  - pose proof (read_length (length src) ((((pre ++ [tok]) ++ lb) ++ lits) ++ le_bytes 2 off) extra post 4) as Hr.
    fold mb in Hr. rewrite <- E5, <- E6 in Hr. rewrite length_app, length_le_bytes in Hr. rewrite (Z.add_comm _ 4), (Z.add_comm extra 4).
    replace (Z.of_nat (length (((pre ++ [tok]) ++ lb) ++ lits) + 2)) with (zlen (((pre ++ [tok]) ++ lb) ++ lits) + 2) in Hr by lia.
    apply Hr; [lia|]. fold mb. rewrite E5, !length_app. lia.
  - lia.
  - rewrite E5, !length_app, length_le_bytes. lia.
Qed.

Lemma decompress_seq fuel pre post p s q :
  seq_step T p s q -> post <> [] ->
  decompress_loop (S fuel) (pre ++ encode_seq s ++ post) (zlen T) (zlen pre) (take (Z.to_nat p) T) =
  decompress_loop fuel ((pre ++ encode_seq s) ++ post) (zlen T) (zlen (pre ++ encode_seq s)) (take (Z.to_nat q) T).
Proof.
  unfold seq_step, MINMATCH. intros (Hp & Hex & Hq & Hqn & Hl & Hoff & H16 & Hrep) Hpost.
  destruct s as [lits off extra]. cbn [s_lits s_off s_extra] in *.
  destruct (seq_reads pre post lits off extra) as (tok & i1 & i2 & (L1 & Hth & Htl) & L2 & L3 & Hi2 & L4 & L5 & Hi1 & Hlen); [lia|lia|lia|].
  set (src := pre ++ encode_seq _ ++ post) in *.
  assert (Hpl : 0 < zlen post) by (destruct post; [done|cbn; lia]).
  assert (Hout : zlen (take (Z.to_nat p) T) = p) by (rewrite length_take; lia).
  cbn [decompress_loop]. rewrite L1. cbn [mbind outcome_bind]. rewrite Hth, L2. cbn [mbind outcome_bind].
  rewrite bool_decide_eq_false_2 by (rewrite Hout; lia).
  rewrite L3. cbn [mbind outcome_bind]. rewrite Hi2, bool_decide_eq_false_2 by lia. rewrite L4. cbn [mbind outcome_bind].
  set (c := p + zlen lits) in *.
  assert (Ho : take (Z.to_nat p) T ++ lits = take (Z.to_nat c) T).
  { rewrite <- Hl, <- (take_drop (length lits) (drop (Z.to_nat p) T)) at 1. rewrite take_drop.
    replace (Z.to_nat c) with (Z.to_nat p + length lits)%nat by (unfold c; lia). by rewrite <- take_take_drop. }
  rewrite Ho. assert (Hc : zlen (take (Z.to_nat c) T) = c) by (rewrite length_take; unfold c in *; lia).
  rewrite Hc, bool_decide_eq_false_2 by lia. rewrite Htl. unfold MINMATCH. rewrite L5. cbn [mbind outcome_bind].
  rewrite bool_decide_eq_false_2 by lia. pose proof (copy_match_ok T c off (extra + 4)) as Hcopy. rewrite Z.add_0_r in Hcopy.
  rewrite Hcopy by (try (intros; apply Hrep); lia). cbn [mbind outcome_bind].
  replace (c + (extra + 4)) with q by lia. f_equal. unfold src. by rewrite app_assoc.
Qed.

Lemma decompress_last fuel pre p :
  0 <= p <= zlen T ->
  let lits := drop (Z.to_nat p) T in
  decompress_loop (S fuel) (pre ++ encode_last lits) (zlen T) (zlen pre) (take (Z.to_nat p) T) = Ok (zlen T, T).
Proof.
  intros Hp lits. set (src := pre ++ encode_last lits).
  set (tok := token_byte (zlen lits) 0). set (lb := length_bytes (zlen lits)).
  assert (E1 : src = pre ++ tok :: (lb ++ lits)) by done.
  assert (E2 : src = (pre ++ [tok]) ++ lb ++ lits) by (rewrite E1; by rewrite <- !app_assoc).
  assert (E3 : src = ((pre ++ [tok]) ++ lb) ++ lits ++ []) by (rewrite E1, app_nil_r; by rewrite <- !app_assoc).
  assert (Hlen : zlen src = zlen pre + 1 + zlen lb + zlen lits).
  { rewrite E2, !length_app. cbn [length]. lia. }
  assert (Hlits : zlen lits = zlen T - p) by (unfold lits; rewrite length_drop; lia).
  assert (Hout : zlen (take (Z.to_nat p) T) = p) by (rewrite length_take; lia).
  assert (Hth : Z.shiftr (byte_Z tok) 4 = nibble (zlen lits)) by (apply token_high; lia).
  clearbody tok. cbn [decompress_loop].
  assert (L1 : load_byte src (zlen pre) = Ok (byte_Z tok)) by (rewrite E1; by apply load_byte_app).
  rewrite L1. cbn [mbind outcome_bind]. rewrite Hth.
  assert (L2 : (if bool_decide (nibble (zlen lits) = 15) then read_run (S (length src)) src (zlen pre + 1) (nibble (zlen lits))
     else Ok (zlen pre + 1, nibble (zlen lits))) = Ok (zlen ((pre ++ [tok]) ++ lb), zlen lits)).
  { pose proof (read_length (length src) (pre ++ [tok]) (zlen lits) lits 0) as Hr.
    rewrite !Z.add_0_l in Hr. fold lb in Hr. rewrite <- E2 in Hr.
    replace (zlen (pre ++ [tok])) with (zlen pre + 1) in Hr by (rewrite length_app; cbn; lia).
    apply Hr; [lia|]. lia. }
  rewrite L2. cbn [mbind outcome_bind].
  rewrite bool_decide_eq_false_2 by (rewrite Hout, Hlen, !length_app; cbn [length]; lia).
  assert (L3 : load src (zlen ((pre ++ [tok]) ++ lb)) (zlen lits) = Ok lits) by (rewrite E3; by apply load_app_mid).
  rewrite L3. cbn [mbind outcome_bind].
  rewrite bool_decide_eq_true_2 by (rewrite Hlen, !length_app; cbn [length]; lia).
  unfold lits. by rewrite take_drop.
Qed.

(** The decompressor inverts every valid stream. *)
Lemma decompress_stream ss p q fuel pre :
  seqs_cover T p ss q -> 0 <= p -> q <= zlen T -> (length ss < fuel)%nat ->
  decompress_loop fuel (pre ++ encode_stream ss (drop (Z.to_nat q) T)) (zlen T) (zlen pre)
    (take (Z.to_nat p) T) = Ok (zlen T, T).
Proof.
  revert p fuel pre; induction ss as [|s ss IH]; intros p fuel pre Hc Hp Hq Hf;
    (destruct fuel as [|fuel]; [cbn in Hf; lia|]).
  - cbn in Hc. subst q. by apply decompress_last.
  - destruct Hc as (p' & Hs & Hc). rewrite encode_stream_cons.
    rewrite (decompress_seq fuel pre _ p s p' Hs) by apply encode_stream_ne.
    unfold seq_step, MINMATCH in Hs. apply IH; [done|lia|done|cbn in Hf; lia].
Qed.
End decompress.

(** *** Searching *)

Lemma LZ4_hash4_range v : 0 <= LZ4_hash4 v < 4096.
Proof.
  unfold LZ4_hash4, HASHLOG, u32. rewrite Z.shiftr_div_pow2 by lia.
  pose proof (Z.mod_pos_bound (v * 2654435761) (2 ^ 32) ltac:(lia)).
  split; [apply Z.div_pos; lia|]. apply Z.div_lt_upper_bound; lia.
Qed.

Section compress.
Context (src : bytes).
Local Abbreviation n := (zlen src).

(** The byte at a position. *)
Local Abbreviation at_ p := (src !! Z.to_nat p).

(** Every position in the table is before [b]. *)
Definition ht_ok (ht : htable) (b : Z) : Prop :=
  length ht = Z.to_nat HASHTABLESIZE /\
  forall h p, ht !! h = Some (Some p) -> 0 <= p < b.

Lemma ht_ok_new : ht_ok (replicate (Z.to_nat HASHTABLESIZE) None) 0.
Proof.
  split; [by rewrite length_replicate|]. intros h p Hh. apply lookup_replicate in Hh as [[=] _].
Qed.

Lemma ht_ok_insert ht b h p b' : ht_ok ht b -> 0 <= p < b' -> b <= b' -> ht_ok (<[h := Some p]> ht) b'.
Proof.
  intros [Hl Hht] Hp Hb. split; [by rewrite length_insert|]. intros h' p' Hl'.
  apply list_lookup_insert_Some in Hl' as [(-> & [= ->] & _)|[_ Hl']]; [done|].
  apply Hht in Hl'. lia.
Qed.

Lemma ht_ok_mono ht b b' : ht_ok ht b -> b <= b' -> ht_ok ht b'.
Proof. intros [Hl Hht] Hb. split; [done|]. intros h p Hh. apply Hht in Hh. lia. Qed.

Lemma ht_index ht b h : ht_ok ht b -> 0 <= h < 4096 -> exists m, index_ ht h = Ok m /\ ht !! Z.to_nat h = Some m.
Proof.
  intros [Hl _] Hh. destruct (lookup_lt_is_Some_2 ht (Z.to_nat h)) as [m Hm].
  { rewrite Hl. unfold HASHTABLESIZE. lia. }
  exists m. split; [|done]. apply index_lookup in Hm. by rewrite Z2Nat.id in Hm by lia.
Qed.

(** A 32-bit read inside the input, and what equal reads mean. *)
Lemma read32_ok p : 0 <= p -> p + 4 <= n -> exists v, LZ4_read32 src p = Ok v.
Proof.
  intros Hp Hn. unfold LZ4_read32. destruct (split_mem src p 4) as (m1 & bs & m2 & Heq & <- & Hb); [lia..|].
  rewrite Heq. rewrite read_le_mid by done. eauto.
Qed.

Lemma read32_eq p q v :
  0 <= p -> p + 4 <= n -> 0 <= q -> q + 4 <= n ->
  LZ4_read32 src p = Ok v -> LZ4_read32 src q = Ok v -> forall j, 0 <= j < 4 -> at_ (p + j) = at_ (q + j).
Proof.
  intros Hp Hpn Hq Hqn Rp Rq j Hj. unfold LZ4_read32, read_le, load in Rp, Rq.
  rewrite bool_decide_eq_true_2 in Rp, Rq by lia. cbn [mbind outcome_bind] in Rp, Rq.
  apply (inj Ok) in Rp, Rq. rewrite <- Rq in Rp.
  set (bp := take (Z.to_nat 4) (drop (Z.to_nat p) src)) in *. set (bq := take (Z.to_nat 4) (drop (Z.to_nat q) src)) in *.
  assert (Hlp : length bp = 4%nat) by (unfold bp; rewrite length_take, length_drop; lia).
  assert (Hlq : length bq = 4%nat) by (unfold bq; rewrite length_take, length_drop; lia).
  assert (Heq : bp = bq).
  { rewrite <- (le_bytes_le_val bp), <- (le_bytes_le_val bq), Hlp, Hlq. by rewrite Rp. }
  apply (f_equal (fun l => l !! Z.to_nat j)) in Heq. unfold bp, bq in Heq.
  rewrite !lookup_take_lt, !lookup_drop in Heq by lia.
  by rewrite !Z2Nat.inj_add by lia.
Qed.

Lemma find_match_ok fuel ht fw step nb :
  ht_ok ht fw -> 0 <= fw -> fw + 4 <= n -> 0 < step -> 0 <= nb -> n - fw <= Z.of_nat fuel ->
  exists r ht', find_match fuel src ht fw step nb = Ok (r, ht') /\
    match r with
    | None => True
    | Some (ip, m) =>
        fw <= ip /\ ip < n - MFLIMIT /\ 0 <= m < ip /\ ip - m <= 65535 /\ ht_ok ht' (ip + 1) /\
        forall j, 0 <= j < 4 -> at_ (m + j) = at_ (ip + j)
    end.
Proof.
  unfold MFLIMIT, MINMATCH, LASTLITERALS.
  revert ht fw step nb; induction fuel as [|fuel IH]; intros ht fw step nb Hht Hfw Hn Hst Hnb Hf; [lia|].
  cbn [find_match]. destruct (read32_ok fw Hfw Hn) as [v Hv]. rewrite Hv. cbn [mbind outcome_bind].
  destruct (ht_index ht fw (LZ4_hash4 v) Hht (LZ4_hash4_range v)) as (m & Hm & Hlm). rewrite Hm. cbn [mbind outcome_bind].
  unfold MFLIMIT, MINMATCH, LASTLITERALS.
  destruct (decide (fw + step > n - (4 + 5))) as [He|He].
  { rewrite bool_decide_eq_true_2 by done. by eexists None, _. }
  rewrite bool_decide_eq_false_2 by done.
  assert (Hht' : ht_ok (<[Z.to_nat (LZ4_hash4 v) := Some fw]> ht) (fw + 1)) by (eapply ht_ok_insert; [done|lia|lia]).
  assert (Hnext : exists r ht', find_match fuel src (<[Z.to_nat (LZ4_hash4 v) := Some fw]> ht) (fw + step)
      (Z.shiftr nb 6 + 1) (nb + 1) = Ok (r, ht') /\
    match r with
    | None => True
    | Some (ip, m) => fw <= ip /\ ip < n - (4 + 5) /\ 0 <= m < ip /\ ip - m <= 65535 /\ ht_ok ht' (ip + 1) /\
        forall j, 0 <= j < 4 -> at_ (m + j) = at_ (ip + j)
    end).
  { assert (0 <= Z.shiftr nb 6) by (by apply Z.shiftr_nonneg).
    destruct (IH (<[Z.to_nat (LZ4_hash4 v) := Some fw]> ht) (fw + step) (Z.shiftr nb 6 + 1) (nb + 1))
      as (r & ht' & Hr & Hspec); [eapply ht_ok_mono; [exact Hht'|lia]|lia|lia|lia|lia|lia|].
    exists r, ht'. split; [done|]. destruct r as [[ip m']|]; [|done]. destruct Hspec as (? & ?). split; [lia|done]. }
  destruct m as [m|]; [|exact Hnext].
  case_bool_decide as Hfar; [exact Hnext|].
  destruct Hht as [Hlen Hht]. apply Hht in Hlm as Hmr.
  destruct (read32_ok m) as [vm Hvm]; [lia|lia|]. rewrite Hvm. cbn [mbind outcome_bind].
  case_bool_decide as Hne; [exact Hnext|]. assert (vm = v) as -> by (destruct (Z.eq_dec vm v); tauto).
  eexists (Some (fw, m)), _. split; [reflexivity|]. split_and!; try lia; [done|].
  apply (read32_eq m fw v); try lia; done.
Qed.

Lemma load_byte_at p : 0 <= p < n -> exists b, load_byte src p = Ok (byte_Z b) /\ at_ p = Some b.
Proof.
  intros Hp. destruct (lookup_lt_is_Some_2 src (Z.to_nat p)) as [b Hb]; [lia|].
  exists b. split; [|done]. apply load_byte_lookup in Hb. by rewrite Z2Nat.id in Hb by lia.
Qed.

Lemma catch_up_ok fuel anchor ip m :
  0 <= anchor <= ip -> 0 <= m < ip -> ip <= n -> ip <= Z.of_nat fuel ->
  exists k, catch_up fuel src anchor ip m = Ok (ip - k, m - k) /\ 0 <= k <= m /\ anchor <= ip - k /\
    forall i, ip - k <= i < ip -> at_ i = at_ (i - (ip - m)).
Proof.
  revert ip m; induction fuel as [|fuel IH]; intros ip m Ha Hm Hn Hf; [lia|].
  assert (Hstop : exists k, Ok (ip, m) = Ok (ip - k, m - k) /\ 0 <= k <= m /\ anchor <= ip - k /\
    forall i, ip - k <= i < ip -> at_ i = at_ (i - (ip - m))).
  { exists 0. rewrite !Z.sub_0_r. split_and!; [done|lia|lia|lia|lia]. }
  cbn [catch_up]. destruct (bool_decide (ip > anchor) && bool_decide (m > 0)) eqn:E; [|exact Hstop].
  apply andb_true_iff in E as [E1%bool_decide_eq_true E2%bool_decide_eq_true].
  destruct (load_byte_at (ip - 1)) as (a & Ha1 & Ha2); [lia|].
  destruct (load_byte_at (m - 1)) as (b & Hb1 & Hb2); [lia|].
  rewrite Ha1, Hb1. cbn [mbind outcome_bind]. case_bool_decide as Hab; [|exact Hstop].
  apply byte_Z_inj in Hab as ->.
  destruct (IH (ip - 1) (m - 1)) as (k & Hr & Hk & Hak & Heq); [lia..|].
  exists (k + 1). split_and!; try lia.
  - rewrite Hr. do 2 f_equal; lia.
  - intros i Hi. destruct (Z.eq_dec i (ip - 1)) as [->|].
    + rewrite Ha2, <- Hb2. f_equal. lia.
    + rewrite Heq by lia. f_equal. lia.
Qed.

Lemma extend_match_ok fuel mp ipe ml :
  0 <= mp < ipe -> n - ipe <= Z.of_nat fuel ->
  exists k, extend_match fuel src mp ipe ml = Ok (ipe + k, ml + k) /\ 0 <= k /\
    (0 < k -> ipe + k <= n - LASTLITERALS) /\
    (forall i, ipe <= i < ipe + k -> at_ i = at_ (i - (ipe - mp))) /\
    (ipe + k < n - LASTLITERALS -> at_ (ipe + k) <> at_ (ipe + k - (ipe - mp))).
Proof.
  unfold LASTLITERALS.
  revert mp ipe ml; induction fuel as [|fuel IH]; intros mp ipe ml Hmp Hf; cbn [extend_match]; unfold LASTLITERALS.
  - rewrite bool_decide_eq_false_2 by lia. exists 0. rewrite !Z.add_0_r. split_and!; [done|lia..].
  - case_bool_decide as Hend.
    2: { exists 0. rewrite !Z.add_0_r. split_and!; [done|lia..]. }
    destruct (load_byte_at mp) as (a & Ha1 & Ha2); [lia|].
    destruct (load_byte_at ipe) as (b & Hb1 & Hb2); [lia|].
    rewrite Ha1, Hb1. cbn [mbind outcome_bind]. case_bool_decide as Hab.
    + apply byte_Z_inj in Hab as ->. destruct (IH (mp + 1) (ipe + 1) (ml + 1)) as (k & Hr & Hk & Hke & Heq & Hmax); [lia..|].
      exists (k + 1). split_and!; try lia.
      * rewrite Hr. do 2 f_equal; lia.
      * intros i Hi. destruct (Z.eq_dec i ipe) as [->|].
        -- rewrite Hb2, <- Ha2. f_equal. lia.
        -- rewrite Heq by lia. f_equal. lia.
      * intros Hlt. replace (ipe + (k + 1)) with (ipe + 1 + k) by lia.
        replace (ipe + 1 + k - (ipe - mp)) with (ipe + 1 + k - (ipe + 1 - (mp + 1))) by lia. apply Hmax. lia.
    + exists 0. rewrite !Z.add_0_r. split_and!; [done|lia|lia|lia|].
      intros _. replace (ipe - (ipe - mp)) with mp by lia. rewrite Ha2, Hb2. congruence.
Qed.
End compress.

(** *** Writing a sequence *)

Lemma set_token_app out v tl : set_token (length out) v (out ++ x00 :: tl) = out ++ Z_byte v :: tl.
Proof. unfold set_token. rewrite insert_app_r_alt, Nat.sub_diag by lia. done. Qed.

Lemma or_token_app out b tl v : or_token (length out) v (out ++ b :: tl) = Ok (out ++ Z_byte (Z.lor (byte_Z b) v) :: tl).
Proof.
  unfold or_token. rewrite load_byte_app by done. cbn [mbind outcome_bind].
  by rewrite insert_app_r_alt, Nat.sub_diag by lia.
Qed.

(** Arithmetic with division by constants. *)
Ltac div_lia := Z.to_euclidean_division_equations; lia.

Lemma length_bytes_bound n : 0 <= n -> 0 <= zlen (length_bytes n) <= n / 255 + 1 /\ zlen (length_bytes n) <= n.
Proof. intros Hn. rewrite length_length_bytes by done. case_bool_decide; div_lia. Qed.

Lemma length_encode_seq s :
  zlen (encode_seq s) = 3 + zlen (length_bytes (zlen (s_lits s))) + zlen (s_lits s) + zlen (length_bytes (s_extra s)).
Proof.
  unfold encode_seq. cbn [length]. rewrite !length_app, length_le_bytes. lia.
Qed.

(** The nibble of a length and the bytes that follow it. *)
Lemma emit_length cap ll (out : bytes) :
  0 <= ll -> zlen out + 1 + zlen (length_bytes ll) <= cap ->
  (if bool_decide (ll >= 15)
   then emit_run (Z.to_nat ll) cap (ll - 15) (out ++ [Z_byte (16 * nibble ll)])
   else Ok (out ++ [Z_byte (16 * nibble ll)])) = Ok (out ++ Z_byte (16 * nibble ll) :: length_bytes ll).
Proof.
  intros Hll Hc. unfold length_bytes in *. case_bool_decide.
  - rewrite emit_run_ok; [by rewrite <- app_assoc|lia|div_lia|rewrite length_app; cbn [length]; lia].
  - done.
Qed.

Section write.
Context (src : bytes) (cap : Z).
Local Abbreviation n := (zlen src).

Lemma emit_literals_ok out anchor ip m :
  0 <= anchor <= ip -> ip <= n -> 0 < ip - m < 2 ^ 16 ->
  let lits := take (Z.to_nat (ip - anchor)) (drop (Z.to_nat anchor) src) in
  zlen out + 1 + zlen (length_bytes (ip - anchor)) + (ip - anchor) + 2 <= cap ->
  emit_literals src cap out anchor ip m =
  Ok (out ++ Z_byte (16 * nibble (ip - anchor)) :: length_bytes (ip - anchor) ++ lits ++ le_bytes 2 (ip - m)).
Proof.
  intros Ha Hn Hoff lits Hc. unfold emit_literals. cbv zeta. set (ll := ip - anchor) in *.
  pose proof (length_bytes_bound ll ltac:(lia)) as Hlb.
  rewrite emit_ok by (cbn [length]; lia). cbn [mbind outcome_bind].
  rewrite !set_token_app.
  assert (Htok : (if bool_decide (ll >= 15) then emit_run (Z.to_nat ll) cap (ll - 15) (out ++ [Z_byte (Z.shiftl 15 4)])
                  else Ok (out ++ [Z_byte (Z.shiftl ll 4)])) = Ok (out ++ Z_byte (16 * nibble ll) :: length_bytes ll)).
  { rewrite <- (emit_length cap ll out) by lia. unfold nibble. case_bool_decide.
    - by rewrite Z.min_r by lia.
    - rewrite Z.min_l by lia. rewrite Z.shiftl_mul_pow2 by lia. by rewrite Z.mul_comm. }
  rewrite Htok. cbn [mbind outcome_bind].
  assert (Hl : load src anchor ll = Ok lits) by (unfold load; by rewrite bool_decide_eq_true_2 by lia).
  assert (Hlits : zlen lits = ll) by (unfold lits; rewrite length_take, length_drop; lia).
  rewrite Hl. cbn [mbind outcome_bind].
  rewrite emit_ok by (rewrite length_app; cbn [length]; lia). cbn [mbind outcome_bind].
  assert (Hu : le_bytes 2 (u16 (ip - m)) = le_bytes 2 (ip - m)).
  { unfold u16. by rewrite Z.mod_small by lia. }
  rewrite Hu, emit_ok by (rewrite !length_app, length_le_bytes; cbn [length]; lia).
  by rewrite <- !app_assoc.
Qed.

Lemma emit_match_ok out ll ml tl :
  0 <= ll -> 0 <= ml -> zlen out + 1 + zlen tl + zlen (length_bytes ml) <= cap ->
  emit_match cap (length out) ml (out ++ Z_byte (16 * nibble ll) :: tl) =
  Ok (out ++ token_byte ll ml :: tl ++ length_bytes ml).
Proof.
  intros Hll Hml Hc. unfold emit_match. pose proof (nibble_range ll Hll). pose proof (nibble_range ml Hml).
  assert (Htok : forall k, 0 <= k < 16 -> Z_byte (Z.lor (byte_Z (Z_byte (16 * nibble ll))) k) = Z_byte (16 * nibble ll + k)).
  { intros k Hk. rewrite byte_Z_of_Z, Z.mod_small by lia. f_equal.
    rewrite Z.lor_comm. replace (16 * nibble ll) with (Z.shiftl (nibble ll) 4)
      by (rewrite Z.shiftl_mul_pow2 by lia; lia).
    rewrite lor_shiftl_add by lia. rewrite Z.shiftl_mul_pow2 by lia. lia. }
  unfold token_byte, length_bytes in *. case_bool_decide as Hb.
  - rewrite or_token_app, Htok by lia. cbn [mbind outcome_bind].
    rewrite emit_run_ok; [|lia|div_lia|rewrite length_app; cbn [length]; lia].
    rewrite <- app_assoc. cbn [app]. unfold nibble at 3. by rewrite Z.min_r by lia.
  - rewrite or_token_app, Htok by lia. unfold nibble at 3. rewrite Z.min_l by lia. by rewrite app_nil_r.
Qed.

Lemma last_literals_ok out anchor :
  0 <= anchor <= n -> cap = LZ4_compressBound n -> zlen out <= anchor + anchor / 255 ->
  let c := out ++ encode_last (drop (Z.to_nat anchor) src) in
  last_literals src cap out anchor = Ok (zlen c, c) /\ zlen c <= n + n / 255 + 2.
Proof.
  intros Ha -> Hout c. unfold last_literals, LZ4_compressBound. cbv zeta.
  set (ll := n - anchor) in *. set (lits := drop (Z.to_nat anchor) src).
  assert (Hlits : zlen lits = ll) by (unfold lits; rewrite length_drop; lia).
  pose proof (length_bytes_bound ll ltac:(lia)) as [Hlb _].
  assert (Hsum : anchor / 255 + ll / 255 <= n / 255) by (unfold ll; div_lia).
  assert (H256 : Z.shiftr ll 8 <= ll / 255) by (rewrite Z.shiftr_div_pow2 by lia; unfold ll; div_lia).
  rewrite bool_decide_eq_false_2 by lia.
  assert (Hlast : encode_last lits = Z_byte (16 * nibble ll) :: length_bytes ll ++ lits).
  { unfold encode_last, token_byte. rewrite Hlits. do 2 f_equal. unfold nibble at 2. lia. }
  assert (Hc : zlen c = zlen out + 1 + zlen (length_bytes ll) + ll).
  { unfold c. fold lits. rewrite Hlast, length_app. cbn [length]. rewrite length_app. lia. }
  split; [|rewrite Hc; lia].
  assert (Htok : (if bool_decide (ll >= 15)
     then out' ← emit (n + n / 255 + 16) [Z_byte (Z.shiftl 15 4)] out; emit_run (Z.to_nat ll) (n + n / 255 + 16) (ll - 15) out'
     else emit (n + n / 255 + 16) [Z_byte (Z.shiftl ll 4)] out) = Ok (out ++ Z_byte (16 * nibble ll) :: length_bytes ll)).
  { rewrite <- (emit_length (n + n / 255 + 16) ll out) by lia. unfold nibble. case_bool_decide.
    - rewrite emit_ok by (cbn [length]; lia). by rewrite Z.min_r by lia.
    - rewrite emit_ok by (cbn [length]; lia). rewrite Z.min_l by lia.
      rewrite Z.shiftl_mul_pow2 by lia. by rewrite Z.mul_comm. }
  rewrite Htok. cbn [mbind outcome_bind].
  assert (Hl : load src anchor ll = Ok lits).
  { unfold load. rewrite bool_decide_eq_true_2 by lia. fold lits. by rewrite take_ge by lia. }
  rewrite Hl. cbn [mbind outcome_bind].
  rewrite emit_ok by (rewrite length_app; cbn [length]; lia). cbn [mbind outcome_bind].
  assert (Heq : (out ++ Z_byte (16 * nibble ll) :: length_bytes ll) ++ lits = c).
  { unfold c. fold lits. rewrite Hlast. by rewrite <- app_assoc. }
  by rewrite Heq.
Qed.
End write.

(** *** The main loop *)

Section main.
Context (src : bytes).
Local Abbreviation n := (zlen src).
Local Abbreviation cap := (LZ4_compressBound n).
Local Abbreviation at_ p := (src !! Z.to_nat p).

Lemma seqs_cover_snoc p ss s a q : seqs_cover src p ss a -> seq_step src a s q -> seqs_cover src p (ss ++ [s]) q.
Proof.
  revert p; induction ss as [|s' ss IH]; intros p Hc Hs; cbn in *; [subst; eauto|].
  destruct Hc as (p' & ? & ?). exists p'. eauto.
Qed.

(** What a run returns: a valid stream within the bound. *)
Definition compressed (r : outcome (Z * bytes)) : Prop :=
  exists ss q, let c := encode_stream ss (drop (Z.to_nat q) src) in
    r = Ok (zlen c, c) /\ seqs_cover src 0 ss q /\ 0 <= q <= n /\ zlen c <= n + n / 255 + 2.

Lemma finish ss anchor :
  seqs_cover src 0 ss anchor -> 0 <= anchor <= n -> zlen (concat (encode_seq <$> ss)) <= anchor + anchor / 255 ->
  compressed (last_literals src cap (concat (encode_seq <$> ss)) anchor).
Proof.
  intros Hc Ha Hout. destruct (last_literals_ok src cap (concat (encode_seq <$> ss)) anchor Ha eq_refl Hout) as [Hr Hb].
  exists ss, anchor. cbv zeta. unfold encode_stream. split_and!; [done|done|lia|lia|done].
Qed.

(** The sequence that one round finds. *)
Lemma round_seq anchor ip0 m0 k0 k1 :
  0 <= anchor -> ip0 < n - MFLIMIT -> 0 <= m0 < ip0 -> ip0 - m0 <= 65535 ->
  (forall j, 0 <= j < 4 -> at_ (m0 + j) = at_ (ip0 + j)) ->
  0 <= k0 <= m0 -> anchor <= ip0 - k0 ->
  (forall i, ip0 - k0 <= i < ip0 -> at_ i = at_ (i - (ip0 - m0))) ->
  let ip := ip0 - k0 in let off := ip0 - m0 in let q := ip + 4 + k1 in
  0 <= k1 -> (0 < k1 -> q <= n - LASTLITERALS) ->
  (forall i, ip + 4 <= i < q -> at_ i = at_ (i - off)) ->
  (q < n - LASTLITERALS -> at_ q <> at_ (q - off)) ->
  let s := mkSeq (take (Z.to_nat (ip - anchor)) (drop (Z.to_nat anchor) src)) off k1 in
  seq_step src anchor s q /\ zlen (s_lits s) = ip - anchor /\ ip0 + 4 <= q /\ q <= n - LASTLITERALS.
Proof.
  intros Ha Hip Hm Hfar H4 Hk0 Hanc Hback ip off q Hk1 Hqn Hext Hmax s.
  unfold MFLIMIT, MINMATCH, LASTLITERALS in *.
  assert (Hl : zlen (s_lits s) = ip - anchor).
  { cbn [s s_lits]. rewrite length_take, length_drop. unfold ip. lia. }
  assert (Heq : forall i, ip <= i < q \/ ip <= i < ip0 + 4 -> at_ i = at_ (i - off)).
  { intros i Hi. destruct (decide (i < ip0)).
    - apply Hback. unfold ip in *. lia.
    - destruct (decide (i < ip0 + 4)).
      + pose proof (H4 (i - ip0) ltac:(lia)) as Hj. replace (ip0 + (i - ip0)) with i in Hj by lia.
        rewrite <- Hj. f_equal. unfold off. lia.
      + apply Hext. unfold ip, q in *. lia. }
  assert (Hq : ip0 + 4 <= q).
  { destruct (decide (ip0 + 4 <= q)) as [?|Hlt]; [done|]. exfalso. apply Hmax; [lia|]. apply Heq.
    unfold q, ip in *. lia. }
  assert (Hqb : q <= n - 5) by (destruct (decide (0 < k1)); [auto|]; unfold q, ip in *; lia).
  split_and!; [|done|done|done]. unfold seq_step. cbv zeta. rewrite Hl. unfold MINMATCH. cbn [s s_off s_extra s_lits].
  split_and!; try (unfold q, ip, off in *; lia).
  - rewrite length_take_le; [done|]. rewrite length_drop. unfold ip. lia.
  - intros i Hi. apply Heq. left. lia.
Qed.

(** The output stays below the input, plus one byte in 255. *)
Lemma out_bound anchor s q (out : bytes) :
  seq_step src anchor s q -> zlen out <= anchor + anchor / 255 ->
  zlen out + zlen (encode_seq s) <= q + q / 255.
Proof.
  unfold seq_step, MINMATCH. intros (Ha & Hex & Hq & _) Hout. rewrite length_encode_seq.
  pose proof (length_bytes_bound (zlen (s_lits s)) ltac:(lia)) as [Hl _].
  pose proof (length_bytes_bound (s_extra s) Hex) as [_ Hm].
  assert (Hs : anchor / 255 + zlen (s_lits s) / 255 <= q / 255) by div_lia.
  lia.
Qed.

Lemma compress_loop_ok fuel ss ht ip anchor :
  seqs_cover src 0 ss anchor -> zlen (concat (encode_seq <$> ss)) <= anchor + anchor / 255 ->
  0 <= anchor < ip -> ip + 8 <= n -> ht_ok ht ip -> n - anchor <= Z.of_nat fuel ->
  compressed (compress_loop fuel src cap (concat (encode_seq <$> ss)) ht ip anchor).
Proof.
  revert ss ht ip anchor; induction fuel as [|fuel IH]; intros ss ht ip0 anchor Hcov Hout Ha Hip Hht Hf; [lia|].
  cbn [compress_loop]. set (out := concat (encode_seq <$> ss)) in *.
  destruct (find_match_ok src (length src) ht ip0 1 1 Hht) as (r & ht1 & Hr & Hspec); [lia..|].
  rewrite Hr. cbn [mbind outcome_bind].
  destruct r as [[ip1 m1]|]; [|apply finish; [done|lia|done]].
  destruct Hspec as (Hfw & Hlim & Hm & Hfar & Hht1 & H4).
  pose proof Hlim as Hlim'. unfold MFLIMIT, MINMATCH, LASTLITERALS in Hlim'.
  destruct (catch_up_ok src (length src) anchor ip1 m1) as (k0 & Hcu & Hk0 & Hanc & Hback); [lia..|].
  rewrite Hcu. cbn [mbind outcome_bind]. cbv zeta.
  set (ip := ip1 - k0) in *. set (m := m1 - k0) in *.
  destruct (extend_match_ok src (length src) (m + MINMATCH) (ip + MINMATCH) 0) as (k1 & Hem & Hk1 & Hk1n & Hext & Hmax);
    [unfold MINMATCH, m, ip; lia|unfold MINMATCH, ip; lia|].
  assert (Hoff : ip - m = ip1 - m1) by (unfold ip, m; lia).
  assert (Hoff4 : ip + MINMATCH - (m + MINMATCH) = ip1 - m1) by (unfold ip, m; lia).
  rewrite Hoff4 in Hext, Hmax.
  destruct (round_seq anchor ip1 m1 k0 k1) as (Hstep & Hlits & Hq & Hqn); try done; [lia|].
  fold ip in Hstep, Hlits, Hq, Hqn. set (q := ip + 4 + k1) in *.
  set (s := mkSeq (take (Z.to_nat (ip - anchor)) (drop (Z.to_nat anchor) src)) (ip1 - m1) k1) in *.
  pose proof (out_bound anchor s q out Hstep Hout) as Hout'. rewrite length_encode_seq in Hout'. rewrite Hlits in Hout'.
  cbn [s s_extra] in Hout'. unfold LASTLITERALS in Hqn.
  pose proof (length_bytes_bound (ip - anchor) ltac:(lia)) as [Hlb _].
  pose proof (length_bytes_bound k1 Hk1) as [Hmb _].
  assert (Hcap : q + q / 255 <= cap - 16) by (unfold LZ4_compressBound; div_lia).
  assert (Hlitcap : zlen out + (ip - anchor) + (ip - anchor) / 255 <= cap - 16) by (unfold LZ4_compressBound, ip in *; div_lia).
  assert (H256 : Z.shiftr (ip - anchor) 8 <= (ip - anchor) / 255).
  { rewrite Z.shiftr_div_pow2 by lia. div_lia. }
  rewrite bool_decide_eq_false_2 by (unfold LASTLITERALS; lia).
  rewrite (emit_literals_ok src cap out anchor ip m) by (rewrite ?Hoff; lia). cbn [mbind outcome_bind].
  rewrite Hem. cbn [mbind outcome_bind]. rewrite Z.add_0_l.
  rewrite emit_match_ok; [|lia|lia|rewrite !length_app, length_le_bytes, length_take, length_drop; lia].
  cbn [mbind outcome_bind].
  assert (Henc : out ++ token_byte (ip - anchor) k1 :: (length_bytes (ip - anchor) ++
      take (Z.to_nat (ip - anchor)) (drop (Z.to_nat anchor) src) ++ le_bytes 2 (ip - m)) ++ length_bytes k1
    = concat (encode_seq <$> ss ++ [s])).
  { rewrite fmap_app, concat_app. cbn [fmap list_fmap concat]. rewrite app_nil_r. unfold out. f_equal.
    unfold encode_seq. rewrite Hlits. cbn [s s_lits s_off s_extra]. rewrite Hoff. by rewrite <- !app_assoc. }
  rewrite Henc. replace (ip + MINMATCH + k1) with q by (unfold q, MINMATCH; lia).
  assert (Hcov' : seqs_cover src 0 (ss ++ [s]) q) by (by eapply seqs_cover_snoc).
  assert (Hout2 : zlen (concat (encode_seq <$> ss ++ [s])) <= q + q / 255).
  { rewrite fmap_app, concat_app, length_app. cbn [fmap list_fmap concat]. rewrite app_nil_r.
    pose proof (out_bound anchor s q out Hstep Hout). unfold out in *. lia. }
  destruct (decide (q > n - MFLIMIT)) as [Hend|Hend].
  { rewrite bool_decide_eq_true_2 by done. apply finish; [done|lia|done]. }
  rewrite bool_decide_eq_false_2 by done. unfold MFLIMIT, MINMATCH, LASTLITERALS in Hend.
  destruct (read32_ok src (q - 2)) as [v Hv]; [lia|lia|]. rewrite Hv. cbn [mbind outcome_bind].
  apply IH; [done|done|lia|lia| |lia].
  eapply ht_ok_insert; [exact Hht1|lia|lia].
Qed.

Lemma compress_default_ok : compressed (LZ4_compress_default src cap).
Proof.
  unfold LZ4_compress_default. case_bool_decide as Hs.
  - apply (finish []); [done|lia|by vm_compute].
  - unfold MFLIMIT, MINMATCH, LASTLITERALS in Hs.
    apply (compress_loop_ok (length src) []); [done|by vm_compute|lia|lia| |lia].
    eapply ht_ok_mono; [apply ht_ok_new|lia].
Qed.
End main.

(** Each sequence of a stream takes input. *)
Lemma seqs_cover_length src p ss q :
  seqs_cover src p ss q -> 0 <= p -> p + 4 * zlen ss <= q.
Proof.
  revert p; induction ss as [|s ss IH]; intros p Hc Hp; cbn [seqs_cover length] in *; [lia|].
  destruct Hc as (p' & Hs & Hc). unfold seq_step, MINMATCH in Hs. specialize (IH p' Hc ltac:(lia)). lia.
Qed.

Lemma concat_seqs_length ss : (length ss <= length (concat (encode_seq <$> ss)))%nat.
Proof.
  induction ss as [|s ss IH]; [done|]. cbn [fmap list_fmap concat]. rewrite length_app.
  pose proof (length_encode_seq s). cbn [length]. lia.
Qed.

(** ** Properties *)

(** C30: the bundled LZ4 compressor and decompressor are inverse.  For every input
    below 64 KB and the capacity [LZ4_compressBound], compression succeeds
    without writing past the buffer or reading outside the input, its size is
    positive and at most [n + n / 255 + 2], and decompression into a buffer of
    the original size returns the input. *)
Theorem lz4_roundtrip src :
  zlen src < 2 ^ 16 ->
  exists c, LZ4_compress_default src (LZ4_compressBound (zlen src)) = Ok (zlen c, c) /\
    0 < zlen c <= zlen src + zlen src / 255 + 2 /\
    LZ4_decompress_safe c (zlen src) = Ok (zlen src, src).
Proof.
  intros Hsmall. destruct (compress_default_ok src) as (ss & q & Hr & Hcov & Hq & Hb).
  set (c := encode_stream ss (drop (Z.to_nat q) src)) in *. exists c. split_and!; [done| |done|].
  - pose proof (encode_stream_ne ss (drop (Z.to_nat q) src)) as Hne. fold c in Hne. destruct c; [done|cbn; lia].
  - unfold LZ4_decompress_safe.
    apply (decompress_stream src Hsmall ss 0 q (S (length c)) []); [done|lia|lia|].
    unfold c, encode_stream. rewrite length_app. pose proof (concat_seqs_length ss). lia.
Qed.

Lemma lz4_roundtrip_witness :
  exists c, LZ4_compress_default (str "abcdabcdabcdabcdabcdabcdabcd") 44 = Ok (zlen c, c) /\
    0 < zlen c <= 28 + 28 / 255 + 2 /\
    LZ4_decompress_safe c 28 = Ok (28, str "abcdabcdabcdabcdabcdabcdabcd").
Proof. exact (lz4_roundtrip (str "abcdabcdabcdabcdabcdabcdabcd") eq_refl). Defined.

(** [LZ4_decompress_safe] is not safe on malformed input.  An empty input is
    read past its end; so is a block that ends inside a sequence or after a
    match; a match of offset zero divides by zero. *)
Theorem lz4_decompress_unsafe :
  LZ4_decompress_safe [] 100 = UB /\
  LZ4_decompress_safe [x10; x41; x01; x00] 100 = UB /\
  LZ4_decompress_safe [x10; x41; x01] 100 = UB /\
  LZ4_decompress_safe [x10; x41; x00; x00; x00] 100 = UB.
Proof. vm_compute. done. Qed.
