(* ===== verification/Compression.v ===== *)
(** [CompressionEngine] ([include/xdl/compression.h], [src/compression.cpp]).

    The build links the system's LZ4 when it finds one and the bundled codec
    otherwise, so the engine is written against an interface: [LZ4Lib] are the
    three functions it calls, [LZ4Laws] what it relies on.  The bundled codec of
    Lz4.v is an instance with the laws proved. *)
From S2P Require Import Prelude Types Lz4.

(** ** The codec interface *)

Class LZ4Lib := {
  lz4_compress_default : bytes -> Z -> outcome (Z * bytes);
  lz4_decompress_safe : bytes -> Z -> outcome (Z * bytes);
  lz4_compressBound : Z -> Z;
}.

(** For inputs below 64 KB: within the bound, which is the documented
    [LZ4_COMPRESSBOUND], compression succeeds, and decompression gives the input
    back. *)
Class LZ4Laws `{LZ4Lib} := {
  lz4_law src :
    zlen src < 2 ^ 16 ->
    exists c, lz4_compress_default src (lz4_compressBound (zlen src)) = Ok (zlen c, c) /\
      0 < zlen c <= lz4_compressBound (zlen src) /\
      lz4_decompress_safe c (zlen src) = Ok (zlen src, src);
  lz4_bound_law n : 0 <= n < 2 ^ 16 -> lz4_compressBound n = n + n / 255 + 16;
}.

#[export] Instance bundled_lz4 : LZ4Lib := {
  lz4_compress_default := LZ4_compress_default;
  lz4_decompress_safe := LZ4_decompress_safe;
  lz4_compressBound := LZ4_compressBound;
}.

(** ** Definitions *)

Section engine.
Context `{LZ4Lib}.

(** [static_cast<int>(size)]: a size that does not fit makes the pointer
    arithmetic of the codec undefined. *)
Definition int_size (n : Z) : outcome Z := if bool_decide (n < 2 ^ 31) then Ok n else UB.

(** [CompressionEngine::max_compressed_size] *)
Definition max_compressed_size (type : CompressionType) (src_size : Z) : outcome Z :=
  match type with
  | CNone => Ok src_size
  | CLZ4 => n ← int_size src_size; Ok (lz4_compressBound n)
  end.

(** [CompressionEngine::compress]: the content of [dst]. *)
Definition compress (type : CompressionType) (src : bytes) : outcome bytes :=
  match type with
  | CNone => Ok src
  | CLZ4 =>
      bound ← max_compressed_size type (zlen src);
      n ← int_size bound;
      '(result, dst) ← lz4_compress_default src n;
      if bool_decide (result <= 0) then Throw CompressionError
      else Ok (take (Z.to_nat result) dst)
  end.

(** [CompressionEngine::decompress]: the content of [dst].  The type is the byte
    of the page header, cast unchecked: every value but 0 is taken for LZ4. *)
Definition decompress (type : Z) (src : bytes) (expected_size : Z) : outcome bytes :=
  if bool_decide (type = 0) then
    if bool_decide (zlen src <> expected_size) then Throw CompressionError else Ok src
  else
    _ ← int_size (zlen src);
    cap ← int_size expected_size;
    '(result, dst) ← lz4_decompress_safe src cap;
    if bool_decide (result < 0 \/ result <> expected_size) then Throw CompressionError
    else Ok dst.
End engine.

(** The stored byte of a compression type. *)
Definition compression_tag (t : CompressionType) : Z := match t with CNone => 0 | CLZ4 => 1 end.

Definition compression_name (t : CompressionType) : bytes :=
  match t with CNone => str "none" | CLZ4 => str "lz4" end.

(** ** Lemmas *)

#[export] Instance bundled_lz4_laws : LZ4Laws.
Proof.
  split.
  - intros src Hs. destruct (compress_default_ok src) as (ss & q & Hr & Hcov & Hq & Hb).
    set (c := encode_stream ss (drop (Z.to_nat q) src)) in *. exists c. split_and!.
    + exact Hr.
    + pose proof (encode_stream_ne ss (drop (Z.to_nat q) src)) as Hne. fold c in Hne. destruct c; [done|cbn; lia].
    + cbn. unfold LZ4_compressBound. lia.
    + unfold lz4_decompress_safe, bundled_lz4, LZ4_decompress_safe.
      apply (decompress_stream src Hs ss 0 q (S (length c)) []); [done|lia|lia|].
      unfold c, encode_stream. rewrite length_app. pose proof (concat_seqs_length ss). lia.
  - done.
Qed.

Lemma compress_roundtrip `{LZ4Laws} t src :
  zlen src < 2 ^ 16 ->
  exists c, compress t src = Ok c /\ decompress (compression_tag t) c (zlen src) = Ok src /\
    zlen c <= match t with CNone => zlen src | CLZ4 => lz4_compressBound (zlen src) end /\
    zlen c < 2 ^ 31.
Proof.
  intros Hs. destruct t; cbn [compress compression_tag].
  - exists src. unfold decompress. rewrite bool_decide_eq_true_2 by done.
    rewrite bool_decide_eq_false_2 by (intros Hn; by apply Hn). split_and!; [done..|lia|lia].
  - destruct (lz4_law src Hs) as (c & Hc & Hb & Hd). assert (Hbd : 0 < lz4_compressBound (zlen src) < 2 ^ 31) by (rewrite lz4_bound_law by lia; div_lia).
    exists c. unfold max_compressed_size, int_size. rewrite bool_decide_eq_true_2 by lia. cbn [mbind outcome_bind].
    rewrite bool_decide_eq_true_2 by lia. cbn [mbind outcome_bind]. rewrite Hc. cbn [mbind outcome_bind].
    rewrite bool_decide_eq_false_2 by lia. rewrite take_ge by lia. split_and!; [done| |lia|lia].
    unfold decompress. rewrite bool_decide_eq_false_2 by done. unfold int_size.
    rewrite !bool_decide_eq_true_2 by lia. cbn [mbind outcome_bind].
    rewrite Hd. cbn [mbind outcome_bind]. by rewrite bool_decide_eq_false_2 by lia.
Qed.
