(* ===== verification/Migrate.v ===== *)
(** Schema evolution ([include/xdl/migrate.h], [src/migrate.cpp]): the schema
    block of the database file, and the transformation of a row from one schema
    to the next.

    The reader of the schema block is a state monad over its position [pos]; the
    lambdas [read_u32] and [read_u16] of the source are [take_u32] and
    [take_u16]. *)
From S2P Require Import Prelude Types Serialise Page.

(** ** Definitions *)

Inductive MigrateOp := ADD | DROP | RENAME.
#[export] Instance MigrateOp_eq_decision : EqDecision MigrateOp.
Proof. solve_decision. Defined.

Record MigrateEntry := mkMigrateEntry {
  me_op : MigrateOp;
  me_field_name : bytes;
  me_new_name : bytes;
  me_type : FieldType;
  me_default_value : FieldValue;
}.

Record SchemaMigrate := mkSchemaMigrate {
  from_version : Z;
  to_version : Z;
  me_ops : list MigrateEntry;
}.

(** The lambda [append_u32] of [serialise_schema]: the bytes it appends. *)
Definition append_u32 (v : Z) : bytes :=
  [Z_byte (Z.land v 255); Z_byte (Z.land (Z.shiftr v 8) 255);
   Z_byte (Z.land (Z.shiftr v 16) 255); Z_byte (Z.land (Z.shiftr v 24) 255)].

(** One iteration of the loop of [serialise_schema]. *)
Definition serialise_field (f : FieldDef) : bytes :=
  let nlen := u16 (if bool_decide (zlen (fd_name f) > 65535) then 65535 else zlen (fd_name f)) in
  [Z_byte (Z.land nlen 255); Z_byte (Z.land (Z.shiftr nlen 8) 255)] ++
  take (Z.to_nat nlen) (fd_name f) ++ [Z_byte (field_type_tag (fd_type f))].

Definition serialise_schema (s : Schema) : bytes :=
  append_u32 (ver s) ++ append_u32 (u32 (zlen (fields s))) ++ concat (serialise_field <$> fields s).

Definition take_u32 (data : bytes) : M Z Z :=
  pos ← get;
  if bool_decide (pos + 4 > zlen data) then throw CorruptionError else
  v ← lift (read_u32 data pos);
  put (pos + 4) ;; mret v.

Definition take_u16 (data : bytes) : M Z Z :=
  pos ← get;
  if bool_decide (pos + 2 > zlen data) then throw CorruptionError else
  v ← lift (read_u16 data pos);
  put (pos + 2) ;; mret v.

(** One iteration of the loop of [deserialise_schema]. *)
Definition deserialise_field (data : bytes) : M Z FieldDef :=
  nlen ← take_u16 data;
  pos ← get;
  if bool_decide (pos + nlen + 1 > zlen data) then throw CorruptionError else
  name ← lift (load data pos nlen);
  put (pos + nlen) ;;
  pos ← get;
  ft ← lift (load_byte data pos);
  put (pos + 1) ;;
  mret (mkFieldDef name (field_type_of_tag ft)).

Fixpoint deserialise_fields (data : bytes) (k : nat) : M Z (list FieldDef) :=
  match k with
  | O => mret []
  | S k =>
      f ← deserialise_field data;
      fs ← deserialise_fields data k;
      mret (f :: fs)
  end.

Definition deserialise_steps (data : bytes) : M Z Schema :=
  v ← take_u32 data;
  count ← take_u32 data;
  if bool_decide (count = 0 \/ count > 1024) then throw CorruptionError else
  fs ← deserialise_fields data (Z.to_nat count);
  mret (mkSchema fs v).

(** [deserialise_schema] *)
Definition deserialise_schema (data : bytes) : outcome Schema := (deserialise_steps data 0).1.

(** [new_fields[i] = v] *)
Definition vec_set {A} (i : Z) (v : A) (l : list A) : outcome (list A) :=
  if bool_decide (0 <= i < zlen l) then Ok (<[Z.to_nat i := v]> l) else UB.

(** The first loop of [apply_to_row], from the new field number [ni]. *)
Fixpoint copy_fields (old_row : Row) (old_schema : Schema) (nfs : list FieldDef) (ni : Z)
    (new_fields : list FieldValue) : outcome (list FieldValue) :=
  match nfs with
  | [] => Ok new_fields
  | nf :: nfs =>
      let oi := field_index old_schema (fd_name nf) in
      new_fields' ←
        (if bool_decide (oi >= 0)
         then v ← index_ (row_fields old_row) oi; vec_set ni v new_fields
         else Ok new_fields);
      copy_fields old_row old_schema nfs (ni + 1) new_fields'
  end.

(** One iteration of the second loop of [apply_to_row]. *)
Definition apply_op (old_row : Row) (old_schema new_schema : Schema) (op : MigrateEntry)
    (new_fields : list FieldValue) : outcome (list FieldValue) :=
  match me_op op with
  | RENAME =>
      let ni := field_index new_schema (me_new_name op) in
      let oi := field_index old_schema (me_field_name op) in
      if bool_decide (ni >= 0 /\ oi >= 0)
      then v ← index_ (row_fields old_row) oi; vec_set ni v new_fields
      else Ok new_fields
  | ADD =>
      let ni := field_index new_schema (me_field_name op) in
      if bool_decide (ni >= 0 /\ ni < zlen new_fields)
      then vec_set ni (me_default_value op) new_fields
      else Ok new_fields
  | DROP => Ok new_fields
  end.

Fixpoint apply_ops (old_row : Row) (old_schema new_schema : Schema) (ops : list MigrateEntry)
    (new_fields : list FieldValue) : outcome (list FieldValue) :=
  match ops with
  | [] => Ok new_fields
  | op :: ops =>
      new_fields' ← apply_op old_row old_schema new_schema op new_fields;
      apply_ops old_row old_schema new_schema ops new_fields'
  end.

(** [SchemaMigrator::apply_to_row] *)
Definition apply_to_row (old_row : Row) (old_schema new_schema : Schema) (m : SchemaMigrate) : outcome Row :=
  let new_fields := replicate (length (fields new_schema)) (inhabitant : FieldValue) in
  new_fields ← copy_fields old_row old_schema (fields new_schema) 0 new_fields;
  new_fields ← apply_ops old_row old_schema new_schema (me_ops m) new_fields;
  Ok (mkRow (row_id old_row) new_fields).

(** [SchemaMigrator::is_compatible] *)
Definition adds (name : bytes) (op : MigrateEntry) : bool :=
  bool_decide (me_op op = ADD /\ me_field_name op = name).

Definition is_compatible (old_schema new_schema : Schema) (m : SchemaMigrate) : bool :=
  forallb (fun nf =>
    bool_decide (field_index old_schema (fd_name nf) >= 0) || existsb (adds (fd_name nf)) (me_ops m))
    (fields new_schema).

(** *** The specification *)

(** What the schema block can hold. *)
Definition field_wire_ok (f : FieldDef) : Prop :=
  zlen (fd_name f) <= 65535 /\
  match fd_type f with UnknownType tag => 5 <= tag < 256 | _ => True end.

Definition schema_wire_ok (s : Schema) : Prop :=
  0 <= ver s < 2 ^ 32 /\ 0 < zlen (fields s) <= 1024 /\ Forall field_wire_ok (fields s).

#[export] Instance field_wire_ok_dec f : Decision (field_wire_ok f).
Proof. unfold field_wire_ok. destruct (fd_type f); apply _. Defined.
#[export] Instance schema_wire_ok_dec s : Decision (schema_wire_ok s).
Proof. unfold schema_wire_ok. apply _. Defined.

(** The stored name: at most 65535 bytes of it. *)
Definition clip (f : FieldDef) : FieldDef :=
  mkFieldDef (take (Z.to_nat 65535) (fd_name f)) (fd_type f).

(** The value of the field [name] of an old row, by name. *)
Definition old_value (old_row : Row) (old_schema : Schema) (name : bytes) : option FieldValue :=
  '(i, _) ← list_find (fun f => fd_name f = name) (fields old_schema);
  row_fields old_row !! i.

(** The effect of one migration step on the new field [name]. *)
Definition op_value (old_row : Row) (old_schema : Schema) (name : bytes) (v : FieldValue) (op : MigrateEntry)
    : FieldValue :=
  match me_op op with
  | ADD => if bool_decide (me_field_name op = name) then me_default_value op else v
  | DROP => v
  | RENAME =>
      if bool_decide (me_new_name op = name)
      then default v (old_value old_row old_schema (me_field_name op)) else v
  end.

(** The migrated value of the new field [name]: the old field of that name,
    then every step in order. *)
Definition migrated_value (old_row : Row) (old_schema : Schema) (m : SchemaMigrate) (name : bytes) : FieldValue :=
  foldl (op_value old_row old_schema name) (default inhabitant (old_value old_row old_schema name)) (me_ops m).

(** The migration moves values only between fields of one type, and adds
    defaults of the field's type. *)
Definition op_typed (old_schema : Schema) (nf : FieldDef) (op : MigrateEntry) : Prop :=
  match me_op op with
  | ADD => me_field_name op = fd_name nf -> value_ok nf (me_default_value op)
  | DROP => True
  | RENAME => me_new_name op = fd_name nf ->
      Forall (fun fo => me_field_name op = fd_name fo -> fd_type nf = fd_type fo) (fields old_schema)
  end.

Definition well_typed_migration (old_schema new_schema : Schema) (m : SchemaMigrate) : Prop :=
  Forall (fun nf =>
    Forall (fun fo => fd_name nf = fd_name fo -> fd_type nf = fd_type fo) (fields old_schema) /\
    Forall (op_typed old_schema nf) (me_ops m)) (fields new_schema).

#[export] Instance op_typed_dec os nf op : Decision (op_typed os nf op).
Proof. unfold op_typed. destruct (me_op op); apply _. Defined.
#[export] Instance well_typed_migration_dec os ns m : Decision (well_typed_migration os ns m).
Proof. unfold well_typed_migration. apply _. Defined.

(** ** Lemmas: the schema block *)

Lemma append_u32_le v : append_u32 v = le_bytes 4 v.
Proof.
  unfold append_u32. rewrite (land_255 v), !shiftr_land_255 by lia.
  cbn [le_bytes]. rewrite !Z.div_div by lia. eval_div v. done.
Qed.

Lemma serialise_field_eq f :
  let name := fd_name (clip f) in
  serialise_field f = le_bytes 2 (zlen name) ++ name ++ [Z_byte (field_type_tag (fd_type f))].
Proof.
  cbn zeta. cbn [clip fd_name]. unfold serialise_field. set (n := u16 _).
  assert (Hn : n = zlen (take (Z.to_nat 65535) (fd_name f))).
  { unfold n, u16. rewrite length_take. case_bool_decide; rewrite Z.mod_small by lia; lia. }
  rewrite Hn, (land_255 _), shiftr_land_255 by lia. cbn [le_bytes].
  rewrite Nat2Z.id. assert (Htk : take (length (take (Z.to_nat 65535) (fd_name f))) (fd_name f) = take (Z.to_nat 65535) (fd_name f)).
  { rewrite length_take, <- take_take. by rewrite (take_ge (fd_name f) (length _)) by done. }
  by rewrite Htk.
Qed.

Lemma fetch (d : bytes) pos n :
  0 <= pos -> 0 <= n -> pos + n <= zlen d -> load d pos n = Ok (take (Z.to_nat n) (drop (Z.to_nat pos) d)).
Proof. intros. unfold load. by bd. Qed.

Lemma take_u32_run d m1 v m2 pos :
  d = m1 ++ le_bytes 4 v ++ m2 -> pos = zlen m1 -> 0 <= v < 2 ^ 32 ->
  take_u32 d pos = (Ok v, pos + 4).
Proof.
  intros -> -> Hv. unfold take_u32. rewrite (M_bind_ok get _ _ _ _ eq_refl).
  rewrite !length_app, length_le_bytes. bd.
  rewrite read_u32_le, (read_le_bytes_mid 4) by (done || lia). done.
Qed.

Lemma take_u16_run d m1 v m2 pos :
  d = m1 ++ le_bytes 2 v ++ m2 -> pos = zlen m1 -> 0 <= v < 2 ^ 16 ->
  take_u16 d pos = (Ok v, pos + 2).
Proof.
  intros -> -> Hv. unfold take_u16. rewrite (M_bind_ok get _ _ _ _ eq_refl).
  rewrite !length_app, length_le_bytes. bd.
  rewrite read_u16_le, (read_le_bytes_mid 2) by (done || lia). done.
Qed.

Definition type_wire_ok (t : FieldType) : Prop := match t with UnknownType tag => 5 <= tag < 256 | _ => True end.

Lemma tag_roundtrip t : type_wire_ok t -> field_type_of_tag (byte_Z (Z_byte (field_type_tag t))) = t.
Proof.
  rewrite byte_Z_of_Z. destruct t as [| | | | |tag]; intros H; try by vm_compute.
  cbn [type_wire_ok field_type_tag] in *. rewrite Z.mod_small by lia. unfold field_type_of_tag. by bd.
Qed.

Lemma length_clip f : zlen (fd_name (clip f)) <= 65535.
Proof. cbn [clip fd_name]. rewrite length_take. lia. Qed.

Lemma deserialise_field_run d m1 f m2 pos :
  d = m1 ++ serialise_field f ++ m2 -> pos = zlen m1 -> type_wire_ok (fd_type f) ->
  deserialise_field d pos = (Ok (clip f), pos + zlen (serialise_field f)).
Proof.
  intros Hd Hpos Ht. rewrite serialise_field_eq in *. pose proof (length_clip f) as Hlen.
  set (name := fd_name (clip f)) in *. set (tg := Z_byte _) in *.
  unfold deserialise_field. rewrite (M_bind_ok _ _ _ _ _ (take_u16_run d m1 (zlen name) (name ++ [tg] ++ m2) pos
    ltac:(by rewrite Hd, <- !app_assoc) Hpos ltac:(lia))).
  rewrite (M_bind_ok get _ _ _ _ eq_refl).
  rewrite (bool_decide_eq_false_2 (_ > zlen d)).
  2: { subst d. rewrite !length_app, length_le_bytes. cbn [length]. lia. }
  assert (Hl : load d (pos + 2) (zlen name) = Ok name).
  { rewrite Hd. replace (m1 ++ _) with ((m1 ++ le_bytes 2 (zlen name)) ++ name ++ [tg] ++ m2)
      by (by rewrite <- !app_assoc).
    apply load_app_mid'; [|done].
    rewrite length_app, length_le_bytes. lia. }
  rewrite Hl. unfold lift at 1. rewrite (M_bind_ok _ _ _ name (pos + 2) eq_refl).
  rewrite (M_bind_ok (put _) _ _ _ _ eq_refl), (M_bind_ok get _ _ _ _ eq_refl).
  assert (Hb : load_byte d (pos + 2 + zlen name) = Ok (byte_Z tg)).
  { rewrite Hd. replace (m1 ++ _) with ((m1 ++ le_bytes 2 (zlen name) ++ name) ++ tg :: m2)
      by (by rewrite <- !app_assoc).
    apply load_byte_app. rewrite !length_app, length_le_bytes. lia. }
  rewrite Hb. unfold lift. rewrite (M_bind_ok _ _ _ (byte_Z tg) (pos + 2 + zlen name) eq_refl).
  rewrite (M_bind_ok (put _) _ _ _ _ eq_refl). unfold mret, M_ret. f_equal.
  - do 2 f_equal. unfold clip. cbn [fd_name fd_type]. f_equal. by apply tag_roundtrip.
  - rewrite !length_app, length_le_bytes. cbn [length]. lia.
Qed.

Lemma deserialise_fields_run d m1 fs m2 pos :
  d = m1 ++ concat (serialise_field <$> fs) ++ m2 -> pos = zlen m1 ->
  Forall (fun f => type_wire_ok (fd_type f)) fs ->
  deserialise_fields d (length fs) pos = (Ok (clip <$> fs), pos + zlen (concat (serialise_field <$> fs))).
Proof.
  intros Hd Hpos Hfs. revert m1 pos Hd Hpos. induction Hfs as [|f fs Hf Hfs IH]; intros m1 pos Hd Hpos.
  - cbn. by rewrite Z.add_0_r.
  - cbn [length deserialise_fields]. cbn [fmap list_fmap concat] in *. rewrite <- app_assoc in Hd.
    rewrite (M_bind_ok _ _ _ _ _ (deserialise_field_run d m1 f _ pos Hd Hpos Hf)).
    rewrite (M_bind_ok _ _ _ _ _ (IH (m1 ++ serialise_field f) (pos + zlen (serialise_field f))
      ltac:(by rewrite <- app_assoc) ltac:(rewrite length_app; lia))).
    unfold mret, M_ret. f_equal. rewrite length_app. lia.
Qed.

Lemma deserialise_serialise s tl :
  0 <= ver s < 2 ^ 32 -> zlen (fields s) < 2 ^ 32 -> Forall (fun f => type_wire_ok (fd_type f)) (fields s) ->
  deserialise_schema (serialise_schema s ++ tl) =
    if bool_decide (0 < zlen (fields s) <= 1024) then Ok (mkSchema (clip <$> fields s) (ver s))
    else Throw CorruptionError.
Proof.
  intros Hv Hn Ht. set (d := _ ++ tl).
  assert (Hd : d = le_bytes 4 (ver s) ++ le_bytes 4 (zlen (fields s)) ++ concat (serialise_field <$> fields s) ++ tl).
  { unfold d, serialise_schema. rewrite !append_u32_le. unfold u32. rewrite (Z.mod_small (zlen (fields s))) by lia.
    by rewrite <- !app_assoc. }
  unfold deserialise_schema, deserialise_steps.
  rewrite (M_bind_ok _ _ _ _ _ (take_u32_run d [] (ver s) _ 0 Hd eq_refl Hv)).
  rewrite (M_bind_ok _ _ _ _ _ (take_u32_run d (le_bytes 4 (ver s)) (zlen (fields s)) _ (0 + 4) Hd eq_refl ltac:(lia))).
  destruct (decide (0 < zlen (fields s) <= 1024)) as [Hc|Hc].
  - rewrite (bool_decide_eq_true_2 (0 < _ <= _)), (bool_decide_eq_false_2 (_ \/ _)) by lia. rewrite Nat2Z.id.
    erewrite M_bind_ok; [|apply (deserialise_fields_run d (le_bytes 4 (ver s) ++ le_bytes 4 (zlen (fields s))) _ tl);
      [by rewrite Hd, <- !app_assoc|done|done]].
    done.
  - rewrite (bool_decide_eq_false_2 (0 < _ <= _)), (bool_decide_eq_true_2 (_ \/ _)) by lia. done.
Qed.

(** *** Any block of bytes *)

Lemma split_front (rest : bytes) n :
  0 <= n <= zlen rest -> exists bs tl, rest = bs ++ tl /\ zlen bs = n.
Proof.
  intros Hn. exists (take (Z.to_nat n) rest), (drop (Z.to_nat n) rest).
  rewrite take_drop, length_take. split; [done|lia].
Qed.

Lemma le_front (rest : bytes) (n : nat) :
  Z.of_nat n <= zlen rest ->
  exists v tl, rest = le_bytes n v ++ tl /\ 0 <= v < 256 ^ Z.of_nat n.
Proof.
  intros Hn. destruct (split_front rest (Z.of_nat n)) as (bs & tl & -> & Hl); [lia|].
  assert (length bs = n) as <- by lia. exists (le_val bs), tl. split; [by rewrite le_bytes_le_val|apply le_val_range].
Qed.

Lemma take_u32_cases m1 rest :
  (exists v tl, rest = le_bytes 4 v ++ tl /\ 0 <= v < 2 ^ 32 /\
     take_u32 (m1 ++ rest) (zlen m1) = (Ok v, zlen m1 + 4)) \/
  take_u32 (m1 ++ rest) (zlen m1) = (Throw CorruptionError, zlen m1).
Proof.
  destruct (decide (4 <= zlen rest)) as [H|H].
  - left. destruct (le_front rest 4 H) as (v & tl & -> & Hv). exists v, tl. split_and!; [done|lia..|].
    by eapply take_u32_run.
  - right. unfold take_u32. rewrite (M_bind_ok get _ _ _ _ eq_refl). rewrite length_app. by bd.
Qed.

Lemma take_u16_cases m1 rest :
  (exists v tl, rest = le_bytes 2 v ++ tl /\ 0 <= v < 2 ^ 16 /\
     take_u16 (m1 ++ rest) (zlen m1) = (Ok v, zlen m1 + 2)) \/
  take_u16 (m1 ++ rest) (zlen m1) = (Throw CorruptionError, zlen m1).
Proof.
  destruct (decide (2 <= zlen rest)) as [H|H].
  - left. destruct (le_front rest 2 H) as (v & tl & -> & Hv). exists v, tl. split_and!; [done|lia..|].
    by eapply take_u16_run.
  - right. unfold take_u16. rewrite (M_bind_ok get _ _ _ _ eq_refl). rewrite length_app. by bd.
Qed.

Lemma tag_decode b :
  type_wire_ok (field_type_of_tag (byte_Z b)) /\ Z_byte (field_type_tag (field_type_of_tag (byte_Z b))) = b.
Proof.
  pose proof (byte_Z_range b) as Hb. rewrite <- (Z_byte_of_byte b) at 3.
  unfold field_type_of_tag, type_wire_ok. repeat case_bool_decide; cbn [field_type_tag]; split; try lia; try done; congruence.
Qed.

Lemma clip_id f : zlen (fd_name f) <= 65535 -> clip f = f.
Proof. intros H. destruct f as [n t]; cbn [fd_name] in H. unfold clip; cbn [fd_name fd_type]. by rewrite take_ge by lia. Qed.

Lemma deserialise_field_cases m1 rest :
  (exists f tl, rest = serialise_field f ++ tl /\ field_wire_ok f /\
     deserialise_field (m1 ++ rest) (zlen m1) = (Ok f, zlen m1 + zlen (serialise_field f))) \/
  (exists pos, deserialise_field (m1 ++ rest) (zlen m1) = (Throw CorruptionError, pos)).
Proof.
  destruct (take_u16_cases m1 rest) as [(n & tl & -> & Hn & Hr)|Hr].
  2: { right. eexists. unfold deserialise_field. by apply M_bind_throw. }
  destruct (decide (n + 1 <= zlen tl)) as [Hl|Hl].
  - left. destruct (split_front tl n) as (name & tl2 & -> & Hname); [lia|].
    rewrite length_app in Hl. destruct tl2 as [|b tl2]; [cbn in Hl; lia|].
    pose proof (tag_decode b) as [Ht Hb].
    set (f := mkFieldDef name (field_type_of_tag (byte_Z b))).
    assert (Hc : clip f = f) by (apply clip_id; cbn; lia).
    assert (He : serialise_field f = le_bytes 2 n ++ name ++ [b]).
    { rewrite serialise_field_eq, Hc. cbn [f fd_name fd_type]. by rewrite Hb, Hname. }
    exists f, tl2. split_and!.
    + by rewrite He, <- !app_assoc.
    + split; [cbn; lia|]. exact Ht.
    + erewrite (deserialise_field_run _ m1 f tl2); [by rewrite Hc| |done|exact Ht]. by rewrite He, <- !app_assoc.
  - right. eexists. unfold deserialise_field. rewrite (M_bind_ok _ _ _ _ _ Hr), (M_bind_ok get _ _ _ _ eq_refl).
    rewrite !length_app, length_le_bytes. by rewrite bool_decide_eq_true_2 by lia.
Qed.

Lemma deserialise_fields_cases m1 k rest :
  (exists fs tl, length fs = k /\ rest = concat (serialise_field <$> fs) ++ tl /\ Forall field_wire_ok fs /\
     exists pos, deserialise_fields (m1 ++ rest) k (zlen m1) = (Ok fs, pos)) \/
  (exists pos, deserialise_fields (m1 ++ rest) k (zlen m1) = (Throw CorruptionError, pos)).
Proof.
  revert m1 rest. induction k as [|k IH]; intros m1 rest.
  - left. exists [], rest. split_and!; [done..|]. by eexists.
  - cbn [deserialise_fields].
    destruct (deserialise_field_cases m1 rest) as [(f & tl & -> & Hf & Hr)|[pos Hr]].
    2: { right. eexists. by apply M_bind_throw. }
    specialize (IH (m1 ++ serialise_field f) tl). rewrite <- app_assoc, length_app, Nat2Z.inj_add in IH.
    rewrite (M_bind_ok _ _ _ _ _ Hr). destruct IH as [(fs & tl' & Hlen & -> & Hfs & pos & Hrs)|[pos Hrs]].
    + left. exists (f :: fs), tl'. split_and!; [cbn; lia|by cbn [fmap list_fmap concat]; rewrite <- app_assoc|by constructor|].
      rewrite (M_bind_ok _ _ _ _ _ Hrs). by eexists.
    + right. eexists. by apply M_bind_throw.
Qed.

Lemma deserialise_cases d :
  (exists s tl, d = serialise_schema s ++ tl /\ schema_wire_ok s /\ deserialise_schema d = Ok s) \/
  deserialise_schema d = Throw CorruptionError.
Proof.
  unfold deserialise_schema, deserialise_steps.
  destruct (take_u32_cases [] d) as [(v & tl & -> & Hv & Hr)|Hr]; cbn [app length] in Hr.
  2: { right. by erewrite M_bind_throw. }
  rewrite (M_bind_ok _ _ _ _ _ Hr).
  destruct (take_u32_cases (le_bytes 4 v) tl) as [(n & tl2 & -> & Hn & Hr2)|Hr2].
  2: { right. by erewrite M_bind_throw. }
  rewrite length_le_bytes in Hr2. change (Z.of_nat 0 + 4) with (Z.of_nat 4). rewrite (M_bind_ok _ _ _ _ _ Hr2).
  case_bool_decide as Hc; [by right|].
  destruct (deserialise_fields_cases (le_bytes 4 v ++ le_bytes 4 n) (Z.to_nat n) tl2)
    as [(fs & tl3 & Hlen & -> & Hfs & pos & Hrs)|[pos Hrs]];
    rewrite length_app, !length_le_bytes, <- app_assoc in Hrs;
    change (Z.of_nat (4 + 4)) with (Z.of_nat 4 + 4) in Hrs.
  - left. exists (mkSchema fs v), tl3. split_and!.
    + unfold serialise_schema. cbn [ver fields]. rewrite !append_u32_le, <- !app_assoc. do 3 f_equal.
      unfold u32. rewrite Z.mod_small by lia. lia.
    + split_and!; cbn [ver fields]; [lia..|done].
    + by rewrite (M_bind_ok _ _ _ _ _ Hrs).
  - right. by rewrite (M_bind_throw _ _ _ _ _ Hrs).
Qed.

(** ** Lemmas: migrating a row *)

Lemma zip_with_id {A B} (l : list A) (vs : list B) :
  length vs = length l -> zip_with (fun _ v => v) l vs = vs.
Proof. revert vs. induction l as [|x l IH]; intros [|v vs] H; try done. cbn. rewrite IH; [done|]. cbn in H. lia. Qed.

Lemma zip_with_zip_with {A B} (g h : A -> B -> B) (l : list A) (vs : list B) :
  zip_with g l (zip_with h l vs) = zip_with (fun a v => g a (h a v)) l vs.
Proof. revert vs. induction l as [|x l IH]; intros [|v vs]; [done..|]. cbn. by rewrite IH. Qed.

Lemma zip_with_replicate {A B} (g : A -> B -> B) (l : list A) (x : B) :
  zip_with g l (replicate (length l) x) = (fun a => g a x) <$> l.
Proof. induction l as [|a l IH]; [done|]. cbn. by rewrite IH. Qed.

(** Writing one slot is the pointwise update that changes only that slot. *)
Lemma insert_zip_with {A B} (g : A -> B -> B) (l : list A) (vs : list B) k a w :
  length vs = length l -> l !! k = Some a -> (forall v, g a v = w) ->
  (forall j b v, l !! j = Some b -> j <> k -> g b v = v) ->
  <[k := w]> vs = zip_with g l vs.
Proof.
  revert vs k. induction l as [|x l IH]; intros [|v vs] k Hlen Hk Hw Hother; try done.
  destruct k as [|k]; cbn.
  - injection Hk as ->. rewrite Hw. f_equal. rewrite <- (zip_with_id l vs) at 1 by (cbn in Hlen; lia).
    assert (Hg : forall b v, b ∈ l -> g b v = v).
    { intros b u (j & Hj)%list_elem_of_lookup. by apply (Hother (S j)). }
    clear -Hg. revert vs. induction l as [|b l IH]; intros [|u vs]; [done..|]. cbn.
    by rewrite Hg, IH by set_solver.
  - rewrite (Hother O x v) by done. f_equal. apply IH; [cbn in Hlen; lia|done|done|].
    intros j b u Hj Hne. apply (Hother (S j)); [done|lia].
Qed.

Section migrate_row.
Context (r : Row) (os ns : Schema).
Context (Hlen : length (row_fields r) = length (fields os)) (Hnd : NoDup (fd_name <$> fields ns)).

Lemma old_value_index name :
  (exists v, 0 <= field_index os name /\ index_ (row_fields r) (field_index os name) = Ok v /\
     old_value r os name = Some v) \/
  (field_index os name < 0 /\ old_value r os name = None).
Proof.
  pose proof (field_index_from_spec 0 (fields os) name) as Hs. unfold field_index, old_value.
  destruct (list_find _ (fields os)) as [[k f]|] eqn:E; rewrite Hs; [left|right; split; [lia|done]].
  apply list_find_Some in E as (Hk & _ & _). apply lookup_lt_Some in Hk.
  destruct (lookup_lt_is_Some_2 (row_fields r) k) as [v Hv]; [lia|].
  exists v. split_and!; [lia| |exact Hv]. cbn. by apply index_lookup.
Qed.

Lemma vec_set_ok {A} (i : Z) (v : A) (l : list A) : 0 <= i < zlen l -> vec_set i v l = Ok (<[Z.to_nat i := v]> l).
Proof. clear. intros. unfold vec_set. by bd. Qed.

Lemma copy_fields_run nfs pre vs :
  length vs = length nfs ->
  copy_fields r os nfs (zlen pre) (pre ++ vs) =
    Ok (pre ++ zip_with (fun nf v => default v (old_value r os (fd_name nf))) nfs vs).
Proof.
  clear Hnd. revert pre vs. induction nfs as [|nf nfs IH]; intros pre vs Hl.
  - destruct vs; [|done]. cbn. done.
  - destruct vs as [|v vs]; [done|]. cbn [copy_fields zip_with].
    destruct (old_value_index (fd_name nf)) as [(w & Hi & Hw & Ho)|[Hi Ho]]; rewrite Ho; cbn [default].
    + rewrite bool_decide_eq_true_2 by lia. rewrite Hw. cbn [mbind outcome_bind].
      rewrite vec_set_ok by (rewrite length_app; cbn [length]; lia). cbn [mbind outcome_bind].
      rewrite Nat2Z.id, insert_app_r_alt, Nat.sub_diag by lia. cbn [insert list_insert].
      specialize (IH (pre ++ [w]) vs). rewrite length_app, <- !app_assoc in IH. cbn [app length] in IH.
      rewrite Nat2Z.inj_add in IH. cbn in Hl. exact (IH ltac:(lia)).
    + rewrite bool_decide_eq_false_2 by lia. cbn [mbind outcome_bind].
      specialize (IH (pre ++ [v]) vs). rewrite length_app, <- !app_assoc in IH. cbn [app length] in IH.
      rewrite Nat2Z.inj_add in IH. cbn in Hl. exact (IH ltac:(lia)).
Qed.

Lemma new_index name :
  (exists k nf, field_index ns name = Z.of_nat k /\ fields ns !! k = Some nf /\ fd_name nf = name /\
     forall j b, fields ns !! j = Some b -> j <> k -> fd_name b <> name) \/
  (field_index ns name < 0 /\ forall nf, nf ∈ fields ns -> fd_name nf <> name).
Proof.
  pose proof (field_index_from_spec 0 (fields ns) name) as Hs. unfold field_index.
  destruct (list_find _ (fields ns)) as [[k f]|] eqn:E; rewrite Hs; [left|right].
  - apply list_find_Some in E as (Hk & Hf & _). exists k, f. split_and!; [lia|done|done|].
    intros j b Hj Hne Hb. apply Hne. eapply (NoDup_lookup _ j k name Hnd); rewrite list_lookup_fmap.
    + rewrite Hj. cbn. by rewrite Hb.
    + rewrite Hk. cbn. by rewrite Hf.
  - split; [lia|]. apply list_find_None in E. rewrite Forall_forall in E. done.
Qed.

Lemma zip_with_same (g : FieldDef -> FieldValue -> FieldValue) (l : list FieldDef) vs :
  length vs = length l -> (forall nf v, nf ∈ l -> g nf v = v) -> zip_with g l vs = vs.
Proof.
  clear. revert vs. induction l as [|x l IH]; intros [|v vs] Hl Hg; try done. cbn.
  rewrite Hg by set_solver. rewrite IH; [done|cbn in Hl; lia|]. intros; apply Hg; set_solver.
Qed.

Lemma apply_op_run op vs :
  length vs = length (fields ns) ->
  apply_op r os ns op vs = Ok (zip_with (fun nf v => op_value r os (fd_name nf) v op) (fields ns) vs).
Proof.
  intros Hl. unfold apply_op, op_value. destruct (me_op op).
  - destruct (new_index (me_field_name op)) as [(k & nf & -> & Hk & Hname & Hoth)|[Hi Hnone]].
    + pose proof (lookup_lt_Some _ _ _ Hk). bd. rewrite vec_set_ok, Nat2Z.id by lia. f_equal.
      eapply insert_zip_with; [done|exact Hk| |].
      * intros v. cbn. by rewrite bool_decide_eq_true_2.
      * intros j b v Hj Hne. cbn. rewrite bool_decide_eq_false_2; [done|]. intros He. by eapply Hoth.
    + rewrite bool_decide_eq_false_2 by lia. f_equal. symmetry. apply zip_with_same; [done|].
      intros nf v Hin. rewrite bool_decide_eq_false_2; [done|]. intros He. by eapply Hnone.
  - by rewrite zip_with_id.
  - destruct (new_index (me_new_name op)) as [(k & nf & -> & Hk & Hname & Hoth)|[Hi Hnone]].
    + pose proof (lookup_lt_Some _ _ _ Hk).
      destruct (old_value_index (me_field_name op)) as [(w & Hi & Hw & Ho)|[Hi Ho]]; rewrite Ho; cbn [default].
      * bd. rewrite Hw. cbn [mbind outcome_bind]. rewrite vec_set_ok, Nat2Z.id by lia. f_equal.
        eapply insert_zip_with; [done|exact Hk| |].
        -- intros v. cbn. by rewrite bool_decide_eq_true_2.
        -- intros j b v Hj Hne. cbn. rewrite bool_decide_eq_false_2; [done|]. intros He. by eapply Hoth.
      * rewrite bool_decide_eq_false_2 by lia. f_equal. symmetry. apply zip_with_same; [done|].
        intros b v _. by case_bool_decide.
    + rewrite bool_decide_eq_false_2 by lia. f_equal. symmetry. apply zip_with_same; [done|].
      intros nf v Hin. rewrite bool_decide_eq_false_2; [done|]. intros He. by eapply Hnone.
Qed.

Lemma apply_ops_run ops vs :
  length vs = length (fields ns) ->
  apply_ops r os ns ops vs =
    Ok (zip_with (fun nf v => foldl (op_value r os (fd_name nf)) v ops) (fields ns) vs).
Proof.
  revert vs. induction ops as [|op ops IH]; intros vs Hl; cbn [apply_ops foldl].
  - by rewrite zip_with_id.
  - rewrite apply_op_run by done. cbn [mbind outcome_bind].
    rewrite IH by (rewrite length_zip_with; lia). by rewrite zip_with_zip_with.
Qed.

Lemma apply_to_row_run m :
  apply_to_row r os ns m = Ok (mkRow (row_id r) ((fun nf => migrated_value r os m (fd_name nf)) <$> fields ns)).
Proof.
  unfold apply_to_row.
  pose proof (copy_fields_run (fields ns) [] (replicate (length (fields ns)) inhabitant)) as Hc.
  cbn [app length] in Hc. change (Z.of_nat 0) with 0 in Hc. rewrite Hc by (by rewrite length_replicate).
  cbn [mbind outcome_bind]. rewrite apply_ops_run by (rewrite length_zip_with, length_replicate; lia).
  cbn [mbind outcome_bind]. rewrite zip_with_zip_with, zip_with_replicate. done.
Qed.

(** A field of the migrated row has a value that fits it. *)
Lemma migrated_value_ok m nf :
  Forall2 value_ok (fields os) (row_fields r) -> well_typed_migration os ns m ->
  is_compatible os ns m = true -> nf ∈ fields ns -> value_ok nf (migrated_value r os m (fd_name nf)).
Proof.
  intros Hrow Hty Hcomp Hin. unfold well_typed_migration in Hty.
  rewrite Forall_forall in Hty. destruct (Hty nf Hin) as [Hshare Hops]. clear Hty. rewrite Forall_forall in Hshare. rewrite Forall_forall in Hops.
  assert (Hold : forall name v, old_value r os name = Some v ->
            exists fo, fo ∈ fields os /\ fd_name fo = name /\ value_ok fo v).
  { intros name v. unfold old_value. destruct (list_find _ (fields os)) as [[k f]|] eqn:E; [|done]. cbn. intros Hv.
    apply list_find_Some in E as (Hk & Hf & _). exists f. split_and!; [by eapply list_elem_of_lookup_2|done|].
    eapply Forall2_lookup_lr in Hrow; eauto. }
  assert (Hty : forall f g v, fd_type f = fd_type g -> value_ok f v -> value_ok g v).
  { intros f g v E. unfold value_ok. by rewrite E. }
  assert (Hstep : forall op v, op ∈ me_ops m ->
            value_ok nf v \/ adds (fd_name nf) op = true -> value_ok nf (op_value r os (fd_name nf) v op)).
  { intros op v Hop Hv. specialize (Hops op Hop). unfold op_typed in Hops. unfold op_value. unfold adds in Hv.
    destruct (me_op op) eqn:Eop.
    - destruct (decide (me_field_name op = fd_name nf)) as [He|He]; [rewrite (bool_decide_eq_true_2 _ He); by apply Hops|].
      rewrite (bool_decide_eq_false_2 _ He). destruct Hv as [Hv|Hv%bool_decide_eq_true]; [done|]. tauto.
    - destruct Hv as [Hv|Hv%bool_decide_eq_true]; [done|]. by destruct Hv.
    - destruct Hv as [Hv|Hv%bool_decide_eq_true]; [|by destruct Hv]. case_bool_decide as He; [|done].
      destruct (old_value r os (me_field_name op)) as [w|] eqn:E; [|done]. cbn.
      apply Hold in E as (fo & Hfo & Hname & Hw). eapply Hty, Hw. symmetry. specialize (Hops He). rewrite Forall_forall in Hops. by apply Hops. }
  assert (Hfold : forall ops v, (forall op, op ∈ ops -> op ∈ me_ops m) ->
            value_ok nf v \/ existsb (adds (fd_name nf)) ops = true ->
            value_ok nf (foldl (op_value r os (fd_name nf)) v ops)).
  { induction ops as [|op ops IH]; intros v Hsub Hv; cbn [foldl existsb] in *; [by destruct Hv|].
    apply IH; [set_solver|]. rewrite orb_true_iff in Hv.
    destruct Hv as [Hv|[Hv|Hv]]; [left; apply Hstep; [set_solver|by left]|left; apply Hstep; [set_solver|by right]|by right]. }
  apply Hfold; [done|].
  unfold is_compatible in Hcomp. rewrite forallb_forall in Hcomp.
  specialize (Hcomp nf ltac:(by apply list_elem_of_In)). apply orb_true_iff in Hcomp as [Hc|Hc]; [|by right].
  left. apply bool_decide_eq_true in Hc.
  destruct (old_value_index (fd_name nf)) as [(v & _ & _ & Ho)|[Hneg _]]; [|lia]. rewrite Ho. cbn.
  apply Hold in Ho as (fo & Hfo & Hname & Hv). eapply Hty, Hv. symmetry. by apply Hshare.
Qed.
End migrate_row.

(** ** Properties *)

Definition demo_old_schema : Schema := mkSchema [mkFieldDef (str "age") UINT32; mkFieldDef (str "name") STRING] 1.
Definition demo_new_schema : Schema :=
  mkSchema [mkFieldDef (str "name") STRING; mkFieldDef (str "years") UINT32; mkFieldDef (str "age") UINT32;
            mkFieldDef (str "ok") BOOL] 2.
Definition demo_migration : SchemaMigrate :=
  mkSchemaMigrate 1 2
    [mkMigrateEntry ADD (str "years") [] UINT32 (VUint32 0); mkMigrateEntry RENAME (str "age") (str "years") UINT32 (VUint32 0);
     mkMigrateEntry ADD (str "ok") [] BOOL (VBool true)].
Definition demo_old_row : Row := mkRow 7 [VUint32 41; VString (str "ada")].

(** C36: a schema written to the schema block is read back as it was, with names
    cut to 65535 bytes; a schema with no field or with more than 1024 is written
    by [serialise_schema] but refused by [deserialise_schema]. *)
Theorem schema_roundtrip s tl :
  0 <= ver s < 2 ^ 32 -> zlen (fields s) < 2 ^ 32 -> Forall (fun f => type_wire_ok (fd_type f)) (fields s) ->
  deserialise_schema (serialise_schema s ++ tl) =
    (if bool_decide (0 < zlen (fields s) <= 1024) then Ok (mkSchema (clip <$> fields s) (ver s))
     else Throw CorruptionError) /\
  (schema_wire_ok s -> deserialise_schema (serialise_schema s) = Ok s).
Proof.
  intros Hv Hn Ht. split; [by apply deserialise_serialise|]. intros (_ & Hc & Hw).
  pose proof (deserialise_serialise s [] Hv Hn Ht) as Hd. rewrite app_nil_r in Hd. rewrite Hd.
  rewrite bool_decide_eq_true_2 by done. destruct s as [fs v]; cbn [fields ver] in *. do 2 f_equal.
  rewrite <- (list_fmap_id fs) at 2. apply list_fmap_ext. intros i f Hf. apply clip_id.
  rewrite Forall_lookup in Hw. by destruct (Hw i f Hf).
Qed.

Lemma schema_roundtrip_witness :
  deserialise_schema (serialise_schema demo_new_schema) = Ok demo_new_schema.
Proof.
  apply (schema_roundtrip demo_new_schema []); [cbn; lia..| |]; [by repeat constructor|vm_decide].
Defined.

(** The schema block is checked: on any bytes, [deserialise_schema] either
    raises [CorruptionError] or returns a schema whose encoding is what it read;
    no read leaves the block. *)
Theorem deserialise_schema_total d :
  (exists s tl, d = serialise_schema s ++ tl /\ schema_wire_ok s /\ deserialise_schema d = Ok s) \/
  deserialise_schema d = Throw CorruptionError.
Proof. apply deserialise_cases. Qed.

(** C40: migrating a row. A compatible and well-typed migration turns a row of the
    old schema into a row of the new one with the same id, whose fields are the
    old fields of the same names overridden by the steps in order, and every value
    fits its field. *)
Theorem apply_to_row_migrates r os ns m :
  Forall2 value_ok (fields os) (row_fields r) -> NoDup (fd_name <$> fields ns) ->
  well_typed_migration os ns m -> is_compatible os ns m = true ->
  exists r', apply_to_row r os ns m = Ok r' /\ row_id r' = row_id r /\
    row_fields r' = (fun nf => migrated_value r os m (fd_name nf)) <$> fields ns /\
    Forall2 value_ok (fields ns) (row_fields r').
Proof.
  intros Hrow Hnd Hty Hcomp. pose proof (Forall2_length _ _ _ Hrow) as Hlen.
  eexists. split_and!; [by apply apply_to_row_run|done|done|]. cbn [row_fields].
  apply Forall2_fmap_r, Forall_Forall2_diag, Forall_forall. intros nf Hin.
  by apply (migrated_value_ok r os ns).
Qed.

Lemma apply_to_row_migrates_witness :
  exists r', apply_to_row demo_old_row demo_old_schema demo_new_schema demo_migration = Ok r' /\
    row_id r' = 7 /\ row_fields r' = [VString (str "ada"); VUint32 41; VUint32 41; VBool true].
Proof.
  destruct (apply_to_row_migrates demo_old_row demo_old_schema demo_new_schema demo_migration)
    as (r' & Hr & Hid & Hf & _).
  - constructor; [vm_decide|]. constructor; [vm_decide|constructor].
  - vm_decide.
  - vm_decide.
  - vm_compute. done.
  - exists r'. split_and!; [exact Hr|exact Hid|]. rewrite Hf. vm_compute. done.
Defined.
