(* ===== verification/Storage.v ===== *)
(** [StorageEngine] ([include/xdl/storage.h], [src/storage.cpp]): the database
    file.  Its layout is

      - bytes 0..19: the header [DBHeader];
      - bytes 20..23: the length of the schema block, then the block;
      - from [data_start_offset]: the pages, in slots of fixed size (Pager.v).

    The file itself is the interface of Posix.v.  The descriptor [fd_] is
    open or closed ([st_fd]); every call on a closed one fails. *)
From S2P Require Import Prelude Types Serialise Page Posix Compression Migrate.

(** ** Definitions *)

(** [struct DBHeader], 20 bytes packed. *)
Record DBHeader := mkDBHeader {
  h_magic : Z;
  h_version : Z;
  h_page_size : Z;
  h_page_count : Z;
  h_compression : Z;
  h_pad : bytes;
}.

Definition DBHEADER_SIZE : Z := 20.
Definition PAGEHEADER_SIZE : Z := 20.

(** The bytes of a packed structure and back. *)
Definition struct_u32 (bs : bytes) (off : nat) : Z := le_val (take 4 (drop off bs)).

Definition encode_DBHeader (h : DBHeader) : bytes :=
  le_bytes 4 (h_magic h) ++ le_bytes 4 (h_version h) ++ le_bytes 4 (h_page_size h) ++
  le_bytes 4 (h_page_count h) ++ le_bytes 1 (h_compression h) ++ h_pad h.

Definition decode_DBHeader (bs : bytes) : DBHeader :=
  mkDBHeader (struct_u32 bs 0) (struct_u32 bs 4) (struct_u32 bs 8) (struct_u32 bs 12)
    (le_val (take 1 (drop 16 bs))) (drop 17 bs).

(** The padding is written as zeros and never read. *)
Definition encode_PageHeader (h : PageHeader) : bytes :=
  le_bytes 4 (ph_page_id h) ++ le_bytes 4 (ph_compressed_size h) ++ le_bytes 4 (ph_uncompressed_size h) ++
  le_bytes 4 (ph_row_count h) ++ le_bytes 1 (ph_compression_type h) ++ [x00; x00; x00].

Definition decode_PageHeader (bs : bytes) : PageHeader :=
  mkPageHeader (struct_u32 bs 0) (struct_u32 bs 4) (struct_u32 bs 8) (struct_u32 bs 12)
    (le_val (take 1 (drop 16 bs))).

Record Storage (F : Type) := mkStorage {
  st_file : F;
  st_compression : CompressionType;
  st_fd : bool;
  st_open : bool;
}.
Arguments mkStorage {F}. Arguments st_file {F}. Arguments st_compression {F}.
Arguments st_fd {F}. Arguments st_open {F}.

Section storage.
Context {F : Type} `{FileSys F}.
#[local] Abbreviation Storage := (Storage F).

Definition st_set_file (f : F) (s : Storage) : Storage := mkStorage f (st_compression s) (st_fd s) (st_open s).
Definition st_set_fd (b : bool) (s : Storage) : Storage := mkStorage (st_file s) (st_compression s) b (st_open s).
Definition st_set_open (b : bool) (s : Storage) : Storage := mkStorage (st_file s) (st_compression s) (st_fd s) b.

(** A call on the open descriptor. *)
Definition on_fd {A} (m : M F A) : M Storage A :=
  s ← get;
  if st_fd s then zoom st_file st_set_file m else throw IOError.

Definition new_Storage (f : F) (compression : CompressionType) : Storage := mkStorage f compression false false.

Definition write_db_header (hdr : DBHeader) : M Storage unit :=
  on_fd (safe_pwrite (encode_DBHeader hdr) 0) ;;
  on_fd fsync.

Definition read_db_header : M Storage DBHeader :=
  bs ← on_fd (safe_pread DBHEADER_SIZE 0);
  let hdr := decode_DBHeader bs in
  if bool_decide (h_magic hdr <> XDL_MAGIC) then throw CorruptionError else mret hdr.

(** [StorageEngine::open] *)
Definition storage_open : M Storage unit :=
  s ← get;
  if st_open s then mret tt else
  (if f_exists (st_file s) then
     ok ← zoom st_file st_set_file (sys bool (sys_open false));
     modify (st_set_fd ok)
   else
     ok ← zoom st_file st_set_file (sys bool (sys_open true));
     modify (st_set_fd ok) ;;
     if negb ok then throw IOError else
     write_db_header (mkDBHeader XDL_MAGIC XDL_VERSION PAGE_SIZE 0
                        (compression_tag (st_compression s)) [x00; x00; x00])) ;;
  s ← get;
  if negb (st_fd s) then throw IOError else
  modify (st_set_open true).

(** [StorageEngine::close] *)
Definition storage_close : M Storage unit :=
  s ← get;
  if negb (st_open s) then mret tt else
  (if st_fd s then on_fd fsync ;; modify (st_set_fd false) else mret tt) ;;
  modify (st_set_open false).

(** [is_open], [default_compression], [~StorageEngine] *)
Definition storage_is_open (s : Storage) : bool := st_open s.
Definition default_compression (s : Storage) : CompressionType := st_compression s.
Definition storage_destroy : M Storage unit := s ← get; if st_open s then storage_close else mret tt.

(** The move constructor: the new engine, and what is left of the old one. *)
Definition storage_move (o : Storage) : Storage * Storage :=
  (mkStorage (st_file o) (st_compression o) (st_fd o) (st_open o), mkStorage (st_file o) (st_compression o) false false).

(** The move assignment, from another engine: [this] and the other one. *)
Definition storage_move_assign : M (Storage * Storage) unit :=
  s ← get;
  (if st_open s.1 then zoom fst (fun t s => (t, s.2)) storage_close else mret tt) ;;
  modify (fun s => storage_move s.2).

Definition read_page_raw (offset : Z) : M Storage (PageHeader * bytes) :=
  bs ← on_fd (safe_pread PAGEHEADER_SIZE offset);
  let header := decode_PageHeader bs in
  blob ← on_fd (safe_pread (ph_compressed_size header) (offset + PAGEHEADER_SIZE));
  mret (header, blob).

(** [StorageEngine::file_size] *)
Definition storage_file_size : M Storage Z :=
  s ← get;
  if negb (st_fd s) then throw IOError else
  match sys_fstat (st_file s) with
  | Some n => mret n
  | None => throw IOError
  end.

Definition append_page_raw (header : PageHeader) (blob : bytes) : M Storage Z :=
  offset ← storage_file_size;
  on_fd (safe_pwrite (encode_PageHeader header) offset) ;;
  on_fd (safe_pwrite blob (offset + PAGEHEADER_SIZE)) ;;
  mret offset.

Definition overwrite_page_raw (offset : Z) (header : PageHeader) (blob : bytes) : M Storage unit :=
  on_fd (safe_pwrite (encode_PageHeader header ++ blob) offset).

Definition write_schema (schema : Schema) : M Storage unit :=
  let data := serialise_schema schema in
  let len := u32 (zlen data) in
  on_fd (safe_pwrite (le_bytes 4 len) DBHEADER_SIZE) ;;
  if bool_decide (data <> []) then on_fd (safe_pwrite data (DBHEADER_SIZE + 4)) else mret tt.

Definition read_schema : M Storage Schema :=
  bs ← on_fd (safe_pread 4 DBHEADER_SIZE);
  let len := le_val bs in
  if bool_decide (len = 0 \/ len > 65536) then throw CorruptionError else
  data ← on_fd (safe_pread len (DBHEADER_SIZE + 4));
  lift (deserialise_schema data).

(** [StorageEngine::data_start_offset]: one [pread], not retried. *)
Definition data_start_offset (s : Storage) : Z :=
  let bs := if st_fd s then sys_pread 4 DBHEADER_SIZE (st_file s) else [] in
  if bool_decide (zlen bs <> 4) then DBHEADER_SIZE
  else
    let schema_len := le_val bs in
    if bool_decide (schema_len > 65536) then DBHEADER_SIZE else DBHEADER_SIZE + 4 + schema_len.
End storage.

(** *** Specification: well-formed headers and the layout of the file *)

Definition page_header_ok (h : PageHeader) : Prop :=
  0 <= ph_page_id h < 2 ^ 32 /\ 0 <= ph_compressed_size h < 2 ^ 32 /\ 0 <= ph_uncompressed_size h < 2 ^ 32 /\
  0 <= ph_row_count h < 2 ^ 32 /\ 0 <= ph_compression_type h < 256.

Definition db_header_ok (h : DBHeader) : Prop :=
  h_magic h = XDL_MAGIC /\ 0 <= h_version h < 2 ^ 32 /\ 0 <= h_page_size h < 2 ^ 32 /\
  0 <= h_page_count h < 2 ^ 32 /\ 0 <= h_compression h < 256 /\ length (h_pad h) = 3%nat.

(** The header and the schema block of a file. *)
Record db_layout (content : bytes) (hdr : DBHeader) (schema : Schema) : Prop := {
  lay_header : load content 0 DBHEADER_SIZE = Ok (encode_DBHeader hdr);
  lay_header_ok : db_header_ok hdr;
  lay_length : load content DBHEADER_SIZE 4 = Ok (le_bytes 4 (zlen (serialise_schema schema)));
  lay_schema : load content (DBHEADER_SIZE + 4) (zlen (serialise_schema schema)) = Ok (serialise_schema schema);
  lay_schema_ok : schema_wire_ok schema;
  lay_small : zlen (serialise_schema schema) <= 65536;
}.

(** Where the pages of such a file begin. *)
Definition data_start (schema : Schema) : Z := DBHEADER_SIZE + 4 + zlen (serialise_schema schema).

(** A page stored at an offset. *)
Definition stored_at (content : bytes) (offset : Z) (h : PageHeader) (blob : bytes) : Prop :=
  page_header_ok h /\ ph_compressed_size h = zlen blob /\
  load content offset (PAGEHEADER_SIZE + zlen blob) = Ok (encode_PageHeader h ++ blob).

(** A [pread] of the four length bytes is not cut short: what the unretried call
    of [data_start_offset] relies on. *)
Class PreadWhole (F : Type) `{FileSys F} := {
  pread_whole n off f :
    0 < n <= 4 -> 0 <= off -> off + n <= zlen (f_content f) -> zlen (sys_pread n off f) = n;
}.

#[export] Instance MemFile_pread_whole p b : PreadWhole (MemFile (Zpos p~0~0) b).
Proof.
  split. intros n off f Hn Ho Hl. cbn [sys_pread MemFile_sys]. unfold mf_get.
  rewrite length_take, length_drop. cbn [f_content MemFile_sys] in Hl. lia.
Qed.

(** ** Lemmas: packed structures *)

Lemma struct_u32_mid m1 v m2 off :
  off = length m1 -> 0 <= v < 2 ^ 32 -> struct_u32 (m1 ++ le_bytes 4 v ++ m2) off = v.
Proof.
  intros -> Hv. unfold struct_u32. rewrite drop_app_length, take_app_length' by (by rewrite length_le_bytes).
  rewrite le_val_le_bytes. apply Z.mod_small. lia.
Qed.

Lemma length_encode_PageHeader h : length (encode_PageHeader h) = 20%nat.
Proof. done. Qed.

Lemma length_encode_DBHeader h : length (h_pad h) = 3%nat -> length (encode_DBHeader h) = 20%nat.
Proof. intros Hp. unfold encode_DBHeader. rewrite !length_app, !length_le_bytes. lia. Qed.

Ltac struct_field m1 :=
  match goal with |- struct_u32 ?bs _ = ?v =>
    etransitivity; [|eapply (struct_u32_mid m1 v); [reflexivity|lia]]; f_equal; by rewrite <- ?app_assoc
  end.

Lemma decode_encode_PageHeader h : page_header_ok h -> decode_PageHeader (encode_PageHeader h) = h.
Proof.
  intros (H1 & H2 & H3 & H4 & H5). destruct h as [a b c d e]. cbn [ph_page_id ph_compressed_size
    ph_uncompressed_size ph_row_count ph_compression_type] in *.
  unfold decode_PageHeader, encode_PageHeader.
  cbn [ph_page_id ph_compressed_size ph_uncompressed_size ph_row_count ph_compression_type]. f_equal.
  - struct_field (@nil byte).
  - struct_field (le_bytes 4 a).
  - struct_field (le_bytes 4 a ++ le_bytes 4 b).
  - struct_field (le_bytes 4 a ++ le_bytes 4 b ++ le_bytes 4 c).
  - change (drop 16 _) with (le_bytes 1 e ++ [x00; x00; x00]). rewrite take_app_length' by (by rewrite length_le_bytes).
    rewrite le_val_le_bytes. apply Z.mod_small. lia.
Qed.

Lemma decode_encode_DBHeader h : db_header_ok h -> decode_DBHeader (encode_DBHeader h) = h.
Proof.
  intros (H0 & H2 & H3 & H4 & H5 & H6). destruct h as [a b c d e q]. cbn [h_magic h_version h_page_size
    h_page_count h_compression h_pad] in *. assert (H1 : 0 <= a < 2 ^ 32) by (subst a; vm_decide). clear H0.
  unfold decode_DBHeader, encode_DBHeader.
  cbn [h_magic h_version h_page_size h_page_count h_compression h_pad]. f_equal.
  - struct_field (@nil byte).
  - struct_field (le_bytes 4 a).
  - struct_field (le_bytes 4 a ++ le_bytes 4 b).
  - struct_field (le_bytes 4 a ++ le_bytes 4 b ++ le_bytes 4 c).
  - change (drop 16 _) with (le_bytes 1 e ++ q). rewrite take_app_length' by (by rewrite length_le_bytes).
    rewrite le_val_le_bytes. apply Z.mod_small. lia.
Qed.

(** *** The file operations *)

Section storage_runs.
Context {F : Type} `{FileLaws F} `{!FileReliable F}.
Implicit Types (s : Storage F).

(** The engine is open on an existing file. *)
Record storage_up s : Prop := {
  up_fd : st_fd s = true;
  up_open : st_open s = true;
  up_exists : f_exists (st_file s) = true;
}.

Lemma on_fd_ok {A} (m : M F A) s a f' :
  st_fd s = true -> m (st_file s) = (Ok a, f') -> on_fd m s = (Ok a, st_set_file f' s).
Proof. intros Hfd Hm. unfold on_fd. rewrite (M_bind_ok get _ _ _ _ eq_refl), Hfd. by apply zoom_ok. Qed.

Lemma st_set_file_id s : st_set_file (st_file s) s = s.
Proof. by destruct s. Qed.

Lemma on_fd_read count off bs s :
  storage_up s -> load (f_content (st_file s)) off count = Ok bs -> on_fd (safe_pread count off) s = (Ok bs, s).
Proof.
  intros Hs Hl. erewrite on_fd_ok; [by rewrite st_set_file_id|apply Hs|by apply safe_pread_ok].
Qed.

Lemma on_fd_write data off s :
  storage_up s -> 0 <= off -> data <> [] ->
  exists s', on_fd (safe_pwrite data off) s = (Ok tt, s') /\ storage_up s' /\
    st_compression s' = st_compression s /\ f_synced (st_file s') = f_synced (st_file s) /\
    f_content (st_file s') = file_write off data (f_content (st_file s)).
Proof.
  intros [Hfd Hop Hex] Ho Hne. destruct (safe_pwrite_ok data off (st_file s)) as (f' & Hr & Hsy & He & _ & Hc); [done..|].
  exists (st_set_file f' s). split_and!; [by apply on_fd_ok|by split|done|done|done].
Qed.

Lemma on_fd_fsync s :
  storage_up s ->
  exists s', on_fd fsync s = (Ok tt, s') /\ storage_up s' /\ st_compression s' = st_compression s /\
    f_content (st_file s') = f_content (st_file s) /\ f_synced (st_file s') = f_content (st_file s).
Proof.
  intros [Hfd Hop Hex]. destruct (fsync_run (st_file s)) as (f' & Hr & Hc & _ & He & Hsy).
  exists (st_set_file f' s). split_and!; [by apply on_fd_ok| |done|done|done]. split; [done|done|]. cbn. congruence.
Qed.

(** [write_db_header] replaces the header and makes the file durable. *)
Lemma write_db_header_run hdr s :
  storage_up s -> length (h_pad hdr) = 3%nat ->
  exists s', write_db_header hdr s = (Ok tt, s') /\ storage_up s' /\ st_compression s' = st_compression s /\
    f_content (st_file s') = file_write 0 (encode_DBHeader hdr) (f_content (st_file s)) /\
    f_synced (st_file s') = f_content (st_file s').
Proof.
  intros Hs Hp. unfold write_db_header.
  destruct (on_fd_write (encode_DBHeader hdr) 0 s) as (s1 & Hr1 & Hs1 & Hct1 & _ & Hc1); [done|lia| |].
  { intros Hn. apply (f_equal length) in Hn. by rewrite length_encode_DBHeader in Hn. }
  rewrite (M_bind_ok _ _ _ _ _ Hr1). destruct (on_fd_fsync s1 Hs1) as (s2 & Hr2 & Hs2 & Hct2 & Hc2 & Hsy2).
  exists s2. split_and!; [done|done|congruence|congruence|congruence].
Qed.

Lemma read_db_header_run hdr s :
  storage_up s -> db_header_ok hdr -> load (f_content (st_file s)) 0 DBHEADER_SIZE = Ok (encode_DBHeader hdr) ->
  read_db_header s = (Ok hdr, s).
Proof.
  intros Hs Hh Hl. unfold read_db_header. rewrite (M_bind_ok _ _ _ _ _ (on_fd_read _ _ _ _ Hs Hl)).
  rewrite decode_encode_DBHeader by done. cbv zeta. rewrite bool_decide_eq_false_2; [done|].
  destruct Hh as [-> _]. by intros [].
Qed.

(** A page is read back where it is stored. *)
Lemma read_page_raw_run s off h blob :
  storage_up s -> stored_at (f_content (st_file s)) off h blob -> read_page_raw off s = (Ok (h, blob), s).
Proof.
  intros Hs (Hh & Hc & Hl). unfold read_page_raw.
  assert (Hl' : load (f_content (st_file s)) off (zlen (encode_PageHeader h)) = Ok (encode_PageHeader h) /\
                load (f_content (st_file s)) (off + zlen (encode_PageHeader h)) (zlen blob) = Ok blob).
  { by eapply load_unsplit. }
  rewrite length_encode_PageHeader in Hl'. destruct Hl' as [Hl1 Hl2].
  rewrite (M_bind_ok _ _ _ _ _ (on_fd_read PAGEHEADER_SIZE off _ _ Hs Hl1)).
  cbv zeta. rewrite decode_encode_PageHeader, Hc by done.
  by rewrite (M_bind_ok _ _ _ _ _ (on_fd_read _ _ _ _ Hs Hl2)).
Qed.

Lemma overwrite_page_raw_run s off h blob :
  storage_up s -> 0 <= off -> page_header_ok h -> ph_compressed_size h = zlen blob ->
  exists s', overwrite_page_raw off h blob s = (Ok tt, s') /\ storage_up s' /\
    st_compression s' = st_compression s /\ f_synced (st_file s') = f_synced (st_file s) /\
    stored_at (f_content (st_file s')) off h blob /\
    f_content (st_file s') = file_write off (encode_PageHeader h ++ blob) (f_content (st_file s)).
Proof.
  intros Hs Ho Hh Hc. unfold overwrite_page_raw.
  destruct (on_fd_write (encode_PageHeader h ++ blob) off s) as (s' & Hr & Hs' & Hct & Hsy & Hcn); [done..|].
  exists s'. split_and!; try done. split_and!; [done..|]. rewrite Hcn.
  replace (PAGEHEADER_SIZE + zlen blob) with (zlen (encode_PageHeader h ++ blob)) by (by rewrite length_app, length_encode_PageHeader, Nat2Z.inj_add).
  by apply load_file_write.
Qed.

(** Other pages and the header area stay as they are. *)
Lemma stored_at_write content off h blob p bs :
  0 <= p -> off + PAGEHEADER_SIZE + zlen blob <= p \/ p + zlen bs <= off ->
  stored_at content off h blob -> stored_at (file_write p bs content) off h blob.
Proof.
  clear. intros Hp Hd (Hh & Hc & Hl). split_and!; [done..|]. apply load_file_write_other; [done|lia|done].
Qed.

Lemma layout_write content hdr schema p bs :
  data_start schema <= p -> db_layout content hdr schema -> db_layout (file_write p bs content) hdr schema.
Proof.
  clear. unfold data_start, DBHEADER_SIZE. intros Hp [H1 H2 H3 H4 H5 H6].
  split; try done; (apply load_file_write_other; [|unfold DBHEADER_SIZE|done]); lia.
Qed.

Lemma layout_header content hdr hdr' schema :
  db_header_ok hdr' -> db_layout content hdr schema ->
  db_layout (file_write 0 (encode_DBHeader hdr') content) hdr' schema.
Proof.
  clear. intros Hh [H1 H2 H3 H4 H5 H6].
  assert (Hlen : length (encode_DBHeader hdr') = 20%nat) by (apply length_encode_DBHeader, Hh).
  split; try done.
  - change DBHEADER_SIZE with (Z.of_nat 20). rewrite <- Hlen. by apply load_file_write.
  - apply load_file_write_other; [done|unfold DBHEADER_SIZE; lia|done].
  - apply load_file_write_other; [done|unfold DBHEADER_SIZE; lia|done].
Qed.

Lemma read_schema_run s hdr schema :
  storage_up s -> db_layout (f_content (st_file s)) hdr schema -> read_schema s = (Ok schema, s).
Proof.
  intros Hs [H1 H2 H3 H4 (Hv & Hc & Hw) H6]. unfold read_schema.
  rewrite (M_bind_ok _ _ _ _ _ (on_fd_read _ _ _ _ Hs H3)). cbv zeta.
  rewrite le_val_le_bytes, Z.mod_small by lia.
  assert (Hpos : 8 <= zlen (serialise_schema schema)).
  { unfold serialise_schema. rewrite !length_app. cbn [append_u32 length]. lia. }
  rewrite bool_decide_eq_false_2 by lia. rewrite (M_bind_ok _ _ _ _ _ (on_fd_read _ _ _ _ Hs H4)).
  unfold lift. f_equal. pose proof (deserialise_serialise schema []) as Hd. rewrite app_nil_r in Hd. rewrite Hd; [|done|lia|].
  - rewrite bool_decide_eq_true_2 by lia. destruct schema as [fs v]; cbn [fields ver] in *. do 2 f_equal.
    rewrite <- (list_fmap_id fs) at 2. apply list_fmap_ext. intros i f Hf. apply clip_id.
    rewrite Forall_lookup in Hw. by destruct (Hw i f Hf).
  - eapply Forall_impl; [exact Hw|]. intros f [_ Ht]. exact Ht.
Qed.

Lemma data_start_run `{!PreadWhole F} s hdr schema :
  storage_up s -> db_layout (f_content (st_file s)) hdr schema -> data_start_offset s = data_start schema.
Proof.
  intros Hs [H1 H2 H3 H4 H5 H6]. unfold data_start_offset. rewrite (up_fd _ Hs).
  pose proof H3 as (Hl1 & Hl2 & Hl3 & _)%load_lookup.
  pose proof (pread_whole 4 DBHEADER_SIZE (st_file s) ltac:(lia) Hl1 Hl3) as Hw.
  destruct (sys_pread_load 4 DBHEADER_SIZE (st_file s)) as [Hld _]; [done|by intros Hn; rewrite Hn in Hw|].
  rewrite Hw, H3 in Hld. apply (inj Ok) in Hld. rewrite <- Hld.
  rewrite length_le_bytes, bool_decide_eq_false_2 by lia. cbv zeta.
  rewrite le_val_le_bytes, Z.mod_small by lia. by rewrite bool_decide_eq_false_2 by lia.
Qed.

(** [write_schema] lays the schema out behind the header. *)
Lemma write_schema_bytes s hdr schema :
  let d := serialise_schema schema in
  storage_up s -> load (f_content (st_file s)) 0 DBHEADER_SIZE = Ok (encode_DBHeader hdr) -> zlen d < 2 ^ 32 ->
  exists s', write_schema schema s = (Ok tt, s') /\ storage_up s' /\ st_compression s' = st_compression s /\
    load (f_content (st_file s')) 0 DBHEADER_SIZE = Ok (encode_DBHeader hdr) /\
    load (f_content (st_file s')) DBHEADER_SIZE 4 = Ok (le_bytes 4 (zlen d)) /\
    load (f_content (st_file s')) (DBHEADER_SIZE + 4) (zlen d) = Ok d /\
    zlen (f_content (st_file s')) = Z.max (zlen (f_content (st_file s))) (data_start schema).
Proof.
  intros d Hs Hl Hsm. unfold write_schema. fold d. cbv zeta.
  assert (Hd : d <> []) by (by unfold d, serialise_schema).
  unfold u32. rewrite Z.mod_small by lia.
  destruct (on_fd_write (le_bytes 4 (zlen d)) DBHEADER_SIZE s) as (s1 & Hr1 & Hs1 & Hct1 & _ & Hc1); [done..|].
  rewrite (M_bind_ok _ _ _ _ _ Hr1), (bool_decide_eq_true_2 (d <> [])) by done.
  destruct (on_fd_write d (DBHEADER_SIZE + 4) s1) as (s2 & Hr2 & Hs2 & Hct2 & _ & Hc2); [done..|].
  exists s2. rewrite Hc2, Hc1. split_and!; [done|done|congruence|..].
  - do 2 (apply load_file_write_other; [done|unfold DBHEADER_SIZE; lia|]). done.
  - apply load_file_write_other; [done|unfold DBHEADER_SIZE; lia|]. by apply (load_file_write DBHEADER_SIZE (le_bytes 4 (zlen d))).
  - by apply load_file_write.
  - rewrite !length_file_write, length_le_bytes by (rewrite ?length_file_write, ?length_le_bytes; unfold DBHEADER_SIZE; lia).
    unfold data_start, DBHEADER_SIZE, d. lia.
Qed.

Lemma write_schema_run s hdr schema :
  storage_up s -> db_header_ok hdr -> load (f_content (st_file s)) 0 DBHEADER_SIZE = Ok (encode_DBHeader hdr) ->
  schema_wire_ok schema -> zlen (serialise_schema schema) <= 65536 ->
  exists s', write_schema schema s = (Ok tt, s') /\ storage_up s' /\ st_compression s' = st_compression s /\
    db_layout (f_content (st_file s')) hdr schema /\
    zlen (f_content (st_file s')) = Z.max (zlen (f_content (st_file s))) (data_start schema).
Proof.
  intros Hs Hh Hl Hw Hsm.
  destruct (write_schema_bytes s hdr schema) as (s' & Hr & Hs' & Hct & H1 & H2 & H3 & H4); [done|done|lia|].
  exists s'. by split_and!.
Qed.

(** Opening. *)
Definition fresh_header (ct : CompressionType) : DBHeader :=
  mkDBHeader XDL_MAGIC XDL_VERSION PAGE_SIZE 0 (compression_tag ct) [x00; x00; x00].

Lemma fresh_header_ok ct : db_header_ok (fresh_header ct).
Proof. unfold db_header_ok, fresh_header. cbn. destruct ct; cbn; split_and!; done. Qed.

Lemma sys_open_ok creat f :
  creat = true \/ f_exists f = true ->
  exists f', sys bool (sys_open creat) f = (Ok true, f') /\ f_exists f' = true /\
    f_content f' = f_content f /\ f_synced f' = f_synced f.
Proof.
  intros Hc. pose proof (open_ok creat f Hc) as Hok. unfold sys.
  destruct (sys_open creat f) as [ok f'] eqn:E. cbn in Hok. subst ok.
  apply open_law in E as (Hs & _ & He & Hcn & _). by exists f'.
Qed.

Lemma storage_open_fresh f ct :
  f_exists f = false ->
  exists s, storage_open (new_Storage f ct) = (Ok tt, s) /\ storage_up s /\ st_compression s = ct /\
    f_content (st_file s) = encode_DBHeader (fresh_header ct) /\ f_synced (st_file s) = f_content (st_file s).
Proof.
  intros He. unfold storage_open, new_Storage. rewrite (M_bind_ok get _ _ _ _ eq_refl).
  cbn [st_open st_file st_compression]. rewrite He.
  destruct (sys_open_ok true f (or_introl eq_refl)) as (f1 & Hr1 & He1 & Hc1 & Hs1).
  set (s1 := mkStorage f1 ct true false).
  assert (Hw : exists s2, write_db_header (fresh_header ct) s1 = (Ok tt, s2) /\
    f_content (st_file s2) = encode_DBHeader (fresh_header ct) /\ f_synced (st_file s2) = f_content (st_file s2) /\
    st_fd s2 = true /\ st_compression s2 = ct /\ f_exists (st_file s2) = true).
  { unfold write_db_header.
    destruct (safe_pwrite_ok (encode_DBHeader (fresh_header ct)) 0 f1) as (f2 & Hr2 & _ & He2 & _ & Hc2); [done..|].
    rewrite (M_bind_ok _ _ _ _ _ (on_fd_ok _ s1 _ f2 eq_refl Hr2)).
    destruct (fsync_run f2) as (f3 & Hr3 & Hc3 & _ & He3 & Hs3).
    rewrite (on_fd_ok _ (st_set_file f2 s1) _ f3 eq_refl Hr3). eexists. split; [reflexivity|].
    cbn. split_and!; try congruence.
    rewrite Hc3, Hc2, Hc1, (absent_law f He). exact (file_write_end _ []). }
  destruct Hw as (s2 & Hw & Hc2 & Hs2 & Hfd2 & Hct2 & He2).
  rewrite (M_bind_ok _ _ _ tt s2).
  2: { rewrite (M_bind_ok _ _ _ _ _ (zoom_ok st_file _ _ (mkStorage f ct false false) _ _ Hr1)).
       rewrite (M_bind_ok (modify _) _ _ _ _ eq_refl). cbn [negb]. exact Hw. }
  rewrite (M_bind_ok get _ _ _ _ eq_refl), Hfd2. cbn [negb]. eexists. split; [reflexivity|].
  split_and!; [|done..]. split; done.
Qed.

Lemma storage_open_existing f ct :
  f_exists f = true ->
  exists s, storage_open (new_Storage f ct) = (Ok tt, s) /\ storage_up s /\ st_compression s = ct /\
    f_content (st_file s) = f_content f /\ f_synced (st_file s) = f_synced f.
Proof.
  intros He. unfold storage_open, new_Storage. rewrite (M_bind_ok get _ _ _ _ eq_refl).
  cbn [st_open st_file st_compression]. rewrite He.
  destruct (sys_open_ok false f (or_intror He)) as (f1 & Hr1 & He1 & Hc1 & Hs1).
  rewrite (M_bind_ok _ _ _ tt (mkStorage f1 ct true false)).
  2: { by rewrite (M_bind_ok _ _ _ _ _ (zoom_ok st_file _ _ (mkStorage f ct false false) _ _ Hr1)). }
  rewrite (M_bind_ok get _ _ _ _ eq_refl). cbn [st_fd negb]. eexists. split; [reflexivity|].
  split_and!; [|done..]. split; done.
Qed.

(** Closing makes the content durable. *)
Lemma storage_close_run s :
  storage_up s ->
  exists s', storage_close s = (Ok tt, s') /\ st_open s' = false /\ st_fd s' = false /\
    f_exists (st_file s') = true /\ f_content (st_file s') = f_content (st_file s) /\
    f_synced (st_file s') = f_content (st_file s).
Proof.
  intros Hs. unfold storage_close. rewrite (M_bind_ok get _ _ _ _ eq_refl), (up_open _ Hs), (up_fd _ Hs). cbn [negb].
  destruct (on_fd_fsync s Hs) as (s1 & Hr1 & Hs1 & _ & Hc1 & Hsy1).
  rewrite (M_bind_ok _ _ _ tt (st_set_fd false s1)) by (by rewrite (M_bind_ok _ _ _ _ _ Hr1)).
  eexists. split; [reflexivity|]. cbn. split_and!; try done. apply Hs1.
Qed.

(** A move assignment between two open engines: the file of the first is synced and
    closed, the first has the file of the second, and destroying the second does
    nothing more: each descriptor is closed once. *)
Lemma storage_move_assign_run s o :
  storage_up s -> storage_up o ->
  exists s', storage_close s = (Ok tt, s') /\ f_synced (st_file s') = f_content (st_file s) /\
    storage_move_assign (s, o) = (Ok tt, (o, mkStorage (st_file o) (st_compression o) false false)) /\
    storage_destroy (mkStorage (st_file o) (st_compression o) false false) = (Ok tt, mkStorage (st_file o) (st_compression o) false false).
Proof.
  intros Hs Ho. destruct (storage_close_run s Hs) as (s' & Hr & _ & _ & _ & _ & Hsy). exists s'. split_and!; [done|done| |done].
  unfold storage_move_assign. rewrite (M_bind_ok get _ _ _ _ eq_refl). cbn [fst]. rewrite (up_open _ Hs).
  rewrite (M_bind_ok _ _ _ tt (s', o)) by (exact (zoom_ok fst (fun (t : Storage F) (s : Storage F * Storage F) => (t, s.2)) _ (s, o) tt s' Hr)). unfold modify, storage_move. cbn [snd]. by destruct o.
Qed.
End storage_runs.

(** ** Properties *)

(** A new database file. [open] creates it with the header of an empty
    database, [write_schema] adds the schema, and after a [close], which makes all
    of it durable, a second [open] reads back the header and the schema and finds
    where the pages start. *)
Theorem storage_create_reopen {F} `{FileLaws F} `{!FileReliable F} `{!PreadWhole F} (f : F) ct ct' schema :
  f_exists f = false -> schema_wire_ok schema -> zlen (serialise_schema schema) <= 65536 ->
  exists s1 s2 s3 s4,
    storage_open (new_Storage f ct) = (Ok tt, s1) /\ write_schema schema s1 = (Ok tt, s2) /\
    storage_close s2 = (Ok tt, s3) /\ f_synced (st_file s3) = f_content (st_file s3) /\
    storage_open (new_Storage (st_file s3) ct') = (Ok tt, s4) /\
    read_db_header s4 = (Ok (fresh_header ct), s4) /\ read_schema s4 = (Ok schema, s4) /\
    data_start_offset s4 = data_start schema.
Proof.
  intros He Hw Hsm. destruct (storage_open_fresh f ct He) as (s1 & Hr1 & Hu1 & _ & Hc1 & _).
  pose proof (fresh_header_ok ct) as Hh.
  destruct (write_schema_run s1 (fresh_header ct) schema) as (s2 & Hr2 & Hu2 & _ & Hlay & _); [done|done| |done..|].
  { rewrite Hc1. exact (load_all (encode_DBHeader (fresh_header ct))). }
  destruct (storage_close_run s2 Hu2) as (s3 & Hr3 & _ & _ & He3 & Hc3 & Hs3).
  destruct (storage_open_existing (st_file s3) ct' He3) as (s4 & Hr4 & Hu4 & _ & Hc4 & _).
  assert (Hlay4 : db_layout (f_content (st_file s4)) (fresh_header ct) schema) by (by rewrite Hc4, Hc3).
  exists s1, s2, s3, s4. split_and!; [done..|congruence|done| | |].
  - by eapply read_db_header_run, Hlay4.
  - by eapply read_schema_run.
  - by eapply data_start_run.
Qed.

Lemma storage_create_reopen_witness :
  exists s1 s2 s3 s4 : Storage (MemFile 8 true),
    storage_open (new_Storage (mkMemFile false [] [] 0) CLZ4) = (Ok tt, s1) /\
    write_schema demo_old_schema s1 = (Ok tt, s2) /\
    storage_close s2 = (Ok tt, s3) /\ f_synced (st_file s3) = f_content (st_file s3) /\
    storage_open (new_Storage (st_file s3) CNone) = (Ok tt, s4) /\
    read_db_header s4 = (Ok (fresh_header CLZ4), s4) /\ read_schema s4 = (Ok demo_old_schema, s4) /\
    data_start_offset s4 = data_start demo_old_schema.
Proof.
  apply (storage_create_reopen (mkMemFile false [] [] 0 : MemFile 8 true) CLZ4 CNone demo_old_schema); vm_decide.
Defined.

(** A schema block longer than 65536 bytes is written but cannot be used: it is
    never read back, and the pages are placed over it, right behind the header. *)
Theorem long_schema_unreadable {F} `{FileLaws F} `{!FileReliable F} `{!PreadWhole F} (s : Storage F) hdr schema :
  storage_up s -> load (f_content (st_file s)) 0 DBHEADER_SIZE = Ok (encode_DBHeader hdr) ->
  65536 < zlen (serialise_schema schema) < 2 ^ 32 ->
  exists s', write_schema schema s = (Ok tt, s') /\
    read_schema s' = (Throw CorruptionError, s') /\ data_start_offset s' = DBHEADER_SIZE.
Proof.
  intros Hs Hl Hlen. destruct (write_schema_bytes s hdr schema) as (s' & Hr & Hs' & _ & _ & H2 & H3 & _); [done|done|lia|].
  exists s'. split; [done|]. split.
  - unfold read_schema. rewrite (M_bind_ok _ _ _ _ _ (on_fd_read _ _ _ _ Hs' H2)). cbv zeta.
    rewrite le_val_le_bytes, Z.mod_small by lia. by rewrite bool_decide_eq_true_2 by lia.
  - unfold data_start_offset. rewrite (up_fd _ Hs').
    pose proof H2 as (Hl1 & Hl2 & Hl3 & _)%load_lookup.
    pose proof (pread_whole 4 DBHEADER_SIZE (st_file s') ltac:(lia) Hl1 Hl3) as Hw.
    destruct (sys_pread_load 4 DBHEADER_SIZE (st_file s')) as [Hld _]; [done|by intros Hn; rewrite Hn in Hw|].
    rewrite Hw, H2 in Hld. apply (inj Ok) in Hld. rewrite <- Hld.
    rewrite length_le_bytes, bool_decide_eq_false_2 by lia. cbv zeta.
    rewrite le_val_le_bytes, Z.mod_small by lia. by rewrite bool_decide_eq_true_2 by lia.
Qed.

Definition demo_storage : Storage (MemFile 8 true) :=
  (storage_open (new_Storage (mkMemFile false [] [] 0) CLZ4)).2.
Definition demo_long_schema : Schema := mkSchema [mkFieldDef (replicate (Z.to_nat 65535) x61) UINT32] 1.

Lemma long_schema_unreadable_witness :
  exists s', write_schema demo_long_schema demo_storage = (Ok tt, s') /\
    read_schema s' = (Throw CorruptionError, s') /\ data_start_offset s' = DBHEADER_SIZE.
Proof.
  apply (long_schema_unreadable demo_storage (fresh_header CLZ4)); [split; vm_decide|vm_compute; reflexivity|vm_decide].
Defined.
