(* ===== verification/Cache.v ===== *)
(** [PageCache], the LRU buffer pool ([include/xdl/cache.h], [src/cache.cpp]).

    Pages are shared with the readers through [shared_ptr], so the cache is
    modelled over a heap: [heap] maps locations to pages, a [shared_ptr<Page>] or
    [Page*] is a location, and a page stays in the heap when the cache drops it
    (whoever still holds it keeps it alive).  [lru_] is the list of locations,
    front first, and [map_] finds the list node of a page id; a node is named by
    the location it holds.

    The eviction callback works on a state [E] of its own (the Pager's storage) and
    may throw; the mutex, held for the whole of every method, makes each
    one a step. *)
From S2P Require Import Prelude Page.

(** ** Definitions *)

Record PageCache := mkPageCache {
  capacity_ : Z;
  heap : gmap Z Page;
  next_loc : Z;
  lru_ : list Z;
  map_ : gmap Z Z;
}.

(** [PageCache::PageCache]: a capacity of 0 becomes 1. *)
Definition new_PageCache (capacity : Z) : PageCache :=
  mkPageCache (if bool_decide (capacity = 0) then 1 else capacity) ∅ 0 [] ∅.

Definition set_heap (h : gmap Z Page) (c : PageCache) : PageCache :=
  mkPageCache (capacity_ c) h (next_loc c) (lru_ c) (map_ c).
Definition set_lru (l : list Z) (c : PageCache) : PageCache :=
  mkPageCache (capacity_ c) (heap c) (next_loc c) l (map_ c).
Definition set_map (m : gmap Z Z) (c : PageCache) : PageCache :=
  mkPageCache (capacity_ c) (heap c) (next_loc c) (lru_ c) m.

(** [make_shared<Page>(p)] *)
Definition alloc_page (p : Page) (c : PageCache) : Z * PageCache :=
  (next_loc c, mkPageCache (capacity_ c) (<[next_loc c := p]> (heap c)) (next_loc c + 1) (lru_ c) (map_ c)).

(** Follow a pointer. *)
Definition deref (c : PageCache) (l : Z) : outcome Page :=
  match heap c !! l with Some p => Ok p | None => UB end.

(** [lru_.erase(node)], and [lru_.splice(lru_.begin(), lru_, node)] *)
Definition lru_erase (l : Z) (ls : list Z) : list Z := filter (fun x => x <> l) ls.
(** A node gets another pointer. *)
Definition lru_replace (l l' : Z) (ls : list Z) : list Z := (fun x => if bool_decide (x = l) then l' else x) <$> ls.
Definition splice_front (l : Z) (c : PageCache) : PageCache := set_lru (l :: lru_erase l (lru_ c)) c.

Section cache.
Context {E : Type} (on_evict : option (Page -> M E Page)).
#[local] Abbreviation St := (PageCache * E)%type.

Definition with_cache {A} (m : M PageCache A) : M St A := zoom fst (fun c s => (c, s.2)) m.
Definition with_env {A} (m : M E A) : M St A := zoom snd (fun e s => (s.1, e)) m.
Definition the_cache : M St PageCache := s ← get; mret s.1.
Definition change (f : PageCache -> PageCache) : M St unit := modify (fun s => (f s.1, s.2)).

Definition make_shared (p : Page) : M St Z :=
  with_cache (fun c => let '(l, c') := alloc_page p c in (Ok l, c')).

Definition deref_page (l : Z) : M St Page := c ← the_cache; lift (deref c l).

(** A dirty page is handed to the callback, if there is one. *)
Definition call_evict (l : Z) : M St unit :=
  p ← deref_page l;
  match on_evict with
  | Some cb =>
      if p_dirty p then
        p' ← with_env (cb p);
        change (fun c => set_heap (<[l := p']> (heap c)) c)
      else mret tt
  | None => mret tt
  end.

(** The lookups: the pointer to the resident page, moved to the front. *)
Definition cache_touch (page_id : Z) : M St (option Z) :=
  c ← the_cache;
  match map_ c !! page_id with
  | None => mret None
  | Some l => change (splice_front l) ;; mret (Some l)
  end.

(** [get]: a copy of the page. *)
Definition cache_get (page_id : Z) : M St (option Page) :=
  o ← cache_touch page_id;
  match o with
  | None => mret None
  | Some l => p ← deref_page l; mret (Some p)
  end.

Definition get_shared (page_id : Z) : M St (option Z) := cache_touch page_id.
Definition get_mut (page_id : Z) : M St (option Z) := cache_touch page_id.

(** A write through a [Page&]. *)
Definition write_ref (l : Z) (f : Page -> Page) : M St unit :=
  p ← deref_page l;
  change (fun c => set_heap (<[l := f p]> (heap c)) c).

Definition evict_lru : M St unit :=
  c ← the_cache;
  match last (lru_ c) with
  | None => mret tt
  | Some victim =>
      call_evict victim ;;
      p ← deref_page victim;
      change (fun c => set_map (delete (p_id p) (map_ c)) c) ;;
      change (fun c => set_lru (removelast (lru_ c)) c)
  end.

Definition cache_put (page : Page) : M St unit :=
  let pid := p_id page in
  c ← the_cache;
  match map_ c !! pid with
  | Some l =>
      call_evict l ;;
      l' ← make_shared page;
      change (fun c => set_lru (lru_replace l l' (lru_ c)) c) ;;
      change (fun c => set_map (<[pid := l']> (map_ c)) c) ;;
      change (splice_front l')
  | None =>
      (if bool_decide (zlen (lru_ c) >= capacity_ c) then evict_lru else mret tt) ;;
      l' ← make_shared page;
      change (fun c => set_lru (l' :: lru_ c) c) ;;
      change (fun c => set_map (<[pid := l']> (map_ c)) c)
  end.

Definition put_shared (l : Z) : M St Z :=
  p ← deref_page l;
  let pid := p_id p in
  c ← the_cache;
  match map_ c !! pid with
  | Some l' => change (splice_front l') ;; mret l'
  | None =>
      (if bool_decide (zlen (lru_ c) >= capacity_ c) then evict_lru else mret tt) ;;
      change (fun c => set_lru (l :: lru_ c) c) ;;
      change (fun c => set_map (<[pid := l]> (map_ c)) c) ;;
      mret l
  end.

Definition cache_evict (page_id : Z) : M St unit :=
  c ← the_cache;
  match map_ c !! page_id with
  | None => mret tt
  | Some l =>
      call_evict l ;;
      change (fun c => set_lru (lru_erase l (lru_ c)) c) ;;
      change (fun c => set_map (delete page_id (map_ c)) c)
  end.

(** [PageCache::flush_all] *)
Definition cache_flush_all : M St unit :=
  c ← the_cache;
  mfor call_evict (lru_ c) ;;
  change (set_lru []) ;;
  change (set_map ∅).

Definition cache_size : M St Z := c ← the_cache; mret (Z.of_nat (size (map_ c))).

End cache.

(** [for_each_dirty(fn)]: [fn] works on captured variables [B], in the order of
    the map's iteration. *)
Definition for_each_dirty {B} (fn : Page -> B -> B) (b : B) (c : PageCache) : outcome B :=
  foldl (fun acc kv => b ← acc; p ← deref c kv.2; Ok (if p_dirty p then fn p b else b)) (Ok b) (map_to_list (map_ c)).

(** The ids of the resident pages that are dirty, most recently used first. *)
Definition dirty_pages (c : PageCache) : list Z :=
  omap (fun l => p ← heap c !! l; if p_dirty p then Some (p_id p) else None) (lru_ c).

(** *** The specification: a list of pages, most recently used first *)

Definition lru_find (pid : Z) (l : list Page) : option Page := snd <$> list_find (fun p => p_id p = pid) l.
Definition lru_without (pid : Z) (l : list Page) : list Page := filter (fun p => p_id p <> pid) l.

Section spec.
Context {E : Type} (on_evict : option (Page -> M E Page)) (cap : Z).
#[local] Abbreviation Sp := (list Page * E)%type.

(** A page leaves the pool: a dirty one goes to the callback. *)
Definition spec_release (p : Page) : M E Page :=
  match on_evict with
  | Some cb => if p_dirty p then cb p else mret p
  | None => mret p
  end.

(** Release a page; on success the list becomes [ok p']. *)
Definition release_into (p : Page) (ok : Page -> list Page) : M Sp unit := fun '(l, e) =>
  match spec_release p e with
  | (Ok p', e') => (Ok tt, (ok p', e'))
  | (Throw x, e') => (Throw x, (l, e'))
  | (UB, e') => (UB, (l, e'))
  end.

(** Make room: the last page of a full pool leaves. *)
Definition spec_room : M Sp unit := fun '(l, e) =>
  if bool_decide (zlen l >= cap) then
    match last l with
    | None => (Ok tt, (l, e))
    | Some p => release_into p (fun _ => removelast l) (l, e)
    end
  else (Ok tt, (l, e)).

Fixpoint spec_flush (before after : list Page) (e : E) : outcome unit * Sp :=
  match after with
  | [] => (Ok tt, ([], e))
  | p :: after =>
      match spec_release p e with
      | (Ok p', e') => spec_flush (before ++ [p']) after e'
      | (Throw x, e') => (Throw x, (before ++ p :: after, e'))
      | (UB, e') => (UB, (before ++ p :: after, e'))
      end
  end.

Inductive cache_op :=
| CGet (pid : Z)
| CShared (pid : Z)
| CMutate (pid : Z) (f : Page -> Page)
| CPut (p : Page)
| CPutShared (p : Page)
| CEvict (pid : Z)
| CFlushAll.

(** What each operation does to the list, and the page it shows the caller. *)
Definition spec_op (o : cache_op) : M Sp (option Page) := fun '(l, e) =>
  match o with
  | CGet pid | CShared pid =>
      match lru_find pid l with
      | Some p => (Ok (Some p), (p :: lru_without pid l, e))
      | None => (Ok None, (l, e))
      end
  | CMutate pid f =>
      match lru_find pid l with
      | Some p => (Ok (Some (f p)), (f p :: lru_without pid l, e))
      | None => (Ok None, (l, e))
      end
  | CPut p =>
      match lru_find (p_id p) l with
      | Some q => (release_into q (fun _ => p :: lru_without (p_id p) l) ;; mret None) (l, e)
      | None => (spec_room ;; modify (fun s => (p :: s.1, s.2)) ;; mret None) (l, e)
      end
  | CPutShared p =>
      match lru_find (p_id p) l with
      | Some q => (Ok (Some q), (q :: lru_without (p_id p) l, e))
      | None => (spec_room ;; modify (fun s => (p :: s.1, s.2)) ;; mret (Some p)) (l, e)
      end
  | CEvict pid =>
      match lru_find pid l with
      | Some q => (release_into q (fun _ => lru_without pid l) ;; mret None) (l, e)
      | None => (Ok None, (l, e))
      end
  | CFlushAll => let '(o, s) := spec_flush [] l e in (_ ← o; Ok None, s)
  end.

(** The same operations on the cache. *)
Definition see (o : option Z) : M (PageCache * E) (option Page) :=
  match o with Some l => p ← deref_page l; mret (Some p) | None => mret None end.

Definition cache_run (o : cache_op) : M (PageCache * E) (option Page) :=
  match o with
  | CGet pid => cache_get pid
  | CShared pid => r ← get_shared pid; see r
  | CMutate pid f =>
      r ← get_mut pid;
      match r with Some l => write_ref l f | None => mret tt end ;;
      see r
  | CPut p => cache_put on_evict p ;; mret None
  | CPutShared p => l ← make_shared p; l' ← put_shared on_evict l; see (Some l')
  | CEvict pid => cache_evict on_evict pid ;; mret None
  | CFlushAll => cache_flush_all on_evict ;; mret None
  end.
End spec.

(** A sequence of operations, an exception not ending it. *)
Fixpoint trace {S A O} (run : O -> M S A) (ops : list O) (s : S) : list (outcome A) * S :=
  match ops with
  | [] => ([], s)
  | o :: ops =>
      let '(r, s') := run o s in
      let '(rs, s'') := trace run ops s' in (r :: rs, s'')
  end.

Definition op_ids (o : cache_op) : Prop :=
  match o with CMutate _ f => forall p, p_id (f p) = p_id p | _ => True end.

(** The cache [c] holds the pages [ps]. *)
Record cache_rep (c : PageCache) (ps : list Page) : Prop := {
  rep_pages : Forall2 (fun l p => heap c !! l = Some p) (lru_ c) ps;
  rep_ids : NoDup (p_id <$> ps);
  rep_map : map_ c = list_to_map (zip (p_id <$> ps) (lru_ c));
  rep_cap : 1 <= capacity_ c;
  rep_len : zlen ps <= capacity_ c;
  rep_fresh : forall l p, heap c !! l = Some p -> l < next_loc c;
}.

(** ** Lemmas *)

Lemma lru_find_split pid l p :
  lru_find pid l = Some p -> NoDup (p_id <$> l) ->
  exists l1 l2, l = l1 ++ p :: l2 /\ p_id p = pid /\ lru_without pid l = l1 ++ l2.
Proof.
  unfold lru_find. destruct (list_find _ l) as [[i q]|] eqn:Ef; [|done]. intros [= <-] Hnd.
  apply list_find_Some in Ef as (Hi & Hq & Hlt). exists (take i l), (drop (S i) l).
  split_and!; [by rewrite take_drop_middle|done|]. unfold lru_without.
  rewrite <- (take_drop_middle l i q Hi) in Hnd |- * at 1.
  rewrite fmap_app in Hnd. cbn [fmap list_fmap] in Hnd. apply NoDup_app in Hnd as (_ & Hd & Hnd).
  apply NoDup_cons in Hnd as [Hn _].
  rewrite filter_app, filter_cons, decide_False by (by intros []). f_equal; apply filter_all, Forall_forall.
  - intros r Hr Hid. apply (Hd (p_id r)); [by apply list_elem_of_fmap_2|]. rewrite Hid, Hq. by left.
  - intros r Hr Hid. apply Hn. rewrite Hq, <- Hid. by apply list_elem_of_fmap_2.
Qed.

Lemma lru_find_None pid l : lru_find pid l = None <-> pid ∉ (p_id <$> l).
Proof.
  unfold lru_find. destruct (list_find _ l) as [[i q]|] eqn:Ef; cbn.
  - split; [done|]. intros Hn. exfalso. apply list_find_Some in Ef as (Hi & Hq & _). apply Hn.
    subst pid. apply list_elem_of_fmap_2. by eapply list_elem_of_lookup_2.
  - split; [|done]. intros _ (q & -> & Hq)%list_elem_of_fmap. apply list_find_None in Ef.
    rewrite Forall_forall in Ef. by eapply Ef.
Qed.

(** A resident page and its node. *)
Lemma rep_split c l1 p l2 :
  cache_rep c (l1 ++ p :: l2) ->
  exists n1 l n2, lru_ c = n1 ++ l :: n2 /\ length n1 = length l1 /\ length n2 = length l2 /\
    heap c !! l = Some p /\ map_ c !! p_id p = Some l /\ lru_erase l (lru_ c) = n1 ++ n2 /\
    Forall2 (fun l p => heap c !! l = Some p) n1 l1 /\ Forall2 (fun l p => heap c !! l = Some p) n2 l2.
Proof.
  intros [Hp Hnd Hm _ _ _]. apply Forall2_app_inv_r in Hp as (n1 & n' & H1 & H2 & Hl).
  apply Forall2_cons_inv_r in H2 as (l & n2 & Hh & H2 & ->).
  exists n1, l, n2. split_and!; [done|by eapply Forall2_length|by eapply Forall2_length|done| | |done|done].
  - rewrite Hm, Hl. apply elem_of_list_to_map.
    + rewrite fst_zip; [done|]. rewrite length_fmap, !length_app. cbn.
      apply Forall2_length in H1, H2. lia.
    + rewrite fmap_app, zip_with_app by (rewrite length_fmap; symmetry; by eapply Forall2_length).
      apply elem_of_app. right. by left.
  - rewrite Hl. unfold lru_erase. rewrite filter_app, filter_cons, decide_False by (by intros []).
    rewrite fmap_app in Hnd. cbn [fmap list_fmap] in Hnd. apply NoDup_app in Hnd as (_ & Hd & Hnd).
    apply NoDup_cons in Hnd as [Hn _].
    f_equal; apply filter_all, Forall_forall; intros x Hx ->; apply list_elem_of_lookup in Hx as [i Hi].
    + eapply Forall2_lookup_l in H1 as (q & Hq & Hhq); [|done]. assert (q = p) as -> by congruence.
      apply (Hd (p_id p)); [|by left]. apply list_elem_of_fmap_2. by eapply list_elem_of_lookup_2.
    + eapply Forall2_lookup_l in H2 as (q & Hq & Hhq); [|done]. assert (q = p) as -> by congruence.
      apply Hn. apply list_elem_of_fmap_2. by eapply list_elem_of_lookup_2.
Qed.

Lemma rep_absent c ps pid : cache_rep c ps -> lru_find pid ps = None -> map_ c !! pid = None.
Proof.
  intros [Hp _ Hm _ _ _] Hn%lru_find_None. rewrite Hm. apply not_elem_of_list_to_map_1.
  rewrite fst_zip; [done|]. rewrite length_fmap. apply Forall2_length in Hp. lia.
Qed.

Lemma zip_middle (l1 : list Page) p l2 (n1 : list Z) l n2 :
  length n1 = length l1 ->
  zip (p_id <$> l1 ++ p :: l2) (n1 ++ l :: n2) = zip (p_id <$> l1) n1 ++ (p_id p, l) :: zip (p_id <$> l2) n2.
Proof. intros H. rewrite fmap_app, zip_with_app by (by rewrite length_fmap). done. Qed.

Lemma zip_keys (ps : list Page) (ls : list Z) : length ls = length ps -> (zip (p_id <$> ps) ls).*1 = p_id <$> ps.
Proof. intros H. apply fst_zip. rewrite length_fmap. lia. Qed.

(** The map of a permuted pool. *)
Lemma map_front l1 p l2 (n1 : list Z) l n2 :
  length n1 = length l1 -> length n2 = length l2 -> NoDup (p_id <$> l1 ++ p :: l2) ->
  list_to_map (M:=gmap Z Z) (zip (p_id <$> p :: l1 ++ l2) (l :: n1 ++ n2)) =
  list_to_map (zip (p_id <$> l1 ++ p :: l2) (n1 ++ l :: n2)).
Proof.
  intros H1 H2 Hnd. symmetry. apply list_to_map_proper.
  - rewrite zip_keys; [done|]. rewrite !length_app. cbn. lia.
  - rewrite zip_middle by done. rewrite fmap_cons. cbn [zip_with]. rewrite fmap_app, zip_with_app by (by rewrite length_fmap).
    symmetry. apply Permutation_middle.
Qed.

(** The map after a page has gone. *)
Lemma map_without l1 p l2 (n1 : list Z) l n2 :
  length n1 = length l1 -> length n2 = length l2 -> NoDup (p_id <$> l1 ++ p :: l2) ->
  delete (p_id p) (list_to_map (M:=gmap Z Z) (zip (p_id <$> l1 ++ p :: l2) (n1 ++ l :: n2))) =
  list_to_map (zip (p_id <$> l1 ++ l2) (n1 ++ n2)).
Proof.
  intros H1 H2 Hnd. rewrite <- (map_front l1 p l2) by done. rewrite fmap_cons.
  cbn [zip_with list_to_map foldr fst snd uncurry].
  rewrite delete_insert_id; [done|]. apply not_elem_of_list_to_map_1. rewrite zip_keys by (rewrite !length_app; lia).
  rewrite fmap_app in Hnd. cbn [fmap list_fmap] in Hnd. apply NoDup_app in Hnd as (_ & Hd & Hnd).
  apply NoDup_cons in Hnd as [Hn _]. rewrite fmap_app, elem_of_app. intros [Hi|Hi]; [|done].
  apply (Hd _ Hi). by left.
Qed.

Lemma NoDup_front l1 (p : Page) l2 : NoDup (p_id <$> l1 ++ p :: l2) -> NoDup (p_id <$> p :: l1 ++ l2).
Proof. intros H. eapply NoDup_Permutation_proper; [|exact H]. apply fmap_Permutation, Permutation_middle. Qed.

Lemma Forall2_middle {A B} (R : A -> B -> Prop) n1 n2 l1 l2 x y :
  Forall2 R n1 l1 -> R x y -> Forall2 R n2 l2 -> Forall2 R (n1 ++ x :: n2) (l1 ++ y :: l2).
Proof. intros. apply Forall2_app; [done|]. by constructor. Qed.

(** Heap updates at one pool page leave the others. *)
Lemma Forall2_heap (h : gmap Z Page) n ps l q :
  Forall2 (fun l p => h !! l = Some p) n ps -> l ∉ n -> Forall2 (fun m p => <[l := q]> h !! m = Some p) n ps.
Proof.
  intros H Hn. induction H as [|m p n ps Hm H IH]; [constructor|].
  apply not_elem_of_cons in Hn as [Hne Hn]. constructor; [|by apply IH]. cbn. rewrite lookup_insert_ne; [exact Hm|congruence].
Qed.

Lemma rep_other_nodes c l1 p l2 n1 l n2 :
  cache_rep c (l1 ++ p :: l2) -> lru_ c = n1 ++ l :: n2 -> length n1 = length l1 -> (l ∉ n1) /\ (l ∉ n2).
Proof.
  intros Hc Hl Hlen. destruct (rep_split c l1 p l2 Hc) as (n1' & l' & n2' & Hl' & Hlen' & _ & _ & _ & He & _).
  rewrite Hl in Hl'. apply app_inj_1 in Hl' as [-> [= -> ->]]; [|lia].
  assert (Hx : l' ∉ lru_erase l' (lru_ c)) by (unfold lru_erase; rewrite list_elem_of_filter; tauto).
  rewrite He, elem_of_app in Hx. tauto.
Qed.

Section cache_runs.
Context {E : Type} (on_evict : option (Page -> M E Page)).
(** The callback does not change the id of a page. *)
Context (cb_id : forall cb p e p' e', on_evict = Some cb -> cb p e = (Ok p', e') -> p_id p' = p_id p).
Implicit Types (c : PageCache) (e : E).

Lemma the_cache_run c e : the_cache (c, e) = (Ok c, (c, e)).
Proof. done. Qed.

Lemma change_run f c e : change f (c, e) = (Ok tt, (f c, e)).
Proof. done. Qed.

Lemma deref_page_run c e l p : heap c !! l = Some p -> deref_page l (c, e) = (Ok p, (c, e)).
Proof. intros H. unfold deref_page, lift, deref. rewrite (M_bind_ok _ _ _ _ _ (the_cache_run c e)), H. done. Qed.

Lemma spec_release_id p e p' e' : spec_release on_evict p e = (Ok p', e') -> p_id p' = p_id p.
Proof.
  unfold spec_release. destruct on_evict as [cb|] eqn:Ecb; [|by intros [= <- _]].
  destruct (p_dirty p); [|by intros [= <- _]]. eauto.
Qed.

(** Releasing a page through its pointer: the callback's result is in the heap
    when it returns. *)
Lemma call_evict_run c e l p :
  heap c !! l = Some p ->
  call_evict on_evict l (c, e) =
    match spec_release on_evict p e with
    | (Ok p', e') => (Ok tt, (set_heap (<[l := p']> (heap c)) c, e'))
    | (Throw x, e') => (Throw x, (c, e'))
    | (UB, e') => (UB, (c, e'))
    end.
Proof.
  intros Hp. unfold call_evict. rewrite (M_bind_ok _ _ _ _ _ (deref_page_run c e l p Hp)).
  assert (Hid : set_heap (<[l := p]> (heap c)) c = c).
  { destruct c as [k h n ls m]; unfold set_heap; cbn in *. by rewrite insert_id. }
  unfold spec_release. destruct on_evict as [cb|]; [|by unfold mret, M_ret; rewrite Hid].
  destruct (p_dirty p); [|by unfold mret, M_ret; rewrite Hid].
  unfold with_env, zoom, mbind, M_bind. cbn [fst snd]. by destruct (cb p e) as [[p'|x|] e'].
Qed.

(** A pool page moves to the front. *)
Lemma splice_rep c l1 p l2 n1 l n2 :
  cache_rep c (l1 ++ p :: l2) -> lru_ c = n1 ++ l :: n2 -> length n1 = length l1 ->
  cache_rep (splice_front l c) (p :: l1 ++ l2).
Proof.
  intros Hc Hl Hlen. destruct (rep_split c l1 p l2 Hc) as (n1' & l' & n2' & Hl' & Hlen' & Hlen2 & Hh & _ & He & H1 & H2).
  rewrite Hl in Hl'. apply app_inj_1 in Hl' as [-> [= -> ->]]; [|lia].
  destruct Hc as [Hp Hnd Hm Hcap Hln Hfr]. unfold splice_front. rewrite He.
  split; cbn [set_lru lru_ heap map_ capacity_ next_loc]; try done.
  - constructor; [done|]. by apply Forall2_app.
  - by apply NoDup_front.
  - rewrite Hm, Hl. symmetry. by apply map_front.
  - cbn [length]. rewrite length_app in Hln |- *. cbn [length] in Hln. lia.
Qed.

Lemma touch_hit c e ps pid p :
  cache_rep c ps -> lru_find pid ps = Some p ->
  exists l, cache_touch pid (c, e) = (Ok (Some l), (splice_front l c, e)) /\ heap c !! l = Some p /\
    cache_rep (splice_front l c) (p :: lru_without pid ps) /\ lru_ (splice_front l c) = l :: lru_erase l (lru_ c).
Proof.
  intros Hc Hf. destruct (lru_find_split pid ps p Hf (rep_ids _ _ Hc)) as (l1 & l2 & -> & Hid & Hw).
  destruct (rep_split c l1 p l2 Hc) as (n1 & l & n2 & Hl & Hlen & Hlen2 & Hh & Hm & He & H1 & H2).
  exists l. split_and!; [|done| |done].
  - unfold cache_touch. rewrite (M_bind_ok _ _ _ _ _ (the_cache_run c e)), <- Hid, Hm. done.
  - rewrite Hw. by eapply splice_rep.
Qed.

Lemma touch_miss c e ps pid :
  cache_rep c ps -> lru_find pid ps = None -> cache_touch pid (c, e) = (Ok None, (c, e)).
Proof.
  intros Hc Hf. unfold cache_touch. rewrite (M_bind_ok _ _ _ _ _ (the_cache_run c e)), (rep_absent c ps pid Hc Hf). done.
Qed.

(** A write through a reference. *)
Lemma write_heap_rep c l1 p l2 n1 l n2 q :
  cache_rep c (l1 ++ p :: l2) -> lru_ c = n1 ++ l :: n2 -> length n1 = length l1 -> p_id q = p_id p ->
  cache_rep (set_heap (<[l := q]> (heap c)) c) (l1 ++ q :: l2).
Proof.
  intros Hc Hl Hlen Hid. pose proof (rep_other_nodes c l1 p l2 n1 l n2 Hc Hl Hlen) as [Hn1 Hn2].
  destruct (rep_split c l1 p l2 Hc) as (n1' & l' & n2' & Hl' & Hlen' & Hlen2 & Hh & _ & _ & H1 & H2).
  rewrite Hl in Hl'. apply app_inj_1 in Hl' as [-> [= -> ->]]; [|lia].
  assert (Hids : p_id <$> l1 ++ q :: l2 = p_id <$> l1 ++ p :: l2) by (rewrite !fmap_app; cbn; by rewrite Hid).
  destruct Hc as [Hp Hnd Hm Hcap Hln Hfr].
  split; cbn [set_heap lru_ heap map_ capacity_ next_loc]; try done.
  - rewrite Hl. apply Forall2_middle; [by apply Forall2_heap| |by apply Forall2_heap]. by rewrite lookup_insert_eq.
  - by rewrite Hids.
  - by rewrite Hids.
  - rewrite !length_app in Hln |- *. done.
  - intros m r Hr. destruct (decide (m = l')) as [->|Hne]; [by eapply Hfr|]. rewrite lookup_insert_ne in Hr by done. by eapply Hfr.
Qed.

(** A page leaves the pool. *)
Lemma remove_rep c l1 p l2 n1 l n2 q :
  cache_rep c (l1 ++ p :: l2) -> lru_ c = n1 ++ l :: n2 -> length n1 = length l1 ->
  cache_rep (set_map (delete (p_id p) (map_ c)) (set_lru (n1 ++ n2) (set_heap (<[l := q]> (heap c)) c))) (l1 ++ l2).
Proof.
  intros Hc Hl Hlen. pose proof (rep_other_nodes c l1 p l2 n1 l n2 Hc Hl Hlen) as [Hn1 Hn2].
  destruct (rep_split c l1 p l2 Hc) as (n1' & l' & n2' & Hl' & Hlen' & Hlen2 & Hh & _ & _ & H1 & H2).
  rewrite Hl in Hl'. apply app_inj_1 in Hl' as [-> [= -> ->]]; [|lia].
  destruct Hc as [Hp Hnd Hm Hcap Hln Hfr].
  split; cbn [set_heap set_lru set_map lru_ heap map_ capacity_ next_loc]; try done.
  - apply Forall2_app; by apply Forall2_heap.
  - apply NoDup_front in Hnd. rewrite fmap_cons in Hnd. by apply NoDup_cons in Hnd as [_ Hnd].
  - rewrite Hm, Hl. by apply map_without.
  - rewrite length_app in Hln |- *. cbn [length] in Hln. lia.
  - intros m r Hr. destruct (decide (m = l')) as [->|Hne]; [by eapply Hfr|].
    rewrite lookup_insert_ne in Hr by congruence. by eapply Hfr.
Qed.

(** A page enters the pool. *)
Lemma push_rep c ps l p :
  cache_rep c ps -> heap c !! l = Some p -> lru_find (p_id p) ps = None -> zlen ps < capacity_ c ->
  cache_rep (set_map (<[p_id p := l]> (map_ c)) (set_lru (l :: lru_ c) c)) (p :: ps).
Proof.
  intros [Hp Hnd Hm Hcap Hln Hfr] Hh Hf%lru_find_None Hlen.
  split; cbn [set_lru set_map lru_ heap map_ capacity_ next_loc]; try done.
  - by constructor.
  - rewrite fmap_cons. by constructor.
  - rewrite Hm. done.
  - cbn [length]. lia.
Qed.

Lemma alloc_rep c ps p :
  cache_rep c ps -> cache_rep (alloc_page p c).2 ps.
Proof.
  intros [Hp Hnd Hm Hcap Hln Hfr]. unfold alloc_page.
  split; cbn [snd lru_ heap map_ capacity_ next_loc]; try done.
  - eapply Forall2_impl; [exact Hp|]. intros l q Hq. cbn. rewrite lookup_insert_ne; [done|]. apply Hfr in Hq. lia.
  - intros l q Hq. destruct (decide (l = next_loc c)) as [->|Hne]; [lia|].
    rewrite lookup_insert_ne in Hq by congruence. apply Hfr in Hq. lia.
Qed.

Lemma make_shared_run c e p :
  make_shared p (c, e) = (Ok (next_loc c), ((alloc_page p c).2, e)).
Proof. done. Qed.

(** What the cache holds after a step that may have failed. *)
Definition matches {A} (r : outcome A * (PageCache * E)) (r' : outcome A * (list Page * E)) : Prop :=
  r.1 = r'.1 /\ r.2.2 = r'.2.2 /\ cache_rep r.2.1 r'.2.1.

(** [evict_lru] *)
Lemma evict_lru_run c e ps p :
  cache_rep c (ps ++ [p]) ->
  exists n1 l, lru_ c = n1 ++ [l] /\ length n1 = length ps /\
    evict_lru on_evict (c, e) =
      match spec_release on_evict p e with
      | (Ok p', e') =>
          (Ok tt, (set_map (delete (p_id p) (map_ c)) (set_lru n1 (set_heap (<[l := p']> (heap c)) c)), e'))
      | (Throw x, e') => (Throw x, (c, e'))
      | (UB, e') => (UB, (c, e'))
      end.
Proof.
  intros Hc. destruct (rep_split c ps p [] Hc) as (n1 & l & n2 & Hl & Hlen & Hlen2 & Hh & Hm & _ & H1 & H2).
  destruct n2; [|done]. exists n1, l. split_and!; [done|done|].
  unfold evict_lru. rewrite (M_bind_ok _ _ _ _ _ (the_cache_run c e)), Hl, last_snoc. cbv beta iota.
  unfold mbind at 1, M_bind at 1. rewrite (call_evict_run c e l p Hh).
  destruct (spec_release on_evict p e) as [[p'|x|] e'] eqn:Er; [|done..].
  pose proof (spec_release_id p e p' e' Er) as Hid.
  set (c1 := set_heap (<[l := p']> (heap c)) c).
  rewrite (M_bind_ok _ _ _ _ _ (deref_page_run c1 e' l p' ltac:(by cbn; rewrite lookup_insert_eq))).
  unfold change, modify, mbind, M_bind. cbn [fst snd]. rewrite Hid.
  cbn [c1 set_heap set_lru set_map map_ lru_]. rewrite Hl, removelast_last. done.
Qed.

Definition make_room (c : PageCache) : M (PageCache * E) unit :=
  if bool_decide (zlen (lru_ c) >= capacity_ c) then evict_lru on_evict else mret tt.

Lemma make_room_run c e ps :
  cache_rep c ps ->
  match spec_room on_evict (capacity_ c) (ps, e) with
  | (Ok _, (ps', e')) =>
      exists c', make_room c (c, e) = (Ok tt, (c', e')) /\ cache_rep c' ps' /\ capacity_ c' = capacity_ c /\
        next_loc c' = next_loc c /\ zlen ps' < capacity_ c /\
        (forall pid, lru_find pid ps = None -> lru_find pid ps' = None) /\
        (forall l, l ∉ lru_ c -> heap c' !! l = heap c !! l) /\ (forall l, l ∈ lru_ c' -> l ∈ lru_ c)
  | (Throw x, (ps', e')) => ps' = ps /\ make_room c (c, e) = (Throw x, (c, e'))
  | (UB, (ps', e')) => ps' = ps /\ make_room c (c, e) = (UB, (c, e'))
  end.
Proof.
  intros Hc. pose proof (rep_cap _ _ Hc) as Hcap. pose proof (Forall2_length _ _ _ (rep_pages _ _ Hc)) as Hlen.
  unfold make_room, spec_room. rewrite Hlen. destruct (decide (zlen ps >= capacity_ c)) as [Hf|Hf].
  2: { rewrite !(bool_decide_eq_false_2 (_ >= _)) by done. exists c. split_and!; try done. lia. }
  rewrite !(bool_decide_eq_true_2 (_ >= _)) by done.
  destruct (last ps) as [p|] eqn:Ep; [|apply last_None in Ep as ->; cbn in Hf; lia].
  apply last_Some in Ep as [ps' ->]. destruct (evict_lru_run c e ps' p Hc) as (n1 & l & Hl & Hln & Hr).
  rewrite Hr. unfold release_into. destruct (spec_release on_evict p e) as [[p'|x|] e'] eqn:Er; [|done..].
  rewrite removelast_last. eexists. split; [reflexivity|].
  pose proof (remove_rep c ps' p [] n1 l [] p' Hc Hl Hln) as Hrep. rewrite !app_nil_r in Hrep.
  split_and!; try done.
  - pose proof (rep_len _ _ Hc) as Hle. rewrite length_app in Hle. cbn [length] in Hle. lia.
  - intros pid. rewrite !lru_find_None, fmap_app, elem_of_app. tauto.
  - intros m Hm. cbn [set_map set_lru set_heap heap]. apply lookup_insert_ne. intros ->. apply Hm. rewrite Hl.
    apply elem_of_app. right. by left.
  - cbn [set_map set_lru set_heap lru_]. intros m Hm. rewrite Hl. apply elem_of_app. by left.
Qed.

Lemma cache_rep_caps c ps : cache_rep c ps -> forall l, l ∈ lru_ c -> l < next_loc c.
Proof.
  intros Hc l (i & Hi)%list_elem_of_lookup. eapply Forall2_lookup_l in Hi as (p & _ & Hp); [|apply Hc].
  eapply rep_fresh; [exact Hc|exact Hp].
Qed.

(** [put_shared] of a page that is in nobody's pool. *)
Lemma put_shared_run c e ps l p :
  cache_rep c ps -> heap c !! l = Some p -> l ∉ lru_ c ->
  match lru_find (p_id p) ps with
  | Some q =>
      exists l', put_shared on_evict l (c, e) = (Ok l', (splice_front l' c, e)) /\ heap c !! l' = Some q /\
        cache_rep (splice_front l' c) (q :: lru_without (p_id p) ps)
  | None =>
      match spec_room on_evict (capacity_ c) (ps, e) with
      | (Ok _, (ps', e')) =>
          exists c', put_shared on_evict l (c, e) = (Ok l, (c', e')) /\ heap c' !! l = Some p /\ cache_rep c' (p :: ps') /\
            (exists ls, lru_ c' = l :: ls) /\ capacity_ c' = capacity_ c
      | (Throw x, (ps', e')) => ps' = ps /\ put_shared on_evict l (c, e) = (Throw x, (c, e'))
      | (UB, (ps', e')) => ps' = ps /\ put_shared on_evict l (c, e) = (UB, (c, e'))
      end
  end.
Proof.
  intros Hc Hh Hnl. unfold put_shared. rewrite (M_bind_ok _ _ _ _ _ (deref_page_run c e l p Hh)). cbv zeta.
  rewrite (M_bind_ok _ _ _ _ _ (the_cache_run c e)).
  destruct (lru_find (p_id p) ps) as [q|] eqn:Ef.
  - destruct (lru_find_split _ _ _ Ef (rep_ids _ _ Hc)) as (l1 & l2 & -> & Hid & Hw).
    destruct (rep_split c l1 q l2 Hc) as (n1 & l' & n2 & Hl & Hlen & Hlen2 & Hh' & Hm & He & H1 & H2).
    rewrite <- Hid, Hm. exists l'. split_and!; [done|done|]. rewrite Hid, Hw. by eapply splice_rep.
  - rewrite (rep_absent c ps _ Hc Ef). fold (make_room c).
    pose proof (make_room_run c e ps Hc) as Hroom.
    destruct (spec_room on_evict (capacity_ c) (ps, e)) as [[[]|x|] [ps' e']].
    + destruct Hroom as (c' & Hr & Hc' & Hcap & _ & Hlen & Hfind & Hheap & Hsub).
      rewrite (M_bind_ok _ _ _ _ _ Hr). unfold change, modify, mbind, M_bind, mret, M_ret. cbn [fst snd].
      eexists. split; [reflexivity|]. rewrite <- Hheap in Hh by done. split_and!; [done| |by eexists|done].
      exact (push_rep c' ps' l p Hc' Hh (Hfind _ Ef) ltac:(congruence)).
    + destruct Hroom as [-> Hr]. split; [done|]. by rewrite (M_bind_throw _ _ _ _ _ Hr).
    + destruct Hroom as [-> Hr]. split; [done|]. unfold mbind, M_bind. by rewrite Hr.
Qed.

(** [put] over a resident page: the node gets a new page. *)
Lemma replace_rep c l1 p l2 n1 l n2 q :
  cache_rep c (l1 ++ p :: l2) -> lru_ c = n1 ++ l :: n2 -> length n1 = length l1 -> p_id q = p_id p ->
  let c1 := (alloc_page q c).2 in
  let l' := next_loc c in
  cache_rep (set_map (<[p_id q := l']> (map_ c1))
    (set_lru (lru_replace l l' (lru_ c1)) c1)) (l1 ++ q :: l2) /\
  lru_replace l l' (lru_ c1) = n1 ++ l' :: n2.
Proof.
  intros Hc Hl Hlen Hid c1 l'. pose proof (rep_other_nodes c l1 p l2 n1 l n2 Hc Hl Hlen) as [Hn1 Hn2].
  pose proof (cache_rep_caps c _ Hc) as Hlt.
  destruct (rep_split c l1 p l2 Hc) as (n1' & m & n2' & Hl' & Hlen' & Hlen2 & Hh & _ & _ & H1 & H2).
  rewrite Hl in Hl'. apply app_inj_1 in Hl' as [-> [= -> ->]]; [|lia].
  assert (Hsub : lru_replace m l' (lru_ c1) = n1' ++ l' :: n2').
  { unfold lru_replace, c1. cbn [alloc_page snd lru_]. rewrite Hl, fmap_app, fmap_cons, bool_decide_eq_true_2 by done.
    assert (Hid' : forall n : list Z, m ∉ n -> (fun x : Z => if bool_decide (x = m) then l' else x) <$> n = n).
    { intros n Hn. rewrite <- (list_fmap_id n) at 2. apply list_fmap_ext. intros i x Hx.
      rewrite bool_decide_eq_false_2; [done|]. intros ->. apply Hn. by eapply list_elem_of_lookup_2. }
    by rewrite !Hid'. }
  split; [|exact Hsub]. rewrite Hsub. pose proof (alloc_rep c _ q Hc) as Ha. fold c1 in Ha.
  destruct Ha as [Hp Hnd Hm Hcap Hln Hfr].
  assert (Hids : p_id <$> l1 ++ q :: l2 = p_id <$> l1 ++ p :: l2) by (rewrite !fmap_app; cbn; by rewrite Hid).
  assert (Hl1 : lru_ c1 = n1' ++ m :: n2') by done.
  split; cbn [set_map set_lru lru_ heap map_ capacity_ next_loc]; try done.
  - rewrite Hl1 in Hp. apply Forall2_app_inv_r in Hp as (k1 & k2' & Hk1 & Hk2 & Hk).
    apply Forall2_cons_inv_r in Hk2 as (k & k2 & _ & Hk2 & ->).
    apply app_inj_1 in Hk as [-> [= -> ->]]; [|apply Forall2_length in Hk1; lia].
    apply Forall2_middle; [done| |done]. unfold c1, l'. cbn. by rewrite lookup_insert_eq.
  - by rewrite Hids.
  - rewrite Hm, Hl1, <- (map_front l1 p l2), <- (map_front l1 q l2) by (rewrite ?Hids; done).
    rewrite !fmap_cons. cbn [zip_with list_to_map foldr fst snd uncurry]. rewrite Hid. apply insert_insert_eq.
  - rewrite !length_app in Hln |- *. done.
Qed.

Lemma flush_loop_run c e before after n1 n2 :
  cache_rep c (before ++ after) -> lru_ c = n1 ++ n2 -> length n1 = length before ->
  match spec_flush on_evict before after e with
  | (Ok _, (_, e')) => exists c' ps', mfor (call_evict on_evict) n2 (c, e) = (Ok tt, (c', e')) /\ cache_rep c' ps'
  | (o, (ps', e')) => exists c', mfor (call_evict on_evict) n2 (c, e) = (o, (c', e')) /\ cache_rep c' ps'
  end.
Proof.
  revert c e before n1 n2. induction after as [|p after IH]; intros c e before n1 n2 Hc Hl Hlen.
  - assert (n2 = []) as ->.
    { pose proof (Forall2_length _ _ _ (rep_pages _ _ Hc)) as Hlr. rewrite Hl, !length_app in Hlr.
      destruct n2; [done|cbn in Hlr; lia]. }
    cbn. by exists c, (before ++ []).
  - destruct (rep_split c before p after Hc) as (n1' & l & n2' & Hl' & Hlen' & Hlen2 & Hh & _).
    assert (n1 = n1' /\ n2 = l :: n2') as [-> ->] by (rewrite Hl in Hl'; apply app_inj_1 in Hl'; [done|lia]).
    cbn [spec_flush mfor]. unfold mbind at 1 2 3, M_bind at 1 2 3. rewrite !(call_evict_run c e l p Hh).
    destruct (spec_release on_evict p e) as [[p'|x|] e'] eqn:Er; [|by exists c..].
    pose proof (spec_release_id p e p' e' Er) as Hid.
    pose proof (write_heap_rep c before p after n1' l n2' p' Hc Hl Hlen Hid) as Hc1.
    replace (before ++ p' :: after) with ((before ++ [p']) ++ after) in Hc1 by (by rewrite <- app_assoc).
    apply (IH _ e' _ (n1' ++ [l]) n2' Hc1); [by cbn; rewrite Hl, <- app_assoc|rewrite !length_app; cbn; lia].
Qed.

Lemma flush_capacity ls c e : capacity_ (mfor (call_evict on_evict) ls (c, e)).2.1 = capacity_ c.
Proof.
  revert c e. induction ls as [|l ls IH]; intros c e; [done|]. cbn [mfor]. unfold mbind, M_bind.
  destruct (heap c !! l) as [p|] eqn:Eh.
  - rewrite (call_evict_run c e l p Eh). destruct (spec_release on_evict p e) as [[p'|x|] e']; [|done..]. by rewrite IH.
  - assert (Hub : call_evict on_evict l (c, e) = (UB, (c, e))); [|by rewrite Hub].
    unfold call_evict, deref_page, lift, deref, mbind, M_bind. rewrite the_cache_run. by rewrite Eh.
Qed.

Lemma spec_flush_ok before after e ps e' : spec_flush on_evict before after e = (Ok tt, (ps, e')) -> ps = [].
Proof.
  revert before e. induction after as [|p after IH]; intros before e; cbn [spec_flush]; [by intros [= <- _]|].
  destruct (spec_release on_evict p e) as [[p'|x|] e1]; [|done..]. apply IH.
Qed.

Definition refines c e ps o : Prop :=
  let r := cache_run on_evict o (c, e) in
  matches r (spec_op on_evict (capacity_ c) o (ps, e)) /\ capacity_ r.2.1 = capacity_ c.

Lemma get_refines c e ps pid : cache_rep c ps -> refines c e ps (CGet pid).
Proof.
  intros Hc. unfold refines, matches. cbn [cache_run spec_op]. cbv zeta.
  destruct (lru_find pid ps) as [p|] eqn:Ef; unfold cache_get.
  - destruct (touch_hit c e ps pid p Hc Ef) as (l & Hr & Hh & Hc' & _).
    by rewrite (M_bind_ok _ _ _ _ _ Hr), (M_bind_ok _ _ _ _ _ (deref_page_run (splice_front l c) e l p Hh)).
  - by rewrite (M_bind_ok _ _ _ _ _ (touch_miss c e ps pid Hc Ef)).
Qed.

Lemma shared_refines c e ps pid : cache_rep c ps -> refines c e ps (CShared pid).
Proof.
  intros Hc. unfold refines, matches. cbn [cache_run spec_op]. cbv zeta.
  destruct (lru_find pid ps) as [p|] eqn:Ef; unfold get_shared.
  - destruct (touch_hit c e ps pid p Hc Ef) as (l & Hr & Hh & Hc' & _).
    rewrite (M_bind_ok _ _ _ _ _ Hr). cbn [see]. by rewrite (M_bind_ok _ _ _ _ _ (deref_page_run (splice_front l c) e l p Hh)).
  - by rewrite (M_bind_ok _ _ _ _ _ (touch_miss c e ps pid Hc Ef)).
Qed.

Lemma mutate_refines c e ps pid f : (forall p, p_id (f p) = p_id p) -> cache_rep c ps -> refines c e ps (CMutate pid f).
Proof.
  intros Hf Hc. unfold refines, matches. cbn [cache_run spec_op]. cbv zeta.
  destruct (lru_find pid ps) as [p|] eqn:Ef; unfold get_mut.
  - destruct (touch_hit c e ps pid p Hc Ef) as (l & Hr & Hh & Hc' & Hl').
    rewrite (M_bind_ok _ _ _ _ _ Hr). set (c1 := splice_front l c) in *.
    set (c2 := set_heap (<[l := f p]> (heap c1)) c1).
    rewrite (M_bind_ok _ _ _ tt (c2, e)) by (unfold write_ref; by rewrite (M_bind_ok _ _ _ _ _ (deref_page_run c1 e l p Hh))).
    cbn [see]. rewrite (M_bind_ok _ _ _ (f p) (c2, e)) by (apply deref_page_run; cbn; by rewrite lookup_insert_eq).
    split; [|done]. split_and!; [done|done|].
    exact (write_heap_rep c1 [] p _ [] l _ (f p) Hc' Hl' eq_refl (Hf p)).
  - by rewrite (M_bind_ok _ _ _ _ _ (touch_miss c e ps pid Hc Ef)).
Qed.

Lemma put_refines c e ps p : cache_rep c ps -> refines c e ps (CPut p).
Proof.
  intros Hc. unfold refines, matches. cbn [cache_run spec_op]. cbv zeta.
  destruct (lru_find (p_id p) ps) as [q|] eqn:Ef.
  - destruct (lru_find_split _ _ _ Ef (rep_ids _ _ Hc)) as (l1 & l2 & -> & Hid & Hw). rewrite Hw.
    destruct (rep_split c l1 q l2 Hc) as (n1 & l & n2 & Hl & Hlen & Hlen2 & Hh & Hm & He & H1 & H2).
    rewrite Hid in Hm. unfold cache_put, release_into, mbind, M_bind. rewrite the_cache_run, Hm. rewrite (call_evict_run c e l q Hh).
    destruct (spec_release on_evict q e) as [[q'|x|] e'] eqn:Er; [|by split_and!..].
    pose proof (spec_release_id q e q' e' Er) as Hid'.
    pose proof (write_heap_rep c l1 q l2 n1 l n2 q' Hc Hl Hlen Hid') as Hc1.
    set (c1 := set_heap _ c) in *. rewrite make_shared_run. unfold change, modify, mret, M_ret. cbn [fst snd].
    destruct (replace_rep c1 l1 q' l2 n1 l n2 p Hc1 Hl Hlen ltac:(congruence)) as [Hc2 Hl2].
    split; [|done]. split_and!; [done|done|]. eapply splice_rep; [exact Hc2|exact Hl2|done].
  - assert (Hput : cache_put on_evict p (c, e) =
      (make_room c ;; l' ← make_shared p; change (fun c => set_lru (l' :: lru_ c) c) ;;
       change (fun c => set_map (<[p_id p := l']> (map_ c)) c)) (c, e)).
    { unfold cache_put. rewrite (M_bind_ok _ _ _ _ _ (the_cache_run c e)), (rep_absent c ps _ Hc Ef). done. }
    pose proof (make_room_run c e ps Hc) as Hroom.
    destruct (spec_room on_evict (capacity_ c) (ps, e)) as [[[]|x|] [ps' e']] eqn:Es.
    + destruct Hroom as (c' & Hr & Hc' & Hcap & Hnl & Hlen & Hfind & Hheap & Hsub).
      rewrite (M_bind_ok _ _ _ _ _ Hr), (M_bind_ok _ _ _ _ _ (make_shared_run c' e' p)) in Hput.
      rewrite (M_bind_ok _ _ _ _ _ Hput), (M_bind_ok _ _ _ _ _ Es). split; [|exact Hcap]. split_and!; [done|done|].
      exact (push_rep _ ps' (next_loc c') p (alloc_rep c' ps' p Hc') (lookup_insert_eq _ _ _) (Hfind _ Ef)
               ltac:(cbn; congruence)).
    + destruct Hroom as [-> Hr]. rewrite (M_bind_throw _ _ _ _ _ Hr) in Hput.
      by rewrite (M_bind_throw _ _ _ _ _ Hput), (M_bind_throw _ _ _ _ _ Es).
    + destruct Hroom as [-> Hr]. assert (Hp : cache_put on_evict p (c, e) = (UB, (c, e'))) by (rewrite Hput; unfold mbind, M_bind; by rewrite Hr).
      unfold mbind, M_bind. by rewrite Hp, Es.
Qed.

Lemma put_shared_refines c e ps p : cache_rep c ps -> refines c e ps (CPutShared p).
Proof.
  intros Hc. unfold refines, matches. cbn [cache_run spec_op]. cbv zeta.
  pose proof (alloc_rep c ps p Hc) as Ha. set (c1 := (alloc_page p c).2) in *.
  rewrite (M_bind_ok _ _ _ _ _ (make_shared_run c e p)). fold c1.
  pose proof (put_shared_run c1 e ps (next_loc c) p Ha) as Hput.
  assert (Hh : heap c1 !! next_loc c = Some p) by (cbn; by rewrite lookup_insert_eq).
  assert (Hn : next_loc c ∉ lru_ c1) by (intros Hin; apply (cache_rep_caps c ps Hc) in Hin; lia).
  specialize (Hput Hh Hn). change (capacity_ c1) with (capacity_ c) in Hput.
  destruct (lru_find (p_id p) ps) as [q|].
  - destruct Hput as (l' & Hr & Hh' & Hc'). rewrite (M_bind_ok _ _ _ _ _ Hr). cbn [see].
    by rewrite (M_bind_ok _ _ _ _ _ (deref_page_run (splice_front l' c1) e l' q Hh')).
  - unfold mbind, M_bind. destruct (spec_room on_evict (capacity_ c) (ps, e)) as [[[]|x|] [ps' e']].
    + destruct Hput as (c' & -> & Hh' & Hc' & _ & Hcap). cbn [see]. unfold mbind, M_bind.
      rewrite (deref_page_run c' e' _ p Hh'). by split_and!.
    + by destruct Hput as [-> ->].
    + by destruct Hput as [-> ->].
Qed.

Lemma evict_refines c e ps pid : cache_rep c ps -> refines c e ps (CEvict pid).
Proof.
  intros Hc. unfold refines, matches. cbn [cache_run spec_op]. cbv zeta. unfold cache_evict, mbind, M_bind.
  rewrite the_cache_run. destruct (lru_find pid ps) as [q|] eqn:Ef.
  - destruct (lru_find_split _ _ _ Ef (rep_ids _ _ Hc)) as (l1 & l2 & -> & Hid & Hw). rewrite Hw.
    destruct (rep_split c l1 q l2 Hc) as (n1 & l & n2 & Hl & Hlen & Hlen2 & Hh & Hm & He & H1 & H2).
    rewrite Hid in Hm. rewrite Hm, (call_evict_run c e l q Hh). unfold release_into.
    destruct (spec_release on_evict q e) as [[q'|x|] e'] eqn:Er; [|by split_and!..].
    unfold change, modify, mret, M_ret. cbn [fst snd]. split; [|done]. split_and!; [done|done|].
    pose proof (remove_rep c l1 q l2 n1 l n2 q' Hc Hl Hlen) as Hr. rewrite Hid in Hr.
    cbn [set_heap set_lru set_map lru_ map_]. rewrite He. exact Hr.
  - by rewrite (rep_absent c ps _ Hc Ef).
Qed.

Lemma flush_refines c e ps : cache_rep c ps -> refines c e ps CFlushAll.
Proof.
  intros Hc. unfold refines, matches. cbn [cache_run spec_op]. cbv zeta. unfold cache_flush_all, mbind, M_bind.
  rewrite the_cache_run. pose proof (flush_loop_run c e [] ps [] (lru_ c) Hc eq_refl eq_refl) as Hf.
  pose proof (flush_capacity (lru_ c) c e) as Hcap.
  destruct (spec_flush on_evict [] ps e) as [[[]|x|] [ps' e']] eqn:Es.
  - destruct Hf as (c' & ps2 & Hr & Hc'). rewrite Hr in *. cbn in Hcap. unfold change, modify, mret, M_ret. cbn [fst snd].
    apply spec_flush_ok in Es as ->. split; [|done]. split_and!; [done|done|].
    destruct Hc' as [_ _ _ Hk _ Hfr]. split; cbn; try done; [constructor|lia].
  - destruct Hf as (c' & Hr & Hc'). rewrite Hr in *. by split_and!.
  - destruct Hf as (c' & Hr & Hc'). rewrite Hr in *. by split_and!.
Qed.

Lemma op_refines o c e ps : op_ids o -> cache_rep c ps -> refines c e ps o.
Proof.
  intros Ho Hc. destruct o; [by apply get_refines|by apply shared_refines|by apply mutate_refines|by apply put_refines|
    by apply put_shared_refines|by apply evict_refines|by apply flush_refines].
Qed.

Lemma trace_refines ops c e ps :
  Forall op_ids ops -> cache_rep c ps ->
  let r := trace (cache_run on_evict) ops (c, e) in
  let r' := trace (spec_op on_evict (capacity_ c)) ops (ps, e) in
  r.1 = r'.1 /\ r.2.2 = r'.2.2 /\ cache_rep r.2.1 r'.2.1.
Proof.
  intros Hops. revert c e ps. induction Hops as [|o ops Ho Hops IH]; intros c e ps Hc; [done|]. cbn [trace].
  destruct (op_refines o c e ps Ho Hc) as [(H1 & H2 & H3) H4].
  destruct (cache_run on_evict o (c, e)) as [r [c' e']]. destruct (spec_op on_evict (capacity_ c) o (ps, e)) as [r' [ps' e'']].
  cbn [fst snd] in *. subst r' e''. specialize (IH c' e' ps' H3). rewrite H4 in IH. cbv zeta in IH.
  destruct (trace _ ops (c', e')) as [rs [c2 e2]]. destruct (trace _ ops (ps', e')) as [rs' [ps2 e2']].
  cbn [fst snd] in *. destruct IH as (-> & -> & ?). done.
Qed.
End cache_runs.

Lemma new_cache_rep cap : 0 <= cap -> cache_rep (new_PageCache cap) [].
Proof. intros Hc. split; cbn; [constructor|constructor|done|case_bool_decide; lia|case_bool_decide; lia|done]. Qed.

(** The dirty pages of the pool are those of the list. *)
Lemma dirty_pages_rep c ps : cache_rep c ps -> dirty_pages c = p_id <$> filter (fun p => p_dirty p = true) ps.
Proof.
  intros Hc. unfold dirty_pages. pose proof (rep_pages _ _ Hc) as Hp. clear Hc. revert ps Hp. induction (lru_ c) as [|l ls IH]; intros ps Hp.
  - apply Forall2_nil_inv_l in Hp as ->. done.
  - apply Forall2_cons_inv_l in Hp as (p & ps' & Hl & Hp & ->). rewrite filter_cons. cbn [omap list_omap]. rewrite Hl. cbn [mbind option_bind].
    destruct (p_dirty p); case_decide; try done; rewrite (IH ps') by done; done.
Qed.

Lemma dirty_pages_subset c ps c' ps' :
  cache_rep c ps -> cache_rep c' ps' -> (forall p, p ∈ ps' -> p_dirty p = true -> p ∈ ps) -> dirty_pages c' ⊆ dirty_pages c.
Proof.
  intros Hc Hc' Hsub pid. rewrite (dirty_pages_rep _ _ Hc), (dirty_pages_rep _ _ Hc').
  intros (p & -> & [Hd Hp]%list_elem_of_filter)%list_elem_of_fmap. apply list_elem_of_fmap_2, list_elem_of_filter. auto.
Qed.

Lemma dirty_pages_clean c ps : cache_rep c ps -> (forall p, p ∈ ps -> p_dirty p = false) -> dirty_pages c = [].
Proof.
  intros Hc Hcl. rewrite (dirty_pages_rep _ _ Hc), filter_none; [done|]. apply Forall_forall. intros p Hp. by rewrite (Hcl p Hp).
Qed.

(** *** Pages in readers' hands *)

(** The bytes and rows of a page are the same; only the dirty flag may differ. *)
Definition same_content (p q : Page) : Prop := set_dirty (p_dirty p) q = p.

Section snapshots.
Context {E : Type} (on_evict : option (Page -> M E Page)).
Context (cb_content : forall cb p e p' e', on_evict = Some cb -> cb p e = (Ok p', e') -> same_content p p').

Definition heap_fresh (c : PageCache) : Prop := forall l p, heap c !! l = Some p -> l < next_loc c.

(** Nor does a clean page become dirty. *)
Definition page_kept (p q : Page) : Prop := same_content p q /\ (p_dirty q = true -> p_dirty p = true).

Definition heap_kept (c c' : PageCache) : Prop :=
  forall l p, heap c !! l = Some p -> exists p', heap c' !! l = Some p' /\ page_kept p p'.

(** A call that leaves every allocated page as it is. *)
Definition keeps {A} (m : M (PageCache * E) A) : Prop :=
  forall s, heap_fresh s.1 -> heap_fresh (m s).2.1 /\ heap_kept s.1 (m s).2.1.

Lemma same_content_refl p : same_content p p.
Proof. by destruct p. Qed.

Lemma same_content_trans p q r : same_content p q -> same_content q r -> same_content p r.
Proof. unfold same_content. destruct p, q, r. cbn. intros [= -> -> -> ->] [= -> -> -> ->]. done. Qed.

Lemma page_kept_refl p : page_kept p p.
Proof. split; [apply same_content_refl|done]. Qed.

Lemma page_kept_trans p q r : page_kept p q -> page_kept q r -> page_kept p r.
Proof. intros [Hc1 Hd1] [Hc2 Hd2]. split; [by eapply same_content_trans|auto]. Qed.

Lemma heap_kept_refl c : heap_kept c c.
Proof. intros l p Hp. exists p. split; [done|apply page_kept_refl]. Qed.

Lemma keeps_bind {A B} (m : M (PageCache * E) A) (f : A -> M (PageCache * E) B) :
  keeps m -> (forall a, keeps (f a)) -> keeps (m ≫= f).
Proof.
  intros Hm Hf s Hs. destruct (Hm s Hs) as [Hs1 Hk1]. unfold mbind, M_bind.
  destruct (m s) as [[a|x|] s1]; [|done..]. cbn [snd] in *. destruct (Hf a s1 Hs1) as [Hs2 Hk2]. split; [done|].
  intros l p Hp. destruct (Hk1 l p Hp) as (p1 & Hp1 & Hc1). destruct (Hk2 l p1 Hp1) as (p2 & Hp2 & Hc2).
  exists p2. split; [done|]. by eapply page_kept_trans.
Qed.

Lemma keeps_ret {A} (a : A) : keeps (mret a).
Proof. intros s Hs. split; [done|apply heap_kept_refl]. Qed.

Lemma keeps_cache : keeps the_cache.
Proof. intros s Hs. split; [done|apply heap_kept_refl]. Qed.

Lemma keeps_lift {A} (o : outcome A) : keeps (lift o).
Proof. intros s Hs. split; [done|apply heap_kept_refl]. Qed.

Lemma keeps_change f : (forall c, heap (f c) = heap c /\ next_loc (f c) = next_loc c) -> keeps (change f).
Proof.
  intros Hf [c e] Hs. cbn. destruct (Hf c) as [Hh Hn]. split.
  - intros l p. rewrite Hh, Hn. apply Hs.
  - intros l p Hp. exists p. rewrite Hh. split; [done|apply page_kept_refl].
Qed.

Lemma keeps_alloc p : keeps (make_shared p).
Proof.
  intros [c e] Hs. cbn. split; cbn.
  - intros l q Hq. cbn in Hq |- *. destruct (decide (l = next_loc c)) as [->|Hne]; [lia|].
    rewrite lookup_insert_ne in Hq by congruence. apply Hs in Hq. cbn in Hq. lia.
  - intros l q Hq. exists q. split; [|apply page_kept_refl]. cbn. rewrite lookup_insert_ne; [done|]. apply Hs in Hq. cbn in Hq. lia.
Qed.

Lemma keeps_deref l : keeps (deref_page l).
Proof. unfold deref_page. apply keeps_bind; [apply keeps_cache|intros; apply keeps_lift]. Qed.

Lemma content_id cb p e p' e' : on_evict = Some cb -> cb p e = (Ok p', e') -> p_id p' = p_id p.
Proof. intros Ho Hcb. pose proof (cb_content _ _ _ _ _ Ho Hcb) as Hs. by rewrite <- Hs. Qed.

Lemma keeps_call_evict l : keeps (call_evict on_evict l).
Proof.
  intros [c e] Hs. destruct (heap c !! l) as [p|] eqn:Eh.
  2: { assert (Hub : call_evict on_evict l (c, e) = (UB, (c, e))); [|rewrite Hub; split; [done|apply heap_kept_refl]].
       unfold call_evict, deref_page, lift, deref, mbind, M_bind. rewrite the_cache_run. by rewrite Eh. }
  rewrite (call_evict_run on_evict content_id c e l p Eh).
  assert (Hsame : forall p' e', spec_release on_evict p e = (Ok p', e') -> page_kept p p').
  { unfold spec_release. intros p' e'. destruct on_evict as [cb|] eqn:Ecb; [|intros [= <- _]; apply page_kept_refl].
    destruct (p_dirty p) eqn:Ed; [|intros [= <- _]; apply page_kept_refl]. split; [by eapply cb_content|done]. }
  destruct (spec_release on_evict p e) as [[p'|x|] e'] eqn:Er; cbn; split; try done; try apply heap_kept_refl.
  - intros m q. cbn. destruct (decide (m = l)) as [->|Hne]; [intros _; by eapply Hs|].
    rewrite lookup_insert_ne by congruence. apply Hs.
  - intros m q Hq. cbn. destruct (decide (m = l)) as [->|Hne].
    + exists p'. rewrite lookup_insert_eq. split; [done|]. cbn in Hq. assert (q = p) as -> by congruence. by eapply Hsame.
    + exists q. rewrite lookup_insert_ne by congruence. split; [done|apply page_kept_refl].
Qed.

Lemma keeps_mfor {A} (body : A -> M (PageCache * E) unit) l : (forall x, keeps (body x)) -> keeps (mfor body l).
Proof. intros Hb. induction l as [|x l IH]; cbn [mfor]; [apply keeps_ret|]. apply keeps_bind; [apply Hb|done]. Qed.

Ltac keeps :=
  repeat first
    [ apply keeps_ret | apply keeps_cache | apply keeps_lift | apply keeps_alloc | apply keeps_deref
    | apply keeps_call_evict | apply keeps_mfor | (apply keeps_change; by intros)
    | (apply keeps_bind; [|intros ?])
    | match goal with |- keeps (match ?x with _ => _ end) => destruct x end
    | match goal with |- keeps (if ?x then _ else _) => destruct x end
    | progress intros ].

Lemma keeps_touch pid : keeps (cache_touch pid : M (PageCache * E) _).
Proof. unfold cache_touch. keeps. Qed.

Lemma keeps_put_shared l : keeps (put_shared on_evict l).
Proof. unfold put_shared, evict_lru. keeps. Qed.

Lemma keeps_op o : (forall pid f, o <> CMutate pid f) -> keeps (cache_run on_evict o).
Proof.
  intros Ho. destruct o as [pid|pid|pid f|p|p|pid|]; cbn [cache_run]; [| |by destruct (Ho pid f)|..].
  all: unfold cache_get, get_shared, cache_touch, cache_put, put_shared, cache_evict, cache_flush_all, evict_lru, see.
  all: keeps.
Qed.
End snapshots.

(** ** Properties *)

(** A callback that logs the pages it is given and fails on page 9. *)
Definition demo_cb (p : Page) : M (list Z) Page := fun log =>
  if bool_decide (p_id p = 9) then (Throw IOError, log) else (Ok (set_dirty false p), log ++ [p_id p]).

Definition demo_dirty (id : Z) : Page := set_dirty true (new_Page id).
Definition demo_cache_ops : list cache_op :=
  [CPutShared (demo_dirty 1); CPutShared (new_Page 2); CMutate 1 (set_row_count 5); CPutShared (demo_dirty 9);
   CGet 2; CShared 1; CPut (demo_dirty 4); CPut (new_Page 1); CEvict 4; CFlushAll; CShared 9].

(** C25: the buffer pool is an LRU list. Any sequence of operations on a new cache,
    with any callback that keeps page ids, even one that fails, gives the callers
    the same pages and errors, and the callback the same calls, as the
    specification's list of pages: most recently used first, at most [capacity]
    long, the last page leaving first and through the callback when dirty. *)
Theorem cache_refines_lru {E} (on_evict : option (Page -> M E Page)) cap ops e :
  (forall cb p e p' e', on_evict = Some cb -> cb p e = (Ok p', e') -> p_id p' = p_id p) ->
  0 <= cap -> Forall op_ids ops ->
  let r := trace (cache_run on_evict) ops (new_PageCache cap, e) in
  let r' := trace (spec_op on_evict (if bool_decide (cap = 0) then 1 else cap)) ops ([], e) in
  r.1 = r'.1 /\ r.2.2 = r'.2.2 /\ cache_rep r.2.1 r'.2.1.
Proof. intros Hcb Hcap Hops. by apply (trace_refines on_evict Hcb ops (new_PageCache cap) e []), new_cache_rep. Qed.

Lemma cache_refines_lru_witness :
  let r := trace (cache_run (Some demo_cb)) demo_cache_ops (new_PageCache 2, []) in
  let r' := trace (spec_op (Some demo_cb) 2) demo_cache_ops ([], []) in
  (r.1 = r'.1 /\ r.2.2 = r'.2.2 /\ cache_rep r.2.1 r'.2.1) /\ r'.2.2 = [1].
Proof.
  split.
  - apply (cache_refines_lru (Some demo_cb) 2 demo_cache_ops []); [|lia|].
    + intros cb p e p' e' [= <-]. unfold demo_cb. case_bool_decide; [done|]. by intros [= <- _].
    + repeat constructor.
  - vm_compute. reflexivity.
Defined.

(** C39: a reader's page does not change under it. Whatever another thread's
    operation does short of a write through a reference (replacing the page with
    [put], evicting it, flushing the pool), a page that was allocated is still there
    with the same bytes and rows, so a [shared_ptr] obtained from [get_shared] or
    [put_shared] shows a consistent page for as long as it is held. *)
Theorem cache_keeps_snapshots {E} (on_evict : option (Page -> M E Page)) o c (e : E) l p :
  (forall cb p e p' e', on_evict = Some cb -> cb p e = (Ok p', e') -> same_content p p') ->
  (forall pid f, o <> CMutate pid f) -> heap_fresh c -> heap c !! l = Some p ->
  exists p', heap (cache_run on_evict o (c, e)).2.1 !! l = Some p' /\ same_content p p'.
Proof.
  intros Hcb Ho Hc Hl. destruct (keeps_op on_evict Hcb o Ho (c, e) Hc) as [_ Hk].
  destruct (Hk l p Hl) as (p' & Hp & Hs & _). by exists p'.
Qed.

Lemma cache_keeps_snapshots_witness :
  let s := (trace (cache_run (Some demo_cb)) [CPutShared (demo_dirty 1)] (new_PageCache 2, [])).2 in
  exists p', heap (cache_run (Some demo_cb) (CPut (set_row_count 3 (new_Page 1))) s).2.1 !! 0 = Some p' /\
    same_content (demo_dirty 1) p'.
Proof.
  apply (cache_keeps_snapshots (Some demo_cb)).
  - intros cb p e p' e' [= <-]. unfold demo_cb. case_bool_decide; [done|]. intros [= <- _]. by destruct p.
  - done.
  - intros l p. vm_compute. destruct l; [intros _; reflexivity|discriminate..].
  - vm_compute. reflexivity.
Defined.
