(* ===== verification/Pager.v ===== *)
(** The [Pager] ([include/xdl/pager.h], [src/pager.cpp]): page ids and file slots,
    the buffer pool in front of the file, compression, flushing and the scan that
    rebuilds the index when a database is opened.

    The references the Pager holds ([storage_], [index_]) are fields of its state:
    the DB above works on the same ones.  The eviction callback of the pool
    works on [Env], the storage and the offset table. *)
From S2P Require Import Prelude Types Serialise Page Index Posix Compression Migrate Storage Cache.

(** ** Definitions *)

Definition PAGE_SLOT_SIZE : Z := PAGEHEADER_SIZE + PAGE_SIZE.
Definition page_file_offset (data_start page_id : Z) : Z := u64 (data_start + page_id * PAGE_SLOT_SIZE).

Record Pager (F : Type) := mkPager {
  pg_storage : Storage F;
  pg_index : IndexManager;
  pg_cache : PageCache;
  next_page_id_ : Z;
  page_offsets_ : gmap Z Z;
}.
Arguments mkPager {F}. Arguments pg_storage {F}. Arguments pg_index {F}. Arguments pg_cache {F}.
Arguments next_page_id_ {F}. Arguments page_offsets_ {F}.

Section pager.
Context {F : Type} `{FileSys F} `{LZ4Lib} (schema : Schema).
#[local] Abbreviation Pager := (Pager F).

(** What the eviction callback uses. *)
#[local] Abbreviation Env := (Storage F * gmap Z Z)%type.

Definition pg_set_storage (s : Storage F) (p : Pager) : Pager :=
  mkPager s (pg_index p) (pg_cache p) (next_page_id_ p) (page_offsets_ p).
Definition pg_set_index (i : IndexManager) (p : Pager) : Pager :=
  mkPager (pg_storage p) i (pg_cache p) (next_page_id_ p) (page_offsets_ p).
Definition pg_set_next (n : Z) (p : Pager) : Pager :=
  mkPager (pg_storage p) (pg_index p) (pg_cache p) n (page_offsets_ p).
Definition pg_set_offsets (o : gmap Z Z) (p : Pager) : Pager :=
  mkPager (pg_storage p) (pg_index p) (pg_cache p) (next_page_id_ p) o.

Definition on_storage {A} (m : M (Storage F) A) : M Pager A := zoom pg_storage pg_set_storage m.
Definition on_index {A} (m : M IndexManager A) : M Pager A := zoom pg_index pg_set_index m.
Definition on_env {A} (m : M Env A) : M Pager A :=
  zoom (fun p => (pg_storage p, page_offsets_ p)) (fun e p => pg_set_offsets e.2 (pg_set_storage e.1 p)) m.
Definition on_cache {A} (m : M (PageCache * Env) A) : M Pager A :=
  zoom (fun p => (pg_cache p, (pg_storage p, page_offsets_ p)))
    (fun s p => mkPager s.2.1 (pg_index p) s.1 (next_page_id_ p) s.2.2) m.

(** [Pager::Pager] *)
Definition new_Pager (s : Storage F) (i : IndexManager) (cache_capacity : Z) : Pager :=
  mkPager s i (new_PageCache cache_capacity) 0 ∅.

(** [Pager::write_page_to_disk] *)
Definition write_page_to_disk (page : Page) : M Env Z :=
  e ← get;
  let ct := st_compression e.1 in
  compressed ← lift (compress ct (p_data page));
  let hdr := mkPageHeader (p_id page) (u32 (zlen compressed)) (u32 (zlen (p_data page)))
               (p_row_count page) (compression_tag ct) in
  let offset := page_file_offset (data_start_offset e.1) (p_id page) in
  zoom fst (fun s e => (s, e.2)) (overwrite_page_raw offset hdr compressed) ;;
  modify (fun e => (e.1, <[p_id page := offset]> e.2)) ;;
  mret offset.

(** [Pager::on_cache_evict] *)
Definition on_cache_evict (page : Page) : M Env Page :=
  if p_dirty page then _ ← write_page_to_disk page; mret (set_dirty false page) else mret page.

(** A page made of stored bytes, its offsets rebuilt. *)
Definition page_of_bytes (page_id row_count : Z) (data : bytes) : outcome Page :=
  let '(o, page) := rebuild_row_offsets (set_row_count row_count (set_data data (new_Page page_id))) in
  _ ← o; Ok page.

(** [Pager::load_from_disk]: the search of [page_offsets_], and what follows with the
    offset it found. *)
Definition find_offset (page_id : Z) : M Pager Z :=
  p ← get;
  match page_offsets_ p !! page_id with Some offset => mret offset | None => throw NotFoundError end.
Definition read_slot (page_id offset : Z) : M Pager Page :=
  '(hdr, blob) ← on_storage (read_page_raw offset);
  uncompressed ← lift (decompress (ph_compression_type hdr) blob (ph_uncompressed_size hdr));
  lift (page_of_bytes page_id (ph_row_count hdr) uncompressed).
Definition load_from_disk (page_id : Z) : M Pager Page :=
  offset ← find_offset page_id;
  read_slot page_id offset.

(** Load a page that is not resident: [put_shared(make_shared(load_from_disk))]. *)
Definition load_shared (page_id : Z) : M Pager Z :=
  page ← load_from_disk page_id;
  l ← on_cache (make_shared page);
  on_cache (put_shared (Some on_cache_evict) l).

Definition get_page (page_id : Z) : M Pager Z :=
  cached ← on_cache (get_shared page_id);
  match cached with Some l => mret l | None => load_shared page_id end.

Definition get_mutable_page (page_id : Z) : M Pager Z :=
  cached ← on_cache (get_mut page_id);
  match cached with Some l => mret l | None => load_shared page_id end.

Definition new_page : M Pager Z :=
  p ← get;
  let page_id := next_page_id_ p in
  modify (pg_set_next (u32 (page_id + 1))) ;;
  l ← on_cache (make_shared (set_dirty true (new_Page page_id)));
  on_cache (put_shared (Some on_cache_evict) l).

(** The page behind a pointer, and a mutation through it. *)
Definition page_at (l : Z) : M Pager Page := on_cache (deref_page l).
Definition mutate_page {A} (l : Z) (m : M Page A) : M Pager A :=
  page ← page_at l;
  let '(o, page') := m page in
  on_cache (write_ref l (fun _ => page')) ;;
  lift o.

Definition mark_dirty (page_id : Z) : M Pager unit :=
  cached ← on_cache (get_mut page_id);
  match cached with Some l => on_cache (write_ref l (set_dirty true)) | None => mret tt end.

(** [Pager::flush_page] *)
Definition flush_page (page_id : Z) : M Pager unit :=
  cached ← on_cache (get_mut page_id);
  match cached with
  | None => mret tt
  | Some l =>
      page ← page_at l;
      if negb (p_dirty page) then mret tt else
      new_offset ← on_env (write_page_to_disk page);
      on_index (update_offsets_for_page page_id new_offset) ;;
      on_cache (write_ref l (set_dirty false))
  end.

(** The body of the second loop of [Pager::flush_all]. *)
Definition flush_dirty (page_id : Z) : M Pager unit :=
  cached ← on_cache (get_mut page_id);
  match cached with
  | None => mret tt
  | Some l =>
      page ← page_at l;
      if negb (p_dirty page) then mret tt else
      p ← get;
      let old_offset := default UINT64_MAX (page_offsets_ p !! page_id) in
      new_offset ← on_env (write_page_to_disk page);
      (if bool_decide (new_offset <> old_offset)
       then on_index (update_offsets_for_page page_id new_offset) else mret tt) ;;
      on_cache (write_ref l (set_dirty false))
  end.

(** The ids that the first loop of [flush_all] collects. *)
Definition dirty_ids (c : PageCache) : outcome (list Z) :=
  for_each_dirty (fun p ids => if p_dirty p then ids ++ [p_id p] else ids) [] c.

(** [Pager::flush_all] *)
Definition flush_all : M Pager unit :=
  p ← get;
  dirty_pages ← lift (dirty_ids (pg_cache p));
  mfor flush_dirty (merge_sort Z.le dirty_pages) ;;
  dbhdr ← on_storage read_db_header;
  p ← get;
  on_storage (write_db_header
    (mkDBHeader (h_magic dbhdr) (h_version dbhdr) (h_page_size dbhdr) (next_page_id_ p)
       (h_compression dbhdr) (h_pad dbhdr))).

Definition page_count (p : Pager) : Z := next_page_id_ p.
Definition page_offset (p : Pager) (page_id : Z) : Z := default UINT64_MAX (page_offsets_ p !! page_id).
Definition pager_cache_size (p : Pager) : Z := Z.of_nat (size (map_ (pg_cache p))).

(** One slot of a recovered page. *)
Definition index_slot (page : Page) (page_id offset slot : Z) : M Pager unit :=
  r ← lift (get_row page slot schema);
  catch (on_index (idx_insert (row_id r) (mkIndexEntry page_id offset slot)))
    (fun e => if bool_decide (e = DuplicateKeyError) then mret tt else throw e).

(** One iteration of [recover]; [false] is the [break]. *)
Definition recover_page (data_start file_sz pid : Z) : M Pager bool :=
  let offset := page_file_offset data_start pid in
  if bool_decide (u64 (offset + PAGEHEADER_SIZE) > file_sz) then mret false else
  raw ← catch (x ← on_storage (read_page_raw offset); mret (Some x)) (fun _ => mret None);
  match raw with
  | None => mret true
  | Some (hdr, blob) =>
      if bool_decide (ph_page_id hdr <> pid) then mret true else
      data ← catch (d ← lift (decompress (ph_compression_type hdr) blob (ph_uncompressed_size hdr)); mret (Some d))
               (fun _ => mret None);
      match data with
      | None => mret true
      | Some uncompressed =>
          page ← lift (page_of_bytes (ph_page_id hdr) (ph_row_count hdr) uncompressed);
          mfor (index_slot page (ph_page_id hdr) offset) (zseq (p_row_count page)) ;;
          modify (fun p => pg_set_offsets (<[ph_page_id hdr := offset]> (page_offsets_ p)) p) ;;
          modify (fun p => pg_set_next (Z.max (next_page_id_ p) (u32 (ph_page_id hdr + 1))) p) ;;
          mret true
      end
  end.

Fixpoint recover_loop (data_start file_sz : Z) (k : nat) (pid : Z) : M Pager unit :=
  match k with
  | O => mret tt
  | S k =>
      continue ← recover_page data_start file_sz pid;
      if continue : bool then recover_loop data_start file_sz k (pid + 1) else mret tt
  end.

(** [Pager::recover] *)
Definition recover : M Pager unit :=
  dbhdr ← on_storage read_db_header;
  p ← get;
  let data_start := data_start_offset (pg_storage p) in
  file_sz ← on_storage storage_file_size;
  recover_loop data_start file_sz (Z.to_nat (h_page_count dbhdr)) 0 ;;
  on_index idx_prepare.
End pager.

(** *** Specification: what the file and the pool hold *)

(** The rows of page [pid], the pages being numbered from 0. *)
Definition page_rows (pages : list (list Row)) (pid : Z) : option (list Row) :=
  if bool_decide (0 <= pid) then pages !! Z.to_nat pid else None.

Section rep.
Context {F : Type} `{FileSys F} `{LZ4Lib} (schema : Schema) (ct : CompressionType).

Definition slot (pid : Z) : Z := data_start schema + pid * PAGE_SLOT_SIZE.

(** A page that may be written: its rows fit a page, and compressed they fit a
    slot. *)
Definition storable (rows : list Row) : Prop :=
  Forall (row_ok schema) rows /\ zlen (encode_rows rows) <= PAGE_SIZE /\
  forall blob, compress ct (encode_rows rows) = Ok blob -> zlen blob <= PAGE_SIZE.

(** The slot of the page holds these rows. *)
Definition disk_image (content : bytes) (pid : Z) (rows : list Row) : Prop :=
  exists h blob, stored_at content (slot pid) h blob /\ ph_page_id h = pid /\ ph_row_count h = zlen rows /\
    ph_uncompressed_size h = zlen (encode_rows rows) /\ zlen blob <= PAGE_SIZE /\
    decompress (ph_compression_type h) blob (zlen (encode_rows rows)) = Ok (encode_rows rows).

(** The file and the offset table hold the pages [D]; a crash leaves at least the
    content [sy] of the file. *)
Record env_rep (hdr : DBHeader) (sy : bytes) (e : Storage F * gmap Z Z) (D : gmap Z (list Row)) : Prop := {
  er_up : storage_up e.1;
  er_ct : st_compression e.1 = ct;
  er_layout : db_layout (f_content (st_file e.1)) hdr schema;
  er_synced : f_synced (st_file e.1) = sy;
  er_size : zlen (f_content (st_file e.1)) <= slot (2 ^ 32);
  er_images : forall pid rows, D !! pid = Some rows ->
    0 <= pid < 2 ^ 32 /\ disk_image (f_content (st_file e.1)) pid rows /\ e.2 !! pid = Some (slot pid) /\
    Forall (row_ok schema) rows /\ zlen (encode_rows rows) <= PAGE_SIZE;
}.

(** The pool [ps] over it: every page is in the pool or up to date on disk. *)
Record pool_rep (hdr : DBHeader) (sy : bytes) (pages : list (list Row)) (ps : list Page) (e : Storage F * gmap Z Z)
    (D : gmap Z (list Row)) : Prop := {
  po_env : env_rep hdr sy e D;
  po_pages : Forall (fun p => exists rows, page_rows pages (p_id p) = Some rows /\ page_rep schema rows p /\
                       (p_dirty p = false -> D !! p_id p = Some rows)) ps;
  po_rest : forall pid rows, page_rows pages pid = Some rows -> pid ∉ (p_id <$> ps) -> D !! pid = Some rows;
  po_rows : Forall storable pages;
  po_count : zlen pages < 2 ^ 32;
}.

Definition env_of (pg : Pager F) : Storage F * gmap Z Z := (pg_storage pg, page_offsets_ pg).
Definition with_pool (c : PageCache) (e : Storage F * gmap Z Z) (pg : Pager F) : Pager F :=
  mkPager e.1 (pg_index pg) c (next_page_id_ pg) e.2.

(** The Pager stores these pages. *)
Definition pager_rep (hdr : DBHeader) (sy : bytes) (pages : list (list Row)) (pg : Pager F) : Prop :=
  next_page_id_ pg = zlen pages /\
  exists ps D, cache_rep (pg_cache pg) ps /\ pool_rep hdr sy pages ps (env_of pg) D.

(** ... and [l] points to page [pid], which was used last. *)
Definition pager_ref (hdr : DBHeader) (sy : bytes) (pages : list (list Row)) (pg : Pager F) (l pid : Z) : Prop :=
  next_page_id_ pg = zlen pages /\
  exists p ps ls D, cache_rep (pg_cache pg) (p :: ps) /\ lru_ (pg_cache pg) = l :: ls /\ p_id p = pid /\
    pool_rep hdr sy pages (p :: ps) (env_of pg) D.
End rep.

(** The places of the rows in an index; file offsets do not matter. *)
Definition loc_of (en : IndexEntry) : Z * Z := (page_id en, row_slot en).
Definition locs (i : IndexManager) : gmap Z (Z * Z) := loc_of <$> idx_map i.

(** The row with this id is in this slot of this page. *)
Definition row_at (pages : list (list Row)) (id pid slot : Z) : Prop :=
  exists rows r, page_rows pages pid = Some rows /\ 0 <= slot /\ rows !! Z.to_nat slot = Some r /\ row_id r = id.

Definition row_ids (pages : list (list Row)) : list Z := row_id <$> concat pages.

(** The index places exactly the rows of the pages. *)
Definition index_rep (pages : list (list Row)) (i : IndexManager) : Prop :=
  idx_wf i /\ forall id pid slot, locs i !! id = Some (pid, slot) <-> row_at pages id pid slot.

(** A file with all the pages on it. *)
Record on_disk `{LZ4Lib} (schema : Schema) (hdr : DBHeader) (pages : list (list Row)) (content : bytes) : Prop := {
  od_layout : db_layout content hdr schema;
  od_count : h_page_count hdr = zlen pages;
  od_size : zlen content <= slot schema (2 ^ 32);
  od_images : forall pid rows, page_rows pages pid = Some rows -> disk_image schema content pid rows;
}.

Definition header_count (n : Z) (h : DBHeader) : DBHeader :=
  mkDBHeader (h_magic h) (h_version h) (h_page_size h) n (h_compression h) (h_pad h).

(** ** Lemmas *)

Lemma page_rows_range pages pid rows : page_rows pages pid = Some rows -> 0 <= pid < zlen pages.
Proof. unfold page_rows. case_bool_decide; [|done]. intros Hl%lookup_lt_Some. lia. Qed.

Lemma page_rows_lookup pages (i : nat) : page_rows pages (Z.of_nat i) = pages !! i.
Proof. unfold page_rows. rewrite bool_decide_eq_true_2 by lia. by rewrite Nat2Z.id. Qed.

Lemma page_rows_Some pages pid : 0 <= pid < zlen pages -> is_Some (page_rows pages pid).
Proof. intros H. unfold page_rows. rewrite bool_decide_eq_true_2 by lia. apply lookup_lt_is_Some_2. lia. Qed.

Lemma page_rows_insert pages pid rows q :
  0 <= pid < zlen pages ->
  page_rows (<[Z.to_nat pid := rows]> pages) q = if bool_decide (q = pid) then Some rows else page_rows pages q.
Proof.
  intros Hp. unfold page_rows. destruct (decide (q = pid)) as [->|Hne].
  - rewrite !bool_decide_eq_true_2 by lia. apply list_lookup_insert_eq. lia.
  - rewrite (bool_decide_eq_false_2 (q = pid)) by done. case_bool_decide; [|done].
    apply list_lookup_insert_ne. lia.
Qed.

Lemma page_rows_snoc pages rows q :
  page_rows (pages ++ [rows]) q = if bool_decide (q = zlen pages) then Some rows else page_rows pages q.
Proof.
  unfold page_rows. destruct (decide (q = zlen pages)) as [->|Hne].
  - rewrite !bool_decide_eq_true_2 by lia. rewrite Nat2Z.id, lookup_app_r, Nat.sub_diag by lia. done.
  - rewrite (bool_decide_eq_false_2 (q = _)) by done. case_bool_decide; [|done].
    destruct (decide (Z.to_nat q < length pages)%nat); [by rewrite lookup_app_l|].
    rewrite (lookup_ge_None_2 pages) by lia. apply lookup_ge_None_2. rewrite length_app. cbn. lia.
Qed.

Lemma page_rows_elem pages pid rows : page_rows pages pid = Some rows -> rows ∈ pages.
Proof. unfold page_rows. case_bool_decide; [|done]. apply list_elem_of_lookup_2. Qed.

Lemma encode_rows_count rows : 8 * zlen rows <= zlen (encode_rows rows).
Proof.
  induction rows as [|r rows IH]; [done|]. rewrite encode_rows_cons, length_app.
  pose proof (length_encode_row_pos r). cbn [length]. lia.
Qed.

(** Stored bytes make the page of their rows. *)
Lemma page_of_bytes_run schema pid rows :
  Forall (row_ok schema) rows -> zlen (encode_rows rows) <= PAGE_SIZE ->
  exists p, page_of_bytes pid (zlen rows) (encode_rows rows) = Ok p /\ p_id p = pid /\ p_dirty p = false /\
    page_rep schema rows p /\ p_row_count p = zlen rows.
Proof.
  intros Hr Hs. unfold PAGE_SIZE in Hs. unfold page_of_bytes.
  erewrite rebuild_row_offsets_run; [|done|done|cbn; lia|exact Hr]. eexists. split; [reflexivity|].
  split_and!; try done. split; cbn; try done. lia.
Qed.

Section pager_runs.
Context {F : Type} `{FileLaws F} `{!FileReliable F} `{!PreadWhole F} `{LZ4Laws}.
Context (schema : Schema) (ct : CompressionType) (hdr : DBHeader) (sy : bytes).
#[local] Abbreviation slot := (slot schema).
#[local] Abbreviation env_rep := (env_rep schema ct hdr sy).
#[local] Abbreviation pool_rep := (pool_rep schema ct hdr sy).
#[local] Abbreviation pager_rep := (pager_rep schema ct hdr sy).
#[local] Abbreviation pager_ref := (pager_ref schema ct hdr sy).
#[local] Abbreviation storable := (storable schema ct).
Implicit Types (e : Storage F * gmap Z Z) (pg : Pager F).

Lemma data_start_range e D : env_rep e D -> 24 <= data_start schema <= 65560.
Proof. intros He. pose proof (lay_small _ _ _ (er_layout _ _ _ _ _ _ He)). unfold data_start, DBHEADER_SIZE. lia. Qed.

Lemma page_file_offset_run pid :
  24 <= data_start schema <= 65560 -> 0 <= pid < 2 ^ 32 -> page_file_offset (data_start schema) pid = slot pid.
Proof.
  intros Hd Hp. unfold page_file_offset, slot, u64. apply Z.mod_small. unfold PAGE_SLOT_SIZE, PAGEHEADER_SIZE, PAGE_SIZE. lia.
Qed.

(** Slots of different pages do not overlap. *)
Lemma disk_image_write content pid rows q bs :
  24 <= data_start schema -> 0 <= q -> 0 <= pid -> q <> pid -> zlen bs <= PAGE_SLOT_SIZE ->
  disk_image schema content pid rows -> disk_image schema (file_write (slot q) bs content) pid rows.
Proof.
  clear. intros Hd Hq Hp Hne Hbs (h & blob & Hst & Hb1 & Hb2 & Hb3 & Hb4 & Hb5). exists h, blob. split_and!; try done.
  unfold slot, PAGE_SLOT_SIZE, PAGEHEADER_SIZE, PAGE_SIZE in *.
  apply stored_at_write; [lia| |done]. unfold PAGEHEADER_SIZE. destruct (Z_lt_le_dec q pid); [right|left]; lia.
Qed.

(** [write_page_to_disk] puts the rows of the page into its slot. *)
Lemma write_page_run e D p rows :
  env_rep e D -> page_rep schema rows p -> 0 <= p_id p < 2 ^ 32 -> storable rows ->
  exists e', write_page_to_disk p e = (Ok (slot (p_id p)), e') /\ env_rep e' (<[p_id p := rows]> D) /\
    e'.2 = <[p_id p := slot (p_id p)]> e.2.
Proof.
  intros He Hp Hid (Hrows & Hsz & Hfit). pose proof (data_start_range _ _ He) as Hds.
  destruct He as [Hup Hct Hlay Hsy Hfs Him]. unfold PAGE_SIZE in Hsz.
  destruct (compress_roundtrip ct (encode_rows rows)) as (c & Hc & Hdec & Hb & Hc31); [lia|].
  specialize (Hfit c Hc). unfold write_page_to_disk. rewrite (M_bind_ok get _ _ _ _ eq_refl). cbv zeta.
  rewrite Hct, (rep_data _ _ _ Hp), (rep_count _ _ _ Hp).
  unfold lift. rewrite (M_bind_ok _ _ e c e) by (by rewrite Hc).
  rewrite (data_start_run e.1 hdr schema Hup Hlay), page_file_offset_run by done.
  unfold PAGE_SIZE in Hfit. unfold u32. rewrite !Z.mod_small by lia.
  set (h := mkPageHeader _ _ _ _ _).
  assert (Hh : page_header_ok h).
  { pose proof (encode_rows_count rows). unfold page_header_ok, h; cbn. destruct ct; cbn; lia. }
  destruct (overwrite_page_raw_run e.1 (slot (p_id p)) h c Hup) as (s' & Hr & Hup' & Hct' & Hsy' & Hst & Hcn);
    [unfold slot, PAGE_SLOT_SIZE, PAGEHEADER_SIZE, PAGE_SIZE; lia|done|done|].
  rewrite (M_bind_ok _ _ _ _ _ (zoom_ok fst (fun s e => (s, e.2)) _ e _ _ Hr)).
  rewrite (M_bind_ok (modify _) _ _ _ _ eq_refl). eexists. split; [reflexivity|]. split; [|done]. cbn [fst snd].
  assert (Hlen : zlen (encode_PageHeader h ++ c) <= PAGE_SLOT_SIZE).
  { rewrite length_app, length_encode_PageHeader. unfold PAGE_SLOT_SIZE, PAGEHEADER_SIZE, PAGE_SIZE. lia. }
  split; cbn [fst snd]; [done|congruence| |congruence| |].
  - rewrite Hcn. apply layout_write; [|done]. unfold slot, PAGE_SLOT_SIZE, PAGEHEADER_SIZE, PAGE_SIZE. lia.
  - revert Hlen Hfs. rewrite Hcn, length_file_write by (unfold slot, PAGE_SLOT_SIZE, PAGEHEADER_SIZE, PAGE_SIZE; lia).
    unfold slot, PAGE_SLOT_SIZE, PAGEHEADER_SIZE, PAGE_SIZE. lia.
  - intros pid rows' Hl. destruct (decide (pid = p_id p)) as [->|Hne].
    + rewrite lookup_insert_eq in Hl. injection Hl as <-. split_and!; try done; try lia.
      * exists h, c. split_and!; [exact Hst|done|done|done|unfold PAGE_SIZE; lia|exact Hdec].
      * by rewrite lookup_insert_eq.
    + rewrite lookup_insert_ne in Hl by done. destruct (Him pid rows' Hl) as (Hr1 & Hr2 & Hr3 & Hr4 & Hr5).
      split_and!; try done; try lia.
      * rewrite Hcn. apply disk_image_write; try done; lia.
      * by rewrite lookup_insert_ne.
Qed.

Lemma on_cache_evict_id p e p' e' : on_cache_evict p e = (Ok p', e') -> p_id p' = p_id p.
Proof.
  unfold on_cache_evict. destruct (p_dirty p); [|by intros [= <- _]]. unfold mbind, M_bind.
  destruct (write_page_to_disk p e) as [[o|x|] e1]; [|done..]. by intros [= <- _].
Qed.

Lemma evict_cb_id (cb : Page -> M (Storage F * gmap Z Z) Page) p e p' e' :
  Some (@on_cache_evict F _ _) = Some cb -> cb p e = (Ok p', e') -> p_id p' = p_id p.
Proof. intros [= <-]. apply on_cache_evict_id. Qed.

(** Reading a page back. *)
Lemma read_slot_run pg D pid rows :
  env_rep (env_of pg) D -> D !! pid = Some rows ->
  exists p, read_slot pid (slot pid) pg = (Ok p, pg) /\ p_id p = pid /\ p_dirty p = false /\ page_rep schema rows p.
Proof.
  intros [Hup Hct Hlay Hsy Hfs Him] Hl. destruct (Him pid rows Hl) as (Hpid & (h & blob & Hst & Hb1 & Hb2 & Hb3 & Hb4 & Hb5) & Ho & Hr & Hsz).
  cbn [env_of fst snd] in *. unfold read_slot.
  rewrite (M_bind_ok _ _ _ (h, blob) pg).
  2: { unfold on_storage. erewrite zoom_ok by (apply read_page_raw_run; done). by destruct pg. }
  unfold lift. rewrite Hb3. rewrite (M_bind_ok _ _ pg (encode_rows rows) pg) by (by rewrite Hb5).
  destruct (page_of_bytes_run schema pid rows Hr Hsz) as (p & Hp & Hid & Hd & Hrep & _).
  exists p. rewrite Hb2, Hp. done.
Qed.

Lemma find_offset_run pid o pg : page_offsets_ pg !! pid = Some o -> find_offset pid pg = (Ok o, pg).
Proof. intros Ho. unfold find_offset. by rewrite (M_bind_ok get _ _ _ _ eq_refl), Ho. Qed.

Lemma load_from_disk_run pg D pid rows :
  env_rep (env_of pg) D -> D !! pid = Some rows ->
  exists p, load_from_disk pid pg = (Ok p, pg) /\ p_id p = pid /\ p_dirty p = false /\ page_rep schema rows p.
Proof.
  intros He Hl. pose proof (er_images _ _ _ _ _ _ He pid rows Hl) as (_ & _ & Ho & _). unfold load_from_disk.
  rewrite (M_bind_ok _ _ _ _ _ (find_offset_run pid (slot pid) pg Ho)). by eapply read_slot_run.
Qed.

(** *** The pool *)

Lemma pool_perm pages ps ps' e D : ps ≡ₚ ps' -> pool_rep pages ps e D -> pool_rep pages ps' e D.
Proof.
  clear. intros Hp [He Hps Hrest Hst Hn]. split; try done; [by rewrite <- Hp|].
  intros pid rows Hr Hn'. apply Hrest; [done|]. by rewrite Hp.
Qed.

Lemma pool_page pages ps e D p :
  pool_rep pages ps e D -> p ∈ ps ->
  exists rows, page_rows pages (p_id p) = Some rows /\ page_rep schema rows p /\ storable rows /\
    0 <= p_id p < 2 ^ 32 /\ (p_dirty p = false -> D !! p_id p = Some rows).
Proof.
  clear. intros [He Hps Hrest Hst Hn] Hp. rewrite Forall_forall in Hps. destruct (Hps p Hp) as (rows & Hr & Hrep & Hd).
  exists rows. pose proof (page_rows_range _ _ _ Hr). rewrite Forall_forall in Hst.
  split_and!; try done; try lia. apply Hst. by eapply page_rows_elem.
Qed.

(** Writing a pool page to disk keeps the representation. *)
Lemma pool_write pages ps e D p rows e' :
  pool_rep pages ps e D -> page_rows pages (p_id p) = Some rows -> env_rep e' (<[p_id p := rows]> D) ->
  pool_rep pages ps e' (<[p_id p := rows]> D).
Proof.
  clear. intros [He Hps Hrest Hst Hn] Hr He'. split; try done.
  - eapply Forall_impl; [exact Hps|]. intros q (rows' & Hr' & Hrep & Hd). exists rows'. split_and!; try done.
    intros Hc. destruct (decide (p_id q = p_id p)) as [Heq|Hne].
    + rewrite Heq in *. rewrite lookup_insert_eq. congruence.
    + rewrite lookup_insert_ne by done. by apply Hd.
  - intros pid rows' Hr' Hni. destruct (decide (pid = p_id p)) as [->|Hne].
    + rewrite lookup_insert_eq. congruence.
    + rewrite lookup_insert_ne by done. by apply Hrest.
Qed.

(** A page that is up to date on disk may leave the pool. *)
Lemma pool_drop pages ps p e D rows :
  pool_rep pages (ps ++ [p]) e D -> page_rows pages (p_id p) = Some rows -> D !! p_id p = Some rows ->
  pool_rep pages ps e D.
Proof.
  clear. intros [He Hps Hrest Hst Hn] Hr HD. apply Forall_app in Hps as [Hps _]. split; try done.
  intros pid rows' Hr' Hni. destruct (decide (pid = p_id p)) as [->|Hne]; [congruence|].
  apply Hrest; [done|]. rewrite fmap_app, elem_of_app. intros [Hi|Hi]; [done|]. by apply list_elem_of_singleton in Hi.
Qed.

Lemma release_pool pages ps e D p :
  pool_rep pages ps e D -> p ∈ ps ->
  exists p' e' D' rows, spec_release (Some on_cache_evict) p e = (Ok p', e') /\ pool_rep pages ps e' D' /\
    page_rows pages (p_id p) = Some rows /\ D' !! p_id p = Some rows.
Proof.
  intros Hpool Hp. destruct (pool_page _ _ _ _ _ Hpool Hp) as (rows & Hr & Hrep & Hst & Hid & Hd).
  unfold spec_release, on_cache_evict. destruct (p_dirty p) eqn:Ed.
  - destruct (write_page_run e D p rows (po_env _ _ _ _ _ _ _ _ Hpool) Hrep Hid Hst) as (e' & Hw & He' & _).
    rewrite (M_bind_ok _ _ _ _ _ Hw). exists (set_dirty false p), e', (<[p_id p := rows]> D), rows.
    split_and!; [done|by eapply pool_write|done|by rewrite lookup_insert_eq].
  - exists p, e, D, rows. split_and!; try done. by apply Hd.
Qed.

Lemma room_pool pages ps e D k :
  pool_rep pages ps e D ->
  exists ps' e' D', spec_room (Some on_cache_evict) k (ps, e) = (Ok tt, (ps', e')) /\ pool_rep pages ps' e' D'.
Proof.
  intros Hpool. unfold spec_room. case_bool_decide; [|by exists ps, e, D].
  destruct (last ps) as [p|] eqn:El; [|by exists ps, e, D].
  apply last_Some in El as [ps' ->]. rewrite removelast_last.
  destruct (release_pool pages (ps' ++ [p]) e D p Hpool) as (p' & e' & D' & rows & Hr & Hpool' & Hrows & HD).
  { apply elem_of_app. right. by left. }
  unfold release_into. rewrite Hr. exists ps', e', D'. split; [done|]. by eapply pool_drop.
Qed.

(** A page enters the pool. *)
Lemma pool_push pages ps e D p rows :
  pool_rep pages ps e D -> page_rows pages (p_id p) = Some rows -> page_rep schema rows p ->
  (p_dirty p = false -> D !! p_id p = Some rows) -> pool_rep pages (p :: ps) e D.
Proof.
  clear. intros [He Hps Hrest Hst Hn] Hr Hrep Hd. split; try done.
  - constructor; [by exists rows|done].
  - intros pid rows' Hr' Hni. rewrite fmap_cons, not_elem_of_cons in Hni. apply Hrest; tauto.
Qed.

(** A write through a reference: the rows of the page change. *)
Lemma pool_update pages ps e D p p' rows' :
  pool_rep pages (p :: ps) e D -> p_id p' = p_id p -> p_dirty p' = true -> page_rep schema rows' p' ->
  NoDup (p_id <$> p :: ps) -> storable rows' ->
  pool_rep (<[Z.to_nat (p_id p) := rows']> pages) (p' :: ps) e D.
Proof.
  clear. intros Hpool Hid Hd Hrep Hnd Hst'. destruct (pool_page pages (p :: ps) e D p Hpool ltac:(by left)) as (rows & Hr & _).
  pose proof (page_rows_range _ _ _ Hr) as Hrange. destruct Hpool as [He Hps Hrest Hst Hn].
  rewrite fmap_cons in Hnd. apply NoDup_cons in Hnd as [Hni Hnd].
  apply Forall_cons in Hps as [_ Hps]. split; try done.
  - constructor.
    + exists rows'. rewrite Hid, page_rows_insert, bool_decide_eq_true_2 by done. split_and!; [done|done|congruence].
    + rewrite Forall_forall in Hps |- *. intros q Hq. destruct (Hps q Hq) as (rows2 & Hr2 & Hrep2 & Hd2).
      exists rows2. rewrite page_rows_insert by done. rewrite bool_decide_eq_false_2; [done|].
      intros Heq. apply Hni. rewrite <- Heq. by apply list_elem_of_fmap_2.
  - intros pid rows2. rewrite page_rows_insert by done. rewrite fmap_cons, Hid, not_elem_of_cons. intros Hr2 [Hne Hni2].
    rewrite bool_decide_eq_false_2 in Hr2 by done. apply Hrest; [done|]. rewrite fmap_cons, not_elem_of_cons. done.
  - apply Forall_insert; done.
  - by rewrite length_insert.
Qed.

(** *** Operations *)

Lemma storable_small rows :
  Forall (row_ok schema) rows -> zlen (encode_rows rows) <= 8144 -> storable rows.
Proof.
  clear -H2. intros Hr Hs. unfold PAGE_SIZE in *. split_and!; [done|unfold PAGE_SIZE; lia|].
  intros blob Hb. destruct (compress_roundtrip ct (encode_rows rows)) as (c & Hc & _ & Hle & _); [lia|].
  assert (blob = c) as -> by congruence. unfold PAGE_SIZE. destruct ct; [lia|].
  rewrite lz4_bound_law in Hle by lia. revert Hle. Z.to_euclidean_division_equations. lia.
Qed.

Lemma storable_none rows :
  ct = CNone -> Forall (row_ok schema) rows -> zlen (encode_rows rows) <= PAGE_SIZE -> storable rows.
Proof. clear. intros -> Hr Hs. split_and!; [done|done|]. by intros blob [= <-]. Qed.

Lemma storable_nil : storable [].
Proof. apply storable_small; [constructor|done]. Qed.

Lemma env_of_pool c e pg : env_of (with_pool c e pg) = e.
Proof. by destruct e. Qed.

Lemma with_pool_id pg : with_pool (pg_cache pg) (env_of pg) pg = pg.
Proof. by destruct pg. Qed.

Lemma on_cache_ok {A} (m : M (PageCache * (Storage F * gmap Z Z)) A) pg a c' e' :
  m (pg_cache pg, env_of pg) = (Ok a, (c', e')) -> on_cache m pg = (Ok a, with_pool c' e' pg).
Proof. intros Hm. unfold on_cache, zoom. unfold env_of in Hm. by rewrite Hm. Qed.

Lemma pager_ref_rep pages pg l pid : pager_ref pages pg l pid -> pager_rep pages pg.
Proof. intros (Hn & p & ps & ls & D & Hc & _ & _ & Hp). split; [done|]. by exists (p :: ps), D. Qed.

Lemma lru_find_elem pid ps p : lru_find pid ps = Some p -> NoDup (p_id <$> ps) -> p ∈ ps /\ p :: lru_without pid ps ≡ₚ ps /\ p_id p = pid.
Proof.
  clear. intros Hf Hnd. destruct (lru_find_split _ _ _ Hf Hnd) as (l1 & l2 & -> & Hid & Hw). rewrite Hw.
  split_and!; [set_solver|apply Permutation_middle|done].
Qed.

(** A lookup that hits. *)
Lemma touch_ref pages pg ps D pid p :
  next_page_id_ pg = zlen pages -> cache_rep (pg_cache pg) ps -> pool_rep pages ps (env_of pg) D ->
  lru_find pid ps = Some p ->
  exists l pg', on_cache (cache_touch pid) pg = (Ok (Some l), pg') /\ pager_ref pages pg' l pid /\
    pg_index pg' = pg_index pg.
Proof.
  intros Hn Hc Hpool Hf. destruct (touch_hit (pg_cache pg) (env_of pg) ps pid p Hc Hf) as (l & Hr & Hh & Hc' & Hl).
  destruct (lru_find_elem pid ps p Hf (rep_ids _ _ Hc)) as (Hp & Hperm & Hid).
  exists l, (with_pool (splice_front l (pg_cache pg)) (env_of pg) pg). split_and!; [by apply on_cache_ok| |done].
  split; [done|]. exists p, (lru_without pid ps). do 2 eexists. split_and!; [done|done|done|].
  rewrite env_of_pool. eapply pool_perm; [by symmetry|exact Hpool].
Qed.

(** A lookup that misses loads the page. *)
Lemma load_shared_run pages pg ps D pid rows :
  next_page_id_ pg = zlen pages -> cache_rep (pg_cache pg) ps -> pool_rep pages ps (env_of pg) D ->
  lru_find pid ps = None -> page_rows pages pid = Some rows ->
  exists l pg', load_shared pid pg = (Ok l, pg') /\ pager_ref pages pg' l pid /\ pg_index pg' = pg_index pg.
Proof.
  intros Hn Hc Hpool Hf Hr. pose proof Hf as Hni%lru_find_None. pose proof (po_rest _ _ _ _ _ _ _ _ Hpool pid rows Hr Hni) as HD.
  destruct (load_from_disk_run pg D pid rows (po_env _ _ _ _ _ _ _ _ Hpool) HD) as (p & Hload & Hid & Hd & Hrep).
  unfold load_shared. rewrite (M_bind_ok _ _ _ _ _ Hload).
  set (c1 := (alloc_page p (pg_cache pg)).2). set (l := next_loc (pg_cache pg)).
  rewrite (M_bind_ok _ _ _ _ _ (on_cache_ok _ pg l c1 (env_of pg) (make_shared_run _ _ p))).
  set (pg1 := with_pool c1 (env_of pg) pg).
  pose proof (alloc_rep _ ps p Hc) as Hc1. fold c1 in Hc1.
  assert (Hl : l ∉ lru_ c1) by (intros Hin; apply (cache_rep_caps _ ps Hc) in Hin; unfold l in *; lia).
  pose proof (put_shared_run (Some on_cache_evict) evict_cb_id c1 (env_of pg) ps l p Hc1) as Hput.
  specialize (Hput ltac:(unfold c1, l; cbn; by rewrite lookup_insert_eq) Hl). rewrite Hid, Hf in Hput.
  destruct (room_pool pages ps (env_of pg) D (capacity_ c1) Hpool) as (ps' & e' & D' & Hroom & Hpool').
  rewrite Hroom in Hput. destruct Hput as (c' & Hrun & Hh & Hc' & (ls & Hls) & _).
  exists l, (with_pool c' e' pg1). split_and!; [|..].
  - apply on_cache_ok. unfold pg1. rewrite env_of_pool. exact Hrun.
  - split; [done|]. exists p, ps', ls, D'. split_and!; [done|done|done|]. rewrite env_of_pool.
    apply (pool_push pages ps' e' D' p rows); [done|by rewrite Hid|done|]. intros _. rewrite Hid.
    eapply po_rest; [exact Hpool'|done|]. pose proof (rep_ids _ _ Hc') as Hnd. rewrite fmap_cons in Hnd.
    apply NoDup_cons in Hnd as [Hnd _]. by rewrite Hid in Hnd.
  - done.
Qed.

Lemma get_page_run pages pg pid rows :
  pager_rep pages pg -> page_rows pages pid = Some rows ->
  exists l pg', get_page pid pg = (Ok l, pg') /\ pager_ref pages pg' l pid /\ pg_index pg' = pg_index pg.
Proof.
  intros (Hn & ps & D & Hc & Hpool) Hr. unfold get_page, get_shared.
  destruct (lru_find pid ps) as [p|] eqn:Hf.
  - destruct (touch_ref pages pg ps D pid p Hn Hc Hpool Hf) as (l & pg' & Hrun & Href & Hi).
    rewrite (M_bind_ok _ _ _ _ _ Hrun). by exists l, pg'.
  - rewrite (M_bind_ok _ _ _ _ _ (on_cache_ok _ pg None _ _ (touch_miss _ _ ps pid Hc Hf))). rewrite with_pool_id.
    by eapply load_shared_run.
Qed.

Lemma get_mutable_page_run pages pg pid rows :
  pager_rep pages pg -> page_rows pages pid = Some rows ->
  exists l pg', get_mutable_page pid pg = (Ok l, pg') /\ pager_ref pages pg' l pid /\ pg_index pg' = pg_index pg.
Proof. apply get_page_run. Qed.

(** Reading through a reference. *)
Lemma page_at_run pages pg l pid rows :
  pager_ref pages pg l pid -> page_rows pages pid = Some rows ->
  exists p, page_at l pg = (Ok p, pg) /\ page_rep schema rows p /\ p_id p = pid.
Proof.
  intros (Hn & p & ps & ls & D & Hc & Hl & Hid & Hpool) Hr. exists p. split_and!; [| |done].
  - unfold page_at. erewrite on_cache_ok; [by rewrite with_pool_id|].
    destruct (rep_split _ [] p ps Hc) as (n1 & l' & n2 & Hl' & Hlen & _ & Hh & _). destruct n1; [|done].
    rewrite Hl in Hl'. injection Hl' as <- _. by apply deref_page_run.
  - destruct (pool_page pages (p :: ps) (env_of pg) D p Hpool ltac:(by left)) as (rows' & Hr' & Hrep & _).
    rewrite Hid in Hr'. assert (rows' = rows) as -> by congruence. done.
Qed.

(** Writing through a reference. *)
Lemma mutate_page_run {A} (m : M Page A) pages pg l pid rows rows' a :
  pager_ref pages pg l pid -> page_rows pages pid = Some rows -> storable rows' ->
  (forall p, page_rep schema rows p -> p_id p = pid ->
     exists p', m p = (Ok a, p') /\ page_rep schema rows' p' /\ p_id p' = pid /\ p_dirty p' = true) ->
  exists pg', mutate_page l m pg = (Ok a, pg') /\ pager_ref (<[Z.to_nat pid := rows']> pages) pg' l pid /\
    pg_index pg' = pg_index pg.
Proof.
  intros Href Hr Hst Hm. destruct (page_at_run _ _ _ _ _ Href Hr) as (p & Hp & Hrep & Hid).
  destruct (Hm p Hrep Hid) as (p' & Hrun & Hrep' & Hid' & Hd').
  destruct Href as (Hn & q & ps & ls & D & Hc & Hl & Hidq & Hpool).
  destruct (rep_split _ [] q ps Hc) as (n1 & l' & n2 & Hl' & Hlen & _ & Hh & _). destruct n1; [|done].
  pose proof Hl as Hl2. rewrite Hl in Hl'. injection Hl' as <- <-.
  assert (q = p) as ->.
  { unfold page_at in Hp. erewrite on_cache_ok in Hp by (by apply deref_page_run). congruence. }
  unfold mutate_page. rewrite (M_bind_ok _ _ _ _ _ Hp), Hrun.
  set (c2 := set_heap (<[l := p']> (heap (pg_cache pg))) (pg_cache pg)).
  rewrite (M_bind_ok _ _ _ _ _ (on_cache_ok (write_ref l (fun _ => p')) pg tt c2 (env_of pg)
    ltac:(unfold write_ref; by rewrite (M_bind_ok _ _ _ _ _ (deref_page_run _ _ l p Hh))))).
  eexists. split; [reflexivity|]. split; [|done]. split; [by rewrite length_insert|].
  exists p', ps, ls, D. split_and!; [|done|done|].
  - apply (write_heap_rep (pg_cache pg) [] p ps [] l ls p' Hc Hl2 eq_refl). congruence.
  - rewrite env_of_pool. rewrite <- Hid. apply pool_update with (p := p); [done|congruence|done|done|apply Hc|done].
Qed.

(** [new_page] *)
Lemma new_page_run pages pg :
  pager_rep pages pg -> zlen pages + 1 < 2 ^ 32 ->
  exists l pg', new_page pg = (Ok l, pg') /\ pager_ref (pages ++ [[]]) pg' l (zlen pages) /\
    pg_index pg' = pg_index pg.
Proof.
  intros (Hn & ps & D & Hc & Hpool) Hlt. unfold new_page. rewrite (M_bind_ok get _ _ _ _ eq_refl). cbv zeta.
  rewrite (M_bind_ok (modify _) _ _ _ _ eq_refl). rewrite Hn. unfold u32. rewrite Z.mod_small by lia.
  set (pg0 := pg_set_next _ pg). set (p := set_dirty true _).
  set (c1 := (alloc_page p (pg_cache pg)).2). set (l := next_loc (pg_cache pg)).
  rewrite (M_bind_ok _ _ _ _ _ (on_cache_ok _ pg0 l c1 (env_of pg) (make_shared_run _ _ p))).
  set (pg1 := with_pool c1 (env_of pg) pg0).
  pose proof (alloc_rep _ ps p Hc) as Hc1. fold c1 in Hc1.
  assert (Hl : l ∉ lru_ c1) by (intros Hin; apply (cache_rep_caps _ ps Hc) in Hin; unfold l in *; lia).
  assert (Hf : lru_find (p_id p) ps = None).
  { destruct (lru_find (p_id p) ps) as [q|] eqn:Ef; [|done]. exfalso.
    destruct (lru_find_elem _ _ _ Ef (rep_ids _ _ Hc)) as (Hq & _ & Hid).
    destruct (pool_page pages ps _ D q Hpool Hq) as (rows & Hr & _). apply page_rows_range in Hr. cbn in Hid. lia. }
  pose proof (put_shared_run (Some on_cache_evict) evict_cb_id c1 (env_of pg) ps l p Hc1) as Hput.
  specialize (Hput ltac:(unfold c1, l; cbn; by rewrite lookup_insert_eq) Hl). rewrite Hf in Hput.
  destruct (room_pool pages ps (env_of pg) D (capacity_ c1) Hpool) as (ps' & e' & D' & Hroom & Hpool').
  rewrite Hroom in Hput. destruct Hput as (c' & Hrun & Hh & Hc' & (ls & Hls) & _).
  exists l, (with_pool c' e' pg1). split_and!; [|..].
  - apply on_cache_ok. unfold pg1. rewrite env_of_pool. exact Hrun.
  - split; [rewrite length_app; cbn; lia|]. exists p, ps', ls, D'. split_and!; [done|done|done|]. rewrite env_of_pool.
    destruct Hpool' as [He Hps Hrest Hst Hcount]. split.
    + done.
    + constructor.
      * exists []. rewrite page_rows_snoc, bool_decide_eq_true_2 by done. split_and!; [done|split; try done; constructor|done].
      * eapply Forall_impl; [exact Hps|]. intros q (rows & Hr & Hrep & Hd). exists rows.
        rewrite page_rows_snoc, bool_decide_eq_false_2; [done|]. apply page_rows_range in Hr. lia.
    + intros pid rows. rewrite page_rows_snoc, fmap_cons, not_elem_of_cons. cbn [p p_id set_dirty new_Page].
      case_bool_decide as Heq; [tauto|]. intros Hr [_ Hni]. by apply Hrest.
    + apply Forall_app. split; [done|]. constructor; [apply storable_nil|constructor].
    + rewrite length_app. cbn [length]. lia.
  - done.
Qed.

(** *** Flushing *)

(** The dirty pages are among the ids collected. *)
Lemma dirty_ids_run c ps :
  cache_rep c ps -> exists ids, dirty_ids c = Ok ids /\ forall p, p ∈ ps -> p_dirty p = true -> p_id p ∈ ids.
Proof.
  clear. intros Hc. unfold dirty_ids, for_each_dirty.
  assert (Hgen : forall (kvs : list (Z * Z)) (ids0 : list Z),
    (forall pid l, (pid, l) ∈ kvs -> exists p, heap c !! l = Some p) ->
    exists ids, foldl (fun acc kv => b ← acc; p ← deref c kv.2;
        Ok (if p_dirty p then (if p_dirty p then b ++ [p_id p] else b) else b)) (Ok ids0) kvs = Ok ids /\
      (forall x, x ∈ ids0 -> x ∈ ids) /\
      (forall pid l p, (pid, l) ∈ kvs -> heap c !! l = Some p -> p_dirty p = true -> p_id p ∈ ids)).
  { induction kvs as [|[pid l] kvs IH]; intros ids0 Hk.
    - exists ids0. split_and!; [done|done|]. intros ??? Hin. by apply not_elem_of_nil in Hin.
    - destruct (Hk pid l) as [p Hp]; [by left|]. cbn [foldl mbind outcome_bind snd]. unfold deref at 2. rewrite Hp.
      cbn [mbind outcome_bind]. destruct (IH (if p_dirty p then if p_dirty p then ids0 ++ [p_id p] else ids0 else ids0))
        as (ids & Hr & Hsub & Hall); [intros; eapply Hk; by right|].
      exists ids. split_and!; [exact Hr| |].
      + intros x Hx. apply Hsub. destruct (p_dirty p); [|done]. apply elem_of_app. by left.
      + intros q m r Hin Hh Hd. apply elem_of_cons in Hin as [[= -> ->]|Hin]; [|by eapply Hall].
        assert (r = p) as -> by congruence. apply Hsub. rewrite Hd. apply elem_of_app. right. by left. }
  destruct (Hgen (map_to_list (map_ c)) []) as (ids & Hr & _ & Hall).
  { intros pid l Hin. apply elem_of_map_to_list in Hin. rewrite (rep_map _ _ Hc) in Hin.
    apply elem_of_list_to_map_2, elem_of_zip_r in Hin. apply list_elem_of_lookup in Hin as [j Hj].
    destruct (Forall2_lookup_l _ _ _ _ _ (rep_pages _ _ Hc) Hj) as (p & _ & Hp). by exists p. }
  exists ids. split; [exact Hr|]. intros p Hp Hd. apply list_elem_of_split in Hp as (l1 & l2 & ->).
  destruct (rep_split c l1 p l2 Hc) as (n1 & l & n2 & _ & _ & _ & Hh & Hm & _). eapply Hall; [|exact Hh|exact Hd].
  apply elem_of_map_to_list. exact Hm.
Qed.

Lemma locs_move i i' page off : idx_map i' = move_page page off <$> idx_map i -> locs i' = locs i.
Proof.
  clear. intros Hm. unfold locs. rewrite Hm, <- map_fmap_compose. apply map_fmap_ext. intros id en _. cbn.
  unfold move_page. by case_bool_decide.
Qed.

Lemma on_env_ok {A} (m : M (Storage F * gmap Z Z) A) pg a e' :
  m (env_of pg) = (Ok a, e') -> on_env m pg = (Ok a, with_pool (pg_cache pg) e' pg).
Proof. intros Hm. unfold on_env, zoom. unfold env_of in Hm. by rewrite Hm. Qed.

(** One iteration: the page is clean, or written and then clean. *)
Lemma flush_dirty_run pages pg ps D pid :
  next_page_id_ pg = zlen pages -> cache_rep (pg_cache pg) ps -> pool_rep pages ps (env_of pg) D -> idx_wf (pg_index pg) ->
  exists pg' ps' D', flush_dirty pid pg = (Ok tt, pg') /\ next_page_id_ pg' = zlen pages /\
    cache_rep (pg_cache pg') ps' /\ pool_rep pages ps' (env_of pg') D' /\
    idx_wf (pg_index pg') /\ locs (pg_index pg') = locs (pg_index pg) /\
    (forall p, p ∈ ps' -> p_dirty p = true -> p_id p <> pid /\ exists q, q ∈ ps /\ p_dirty q = true /\ p_id q = p_id p).
Proof.
  intros Hn Hc Hpool Hwf. unfold flush_dirty, get_mut. destruct (lru_find pid ps) as [p|] eqn:Hf.
  2: { rewrite (M_bind_ok _ _ _ _ _ (on_cache_ok _ pg None _ _ (touch_miss _ _ ps pid Hc Hf))). rewrite with_pool_id.
       exists pg, ps, D. split_and!; try done. intros p Hp Hd. split; [|by exists p].
       intros <-. apply lru_find_None in Hf. apply Hf. by apply list_elem_of_fmap_2. }
  destruct (touch_hit (pg_cache pg) (env_of pg) ps pid p Hc Hf) as (l & Hr & Hh & Hc1 & Hl).
  destruct (lru_find_elem pid ps p Hf (rep_ids _ _ Hc)) as (Hp & Hperm & Hid).
  rewrite (M_bind_ok _ _ _ _ _ (on_cache_ok _ pg (Some l) _ _ Hr)).
  set (c1 := splice_front l (pg_cache pg)) in *. set (pg1 := with_pool c1 (env_of pg) pg).
  assert (Hpool1 : pool_rep pages (p :: lru_without pid ps) (env_of pg1) D).
  { unfold pg1. rewrite env_of_pool. eapply pool_perm; [by symmetry|exact Hpool]. }
  rewrite (M_bind_ok _ _ _ p pg1).
  2: { unfold page_at. erewrite on_cache_ok by (by apply deref_page_run). by rewrite with_pool_id. }
  destruct (p_dirty p) eqn:Ed; cbn [negb].
  2: { exists pg1, (p :: lru_without pid ps), D. split_and!; try done. intros q Hq Hd.
       assert (Hin : q ∈ ps) by (by rewrite <- Hperm). split; [|by exists q].
       intros Heq. apply elem_of_cons in Hq as [->|Hq]; [congruence|]. apply list_elem_of_filter in Hq as [Hne _]. congruence. }
  rewrite (M_bind_ok get _ _ _ _ eq_refl).
  destruct (pool_page pages _ _ D p Hpool1 ltac:(by left)) as (rows & Hrows & Hrep & Hst & Hrange & _).
  destruct (write_page_run _ D p rows (po_env _ _ _ _ _ _ _ _ Hpool1) Hrep Hrange Hst) as (e2 & Hw & He2 & Ho2).
  rewrite (M_bind_ok _ _ _ _ _ (on_env_ok _ pg1 _ _ Hw)). set (pg2 := with_pool (pg_cache pg1) e2 pg1).
  pose proof (pool_write pages _ _ D p rows e2 Hpool1 Hrows He2) as Hpool2.
  set (w := if bool_decide _ then _ else _).
  assert (Hupd : exists i', w pg2 = (Ok tt, pg_set_index i' pg2) /\ idx_wf i' /\ locs i' = locs (pg_index pg)).
  { unfold w. case_bool_decide.
    - destruct (update_page_run pid (slot (p_id p)) (pg_index pg) Hwf) as (i' & Hi & Hwf' & Hm).
      exists i'. split_and!; [|done|by eapply locs_move]. unfold on_index. by apply (zoom_ok pg_index).
    - exists (pg_index pg). by split_and!. }
  destruct Hupd as (i' & Hwr & Hwf' & Hlocs). rewrite (M_bind_ok _ _ _ _ _ Hwr).
  set (pg3 := pg_set_index i' pg2). set (c3 := set_heap (<[l := set_dirty false p]> (heap c1)) c1).
  assert (Hwrite : write_ref l (set_dirty false) (pg_cache pg3, env_of pg3) = (Ok tt, (c3, env_of pg3))).
  { unfold write_ref. by rewrite (M_bind_ok _ _ _ _ _ (deref_page_run c1 (env_of pg3) l p Hh)). }
  rewrite (on_cache_ok _ pg3 _ _ _ Hwrite). do 3 eexists. split; [reflexivity|].
  assert (Hc3 : cache_rep c3 (set_dirty false p :: lru_without pid ps)).
  { by apply (write_heap_rep c1 [] p _ [] l _ (set_dirty false p) Hc1 Hl eq_refl). }
  split_and!; [done|exact Hc3| |done|done|].
  - rewrite env_of_pool. assert (He3 : env_of pg3 = e2) by (by destruct e2). rewrite He3.
    destruct Hpool2 as [H2e H2p H2r H2s H2c]. apply Forall_cons in H2p as [(rows2 & Hr2 & Hrep2 & Hd2) H2p].
    split; try done. constructor; [|done]. exists rows. split_and!; [done| |intros _; by rewrite lookup_insert_eq].
    by destruct Hrep.
  - intros q Hq Hd. apply elem_of_cons in Hq as [->|Hq]; [done|]. pose proof Hq as [Hne Hin]%list_elem_of_filter.
    split; [done|]. by exists q.
Qed.

Lemma flush_loop pids pages pg ps D :
  next_page_id_ pg = zlen pages -> cache_rep (pg_cache pg) ps -> pool_rep pages ps (env_of pg) D -> idx_wf (pg_index pg) ->
  (forall p, p ∈ ps -> p_dirty p = true -> p_id p ∈ pids) ->
  exists pg' ps' D', mfor flush_dirty pids pg = (Ok tt, pg') /\ next_page_id_ pg' = zlen pages /\
    cache_rep (pg_cache pg') ps' /\ pool_rep pages ps' (env_of pg') D' /\
    idx_wf (pg_index pg') /\ locs (pg_index pg') = locs (pg_index pg) /\
    (forall p, p ∈ ps' -> p_dirty p = false).
Proof.
  revert pg ps D. induction pids as [|pid pids IH]; intros pg ps D Hn Hc Hpool Hwf Hd.
  - exists pg, ps, D. split_and!; try done. intros p Hp. destruct (p_dirty p) eqn:Ed; [|done].
    exfalso. eapply not_elem_of_nil. by apply (Hd p).
  - cbn [mfor]. destruct (flush_dirty_run pages pg ps D pid Hn Hc Hpool Hwf)
      as (pg1 & ps1 & D1 & Hr & Hn1 & Hc1 & Hpool1 & Hwf1 & Hl1 & Hd1).
    rewrite (M_bind_ok _ _ _ _ _ Hr).
    destruct (IH pg1 ps1 D1 Hn1 Hc1 Hpool1 Hwf1) as (pg2 & ps2 & D2 & Hr2 & Hn2 & Hc2 & Hpool2 & Hwf2 & Hl2 & Hd2).
    { intros p Hp Ed. destruct (Hd1 p Hp Ed) as (Hne & q & Hq & Eq & Hid). specialize (Hd q Hq Eq).
      rewrite Hid in Hd. apply elem_of_cons in Hd as [Heq|Hd]; [congruence|done]. }
    exists pg2, ps2, D2. split_and!; try done. congruence.
Qed.

Lemma header_image content hdr' pid rows :
  24 <= data_start schema -> 0 <= pid -> length (h_pad hdr') = 3%nat ->
  disk_image schema content pid rows -> disk_image schema (file_write 0 (encode_DBHeader hdr') content) pid rows.
Proof.
  clear. intros Hd Hp Hl (h & blob & Hst & Hb). exists h, blob. split; [|exact Hb].
  apply stored_at_write; [done| |done]. rewrite length_encode_DBHeader by done. right.
  unfold slot, PAGE_SLOT_SIZE, PAGEHEADER_SIZE, PAGE_SIZE. lia.
Qed.

(** [flush_all]: every page is on disk, the header counts them, the file is
    durable, and no page in the pool is dirty. *)
Lemma flush_all_run pages pg :
  pager_rep pages pg -> idx_wf (pg_index pg) -> db_header_ok hdr ->
  exists pg', flush_all pg = (Ok tt, pg') /\
    Pager.pager_rep schema ct (header_count (zlen pages) hdr) (f_content (st_file (pg_storage pg'))) pages pg' /\
    on_disk schema (header_count (zlen pages) hdr) pages (f_content (st_file (pg_storage pg'))) /\
    f_synced (st_file (pg_storage pg')) = f_content (st_file (pg_storage pg')) /\
    idx_wf (pg_index pg') /\ locs (pg_index pg') = locs (pg_index pg) /\
    dirty_pages (pg_cache pg') = [].
Proof.
  intros (Hn & ps & D & Hc & Hpool) Hwf Hh. unfold flush_all. rewrite (M_bind_ok get _ _ _ _ eq_refl).
  destruct (dirty_ids_run _ ps Hc) as (ids & Hids & Hall). unfold lift at 1. rewrite Hids.
  rewrite (M_bind_ok _ _ pg ids pg eq_refl).
  destruct (flush_loop (merge_sort Z.le ids) pages pg ps D Hn Hc Hpool Hwf)
    as (pg1 & ps1 & D1 & Hr1 & Hn1 & Hc1 & Hpool1 & Hwf1 & Hl1 & Hclean).
  { intros p Hp Hd. rewrite merge_sort_Permutation. by apply Hall. }
  rewrite (M_bind_ok _ _ _ _ _ Hr1). pose proof Hpool1 as [He1 Hp1 Hrest1 Hst1 Hcount1].
  pose proof (data_start_range _ _ He1) as Hds.
  destruct He1 as [Hup Hct Hlay Hsy Hfs Him]. cbn [env_of fst snd] in *.
  rewrite (M_bind_ok _ _ _ hdr pg1).
  2: { unfold on_storage. erewrite zoom_ok by (apply read_db_header_run; [done|done|apply Hlay]). by destruct pg1. }
  rewrite (M_bind_ok get _ _ _ _ eq_refl), Hn1. fold (header_count (zlen pages) hdr).
  set (hdr' := header_count (zlen pages) hdr).
  assert (Hh' : db_header_ok hdr').
  { destruct Hh as (? & ? & ? & ? & ? & ?). unfold hdr', header_count, db_header_ok; cbn. split_and!; try done; lia. }
  destruct (write_db_header_run hdr' (pg_storage pg1) Hup) as (s2 & Hr2 & Hup2 & Hct2 & Hc2 & Hs2); [apply Hh'|].
  exists (pg_set_storage s2 pg1). split; [unfold on_storage; by apply (zoom_ok pg_storage)|].
  assert (Hfs2 : zlen (f_content (st_file s2)) <= slot (2 ^ 32)).
  { rewrite Hc2, length_file_write, length_encode_DBHeader by (done || apply Hh').
    revert Hfs. unfold slot, PAGE_SLOT_SIZE, PAGEHEADER_SIZE, PAGE_SIZE. lia. }
  assert (HD : forall pid rows, page_rows pages pid = Some rows -> D1 !! pid = Some rows).
  { intros pid rows Hr. destruct (decide (pid ∈ (p_id <$> ps1))) as [Hin|Hni]; [|by apply Hrest1].
    apply list_elem_of_fmap in Hin as (p & -> & Hp). destruct (pool_page _ _ _ _ p Hpool1 Hp) as (rows' & Hr' & _ & _ & _ & Hd).
    assert (rows' = rows) as -> by congruence. apply Hd. by apply Hclean. }
  assert (Him2 : forall pid rows, 0 <= pid -> disk_image schema (f_content (st_file (pg_storage pg1))) pid rows ->
            disk_image schema (f_content (st_file s2)) pid rows).
  { intros pid rows Hpid Hi. rewrite Hc2. apply header_image; [lia|done|apply Hh'|done]. }
  split_and!.
  - split; [done|]. exists ps1, D1. split; [done|]. split; try done.
    split; cbn [env_of fst snd pg_set_storage pg_storage page_offsets_]; [done|congruence|rewrite Hc2; by apply layout_header with (hdr := hdr)|done|done|].
    intros pid rows Hr. destruct (Him pid rows Hr) as (H0' & Hi & Ho & Hrows & Hsz). split_and!; try done; try lia. by apply Him2; [lia|].
  - cbn [pg_set_storage pg_storage]. split; [rewrite Hc2; by apply layout_header with (hdr := hdr)|done|done|].
    intros pid rows Hr. pose proof (page_rows_range _ _ _ Hr). apply Him2; [lia|]. by eapply Him, HD.
  - done.
  - done.
  - done.
  - by eapply dirty_pages_clean.
Qed.
End pager_runs.

(** *** The index of the rows *)

Lemma row_at_ids pages id : (exists pid slot, row_at pages id pid slot) <-> id ∈ row_ids pages.
Proof.
  unfold row_at, row_ids. split.
  - intros (pid & slot & rows & r & Hr & Hs & Hl & <-). apply list_elem_of_fmap_2.
    apply elem_of_concat. exists rows. split; [by eapply list_elem_of_lookup_2|by eapply page_rows_elem].
  - intros (r & -> & (rows & Hr & Hp)%elem_of_concat)%list_elem_of_fmap.
    apply list_elem_of_lookup in Hr as [j Hj]. apply list_elem_of_lookup in Hp as [i Hi].
    exists (Z.of_nat i), (Z.of_nat j), rows, r. rewrite page_rows_lookup, Nat2Z.id. split_and!; [done|lia|done|done].
Qed.

Lemma locs_lookup i id pid slot :
  locs i !! id = Some (pid, slot) <-> exists en, idx_map i !! id = Some en /\ page_id en = pid /\ row_slot en = slot.
Proof.
  unfold locs. rewrite lookup_fmap_Some. unfold loc_of. split.
  - intros (en & [= <- <-] & Hen). by exists en.
  - intros (en & Hen & <- & <-). by exists en.
Qed.

Lemma index_rep_ids pages i id : index_rep pages i -> is_Some (idx_map i !! id) <-> id ∈ row_ids pages.
Proof.
  intros [_ Hl]. rewrite <- row_at_ids. split.
  - intros [en Hen]. exists (page_id en), (row_slot en). apply Hl, locs_lookup. by exists en.
  - intros (pid & slot & Hr). apply Hl, locs_lookup in Hr as (en & Hen & _). by exists en.
Qed.

Lemma row_at_snoc pages rows r id pid slot :
  row_at (pages ++ [rows ++ [r]]) id pid slot <->
  row_at (pages ++ [rows]) id pid slot \/ (id = row_id r /\ pid = zlen pages /\ slot = zlen rows).
Proof.
  unfold row_at. split.
  - intros (rows' & q & Hp & Hs & Hl & Hid). rewrite page_rows_snoc in Hp. case_bool_decide as Heq.
    + injection Hp as <-. apply lookup_app_Some in Hl as [Hl|[Hge Hl]].
      * left. exists rows, q. by rewrite page_rows_snoc, bool_decide_eq_true_2.
      * right. apply list_lookup_singleton_Some in Hl as [Hl <-]. split_and!; [done|done|lia].
    + left. exists rows', q. by rewrite page_rows_snoc, bool_decide_eq_false_2.
  - intros [(rows' & q & Hp & Hs & Hl & Hid)|(-> & -> & ->)].
    + rewrite page_rows_snoc in Hp. case_bool_decide as Heq.
      * injection Hp as <-. exists (rows ++ [r]), q. rewrite page_rows_snoc, bool_decide_eq_true_2 by done.
        split_and!; [done|done| |done]. apply lookup_app_Some. by left.
      * exists rows', q. by rewrite page_rows_snoc, bool_decide_eq_false_2.
    + exists (rows ++ [r]), r. rewrite page_rows_snoc, bool_decide_eq_true_2 by done. split_and!; [done|lia| |done].
      rewrite Nat2Z.id, lookup_app_r, Nat.sub_diag by lia. done.
Qed.

(** A row appended to the last page. *)
Lemma index_add pages rows r off i :
  index_rep (pages ++ [rows]) i -> row_id r ∉ row_ids (pages ++ [rows]) ->
  exists i', idx_insert (row_id r) (mkIndexEntry (zlen pages) off (zlen rows)) i = (Ok tt, i') /\
    index_rep (pages ++ [rows ++ [r]]) i'.
Proof.
  intros Hi Hni. destruct (idx_insert_run (row_id r) (mkIndexEntry (zlen pages) off (zlen rows)) i) as (i' & Hr & Hwf & Hm);
    [apply Hi|].
  assert (Hnone : ~ is_Some (idx_map i !! row_id r)) by (by rewrite (index_rep_ids _ _ _ Hi)).
  rewrite bool_decide_eq_false_2 in Hr, Hm by done. exists i'. split; [done|]. split; [done|].
  intros id pid slot. rewrite row_at_snoc. destruct Hi as [_ Hl]. rewrite <- Hl, !locs_lookup, Hm.
  destruct (decide (id = row_id r)) as [->|Hne].
  - rewrite lookup_insert_eq. split.
    + intros (en & [= <-] & <- & <-). by right.
    + intros [(en & Hen & _)|(_ & -> & ->)]; [exfalso; apply Hnone; by exists en|by eexists].
  - rewrite lookup_insert_ne by done. split; [by left|]. intros [?|(? & _)]; [done|congruence].
Qed.

Lemma index_rep_empty_page pages i : index_rep pages i -> index_rep (pages ++ [[]]) i.
Proof.
  intros [Hwf Hl]. split; [done|]. intros id pid slot. rewrite Hl. unfold row_at. split; intros (rows & r & Hp & Hs & Hr & Hid).
  - exists rows, r. rewrite page_rows_snoc, bool_decide_eq_false_2; [done|]. apply page_rows_range in Hp. lia.
  - rewrite page_rows_snoc in Hp. case_bool_decide; [|by exists rows, r]. injection Hp as <-. by rewrite lookup_nil in Hr.
Qed.

Lemma row_ids_app pages1 pages2 : row_ids (pages1 ++ pages2) = row_ids pages1 ++ row_ids pages2.
Proof. unfold row_ids. by rewrite concat_app, fmap_app. Qed.

Lemma row_ids_one rows : row_ids [rows] = row_id <$> rows.
Proof. unfold row_ids. cbn [concat]. by rewrite app_nil_r. Qed.

Section recovery.
Context {F : Type} `{FileLaws F} `{!FileReliable F} `{!PreadWhole F} `{LZ4Laws}.
Context (schema : Schema) (ct : CompressionType) (hdr : DBHeader) (sy : bytes).

Implicit Types (pg : Pager F) (s : Storage F).

(** The loop over the slots of one page. *)
Lemma index_page_run pages rows p off j rest pg :
  page_rep schema rows p -> rows = j ++ rest -> NoDup (row_ids (pages ++ [rows])) ->
  index_rep (pages ++ [j]) (pg_index pg) ->
  exists i', mfor (index_slot schema p (zlen pages) off) (seqZ (zlen j) (zlen rest)) pg = (Ok tt, pg_set_index i' pg) /\
    index_rep (pages ++ [rows]) i'.
Proof.
  clear H0 FileReliable0 PreadWhole0 H2. intros Hrep. revert j pg. induction rest as [|r rest IH]; intros j pg Hrows Hnd Hi.
  - rewrite app_nil_r in Hrows. subst j. exists (pg_index pg). cbn. split; [by destruct pg|done].
  - rewrite seqZ_cons_step by (cbn [length]; lia). cbn [mfor].
    assert (Hget : get_row p (zlen j) schema = Ok r).
    { apply (get_row_rep _ rows); [done|]. rewrite Hrows, lookup_app_r, Nat.sub_diag by lia. done. }
    assert (Hni : row_id r ∉ row_ids (pages ++ [j])).
    { rewrite Hrows, row_ids_app, row_ids_one, fmap_app, fmap_cons, app_assoc in Hnd.
      apply NoDup_app in Hnd as (_ & Hd & _). rewrite row_ids_app, row_ids_one. intros Hin. apply (Hd _ Hin). by left. }
    destruct (index_add pages j r off (pg_index pg) Hi Hni) as (i1 & Hins & Hi1).
    rewrite (M_bind_ok _ _ _ tt (pg_set_index i1 pg)).
    2: { unfold index_slot, lift. rewrite Hget. rewrite (M_bind_ok _ _ pg r pg eq_refl). unfold catch, on_index.
         by rewrite (zoom_ok pg_index pg_set_index _ pg _ _ Hins). }
    specialize (IH (j ++ [r]) (pg_set_index i1 pg)). rewrite <- app_assoc in IH.
    destruct (IH Hrows Hnd Hi1) as (i' & Hr & Hi'). exists i'.
    rewrite length_app in Hr. cbn [length] in Hr |- *.
    replace (zlen j + 1) with (Z.of_nat (length j + 1)) by lia. replace (Z.of_nat (S (length rest)) - 1) with (zlen rest) by lia.
    split; [exact Hr|done].
Qed.

(** What [recover] has done when the next page is the one after [pages]. *)
Definition recovering (s : Storage F) (cap : Z) (pages : list (list Row)) (pg : Pager F) : Prop :=
  pg_storage pg = s /\ pg_cache pg = new_PageCache cap /\ next_page_id_ pg = zlen pages /\
  (forall pid, 0 <= pid < zlen pages -> page_offsets_ pg !! pid = Some (slot schema pid)) /\
  index_rep pages (pg_index pg).

Lemma recover_page_run s cap file_sz pages rows pg :
  storage_up s -> file_sz = zlen (f_content (st_file s)) -> file_sz < 2 ^ 63 ->
  24 <= data_start schema <= 65560 -> zlen pages + 1 < 2 ^ 32 ->
  disk_image schema (f_content (st_file s)) (zlen pages) rows ->
  Forall (row_ok schema) rows -> zlen (encode_rows rows) <= PAGE_SIZE ->
  NoDup (row_ids (pages ++ [rows])) -> recovering s cap pages pg ->
  exists pg', recover_page schema (data_start schema) file_sz (zlen pages) pg = (Ok true, pg') /\
    recovering s cap (pages ++ [rows]) pg'.
Proof.
  intros Hup Hfs Hsz Hds Hlt (h & blob & Hst & Hid & Hrc & Hun & Hbl & Hdec) Hrows Hrsz Hnd (Hs & Hc & Hn & Ho & Hi).
  unfold recover_page. cbv zeta. rewrite page_file_offset_run by lia.
  pose proof Hst as (_ & _ & (Hl1 & Hl2 & Hl3 & _)%load_lookup).
  rewrite bool_decide_eq_false_2.
  2: { unfold u64. rewrite Z.mod_small; unfold PAGEHEADER_SIZE in *; lia. }
  assert (Hread : on_storage (read_page_raw (slot schema (zlen pages))) pg = (Ok (h, blob), pg)).
  { unfold on_storage. erewrite zoom_ok by (apply read_page_raw_run; rewrite Hs; done). by destruct pg. }
  rewrite (M_bind_ok _ _ _ (Some (h, blob)) pg) by (unfold catch; by rewrite (M_bind_ok _ _ _ _ _ Hread)).
  cbv beta iota. rewrite Hid, bool_decide_eq_false_2 by (intros Hneq; by apply Hneq).
  rewrite (M_bind_ok _ _ _ (Some (encode_rows rows)) pg).
  2: { unfold catch, lift. rewrite Hun. by rewrite (M_bind_ok _ _ pg (encode_rows rows) pg) by (by rewrite Hdec). }
  cbv beta iota. destruct (page_of_bytes_run schema (zlen pages) rows Hrows Hrsz) as (p & Hp & _ & _ & Hrep & Hcount).
  unfold lift. rewrite Hrc, Hp. rewrite (M_bind_ok _ _ pg p pg eq_refl). rewrite Hcount.
  destruct (index_page_run pages rows p (slot schema (zlen pages)) [] rows pg Hrep eq_refl Hnd) as (i' & Hfor & Hi').
  { by apply index_rep_empty_page. }
  change (seqZ (Z.of_nat (length [])) (zlen rows)) with (zseq (zlen rows)) in Hfor.
  rewrite (M_bind_ok _ _ _ _ _ Hfor). do 2 rewrite (M_bind_ok (modify _) _ _ _ _ eq_refl).
  eexists. split; [reflexivity|]. unfold recovering. cbn. split_and!; [done|done| | |done].
  - rewrite Hn, length_app. cbn. unfold u32. rewrite Z.mod_small by lia. lia.
  - intros pid Hpid. rewrite length_app in Hpid. cbn in Hpid. destruct (decide (pid = zlen pages)) as [->|Hne].
    + by rewrite lookup_insert_eq.
    + rewrite lookup_insert_ne by done. apply Ho. lia.
Qed.

Lemma recover_loop_run s cap file_sz pages rest pg :
  storage_up s -> file_sz = zlen (f_content (st_file s)) -> file_sz < 2 ^ 63 ->
  24 <= data_start schema <= 65560 -> zlen (pages ++ rest) < 2 ^ 32 ->
  (forall pid rows, page_rows (pages ++ rest) pid = Some rows -> disk_image schema (f_content (st_file s)) pid rows) ->
  Forall (fun rows => Forall (row_ok schema) rows /\ zlen (encode_rows rows) <= PAGE_SIZE) rest ->
  NoDup (row_ids (pages ++ rest)) -> recovering s cap pages pg ->
  exists pg', recover_loop schema (data_start schema) file_sz (length rest) (zlen pages) pg = (Ok tt, pg') /\
    recovering s cap (pages ++ rest) pg'.
Proof.
  intros Hup Hfs Hsz Hds. revert pages pg. induction rest as [|rows rest IH]; intros pages pg Hlt Him Hrows Hnd Hrec.
  - exists pg. by rewrite app_nil_r.
  - cbn [length recover_loop]. apply Forall_cons in Hrows as [[Hr1 Hr2] Hrows].
    rewrite length_app in Hlt. cbn [length] in Hlt.
    assert (Hnd1 : NoDup (row_ids (pages ++ [rows]))).
    { replace (pages ++ rows :: rest) with ((pages ++ [rows]) ++ rest) in Hnd by (by rewrite <- app_assoc).
      rewrite row_ids_app in Hnd. by apply NoDup_app in Hnd as [Hnd _]. }
    destruct (recover_page_run s cap file_sz pages rows pg) as (pg1 & Hr & Hrec1); try done; [lia| |].
    { apply Him. unfold page_rows. rewrite bool_decide_eq_true_2 by lia. rewrite Nat2Z.id, lookup_app_r, Nat.sub_diag by lia. done. }
    rewrite (M_bind_ok _ _ _ _ _ Hr). specialize (IH (pages ++ [rows]) pg1). rewrite <- app_assoc in IH. cbn [app] in IH.
    rewrite (length_app pages [rows]) in IH. cbn [length] in IH. replace (Z.of_nat (length pages + 1)) with (zlen pages + 1) in IH by lia.
    apply IH; try done. rewrite length_app. cbn [length]. lia.
Qed.

(** [recover] finds every page of the file and indexes every row. *)
Lemma recover_run s cap pages :
  storage_up s -> st_compression s = ct -> on_disk schema hdr pages (f_content (st_file s)) ->
  f_synced (st_file s) = sy -> zlen pages < 2 ^ 32 -> 0 <= cap ->
  Forall (storable schema ct) pages -> NoDup (row_ids pages) ->
  exists pg', recover schema (new_Pager s new_IndexManager cap) = (Ok tt, pg') /\
    pager_rep schema ct hdr sy pages pg' /\ index_rep pages (pg_index pg') /\ pg_storage pg' = s.
Proof.
  intros Hup Hct [Hlay Hcount Hfs Him] Hsy Hlt Hcap Hst Hnd. unfold recover.
  assert (Hds : 24 <= data_start schema <= 65560).
  { pose proof (lay_small _ _ _ Hlay). unfold data_start, DBHEADER_SIZE. lia. }
  assert (Hsz : zlen (f_content (st_file s)) < 2 ^ 63).
  { revert Hfs Hds. unfold slot, PAGE_SLOT_SIZE, PAGEHEADER_SIZE, PAGE_SIZE. lia. }
  set (pg0 := new_Pager s new_IndexManager cap).
  rewrite (M_bind_ok _ _ _ hdr pg0).
  2: { unfold on_storage. erewrite zoom_ok by (apply read_db_header_run; [done|apply Hlay|apply Hlay]). done. }
  rewrite (M_bind_ok get _ _ _ _ eq_refl). cbv zeta. cbn [pg0 new_Pager pg_storage].
  rewrite (data_start_run s hdr schema Hup Hlay). fold pg0.
  destruct (fstat_ok (st_file s)) as [n Hfst]. pose proof (fstat_law _ _ Hfst) as Hn.
  rewrite (M_bind_ok _ _ _ n pg0).
  2: { unfold on_storage. erewrite zoom_ok; [reflexivity|]. unfold storage_file_size.
       rewrite (M_bind_ok get _ _ _ _ eq_refl). cbn. rewrite (up_fd _ Hup). cbn. by rewrite Hfst. }
  rewrite Hcount, Nat2Z.id.
  destruct (recover_loop_run s cap n [] pages pg0) as (pg1 & Hr & Hs1 & Hc1 & Hn1 & Ho1 & Hi1); try done; [lia| | |].
  { eapply Forall_impl; [exact Hst|]. intros rows (Hr1 & Hr2 & _). done. }
  { unfold recovering. cbn. split_and!; try done; [intros; lia|]. split; [apply new_IndexManager_wf|].
    intros id pid sl. rewrite locs_lookup. unfold row_at. split.
    - intros (en & Hen & _). done.
    - intros (rows & r & Hp & _). apply page_rows_range in Hp. cbn in Hp. lia. }
  cbn [app] in *. rewrite (M_bind_ok _ _ _ _ _ Hr).
  destruct (idx_prepare_run (pg_index pg1) (proj1 Hi1)) as (i2 & Hprep & Hwf2 & Hm2).
  exists (pg_set_index i2 pg1). split; [unfold on_index; by apply (zoom_ok pg_index)|].
  split_and!; [|split; [done|]; intros id pid sl; rewrite <- (proj2 Hi1); unfold locs; cbn [pg_set_index pg_index]; by rewrite Hm2|done].
  split; [done|]. exists []. exists (list_to_map (imap (fun i rows => (Z.of_nat i, rows)) pages)).
  cbn [pg_set_index pg_cache]. rewrite Hc1. split; [by apply new_cache_rep|].
  assert (HD : forall pid rows, (list_to_map (imap (fun i rows => (Z.of_nat i, rows)) pages) : gmap Z (list Row)) !! pid = Some rows <->
                                page_rows pages pid = Some rows).
  { intros pid rows. rewrite <- elem_of_list_to_map.
    - rewrite elem_of_lookup_imap. split.
      + intros (i & q & [= -> ->] & Hq). by rewrite page_rows_lookup.
      + intros Hp. pose proof (page_rows_range _ _ _ Hp). exists (Z.to_nat pid), rows.
        rewrite Z2Nat.id by lia. split; [done|]. unfold page_rows in Hp. by rewrite bool_decide_eq_true_2 in Hp by lia.
    - rewrite fmap_imap. apply NoDup_alt. intros i j x. rewrite !list_lookup_imap.
      destruct (pages !! i), (pages !! j); cbn; try done. intros [= <-] [= ?]. lia. }
  split; try done; [|by intros; apply HD].
  split; cbn; [by rewrite Hs1|by rewrite Hs1|by rewrite Hs1|by rewrite Hs1|by rewrite Hs1|].
  intros pid rows Hp%HD. pose proof (page_rows_range _ _ _ Hp).
  assert (Hsto : storable schema ct rows) by (rewrite Forall_forall in Hst; apply Hst; by eapply page_rows_elem).
  destruct Hsto as (Hr1 & Hr2 & _). split_and!; try done; [lia|lia|rewrite Hs1; by apply Him|by apply Ho1].
Qed.
End recovery.

#[export] Instance storable_dec `{LZ4Lib} schema ct rows : Decision (storable schema ct rows).
Proof.
  unfold storable. destruct (compress ct (encode_rows rows)) as [c|x|] eqn:E.
  - destruct (decide (Forall (row_ok schema) rows /\ zlen (encode_rows rows) <= PAGE_SIZE /\ zlen c <= PAGE_SIZE)) as [Hd|Hd].
    + left. split_and!; [apply Hd..|]. intros blob [= <-]. apply Hd.
    + right. intros (? & ? & Hb). apply Hd. split_and!; [done..|by apply Hb].
  - destruct (decide (Forall (row_ok schema) rows /\ zlen (encode_rows rows) <= PAGE_SIZE)) as [Hd|Hd]; [left|right].
    + by split_and!; [apply Hd..|].
    + intros (? & ? & _). by apply Hd.
  - destruct (decide (Forall (row_ok schema) rows /\ zlen (encode_rows rows) <= PAGE_SIZE)) as [Hd|Hd]; [left|right].
    + by split_and!; [apply Hd..|].
    + intros (? & ? & _). by apply Hd.
Defined.

Lemma alter_as_insert {A} (f : A -> A) (l : list A) i x : l !! i = Some x -> alter f i l = <[i := f x]> l.
Proof.
  revert i. induction l as [|y l IH]; intros [|i] H; try done.
  - by injection H as ->.
  - cbn. f_equal. by apply IH.
Qed.

(** *** The Pager as a store of pages *)

Inductive page_op :=
| NewPage
| AppendRow (pid : Z) (r : Row)
| EraseRow (pid slot : Z)
| ReadRow (pid slot : Z).

Definition page_run {F} `{FileSys F} `{LZ4Lib} (schema : Schema) (o : page_op) : M (Pager F) (option Row) :=
  match o with
  | NewPage => _ ← new_page; mret None
  | AppendRow pid r => l ← get_mutable_page pid; mutate_page l (append_row r schema) ;; mret None
  | EraseRow pid n => l ← get_mutable_page pid; mutate_page l (erase_row n) ;; mret None
  | ReadRow pid n => l ← get_page pid; p ← page_at l; r ← lift (get_row p n schema); mret (Some r)
  end.

(** What an operation does to the pages. *)
Definition page_step (o : page_op) (pages : list (list Row)) : list (list Row) :=
  match o with
  | NewPage => pages ++ [[]]
  | AppendRow pid r => alter (fun rows => rows ++ [r]) (Z.to_nat pid) pages
  | EraseRow pid n => alter (delete (Z.to_nat n)) (Z.to_nat pid) pages
  | ReadRow _ _ => pages
  end.

Definition page_result (o : page_op) (pages : list (list Row)) : option Row :=
  match o with
  | ReadRow pid n => rows ← page_rows pages pid; rows !! Z.to_nat n
  | _ => None
  end.

(** The page and the slot exist, and a page that changes stays storable. *)
Definition page_op_ok `{LZ4Lib} schema ct (o : page_op) (pages : list (list Row)) : Prop :=
  match o with
  | NewPage => zlen pages + 1 < 2 ^ 32
  | AppendRow pid r => 0 <= pid < zlen pages /\ storable schema ct (default [] (page_rows pages pid) ++ [r])
  | EraseRow pid n => 0 <= pid < zlen pages /\ 0 <= n < zlen (default [] (page_rows pages pid)) /\
      storable schema ct (delete (Z.to_nat n) (default [] (page_rows pages pid)))
  | ReadRow pid n => 0 <= pid < zlen pages /\ 0 <= n < zlen (default [] (page_rows pages pid))
  end.

#[export] Instance page_op_ok_dec `{LZ4Lib} schema ct o pages : Decision (page_op_ok schema ct o pages).
Proof. destruct o; cbn [page_op_ok]; apply _. Defined.

Fixpoint page_ops_ok `{LZ4Lib} schema ct (ops : list page_op) (pages : list (list Row)) : Prop :=
  match ops with
  | [] => True
  | o :: ops => page_op_ok schema ct o pages /\ page_ops_ok schema ct ops (page_step o pages)
  end.

#[export] Instance page_ops_ok_dec `{LZ4Lib} schema ct ops pages : Decision (page_ops_ok schema ct ops pages).
Proof. revert pages. induction ops as [|o ops IH]; intros pages; cbn [page_ops_ok]; apply _. Defined.

Fixpoint page_results (ops : list page_op) (pages : list (list Row)) : list (outcome (option Row)) :=
  match ops with
  | [] => []
  | o :: ops => Ok (page_result o pages) :: page_results ops (page_step o pages)
  end.

Section page_store.
Context {F : Type} `{FileLaws F} `{!FileReliable F} `{!PreadWhole F} `{LZ4Laws}.
Context (schema : Schema) (ct : CompressionType) (hdr : DBHeader) (sy : bytes).
Implicit Types (pg : Pager F).

Lemma page_op_run o pages pg :
  pager_rep schema ct hdr sy pages pg -> page_op_ok schema ct o pages ->
  exists pg', page_run schema o pg = (Ok (page_result o pages), pg') /\
    pager_rep schema ct hdr sy (page_step o pages) pg' /\ pg_index pg' = pg_index pg.
Proof.
  intros Hrep Hok. destruct o as [|pid r|pid n|pid n]; cbn [page_op_ok page_run page_step page_result] in *.
  - destruct (new_page_run schema ct hdr sy pages pg Hrep Hok) as (l & pg' & Hr & Href & Hi).
    exists pg'. rewrite (M_bind_ok _ _ _ _ _ Hr). split_and!; [done|by eapply pager_ref_rep|done].
  - destruct Hok as [Hpid Hst]. destruct (page_rows_Some pages pid Hpid) as [rows Hrows]. rewrite Hrows in Hst. cbn in Hst.
    destruct (get_mutable_page_run schema ct hdr sy pages pg pid rows Hrep Hrows) as (l & pg1 & Hr & Href & Hi).
    rewrite (M_bind_ok _ _ _ _ _ Hr).
    destruct (mutate_page_run schema ct hdr sy (append_row r schema) pages pg1 l pid rows (rows ++ [r]) tt Href Hrows Hst)
      as (pg2 & Hm & Href2 & Hi2).
    { intros p Hp Hid. destruct Hst as (Hrs & Hsz & _). apply Forall_app in Hrs as [_ Hro].
      apply Forall_cons in Hro as [Hro _]. rewrite encode_rows_app, length_app, (encode_rows_cons r []) in Hsz.
      rewrite length_app in Hsz. unfold PAGE_SIZE in Hsz.
      assert (zlen (p_data p) + zlen (encode_row r) < 2 ^ 31) by (rewrite (rep_data _ _ _ Hp); lia).
      eexists. split; [apply (append_row_run schema r p Hro); lia|]. split_and!; [by apply page_rep_snoc|done|done]. }
    rewrite (M_bind_ok _ _ _ _ _ Hm). exists pg2. split_and!; [done| |congruence].
    apply pager_ref_rep in Href2. unfold page_rows in Hrows. rewrite bool_decide_eq_true_2 in Hrows by lia.
    rewrite (alter_as_insert _ _ _ rows) by exact Hrows. exact Href2.
  - destruct Hok as (Hpid & Hn & Hst). destruct (page_rows_Some pages pid Hpid) as [rows Hrows]. rewrite Hrows in Hn, Hst. cbn in Hn, Hst.
    destruct (get_mutable_page_run schema ct hdr sy pages pg pid rows Hrep Hrows) as (l & pg1 & Hr & Href & Hi).
    rewrite (M_bind_ok _ _ _ _ _ Hr). destruct (lookup_lt_is_Some_2 rows (Z.to_nat n)) as [q Hq]; [lia|].
    destruct (mutate_page_run schema ct hdr sy (erase_row n) pages pg1 l pid rows (delete (Z.to_nat n) rows) tt Href Hrows Hst)
      as (pg2 & Hm & Href2 & Hi2).
    { intros p Hp Hid. pose proof (erase_row_run schema rows p _ q Hp Hq) as He. rewrite Z2Nat.id in He by lia.
      eexists. split; [exact He|]. split_and!; [|done|done].
      destruct Hst as (Hrs & Hsz & _). unfold PAGE_SIZE in Hsz. split; try done. cbn. lia. }
    rewrite (M_bind_ok _ _ _ _ _ Hm). exists pg2. split_and!; [done| |congruence].
    apply pager_ref_rep in Href2. unfold page_rows in Hrows. rewrite bool_decide_eq_true_2 in Hrows by lia.
    rewrite (alter_as_insert _ _ _ rows) by exact Hrows. exact Href2.
  - destruct Hok as [Hpid Hn]. destruct (page_rows_Some pages pid Hpid) as [rows Hrows]. rewrite Hrows in Hn |- *. cbn in Hn |- *.
    destruct (get_page_run schema ct hdr sy pages pg pid rows Hrep Hrows) as (l & pg1 & Hr & Href & Hi).
    rewrite (M_bind_ok _ _ _ _ _ Hr). destruct (page_at_run schema ct hdr sy _ _ _ _ _ Href Hrows) as (p & Hp & Hprep & _).
    rewrite (M_bind_ok _ _ _ _ _ Hp). destruct (lookup_lt_is_Some_2 rows (Z.to_nat n)) as [q Hq]; [lia|].
    pose proof (get_row_rep schema rows p _ q Hprep Hq) as Hg. rewrite Z2Nat.id in Hg by lia.
    unfold lift. rewrite Hg, Hq. exists pg1. split_and!; [done|by eapply pager_ref_rep|done].
Qed.

Lemma page_ops_run ops pages pg :
  pager_rep schema ct hdr sy pages pg -> page_ops_ok schema ct ops pages ->
  exists pg', trace (page_run schema) ops pg = (page_results ops pages, pg') /\
    pager_rep schema ct hdr sy (foldl (fun ps o => page_step o ps) pages ops) pg' /\ pg_index pg' = pg_index pg.
Proof.
  revert pages pg. induction ops as [|o ops IH]; intros pages pg Hrep Hok; [by exists pg|].
  destruct Hok as [Ho Hok]. destruct (page_op_run o pages pg Hrep Ho) as (pg1 & Hr & Hrep1 & Hi1).
  destruct (IH _ _ Hrep1 Hok) as (pg2 & Hr2 & Hrep2 & Hi2). exists pg2. cbn [trace page_results foldl].
  rewrite Hr, Hr2. split_and!; [done|done|congruence].
Qed.
End page_store.

(** ** Properties *)

Lemma new_pager_rep {F} `{FileSys F} `{LZ4Lib} schema ct hdr (s : Storage F) i cap :
  storage_up s -> st_compression s = ct -> db_layout (f_content (st_file s)) hdr schema ->
  zlen (f_content (st_file s)) <= slot schema (2 ^ 32) -> 0 <= cap ->
  pager_rep schema ct hdr (f_synced (st_file s)) [] (new_Pager s i cap).
Proof.
  intros Hup Hct Hlay Hfs Hcap. split; [done|]. exists [], ∅. split; [by apply new_cache_rep|].
  split; [by split|done| |done|done]. intros pid rows Hp. apply page_rows_range in Hp. cbn in Hp. lia.
Qed.

(** A new database file with a schema, and a Pager over it with room for one page. *)
Definition demo_db_storage : Storage (MemFile 8 true) := (write_schema demo_old_schema demo_storage).2.
Definition demo_pager : Pager (MemFile 8 true) := new_Pager demo_db_storage new_IndexManager 1.
Definition demo_named (id : Z) (name : bytes) : Row := mkRow id [VUint32 (id * 10); VString name].

Definition demo_synced : bytes := f_synced (st_file demo_db_storage).

Lemma demo_storage_up : storage_up demo_db_storage.
Proof. split; vm_decide. Qed.

Lemma demo_layout : db_layout (f_content (st_file demo_db_storage)) (fresh_header CLZ4) demo_old_schema.
Proof. split; [vm_compute; reflexivity|apply fresh_header_ok|vm_compute; reflexivity|vm_compute; reflexivity|vm_decide|vm_decide]. Qed.

Lemma demo_pager_rep : pager_rep demo_old_schema CLZ4 (fresh_header CLZ4) demo_synced [] demo_pager.
Proof. apply new_pager_rep; [apply demo_storage_up|done|apply demo_layout|vm_decide|lia]. Qed.

Definition demo_page_ops : list page_op :=
  [NewPage; AppendRow 0 (demo_named 1 (str "ada")); NewPage; AppendRow 1 (demo_named 2 (str "bob")); AppendRow 1 (demo_named 3 (str "cy"));
   ReadRow 0 0; EraseRow 1 0; AppendRow 0 (demo_named 4 (str "dee")); ReadRow 0 1; ReadRow 1 0].

(** C24: the Pager is a store of pages. Any sequence of page allocations, row
    appends, row removals and row reads, whatever the size of the buffer pool and
    whatever it evicts, compresses, writes and loads again on the way, reads back the
    rows as if all pages were kept in a list. *)
Theorem pager_refines_pages {F} `{FileLaws F} `{!FileReliable F} `{!PreadWhole F} `{LZ4Laws}
    schema ct hdr sy ops pages (pg : Pager F) :
  pager_rep schema ct hdr sy pages pg -> page_ops_ok schema ct ops pages ->
  exists pg', trace (page_run schema) ops pg = (page_results ops pages, pg') /\
    pager_rep schema ct hdr sy (foldl (fun ps o => page_step o ps) pages ops) pg'.
Proof.
  intros Hrep Hok. destruct (page_ops_run schema ct hdr sy ops pages pg Hrep Hok) as (pg' & Hr & Hrep' & _). by exists pg'.
Qed.

Lemma pager_refines_pages_witness :
  exists pg', trace (page_run demo_old_schema) demo_page_ops demo_pager = (page_results demo_page_ops [], pg') /\
    pager_rep demo_old_schema CLZ4 (fresh_header CLZ4) demo_synced [[demo_named 1 (str "ada"); demo_named 4 (str "dee")]; [demo_named 3 (str "cy")]] pg'.
Proof. apply (pager_refines_pages demo_old_schema CLZ4 (fresh_header CLZ4) demo_synced demo_page_ops []); [apply demo_pager_rep|vm_decide]. Defined.

(** Flushing is durable. After [flush_all], whatever is lost of the memory, a
    storage engine opened on the bytes that survive recovers every page, and its
    index finds every row. *)
Theorem flush_recover {F} `{FileLaws F} `{!FileReliable F} `{!PreadWhole F} `{LZ4Laws}
    schema ct hdr sy pages (pg : Pager F) :
  pager_rep schema ct hdr sy pages pg -> idx_wf (pg_index pg) -> db_header_ok hdr -> NoDup (row_ids pages) ->
  exists pg', flush_all pg = (Ok tt, pg') /\ locs (pg_index pg') = locs (pg_index pg) /\
    forall (s : Storage F) cap,
      storage_up s -> st_compression s = ct -> f_content (st_file s) = f_synced (st_file (pg_storage pg')) ->
      0 <= cap ->
      exists pg2, recover schema (new_Pager s new_IndexManager cap) = (Ok tt, pg2) /\
        pager_rep schema ct (header_count (zlen pages) hdr) (f_synced (st_file s)) pages pg2 /\ index_rep pages (pg_index pg2).
Proof.
  intros Hrep Hwf Hh Hnd. destruct (flush_all_run schema ct hdr sy pages pg Hrep Hwf Hh) as (pg' & Hr & _ & Hdisk & Hs & _ & Hl & _).
  exists pg'. split_and!; [done|done|]. intros s cap Hup Hct Hc Hcap. rewrite Hs in Hc.
  destruct Hrep as (_ & ps & D & _ & Hpool). rewrite <- Hc in Hdisk.
  destruct (recover_run schema ct (header_count (zlen pages) hdr) (f_synced (st_file s)) s cap pages) as (pg2 & Hr2 & Hrep2 & Hi2 & _); try done.
  - by eapply po_count.
  - by eapply po_rows.
  - by exists pg2.
Qed.

Definition demo_full_pager : Pager (MemFile 8 true) := (trace (page_run demo_old_schema) demo_page_ops demo_pager).2.
Definition demo_flushed : Pager (MemFile 8 true) := (flush_all demo_full_pager).2.
Definition demo_reopened : Storage (MemFile 8 true) :=
  mkStorage (mkMemFile true (mf_synced (st_file (pg_storage demo_flushed))) [] 0) CLZ4 true true.

Lemma flush_recover_witness :
  exists pg2, recover demo_old_schema (new_Pager demo_reopened new_IndexManager 4) = (Ok tt, pg2) /\
    pager_rep demo_old_schema CLZ4 (header_count 2 (fresh_header CLZ4)) (f_synced (st_file demo_reopened))
      [[demo_named 1 (str "ada"); demo_named 4 (str "dee")]; [demo_named 3 (str "cy")]] pg2 /\
    index_rep [[demo_named 1 (str "ada"); demo_named 4 (str "dee")]; [demo_named 3 (str "cy")]] (pg_index pg2).
Proof.
  destruct (page_ops_run demo_old_schema CLZ4 (fresh_header CLZ4) demo_synced demo_page_ops [] demo_pager demo_pager_rep ltac:(vm_decide))
    as (pg & Hr & Hrep & Hi).
  assert (Hpg : pg = demo_full_pager) by (unfold demo_full_pager; by rewrite Hr).
  destruct (flush_recover demo_old_schema CLZ4 (fresh_header CLZ4) demo_synced _ pg Hrep) as (pg' & Hf & _ & Hrec).
  - rewrite Hi. apply new_IndexManager_wf.
  - apply fresh_header_ok.
  - vm_decide.
  - assert (Hpg' : pg' = demo_flushed) by (unfold demo_flushed; rewrite <- Hpg, Hf; done).
    rewrite Hpg' in Hrec. apply (Hrec demo_reopened 4); [split; vm_compute; reflexivity|reflexivity|vm_compute; reflexivity|lia].
Defined.

(** A page that does not compress can destroy the next one. The compressed
    image of a page may be longer than the [PAGE_SIZE] bytes its slot has room for;
    [write_page_to_disk] writes all of it, and what is too much lands on the header
    of the next page's slot. *)
Theorem slot_overflow {F} `{FileLaws F} `{!FileReliable F} `{!PreadWhole F} `{LZ4Lib}
    schema ct hdr sy e D p blob :
  env_rep (F:=F) schema ct hdr sy e D -> 0 <= p_id p < 2 ^ 32 -> compress ct (p_data p) = Ok blob ->
  PAGE_SIZE < zlen blob < 2 ^ 32 ->
  exists e', write_page_to_disk p e = (Ok (slot schema (p_id p)), e') /\
    load (f_content (st_file e'.1)) (slot schema (p_id p + 1)) (zlen blob - PAGE_SIZE)
      = Ok (drop (Z.to_nat PAGE_SIZE) blob).
Proof.
  intros He Hid Hc Hlen. pose proof (lay_small _ _ _ (er_layout _ _ _ _ _ _ He)) as Hsm. destruct He as [Hup Hct Hlay _ _ _].
  unfold write_page_to_disk. rewrite (M_bind_ok get _ _ _ _ eq_refl). cbv zeta. rewrite Hct.
  unfold lift. rewrite (M_bind_ok _ _ e blob e) by (by rewrite Hc).
  rewrite (data_start_run e.1 hdr schema Hup Hlay).
  rewrite page_file_offset_run by (unfold data_start, DBHEADER_SIZE; lia).
  set (h := mkPageHeader _ _ _ _ _). unfold overwrite_page_raw.
  destruct (on_fd_write (encode_PageHeader h ++ blob) (slot schema (p_id p)) e.1 Hup) as (s' & Hr & _ & _ & _ & Hcn);
    [unfold slot, data_start, DBHEADER_SIZE, PAGE_SLOT_SIZE, PAGEHEADER_SIZE, PAGE_SIZE; lia|done|].
  rewrite (M_bind_ok _ _ _ _ _ (zoom_ok fst (fun s e => (s, e.2)) _ e _ _ Hr)).
  rewrite (M_bind_ok (modify _) _ _ _ _ eq_refl). eexists. split; [reflexivity|]. cbn [fst].
  assert (Hl : load (f_content (st_file s')) (slot schema (p_id p)) (zlen (encode_PageHeader h ++ blob))
               = Ok ((encode_PageHeader h ++ take (Z.to_nat PAGE_SIZE) blob) ++ drop (Z.to_nat PAGE_SIZE) blob)).
  { rewrite Hcn, <- app_assoc, take_drop. apply load_file_write.
    unfold slot, data_start, DBHEADER_SIZE, PAGE_SLOT_SIZE, PAGEHEADER_SIZE, PAGE_SIZE; lia. }
  apply load_unsplit in Hl as [_ Hl]. rewrite length_app, length_encode_PageHeader, length_take, length_drop in Hl.
  rewrite <- Hl. unfold PAGE_SIZE in *. f_equal; [|lia]. unfold slot, PAGE_SLOT_SIZE, PAGEHEADER_SIZE, PAGE_SIZE. lia.
Qed.

(** A row that fills a page with bytes of a pseudo-random sequence. *)
Fixpoint noise (n : nat) (seed : Z) : bytes :=
  match n with
  | O => []
  | S n => let s := (seed * 1103515245 + 12345) mod 2 ^ 31 in Z_byte (s / 2 ^ 16) :: noise n s
  end.
Definition demo_noise_row : Row := mkRow 1 [VUint32 0; VString (noise (Z.to_nat 8178) 1)].
Definition demo_noise_page : Page := (append_row demo_noise_row demo_old_schema (new_Page 0)).2.
Definition demo_noise_blob : bytes :=
  match compress CLZ4 (p_data demo_noise_page) with Ok b => b | _ => [] end.

Lemma slot_overflow_witness :
  exists e', write_page_to_disk demo_noise_page (demo_db_storage, ∅) = (Ok (slot demo_old_schema 0), e') /\
    load (f_content (st_file e'.1)) (slot demo_old_schema 1) (zlen demo_noise_blob - PAGE_SIZE)
      = Ok (drop (Z.to_nat PAGE_SIZE) demo_noise_blob).
Proof.
  apply (slot_overflow demo_old_schema CLZ4 (fresh_header CLZ4) demo_synced (demo_db_storage, ∅) ∅ demo_noise_page demo_noise_blob).
  - split; [apply demo_storage_up|done|apply demo_layout|done|vm_decide|done].
  - vm_decide.
  - vm_compute. reflexivity.
  - vm_decide.
Defined.
