(* ===== verification/Filter.v ===== *)
(** Scan filters ([include/xdl/db.h], [src/db.cpp]): the constraints a scan can put
    on fields, checked on a decoded row ([matches]) or on the serialised bytes
    without decoding them ([matches_raw]).

    The hash map of constraints is a list of pairs with distinct keys: the order of
    the list is the order in which the map is iterated, which the language leaves
    open, so what is proved holds for every order. *)
From S2P Require Import Prelude Types Serialise Page Float.

(** ** Definitions *)

Record FieldConstraint := mkFieldConstraint {
  eq_uint : option Z;
  eq_str : option bytes;
  eq_float : option Z;
  eq_bool : option bool;
  eq_int64 : option Z;
  min_uint : option Z;
  max_uint : option Z;
  min_int64 : option Z;
  max_int64 : option Z;
  min_float : option Z;
  max_float : option Z;
  prefix_str : option bytes;
}.

Definition no_constraint : FieldConstraint :=
  mkFieldConstraint None None None None None None None None None None None None.

Definition ScanFilter := list (bytes * FieldConstraint).

(** [constraints.find(name)] *)
Fixpoint constraint_for (f : ScanFilter) (name : bytes) : option FieldConstraint :=
  match f with
  | [] => None
  | (k, c) :: f => if bool_decide (k = name) then Some c else constraint_for f name
  end.

(** [constraints[field].x = v]: the entry is made when it is missing. *)
Fixpoint set_constraint (field : bytes) (upd : FieldConstraint -> FieldConstraint) (f : ScanFilter) : ScanFilter :=
  match f with
  | [] => [(field, upd no_constraint)]
  | (k, c) :: f => if bool_decide (k = field) then (k, upd c) :: f else (k, c) :: set_constraint field upd f
  end.

Definition filter_eq_uint (field : bytes) (v : Z) : ScanFilter -> ScanFilter :=
  set_constraint field (fun c => mkFieldConstraint (Some v) (eq_str c) (eq_float c) (eq_bool c) (eq_int64 c)
    (min_uint c) (max_uint c) (min_int64 c) (max_int64 c) (min_float c) (max_float c) (prefix_str c)).
Definition filter_eq_str (field : bytes) (v : bytes) : ScanFilter -> ScanFilter :=
  set_constraint field (fun c => mkFieldConstraint (eq_uint c) (Some v) (eq_float c) (eq_bool c) (eq_int64 c)
    (min_uint c) (max_uint c) (min_int64 c) (max_int64 c) (min_float c) (max_float c) (prefix_str c)).
Definition filter_eq_float (field : bytes) (v : Z) : ScanFilter -> ScanFilter :=
  set_constraint field (fun c => mkFieldConstraint (eq_uint c) (eq_str c) (Some v) (eq_bool c) (eq_int64 c)
    (min_uint c) (max_uint c) (min_int64 c) (max_int64 c) (min_float c) (max_float c) (prefix_str c)).
Definition filter_eq_bool (field : bytes) (v : bool) : ScanFilter -> ScanFilter :=
  set_constraint field (fun c => mkFieldConstraint (eq_uint c) (eq_str c) (eq_float c) (Some v) (eq_int64 c)
    (min_uint c) (max_uint c) (min_int64 c) (max_int64 c) (min_float c) (max_float c) (prefix_str c)).
Definition filter_eq_int64 (field : bytes) (v : Z) : ScanFilter -> ScanFilter :=
  set_constraint field (fun c => mkFieldConstraint (eq_uint c) (eq_str c) (eq_float c) (eq_bool c) (Some v)
    (min_uint c) (max_uint c) (min_int64 c) (max_int64 c) (min_float c) (max_float c) (prefix_str c)).
Definition filter_min_uint (field : bytes) (v : Z) : ScanFilter -> ScanFilter :=
  set_constraint field (fun c => mkFieldConstraint (eq_uint c) (eq_str c) (eq_float c) (eq_bool c) (eq_int64 c)
    (Some v) (max_uint c) (min_int64 c) (max_int64 c) (min_float c) (max_float c) (prefix_str c)).
Definition filter_max_uint (field : bytes) (v : Z) : ScanFilter -> ScanFilter :=
  set_constraint field (fun c => mkFieldConstraint (eq_uint c) (eq_str c) (eq_float c) (eq_bool c) (eq_int64 c)
    (min_uint c) (Some v) (min_int64 c) (max_int64 c) (min_float c) (max_float c) (prefix_str c)).
Definition filter_min_int64 (field : bytes) (v : Z) : ScanFilter -> ScanFilter :=
  set_constraint field (fun c => mkFieldConstraint (eq_uint c) (eq_str c) (eq_float c) (eq_bool c) (eq_int64 c)
    (min_uint c) (max_uint c) (Some v) (max_int64 c) (min_float c) (max_float c) (prefix_str c)).
Definition filter_max_int64 (field : bytes) (v : Z) : ScanFilter -> ScanFilter :=
  set_constraint field (fun c => mkFieldConstraint (eq_uint c) (eq_str c) (eq_float c) (eq_bool c) (eq_int64 c)
    (min_uint c) (max_uint c) (min_int64 c) (Some v) (min_float c) (max_float c) (prefix_str c)).
Definition filter_min_float (field : bytes) (v : Z) : ScanFilter -> ScanFilter :=
  set_constraint field (fun c => mkFieldConstraint (eq_uint c) (eq_str c) (eq_float c) (eq_bool c) (eq_int64 c)
    (min_uint c) (max_uint c) (min_int64 c) (max_int64 c) (Some v) (max_float c) (prefix_str c)).
Definition filter_max_float (field : bytes) (v : Z) : ScanFilter -> ScanFilter :=
  set_constraint field (fun c => mkFieldConstraint (eq_uint c) (eq_str c) (eq_float c) (eq_bool c) (eq_int64 c)
    (min_uint c) (max_uint c) (min_int64 c) (max_int64 c) (min_float c) (Some v) (prefix_str c)).
Definition filter_starts (field : bytes) (v : bytes) : ScanFilter -> ScanFilter :=
  set_constraint field (fun c => mkFieldConstraint (eq_uint c) (eq_str c) (eq_float c) (eq_bool c) (eq_int64 c)
    (min_uint c) (max_uint c) (min_int64 c) (max_int64 c) (min_float c) (max_float c) (Some v)).

(** One line of the switches: [return false] when the optional bound is set and
    the value breaks it. *)
Definition passes {A} (o : option A) (bad : A -> bool) : bool :=
  match o with Some x => negb (bad x) | None => true end.

Definition check_uint (c : FieldConstraint) (v : Z) : bool :=
  passes (eq_uint c) (fun x => bool_decide (v <> x)) &&
  passes (min_uint c) (fun x => bool_decide (v < x)) &&
  passes (max_uint c) (fun x => bool_decide (v > x)).

Definition check_int64 (c : FieldConstraint) (v : Z) : bool :=
  passes (eq_int64 c) (fun x => bool_decide (v <> x)) &&
  passes (min_int64 c) (fun x => bool_decide (v < x)) &&
  passes (max_int64 c) (fun x => bool_decide (v > x)).

Definition check_float (c : FieldConstraint) (v : Z) : bool :=
  passes (eq_float c) (fun x => negb (f32_eq v x)) &&
  passes (min_float c) (fun x => f32_lt v x) &&
  passes (max_float c) (fun x => f32_lt x v).

Definition check_bool (c : FieldConstraint) (v : bool) : bool :=
  passes (eq_bool c) (fun x => negb (eqb v x)).

Definition check_str (c : FieldConstraint) (s : bytes) : bool :=
  passes (eq_str c) (fun x => bool_decide (s <> x)) &&
  passes (prefix_str c) (fun p => bool_decide (zlen s < zlen p) || bool_decide (take (length p) s <> p)).

(** [skip_field] *)
Definition skip_field (m : bytes) (src : Z) (t : FieldType) : outcome Z :=
  match t with
  | UINT32 => Ok (src + 4)
  | INT64 => Ok (src + 8)
  | FLOAT32 => Ok (src + 4)
  | BOOL => Ok (src + 1)
  | STRING => len ← read_u16 m src; Ok (src + 2 + len)
  | UnknownType _ => Ok src
  end.

(** The inner [switch] of [matches_raw]: the field at [src]. *)
Definition check_raw (c : FieldConstraint) (t : FieldType) (m : bytes) (src : Z) : outcome bool :=
  match t with
  | UINT32 => v ← read_u32 m src; Ok (check_uint c v)
  | INT64 => u ← read_u64 m src; Ok (check_int64 c (i64_of_u64 u))
  | FLOAT32 => v ← read_f32 m src; Ok (check_float c v)
  | BOOL => v ← read_u8 m src; Ok (check_bool c (negb (bool_decide (v = 0))))
  | STRING =>
      len ← read_u16 m src;
      s ← load m (src + 2) len;
      Ok (check_str c s)
  | UnknownType _ => Ok true
  end.

Fixpoint matches_raw_loop (f : ScanFilter) (fs : list FieldDef) (m : bytes) (src : Z) : outcome bool :=
  match fs with
  | [] => Ok true
  | fd :: fs =>
      ok ← match constraint_for f (fd_name fd) with
           | Some c => check_raw c (fd_type fd) m src
           | None => Ok true
           end;
      if ok : bool then src' ← skip_field m src (fd_type fd); matches_raw_loop f fs m src' else Ok false
  end.

(** [ScanFilter::matches_raw]; [row_data] is an offset in the page's bytes. *)
Definition matches_raw (f : ScanFilter) (m : bytes) (row_data : Z) (schema : Schema) : outcome bool :=
  if bool_decide (f = []) then Ok true else matches_raw_loop f (fields schema) m (row_data + 8).

(** The [switch] of [matches]. *)
Definition check_value (c : FieldConstraint) (t : FieldType) (fv : FieldValue) : outcome bool :=
  match t with
  | UINT32 => v ← get_u32 fv; Ok (check_uint c v)
  | INT64 => v ← get_i64 fv; Ok (check_int64 c v)
  | FLOAT32 => v ← get_f32 fv; Ok (check_float c v)
  | BOOL => v ← get_b fv; Ok (check_bool c v)
  | STRING => s ← get_str fv; Ok (check_str c s)
  | UnknownType _ => Ok true
  end.

(** [ScanFilter::matches] *)
Fixpoint matches (f : ScanFilter) (row : Row) (schema : Schema) : outcome bool :=
  match f with
  | [] => Ok true
  | (name, c) :: f =>
      let idx := field_index schema name in
      if bool_decide (idx < 0) then matches f row schema else
      fv ← at_ (row_fields row) idx;
      fd ← index_ (fields schema) idx;
      ok ← check_value c (fd_type fd) fv;
      if ok : bool then matches f row schema else Ok false
  end.

(** *** Specification: what a constraint means *)

Definition holds {A} (o : option A) (P : A -> Prop) : Prop := forall x, o = Some x -> P x.

(** The constraints on the alternative a value holds; NaN satisfies no
    equality and no bound is broken by it. *)
Definition constraint_sat (c : FieldConstraint) (v : FieldValue) : Prop :=
  match v with
  | VUint32 n => holds (eq_uint c) (fun x => n = x) /\ holds (min_uint c) (fun x => x <= n) /\
      holds (max_uint c) (fun x => n <= x)
  | VInt64 n => holds (eq_int64 c) (fun x => n = x) /\ holds (min_int64 c) (fun x => x <= n) /\
      holds (max_int64 c) (fun x => n <= x)
  | VFloat b => holds (eq_float c) (fun x => f32_eq b x = true) /\ holds (min_float c) (fun x => f32_lt b x = false) /\
      holds (max_float c) (fun x => f32_lt x b = false)
  | VBool b => holds (eq_bool c) (fun x => b = x)
  | VString s => holds (eq_str c) (fun x => s = x) /\ holds (prefix_str c) (fun p => p `prefix_of` s)
  end.

(** A row satisfies a filter: every constraint on a field of the schema holds of
    the value in that field; constraints on other names are ignored. *)
Definition filter_sat (f : ScanFilter) (schema : Schema) (r : Row) : Prop :=
  forall name c k fd v, (name, c) ∈ f -> fields schema !! k = Some fd -> fd_name fd = name ->
    row_fields r !! k = Some v -> constraint_sat c v.

(** ** Lemmas *)

Lemma passes_holds {A} (o : option A) bad (P : A -> Prop) :
  (forall x, bad x = false <-> P x) -> passes o bad = true <-> holds o P.
Proof.
  intros Hb. unfold holds. destruct o as [x|]; cbn; [|split; [done|done]].
  rewrite negb_true_iff, Hb. split; [by intros ? ? [= <-]|auto].
Qed.

Lemma prefix_check (p s : bytes) :
  bool_decide (zlen s < zlen p) || bool_decide (take (length p) s <> p) = false <-> p `prefix_of` s.
Proof.
  rewrite orb_false_iff, !bool_decide_eq_false. split.
  - intros [Hl Ht]. destruct (decide (take (length p) s = p)) as [E|]; [|tauto].
    exists (drop (length p) s). rewrite <- E at 1. by rewrite take_drop.
  - intros [k ->]. rewrite length_app, take_app_length. split; [lia|tauto].
Qed.

(** The check of a field's type decides the meaning of the constraint. *)
Lemma check_value_spec c f v :
  value_ok f v -> exists b, check_value c (fd_type f) v = Ok b /\ (b = true <-> constraint_sat c v).
Proof.
  intros (Ht & _ & _). destruct (fd_type f), v; cbn in Ht |- *; try done; eexists; (split; [reflexivity|]).
  - unfold check_uint. rewrite !andb_true_iff.
    rewrite (passes_holds (eq_uint c) _ (fun x => v = x)) by (intros; rewrite bool_decide_eq_false; destruct (decide (v = x)); tauto).
    rewrite (passes_holds (min_uint c) _ (fun x => x <= v)) by (intros; rewrite bool_decide_eq_false; lia).
    rewrite (passes_holds (max_uint c) _ (fun x => v <= x)) by (intros; rewrite bool_decide_eq_false; lia). tauto.
  - unfold check_str. rewrite andb_true_iff.
    rewrite (passes_holds (eq_str c) _ (fun x => s = x)) by (intros; rewrite bool_decide_eq_false; destruct (decide (s = x)); tauto).
    by rewrite (passes_holds (prefix_str c) _ (fun p => p `prefix_of` s)) by (intros; apply prefix_check).
  - unfold check_float. rewrite !andb_true_iff.
    rewrite (passes_holds (eq_float c) _ (fun x => f32_eq bits x = true)) by (intros; apply negb_false_iff).
    rewrite (passes_holds (min_float c) _ (fun x => f32_lt bits x = false)) by done.
    rewrite (passes_holds (max_float c) _ (fun x => f32_lt x bits = false)) by done. tauto.
  - unfold check_bool. apply passes_holds. intros x. rewrite negb_false_iff, eqb_true_iff. done.
  - unfold check_int64. rewrite !andb_true_iff.
    rewrite (passes_holds (eq_int64 c) _ (fun x => v = x)) by (intros; rewrite bool_decide_eq_false; destruct (decide (v = x)); tauto).
    rewrite (passes_holds (min_int64 c) _ (fun x => x <= v)) by (intros; rewrite bool_decide_eq_false; lia).
    rewrite (passes_holds (max_int64 c) _ (fun x => v <= x)) by (intros; rewrite bool_decide_eq_false; lia). tauto.
Qed.

(** Checking the bytes is decoding them and checking the value. *)
Lemma check_raw_decode c t m src v src' :
  decode_field t m src = Ok ([v], src') ->
  check_raw c t m src = check_value c t v /\ skip_field m src t = Ok src'.
Proof.
  destruct t; cbn [decode_field check_raw skip_field]; intros Hd; [..|by injection Hd];
    repeat (apply outcome_bind_inv in Hd as (? & ? & Hd)); simplify_eq; cbn [check_value get_u32 get_str get_f32 get_b get_i64];
    repeat match goal with Hr : _ = Ok _ |- _ => rewrite Hr; clear Hr; cbn [mbind outcome_bind] end; done.
Qed.

(** Both checks, field by field. *)
Definition raw_sat (f : ScanFilter) (fs : list FieldDef) (vs : list FieldValue) : Prop :=
  forall k fd v c, fs !! k = Some fd -> vs !! k = Some v -> constraint_for f (fd_name fd) = Some c -> constraint_sat c v.

Lemma raw_sat_cons f fd fs v vs :
  raw_sat f (fd :: fs) (v :: vs) <->
  (forall c, constraint_for f (fd_name fd) = Some c -> constraint_sat c v) /\ raw_sat f fs vs.
Proof.
  split.
  - intros Hs. split; [intros c Hc; by apply (Hs O fd v c)|]. intros k. apply (Hs (S k)).
  - intros [Hv Hs] [|k] fd' v' c Hfd Hv' Hc; cbn in Hfd, Hv'; simplify_eq; [by apply Hv|by eapply Hs].
Qed.

Lemma matches_raw_loop_spec f fs vs m1 m2 :
  Forall2 value_ok fs vs ->
  exists b, matches_raw_loop f fs (m1 ++ encode_values vs ++ m2) (zlen m1) = Ok b /\ (b = true <-> raw_sat f fs vs).
Proof.
  intros Hf. revert m1. induction Hf as [|fd v fs vs Hv Hf IH]; intros m1; cbn [matches_raw_loop].
  - exists true. split; [done|]. split; [|done]. intros _ k fd v c Hk. by rewrite lookup_nil in Hk.
  - rewrite encode_values_cons, <- app_assoc. set (m := m1 ++ _).
    assert (Hdec : decode_field (fd_type fd) m (zlen m1) = Ok ([v], zlen m1 + zlen (encode_value v))) by (by apply decode_field_mid).
    setoid_rewrite raw_sat_cons.
    destruct (IH (m1 ++ encode_value v)) as (b & Hb & Hsat). rewrite <- app_assoc, length_app, Nat2Z.inj_add in Hb.
    destruct (constraint_for f (fd_name fd)) as [c|].
    + destruct (check_raw_decode c _ _ _ _ _ Hdec) as [-> ->]. destruct (check_value_spec c fd v Hv) as (bc & -> & Hbc).
      cbn [mbind outcome_bind]. destruct bc.
      * cbn [mbind outcome_bind]. unfold m. rewrite Hb. exists b. split; [done|]. rewrite Hsat. split.
        -- intros ?. split; [|done]. intros c' [= <-]. by apply Hbc.
        -- by intros [_ ?].
      * exists false. split; [done|]. split; [done|]. intros [Hc _]. by apply Hbc, Hc.
    + destruct (check_raw_decode no_constraint _ _ _ _ _ Hdec) as [_ ->]. cbn [mbind outcome_bind]. unfold m. rewrite Hb.
      exists b. split; [done|]. rewrite Hsat. split; [intros ?; by split|by intros [_ ?]].
Qed.

Lemma matches_spec f schema r :
  Forall2 value_ok (fields schema) (row_fields r) ->
  exists b, matches f r schema = Ok b /\
    (b = true <-> forall name c k fd v, (name, c) ∈ f -> field_index schema name = Z.of_nat k ->
       fields schema !! k = Some fd -> row_fields r !! k = Some v -> constraint_sat c v).
Proof.
  intros Hf. induction f as [|[name c] f IH].
  - exists true. split; [done|]. split; [|done]. intros _ name c k fd v Hin. by apply not_elem_of_nil in Hin.
  - destruct IH as (b & Hb & Hsat). cbn [matches]. destruct (decide (field_index schema name < 0)) as [Hn|Hn].
    + rewrite bool_decide_eq_true_2 by done. exists b. split; [done|]. rewrite Hsat. split.
      * intros Hs name' c' k fd v Hin Hi. apply elem_of_cons in Hin as [[= -> ->]|Hin]; [lia|by eapply Hs].
      * intros Hs name' c' k fd v Hin. apply Hs. by right.
    + rewrite bool_decide_eq_false_2 by done. destruct (field_index_nonneg schema name) as (k & fd & Hk & Hfd & _); [lia|].
      destruct (Forall2_lookup_l _ _ _ _ _ Hf Hfd) as (v & Hv & Hok). rewrite Hk, (at_index _ _ _ Hv).
      cbn [mbind outcome_bind]. rewrite (index_lookup _ _ _ Hfd). cbn [mbind outcome_bind].
      destruct (check_value_spec c fd v Hok) as (bc & -> & Hbc). cbn [mbind outcome_bind]. destruct bc.
      * exists b. split; [done|]. rewrite Hsat. split.
        -- intros Hs name' c' k' fd' v' Hin Hi Hfd' Hv'. apply elem_of_cons in Hin as [[= -> ->]|Hin]; [|by eapply Hs].
           assert (k' = k) as -> by lia. assert (v' = v) as -> by congruence. by apply Hbc.
        -- intros Hs name' c' k' fd' v' Hin. apply Hs. by right.
      * exists false. split; [done|]. split; [done|]. intros Hs. apply Hbc. eapply Hs; [by left|done..].
Qed.

Lemma constraint_for_elem f name c :
  NoDup f.*1 -> constraint_for f name = Some c <-> (name, c) ∈ f.
Proof.
  induction f as [|[k c'] f IH]; intros Hnd; cbn [constraint_for].
  - split; [done|]. intros Hin. by apply not_elem_of_nil in Hin.
  - rewrite fmap_cons in Hnd. apply NoDup_cons in Hnd as [Hni Hnd]. cbn in Hni. rewrite elem_of_cons.
    destruct (decide (k = name)) as [->|Hne].
    + rewrite bool_decide_eq_true_2 by done. split; [intros [= ->]; by left|].
      intros [[= ->]|Hin]; [done|]. destruct Hni. by apply (list_elem_of_fmap_2 fst) in Hin.
    + rewrite bool_decide_eq_false_2 by done. rewrite (IH Hnd). split; [by right|]. intros [[= -> ->]|Hin]; done.
Qed.

(** On a row of the schema both matchers decide [filter_sat]. *)
Lemma matches_sat f schema r :
  NoDup (fd_name <$> fields schema) -> Forall2 value_ok (fields schema) (row_fields r) ->
  exists b, matches f r schema = Ok b /\ (b = true <-> filter_sat f schema r).
Proof.
  intros Hnd Hf. destruct (matches_spec f schema r Hf) as (b & Hb & Hs). exists b. split; [done|]. rewrite Hs. split.
  - intros Hall name c k fd v Hin Hfd <- Hv. eapply Hall; [exact Hin| |exact Hfd|exact Hv]. by apply field_index_lookup.
  - intros Hall name c k fd v Hin Hi Hfd Hv. eapply Hall; [exact Hin|exact Hfd| |exact Hv].
    destruct (field_index_nonneg schema name) as (k' & fd' & Hk' & Hfd' & Hn); [lia|].
    assert (k' = k) as -> by lia. congruence.
Qed.

Lemma matches_raw_sat f schema r m1 m2 :
  NoDup f.*1 -> Forall2 value_ok (fields schema) (row_fields r) ->
  exists b, matches_raw f (m1 ++ encode_row r ++ m2) (zlen m1) schema = Ok b /\ (b = true <-> filter_sat f schema r).
Proof.
  intros Hnd Hf. unfold matches_raw. destruct (decide (f = [])) as [->|Hne].
  - rewrite bool_decide_eq_true_2 by done. exists true. split; [done|]. split; [|done].
    intros _ name c k fd v Hin. by apply not_elem_of_nil in Hin.
  - rewrite bool_decide_eq_false_2 by done.
    destruct (matches_raw_loop_spec f _ _ (m1 ++ le_bytes 4 (8 + zlen (encode_values (row_fields r))) ++ le_bytes 4 (row_id r)) m2 Hf)
      as (b & Hb & Hs).
    exists b. split.
    + rewrite <- Hb. unfold encode_row. rewrite <- !app_assoc. f_equal. rewrite !length_app, !length_le_bytes. lia.
    + rewrite Hs. split.
      * intros Hall name c k fd v Hin Hfd <- Hv. eapply Hall; [done|done|]. by apply constraint_for_elem.
      * intros Hall k fd v c Hfd Hv Hc. eapply Hall; [by apply constraint_for_elem|done|done|done].
Qed.

Lemma set_constraint_keys field upd f : NoDup f.*1 -> NoDup (set_constraint field upd f).*1 /\
  forall k, k ∈ (set_constraint field upd f).*1 <-> k = field \/ k ∈ f.*1.
Proof.
  induction f as [|[k c] f IH]; intros Hnd; cbn [set_constraint].
  - split; [by constructor; [apply not_elem_of_nil|constructor]|]. intros k. rewrite fmap_cons, elem_of_cons. done.
  - rewrite fmap_cons in Hnd. apply NoDup_cons in Hnd as [Hni Hnd]. destruct (IH Hnd) as [Hnd' Hk].
    destruct (decide (k = field)) as [->|Hne].
    + rewrite bool_decide_eq_true_2 by done. split; [by rewrite fmap_cons; constructor|].
      intros k'. rewrite !fmap_cons, !elem_of_cons. cbn. tauto.
    + rewrite bool_decide_eq_false_2 by done. rewrite fmap_cons. split.
      * constructor; [|done]. rewrite Hk. cbn in *. tauto.
      * intros k'. rewrite fmap_cons, !elem_of_cons, Hk. tauto.
Qed.

(** ** Properties *)

(** C23: filtering without decoding. On the bytes of any row of the schema, wherever
    they lie in a page, [matches_raw] answers what [matches] answers on the decoded
    row, without leaving the row's bytes and without an exception; and the answer
    is that every constraint on a field of the schema holds of the row's value. *)
Theorem scan_filter_equiv f schema r m1 m2 :
  NoDup (fd_name <$> fields schema) -> NoDup f.*1 -> row_ok schema r ->
  exists b, matches_raw f (m1 ++ encode_row r ++ m2) (zlen m1) schema = Ok b /\ matches f r schema = Ok b /\
    (b = true <-> filter_sat f schema r).
Proof.
  intros Hn Hf (_ & Hv & _). destruct (matches_raw_sat f schema r m1 m2 Hf Hv) as (b & Hb & Hs).
  destruct (matches_sat f schema r Hn Hv) as (b' & Hb' & Hs'). exists b. split_and!; [done| |done].
  rewrite Hb'. f_equal. rewrite <- Hs in Hs'. by apply Bool.eq_iff_eq_true.
Qed.

Definition demo_filter_schema : Schema := schema_of [mkFieldDef (str "age") UINT32; mkFieldDef (str "name") STRING].
Definition demo_filter_row : Row := mkRow 7 [VUint32 41; VString (str "grace")].
Definition demo_filter : ScanFilter := filter_starts (str "name") (str "gr") (filter_min_uint (str "age") 40 []).

Lemma scan_filter_equiv_witness :
  exists b, matches_raw demo_filter (encode_row demo_filter_row ++ [x2a]) 0 demo_filter_schema = Ok b /\
    matches demo_filter demo_filter_row demo_filter_schema = Ok b /\
    (b = true <-> filter_sat demo_filter demo_filter_schema demo_filter_row).
Proof.
  apply (scan_filter_equiv demo_filter demo_filter_schema demo_filter_row [] [x2a]); vm_decide.
Defined.
