(* ===== verification/Db.v ===== *)
(** The database ([include/xdl/db.h], [src/db.cpp]): the public operations over the
    Pager, the primary index, the log and the secondary indexes.

    Each public operation holds the reader-writer lock from its first line to its
    last, so it is one atomic step here; the lock itself is in Lock.v.  A call
    through [pager_] before the object exists, or after the storage it refers to
    was destroyed, is undefined behaviour. *)
From S2P Require Import Prelude Types Serialise Page BPTree Index Posix Wal Compression Migrate Storage Cache Pager Filter.

(** ** Definitions *)

(** [storage_] and [index_] are the ones the Pager refers to. *)
Record DB (F : Type) := mkDB {
  db_schema : Schema;
  db_explicit : bool;
  db_compression : CompressionType;
  db_cache_cap : Z;
  db_migration : SchemaMigrate;
  db_pager : Pager F;
  db_wal : WAL F;
  db_live : bool;               (* pager_ can be used *)
  db_indexes : gmap bytes BPTree;
  db_open : bool;
}.
Arguments mkDB {F}. Arguments db_schema {F}. Arguments db_explicit {F}. Arguments db_compression {F}.
Arguments db_cache_cap {F}. Arguments db_migration {F}. Arguments db_pager {F}. Arguments db_wal {F}.
Arguments db_live {F}. Arguments db_indexes {F}. Arguments db_open {F}.

Record Stats := mkStats {
  s_row_count : Z; s_page_count : Z; s_cache_size : Z; s_cache_capacity : Z; s_file_size : Z;
  s_schema_version : Z; s_wal_active : bool; s_index_count : Z;
}.

(** [schemas_match] *)
Fixpoint fields_match (a b : list FieldDef) : bool :=
  match a, b with
  | f :: a, g :: b => bool_decide (fd_name f = fd_name g) && bool_decide (fd_type f = fd_type g) && fields_match a b
  | _, _ => true
  end.
Definition schemas_match (a b : Schema) : bool :=
  bool_decide (length (fields a) = length (fields b)) && fields_match (fields a) (fields b).

Definition default_fields : list FieldDef := [mkFieldDef (str "age") UINT32; mkFieldDef (str "name") STRING].

(** The slot of a row: the index's when it is still right, else by search. *)
Definition locate_slot (page : Page) (entry_slot id : Z) : outcome Z :=
  if bool_decide (entry_slot < p_row_count page) then
    rid ← row_id_at page entry_slot;
    if bool_decide (rid = id) then Ok entry_slot else find_row page id
  else find_row page id.

Section db.
Context {F : Type} `{FileSys F} `{LZ4Lib}.
#[local] Abbreviation DB := (DB F).

Definition db_set_schema (s : Schema) (d : DB) : DB :=
  mkDB s (db_explicit d) (db_compression d) (db_cache_cap d) (db_migration d) (db_pager d) (db_wal d) (db_live d)
    (db_indexes d) (db_open d).
Definition db_set_pager (p : Pager F) (d : DB) : DB :=
  mkDB (db_schema d) (db_explicit d) (db_compression d) (db_cache_cap d) (db_migration d) p (db_wal d) (db_live d)
    (db_indexes d) (db_open d).
Definition db_set_wal (w : WAL F) (d : DB) : DB :=
  mkDB (db_schema d) (db_explicit d) (db_compression d) (db_cache_cap d) (db_migration d) (db_pager d) w (db_live d)
    (db_indexes d) (db_open d).
Definition db_set_live (b : bool) (d : DB) : DB :=
  mkDB (db_schema d) (db_explicit d) (db_compression d) (db_cache_cap d) (db_migration d) (db_pager d) (db_wal d) b
    (db_indexes d) (db_open d).
Definition db_set_indexes (i : gmap bytes BPTree) (d : DB) : DB :=
  mkDB (db_schema d) (db_explicit d) (db_compression d) (db_cache_cap d) (db_migration d) (db_pager d) (db_wal d)
    (db_live d) i (db_open d).
Definition db_set_open (b : bool) (d : DB) : DB :=
  mkDB (db_schema d) (db_explicit d) (db_compression d) (db_cache_cap d) (db_migration d) (db_pager d) (db_wal d)
    (db_live d) (db_indexes d) b.

(** Calls on the objects the DB owns. *)
Definition the_pager {A} (m : M (Pager F) A) : M DB A := zoom db_pager db_set_pager m.
Definition the_storage {A} (m : M (Storage F) A) : M DB A := the_pager (on_storage m).
Definition the_wal {A} (m : M (WAL F) A) : M DB A := zoom db_wal db_set_wal m.

(** [pager_->...] *)
Definition on_pager {A} (m : M (Pager F) A) : M DB A := d ← get; if db_live d then the_pager m else ub.

(** [index_->find(id)] *)
Definition db_find (id : Z) : M DB (option IndexEntry) := d ← get; mret (idx_find (pg_index (db_pager d)) id).

(** [DB::DB] on a path: the database file and the log file as they are there. *)
Definition new_DB (f : F) (wf : F) (schema : Schema) (ct : CompressionType) (cache_cap : Z) (m : SchemaMigrate)
    : outcome DB :=
  let explicit := bool_decide (fields schema <> []) in
  let schema := if explicit then schema else mkSchema default_fields (ver schema) in
  validate schema ;;
  Ok (mkDB schema explicit ct cache_cap m (new_Pager (new_Storage f ct) new_IndexManager cache_cap) (new_WAL wf)
        false ∅ false).

(** *** Secondary indexes *)

(** A call on the tree of a field. *)
Definition on_tree (name : bytes) (m : M BPTree unit) : M DB unit :=
  zoom (fun d => default [] (db_indexes d !! name)) (fun t d => db_set_indexes (<[name := t]> (db_indexes d)) d) m.

(** The body of the loops over [indexes_]. *)
Definition index_field (op : FieldValue -> FieldType -> Z -> M BPTree unit) (row : Row) (id : Z) (field_name : bytes)
    : M DB unit :=
  d ← get;
  let fi := field_index (db_schema d) field_name in
  if bool_decide (fi >= 0) then
    v ← lift (index_ (row_fields row) fi);
    fd ← lift (index_ (fields (db_schema d)) fi);
    on_tree field_name (op v (fd_type fd) id)
  else mret tt.

Definition update_indexes (op : FieldValue -> FieldType -> Z -> M BPTree unit) (row : Row) (id : Z) : M DB unit :=
  d ← get; mfor (index_field op row id) (map_to_list (db_indexes d)).*1.

(** *** Insert *)

(** [DB::get_or_create_writable_page] *)
Definition get_or_create_writable_page (row : Row) : M DB Z :=
  d ← get;
  need ← lift (serialised_row_size row (db_schema d));
  if bool_decide (need > PAGE_SIZE) then throw XDLError else
  count ← on_pager (p ← get; mret (page_count p));
  if bool_decide (count > 0) then
    l ← on_pager (get_mutable_page (u32 (count - 1)));
    last ← on_pager (page_at l);
    if has_capacity last && bool_decide (zlen (p_data last) + need <= PAGE_SIZE) then mret l
    else on_pager new_page
  else on_pager new_page.

(** [DB::insert_unlocked] *)
Definition insert_unlocked (row : Row) (sync_now : bool) : M DB unit :=
  d ← get;
  if bool_decide (zlen (row_fields row) <> zlen (fields (db_schema d))) then throw XDLError else
  found ← db_find (row_id row);
  if found is Some _ then throw DuplicateKeyError else
  l ← get_or_create_writable_page row;
  page ← on_pager (page_at l);
  let slot := p_row_count page in
  on_pager (mutate_page l (append_row row (db_schema d))) ;;
  page ← on_pager (page_at l);
  row_ptr ← lift (row_data_ptr page slot);
  row_len ← lift (row_data_len page slot);
  payload ← lift (load (p_data page) row_ptr row_len);
  the_wal (log_insert (row_id row) (p_id page) slot payload sync_now) ;;
  offset ← on_pager (p ← get; mret (page_offset p (p_id page)));
  on_pager (on_index (idx_insert (row_id row) (mkIndexEntry (p_id page) offset slot))) ;;
  update_indexes bpt_insert row (row_id row).

(** [if (!open_) throw XDLError("DB not open");] *)
Definition when_open {A} (m : M DB A) : M DB A := d ← get; if negb (db_open d) then throw XDLError else m.

(** [DB::insert] *)
Definition insert (row : Row) : M DB unit := when_open (insert_unlocked row true).

(** The checks on one row of a batch that do not depend on the batch. *)
Definition check_arity (row : Row) (d : DB) : outcome unit :=
  if bool_decide (zlen (row_fields row) <> zlen (fields (db_schema d))) then Throw XDLError else Ok tt.
Definition check_size (row : Row) (d : DB) : outcome unit :=
  need ← serialised_row_size row (db_schema d);
  if bool_decide (need > PAGE_SIZE) then Throw XDLError else Ok tt.

(** The validation loop of [insert_batch]. *)
Fixpoint check_insert_batch (rows : list Row) (seen : gset Z) (d : DB) : outcome unit :=
  match rows with
  | [] => Ok tt
  | row :: rows =>
      check_arity row d ;;
      if bool_decide (is_Some (idx_find (pg_index (db_pager d)) (row_id row)) \/ row_id row ∈ seen)
      then Throw DuplicateKeyError else
      check_size row d ;;
      check_insert_batch rows (seen ∪ {[row_id row]}) d
  end.

(** [DB::insert_batch] *)
Definition insert_batch (rows : list Row) : M DB Z :=
  when_open (
    if bool_decide (rows = []) then mret 0 else
    d ← get;
    lift (check_insert_batch rows ∅ d) ;;
    mfor (fun row => insert_unlocked row false) rows ;;
    the_wal wal_sync ;;
    mret (zlen rows)).

(** *** Delete and update *)

(** [DB::repair_slots_after_erase] *)
Definition repair_slots_after_erase (page_id : Z) : M DB unit :=
  d ← get;
  match ids_for_page (pg_index (db_pager d)) page_id with
  | None => mret tt
  | Some ids =>
      l ← on_pager (get_mutable_page page_id);
      mfor (fun rid =>
        page ← on_pager (page_at l);
        slot ← lift (find_row page rid);
        if bool_decide (slot >= 0) then on_pager (on_index (update_slot rid slot)) else mret tt) (elements ids)
  end.

(** [DB::erase_unlocked] *)
Definition erase_unlocked (id : Z) : M DB bool :=
  d ← get;
  entry ← db_find id;
  match entry with
  | None => mret false
  | Some entry =>
      let page_id := page_id entry in
      l ← on_pager (get_mutable_page page_id);
      page ← on_pager (page_at l);
      slot ← lift (locate_slot page (row_slot entry) id);
      if bool_decide (slot < 0) then mret false else
      old ← lift (get_row page slot (db_schema d));
      the_wal (log_delete id page_id slot false) ;;
      on_pager (mutate_page l (erase_row slot)) ;;
      on_pager (on_index (idx_remove id)) ;;
      repair_slots_after_erase page_id ;;
      update_indexes bpt_erase old id ;;
      mret true
  end.

(** [DB::erase] *)
Definition erase (id : Z) : M DB unit :=
  when_open (
    ok ← erase_unlocked id;
    if negb ok then throw NotFoundError else
    the_wal wal_sync).

Fixpoint check_erase_batch (ids : list Z) (seen : gset Z) (d : DB) : outcome unit :=
  match ids with
  | [] => Ok tt
  | id :: ids =>
      if bool_decide (id ∈ seen) then Throw DuplicateKeyError else
      if bool_decide (idx_find (pg_index (db_pager d)) id = None) then Throw NotFoundError else
      check_erase_batch ids (seen ∪ {[id]}) d
  end.

(** The deleting loop of [erase_batch], counting. *)
Fixpoint erase_all (ids : list Z) (deleted : Z) : M DB Z :=
  match ids with
  | [] => mret deleted
  | id :: ids => ok ← erase_unlocked id; erase_all ids (if ok : bool then deleted + 1 else deleted)
  end.

(** [DB::erase_batch] *)
Definition erase_batch (ids : list Z) : M DB Z :=
  when_open (
    if bool_decide (ids = []) then mret 0 else
    d ← get;
    lift (check_erase_batch ids ∅ d) ;;
    deleted ← erase_all ids 0;
    the_wal wal_sync ;;
    mret deleted).

(** [DB::update] *)
Definition update (row : Row) : M DB unit :=
  when_open (
    found ← db_find (row_id row);
    if bool_decide (found = None) then throw NotFoundError else
    d ← get;
    lift (check_arity row d) ;;
    lift (check_size row d) ;;
    ok ← erase_unlocked (row_id row);
    if negb ok then throw NotFoundError else
    insert_unlocked row false ;;
    the_wal wal_sync).

Fixpoint check_update_batch (rows : list Row) (seen : gset Z) (d : DB) : outcome unit :=
  match rows with
  | [] => Ok tt
  | row :: rows =>
      check_arity row d ;;
      if bool_decide (row_id row ∈ seen) then Throw DuplicateKeyError else
      if bool_decide (idx_find (pg_index (db_pager d)) (row_id row) = None) then Throw NotFoundError else
      check_size row d ;;
      check_update_batch rows (seen ∪ {[row_id row]}) d
  end.

(** [DB::update_batch] *)
Definition update_batch (rows : list Row) : M DB Z :=
  when_open (
    if bool_decide (rows = []) then mret 0 else
    d ← get;
    lift (check_update_batch rows ∅ d) ;;
    mfor (fun row => _ ← erase_unlocked (row_id row); insert_unlocked row false) rows ;;
    the_wal wal_sync ;;
    mret (zlen rows)).

(** *** Reading *)

(** [DB::get_unlocked] *)
Definition get_unlocked (id : Z) : M DB Row :=
  d ← get;
  entry ← db_find id;
  match entry with
  | None => throw NotFoundError
  | Some entry =>
      l ← on_pager (get_page (page_id entry));
      page ← on_pager (page_at l);
      lift (get_row page (row_slot entry) (db_schema d))
  end.

(** [DB::get] *)
Definition db_get (id : Z) : M DB Row := when_open (get_unlocked id).

(** [DB::try_get]: [None] is [false], with [out] left alone. *)
Definition try_get (id : Z) : M DB (option Row) :=
  when_open (
    catch (r ← get_unlocked id; mret (Some r))
      (fun e => if bool_decide (e = NotFoundError) then mret None else throw e)).

(** The two loops of [scan_unlocked] and [create_index], with a body that works on
    a state of its own. *)
Definition with_db {T A} (m : M DB A) : M (DB * T) A := zoom fst (fun d s => (d, s.2)) m.
Definition with_own {T A} (m : M T A) : M (DB * T) A := zoom snd (fun t s => (s.1, t)) m.

Definition each_slot {T} (body : Page -> Z -> M T unit) : M (DB * T) unit :=
  total_pages ← with_db (on_pager (p ← get; mret (page_count p)));
  mfor (fun pid =>
    l ← with_db (on_pager (get_page pid));
    page ← with_db (on_pager (page_at l));
    with_own (mfor (body page) (zseq (p_row_count page)))) (zseq total_pages).

(** The inner loop's body: filter on the raw bytes, then decode and visit. *)
Definition visit_slot {T} (schema : Schema) (filter : ScanFilter) (visitor : Row -> M T unit) (page : Page) (slot : Z)
    : M T unit :=
  ptr ← lift (row_data_ptr page slot);
  ok ← lift (matches_raw filter (p_data page) ptr schema);
  if negb ok then mret tt else
  r ← lift (get_row page slot schema);
  visitor r.

(** [DB::scan_unlocked]; [T] is the state the visitor works on. *)
Definition scan_unlocked {T} (visitor : Row -> M T unit) (filter : ScanFilter) : M (DB * T) unit :=
  d ← with_db get;
  each_slot (visit_slot (db_schema d) filter visitor).

(** [DB::scan] *)
Definition scan {T} (visitor : Row -> M T unit) (filter : ScanFilter) : M (DB * T) unit :=
  d ← with_db get;
  if negb (db_open d) then throw XDLError else scan_unlocked visitor filter.

(** [results.push_back(r)] *)
Definition push_back (r : Row) : M (list Row) unit := modify (fun l => l ++ [r]).

(** Run a call with a local variable. *)
Definition with_local {T A} (t : T) (m : M (DB * T) A) : M DB T := fun d =>
  let '(o, s) := m (d, t) in (match o with Ok _ => Ok s.2 | Throw e => Throw e | UB => UB end, s.1).

(** [DB::scan_all] *)
Definition scan_all (filter : ScanFilter) : M DB (list Row) := with_local [] (scan push_back filter).

(** *** Indexes *)

(** [DB::create_index] *)
Definition create_index (field_name : bytes) : M DB unit :=
  d ← get;
  let fi := field_index (db_schema d) field_name in
  if bool_decide (fi < 0) then throw XDLError else
  if bool_decide (is_Some (db_indexes d !! field_name)) then mret tt else
  fd ← lift (index_ (fields (db_schema d)) fi);
  tree ← with_local [] (each_slot (fun page slot =>
    r ← lift (get_row page slot (db_schema d));
    v ← lift (index_ (row_fields r) fi);
    bpt_insert v (fd_type fd) (row_id r)));
  modify (fun d => db_set_indexes (<[field_name := tree]> (db_indexes d)) d).

Definition drop_index (field_name : bytes) : M DB unit :=
  modify (fun d => db_set_indexes (base.delete field_name (db_indexes d)) d).

Definition has_index (field_name : bytes) : M DB bool :=
  d ← get; mret (bool_decide (is_Some (db_indexes d !! field_name))).

(** [compare_field_values] *)
Definition compare_field_values (a b : FieldValue) (ft : FieldType) : outcome Z :=
  ka ← bptree_key_encode_vec a ft;
  kb ← bptree_key_encode_vec b ft;
  Ok (bptree_key_compare ka kb).

(** The visitor of the scan that stands in for a missing index: [true] when the
    row is kept. *)
Definition in_bounds (v : FieldValue) (ft : FieldType) (lo : option FieldValue) (lo_inclusive : bool)
    (hi : option FieldValue) (hi_inclusive : bool) : outcome bool :=
  low ← match lo with
        | None => Ok true
        | Some lo => c ← compare_field_values v lo ft;
            Ok (negb (bool_decide (c < 0) || bool_decide (c = 0) && negb lo_inclusive))
        end;
  if negb low then Ok false else
  match hi with
  | None => Ok true
  | Some hi => c ← compare_field_values v hi ft;
      Ok (negb (bool_decide (c > 0) || bool_decide (c = 0) && negb hi_inclusive))
  end.

Definition bounds_visitor (fi : Z) (ft : FieldType) (lo : option FieldValue) (lo_inclusive : bool)
    (hi : option FieldValue) (hi_inclusive : bool) (r : Row) : M (list Row) unit :=
  v ← lift (index_ (row_fields r) fi);
  keep ← lift (in_bounds v ft lo lo_inclusive hi hi_inclusive);
  if keep : bool then push_back r else mret tt.

(** The places of the ids that a scan of the tree visits. *)
Definition locations (d : DB) (entries : list Entry) : list (Z * Z) :=
  concat ((fun e => omap (fun id => en ← idx_find (pg_index (db_pager d)) id; Some (page_id en, row_slot en)) (BPTree.ids e)) <$> entries).

(** [by_page[locs[i].first].emplace_back(i, locs[i].second)] *)
Definition by_page (locs : list (Z * Z)) : gmap Z (list (nat * Z)) :=
  foldl (fun m il => <[il.2.1 := default [] (m !! il.2.1) ++ [(il.1, il.2.2)]]> m) ∅ (imap pair locs).

(** Load each page once and fill the results in. *)
Definition fetch (schema : Schema) (locs : list (Z * Z)) : M (DB * list Row) unit :=
  mfor (fun pi =>
    l ← with_db (on_pager (get_page pi.1));
    page ← with_db (on_pager (page_at l));
    mfor (fun os =>
      r ← lift (get_row page os.2 schema);
      with_own (modify (<[os.1 := r]>))) pi.2) (map_to_list (by_page locs)).

(** [DB::index_range_scan] *)
Definition index_range_scan (field : bytes) (lo : option FieldValue) (lo_inclusive : bool)
    (hi : option FieldValue) (hi_inclusive : bool) : M DB (list Row) :=
  d ← get;
  let fi := field_index (db_schema d) field in
  if bool_decide (fi < 0) then throw XDLError else
  fd ← lift (index_ (fields (db_schema d)) fi);
  let ft := fd_type fd in
  match db_indexes d !! field with
  | None => with_local [] (scan_unlocked (bounds_visitor fi ft lo lo_inclusive hi hi_inclusive) [])
  | Some tree =>
      entries ← lift (range_scan tree lo ft lo_inclusive hi ft hi_inclusive);
      let locs := locations d entries in
      with_local (replicate (length locs) (mkRow 0 [])) (fetch (db_schema d) locs)
  end.

(** *** Maintenance *)

(** [DB::checkpoint] *)
Definition checkpoint : M DB unit := when_open (on_pager flush_all ;; the_wal wal_clear).

(** [DB::stats] *)
Definition db_stats : M DB Stats :=
  d ← get;
  if negb (db_open d) then mret (mkStats 0 0 0 0 0 0 false 0) else
  file_size ← the_storage storage_file_size;
  let p := db_pager d in
  mret (mkStats (idx_size (pg_index p)) (page_count p) (pager_cache_size p) (db_cache_cap d) file_size
    (ver (db_schema d)) (w_open (db_wal d)) (Z.of_nat (size (db_indexes d)))).

(** *** Opening and closing *)

(** One INSERT record of [replay_wal]. *)
Definition replay_insert (rec : WALRecord) : M DB unit :=
  found ← db_find (wr_row_id rec);
  if found is Some _ then mret tt else
  catch (
    d ← get;
    let tmp_page := mkPage INVALID_PAGE_ID (wr_row_data rec) 1 false (if bool_decide (wr_row_data rec <> []) then [0] else []) in
    r ← lift (get_row tmp_page 0 (db_schema d));
    l ← get_or_create_writable_page r;
    page ← on_pager (page_at l);
    let slot := p_row_count page in
    on_pager (mutate_page l (append_row r (db_schema d))) ;;
    offset ← on_pager (p ← get; mret (page_offset p (p_id page)));
    on_pager (on_index (idx_insert (row_id r) (mkIndexEntry (p_id page) offset slot))) ;;
    update_indexes bpt_insert r (row_id r)) (fun _ => mret tt).

(** One DELETE record. *)
Definition replay_delete (rec : WALRecord) : M DB unit :=
  entry ← db_find (wr_row_id rec);
  match entry with
  | None => mret tt
  | Some entry =>
      let page_id := page_id entry in
      catch (
        l ← on_pager (get_mutable_page page_id);
        page ← on_pager (page_at l);
        slot ← lift (locate_slot page (row_slot entry) (wr_row_id rec));
        (if bool_decide (slot >= 0) then
           on_pager (mutate_page l (erase_row slot)) ;;
           on_pager (mutate_page l (modify (set_dirty true)))
         else mret tt) ;;
        on_pager (on_index (idx_remove (wr_row_id rec))) ;;
        repair_slots_after_erase page_id) (fun _ => mret tt)
  end.

Definition replay_record (rec : WALRecord) : M DB unit :=
  if bool_decide (wr_type rec = COMMIT \/ wr_type rec = CHECKPOINT) then mret tt
  else if bool_decide (wr_type rec = INSERT) then replay_insert rec
  else if bool_decide (wr_type rec = DELETE) then replay_delete rec
  else mret tt.

(** [DB::replay_wal] *)
Definition replay_wal : M DB unit :=
  records ← the_wal replay;
  mfor replay_record records.

(** [storage_ = make_unique<StorageEngine>(path_, compression_)]: the engine that
    was there is destroyed, and the Pager on it with it. *)
Definition renew_storage : M DB unit :=
  the_storage storage_close ;;
  modify (db_set_live false) ;;
  modify (fun d => db_set_pager (pg_set_storage (new_Storage (st_file (pg_storage (db_pager d))) (db_compression d)) (db_pager d)) d).

(** [storage_->close(); storage_.reset(); throw e;] *)
Definition reject {A} (e : exn) : M DB A :=
  the_storage storage_close ;; throw e.

(** The stored schema, when there is one that can be read. *)
Definition stored_schema : M DB (option Schema) :=
  file_sz ← the_storage storage_file_size;
  if bool_decide (file_sz > DBHEADER_SIZE + 4) then
    catch (s ← the_storage read_schema; mret (Some s)) (fun e => if is_XDLError e then mret None else throw e)
  else mret None.

(** [DB::open] *)
Definition db_open_ : M DB unit :=
  d ← get;
  if db_open d then mret tt else
  renew_storage ;;
  the_storage storage_open ;;
  dbhdr ← the_storage read_db_header;
  stored ← stored_schema;
  (match stored with
   | Some stored =>
       if db_explicit d && negb (schemas_match stored (db_schema d)) then reject MigrationError
       else modify (db_set_schema stored)
   | None =>
       if bool_decide (h_page_count dbhdr > 0) then reject CorruptionError
       else the_storage (write_schema (db_schema d))
   end) ;;
  the_pager (modify (pg_set_index new_IndexManager)) ;;
  the_wal wal_close ;;
  modify (fun d => db_set_wal (new_WAL (w_file (db_wal d))) d) ;;
  the_wal wal_open ;;
  modify (fun d => db_set_pager (new_Pager (pg_storage (db_pager d)) (pg_index (db_pager d)) (db_cache_cap d)) d) ;;
  modify (db_set_live true) ;;
  d ← get;
  on_pager (recover (db_schema d)) ;;
  replay_wal ;;
  modify (db_set_open true).

(** [DB::close] *)
Definition db_close : M DB unit :=
  d ← get;
  if negb (db_open d) then mret tt else
  on_pager flush_all ;;
  the_wal wal_clear ;;
  the_wal wal_close ;;
  the_storage storage_close ;;
  modify (db_set_indexes ∅) ;;
  modify (db_set_open false).

(** [DB::is_open], [DB::schema] *)
Definition db_is_open (d : DB) : bool := db_open d.

(** [DB::~DB] *)
Definition db_destroy : M DB unit :=
  d ← get; if db_open d then catch db_close (fun _ => mret tt) else mret tt.
End db.
