(* ===== verification/DbSpec.v ===== *)
(** What the database promises, on the rows of its pages: where a row is put and
    what is left when one is taken out, one step at a time, the log records of the
    steps, and the finite map from ids to rows that the pages stand for. *)
From S2P Require Import Prelude Types Page Std BPTree Index Posix Wal Compression Pager.

(** ** Steps on the pages *)

(** The page has room for the row: the test of [get_or_create_writable_page]. *)
Definition page_fits (rows : list Row) (r : Row) : Prop :=
  zlen rows < MAX_ROWS_PER_PAGE /\ zlen (encode_rows rows) + zlen (encode_row r) <= PAGE_SIZE.
#[export] Instance page_fits_dec rows r : Decision (page_fits rows r).
Proof. unfold page_fits. apply _. Defined.

(** The page a row is put on, behind the pages that are left alone. *)
Definition target (r : Row) (pages : list (list Row)) : list (list Row) * list Row :=
  match last pages with
  | Some rows => if bool_decide (page_fits rows r) then (removelast pages, rows) else (pages, [])
  | None => (pages, [])
  end.

Definition pages_insert (r : Row) (pages : list (list Row)) : list (list Row) :=
  let '(init, rows) := target r pages in init ++ [rows ++ [r]].

Definition pages_erase (id : Z) (pages : list (list Row)) : list (list Row) :=
  filter (fun r => row_id r <> id) <$> pages.

Inductive row_step := SInsert (r : Row) | SErase (id : Z).
#[export] Instance row_step_eq_decision : EqDecision row_step.
Proof. solve_decision. Defined.

Definition step_pages (s : row_step) (pages : list (list Row)) : list (list Row) :=
  match s with SInsert r => pages_insert r pages | SErase id => pages_erase id pages end.
Definition steps_pages (ms : list row_step) (pages : list (list Row)) : list (list Row) :=
  foldl (fun ps s => step_pages s ps) pages ms.

(** A step that is allowed, and whose pages fit their slots. *)
Definition step_ok `{LZ4Lib} (schema : Schema) (ct : CompressionType) (s : row_step) (pages : list (list Row)) : Prop :=
  match s with
  | SInsert r => row_ok schema r /\ (row_id r ∉ row_ids pages) /\ zlen pages + 1 < 2 ^ 32
  | SErase id => id ∈ row_ids pages
  end /\ Forall (storable schema ct) (step_pages s pages).

Fixpoint steps_ok `{LZ4Lib} (schema : Schema) (ct : CompressionType) (ms : list row_step) (pages : list (list Row)) : Prop :=
  match ms with
  | [] => True
  | s :: ms => step_ok schema ct s pages /\ steps_ok schema ct ms (step_pages s pages)
  end.

#[export] Instance step_ok_dec `{LZ4Lib} schema ct s pages : Decision (step_ok schema ct s pages).
Proof. destruct s; unfold step_ok; apply _. Defined.
#[export] Instance steps_ok_dec `{LZ4Lib} schema ct ms pages : Decision (steps_ok schema ct ms pages).
Proof. revert pages. induction ms; intros pages; cbn [steps_ok]; apply _. Defined.

(** A step replayed on pages that may have it already. *)
Definition replay_step (s : row_step) (pages : list (list Row)) : list (list Row) :=
  match s with
  | SInsert r => if bool_decide (row_id r ∈ row_ids pages) then pages else pages_insert r pages
  | SErase id => pages_erase id pages
  end.
Definition replays (ms : list row_step) (pages : list (list Row)) : list (list Row) :=
  foldl (fun ps s => replay_step s ps) pages ms.

Definition replay_ok `{LZ4Lib} (schema : Schema) (ct : CompressionType) (s : row_step) (pages : list (list Row)) : Prop :=
  match s with SInsert r => row_ok schema r /\ zlen pages + 1 < 2 ^ 32 | SErase _ => True end /\
  Forall (storable schema ct) (replay_step s pages).
Fixpoint replays_ok `{LZ4Lib} (schema : Schema) (ct : CompressionType) (ms : list row_step) (pages : list (list Row)) : Prop :=
  match ms with
  | [] => True
  | s :: ms => replay_ok schema ct s pages /\ replays_ok schema ct ms (replay_step s pages)
  end.
#[export] Instance replay_ok_dec `{LZ4Lib} schema ct s pages : Decision (replay_ok schema ct s pages).
Proof. destruct s; unfold replay_ok; apply _. Defined.
#[export] Instance replays_ok_dec `{LZ4Lib} schema ct ms pages : Decision (replays_ok schema ct ms pages).
Proof. revert pages. induction ms; intros pages; cbn [replays_ok]; apply _. Defined.

(** The log record of a step; the page and slot it carries are not read back. *)
Definition logs (s : row_step) (rec : WALRecord) : Prop :=
  match s with
  | SInsert r => wr_type rec = INSERT /\ wr_row_id rec = row_id r /\ wr_row_data rec = encode_row r
  | SErase id => wr_type rec = DELETE /\ wr_row_id rec = id /\ wr_row_data rec = []
  end.

(** ** The map of the rows *)

Definition rows_map (pages : list (list Row)) : gmap Z Row :=
  list_to_map ((fun r => (row_id r, r)) <$> concat pages).

(** ** Secondary indexes *)

(** The key of a row in the index of field [fi]. *)
Definition row_key (fd : FieldDef) (fi : nat) (r : Row) : option bytes :=
  v ← row_fields r !! fi;
  match bptree_key_encode_vec v (fd_type fd) with Ok k => Some k | _ => None end.

(** The rows with a key. *)
Definition with_key (fd : FieldDef) (fi : nat) (k : bytes) (rows : list Row) : list Row :=
  filter (fun r => row_key fd fi r = Some k) rows.

(** The tree lists, under every key, the ids of the rows with this key, in the
    order of the rows. *)
Record tree_rep (schema : Schema) (rows : list Row) (name : bytes) (t : BPTree) : Prop := {
  tr_wf : bpt_wf t;
  tr_field : exists fi fd, field_index schema name = Z.of_nat fi /\ fields schema !! fi = Some fd /\
    forall k, default [] (bpt_map t !! k) = row_id <$> with_key fd fi k rows;
}.

Definition trees_rep (schema : Schema) (rows : list Row) (ix : gmap bytes BPTree) : Prop :=
  map_Forall (tree_rep schema rows) ix.

(** ** Lemmas: the rows of the pages *)

Lemma target_split r pages init rows :
  target r pages = (init, rows) ->
  (rows = [] /\ init = pages /\ (forall rows', last pages = Some rows' -> ~ page_fits rows' r)) \/
  (pages = init ++ [rows] /\ page_fits rows r).
Proof.
  unfold target. destruct (last pages) as [rows'|] eqn:El.
  - case_bool_decide as Hf; intros [= <- <-].
    + right. apply last_Some in El as [l ->]. by rewrite removelast_last.
    + left. split_and!; [done|done|]. by intros ? [= <-].
  - intros [= <- <-]. by left.
Qed.

Lemma concat_insert r pages : concat (pages_insert r pages) = concat pages ++ [r].
Proof.
  unfold pages_insert. destruct (target r pages) as [init rows] eqn:Et.
  apply target_split in Et as [(-> & -> & _)|(-> & _)]; rewrite !concat_app; cbn; by rewrite ?app_nil_r, ?app_assoc.
Qed.

Lemma concat_erase id pages : concat (pages_erase id pages) = filter (fun r => row_id r <> id) (concat pages).
Proof.
  unfold pages_erase. induction pages as [|rows pages IH]; [done|]. cbn [concat fmap list_fmap].
  by rewrite filter_app, <- IH.
Qed.

Lemma row_ids_insert r pages : row_ids (pages_insert r pages) = row_ids pages ++ [row_id r].
Proof. unfold row_ids. by rewrite concat_insert, fmap_app. Qed.

Lemma row_ids_erase id pages x : x ∈ row_ids (pages_erase id pages) <-> x ∈ row_ids pages /\ x <> id.
Proof.
  unfold row_ids. rewrite concat_erase, !list_elem_of_fmap. split.
  - intros (r & -> & [Hr Hin]%list_elem_of_filter). split; [by exists r|done].
  - intros [(r & -> & Hin) Hne]. exists r. split; [done|]. by apply list_elem_of_filter.
Qed.

Lemma NoDup_erase id pages : NoDup (row_ids pages) -> NoDup (row_ids (pages_erase id pages)).
Proof.
  unfold row_ids. rewrite concat_erase. generalize (concat pages). intros rows. induction rows as [|r rows IH]; [done|].
  rewrite fmap_cons. intros [Hni Hnd]%NoDup_cons. destruct (decide (row_id r <> id)).
  - rewrite filter_cons_True by done. rewrite fmap_cons. constructor; [|by apply IH].
    intros (q & Hq & [_ Hin]%list_elem_of_filter)%list_elem_of_fmap. apply Hni. rewrite Hq. by apply list_elem_of_fmap_2.
  - rewrite filter_cons_False by done. by apply IH.
Qed.

Lemma NoDup_insert r pages : NoDup (row_ids pages) -> row_id r ∉ row_ids pages -> NoDup (row_ids (pages_insert r pages)).
Proof.
  intros Hnd Hni. rewrite row_ids_insert. apply NoDup_app. split_and!; [done| |apply NoDup_singleton].
  by intros x Hx ->%list_elem_of_singleton.
Qed.

Lemma step_NoDup `{LZ4Lib} schema ct s pages :
  step_ok schema ct s pages -> NoDup (row_ids pages) -> NoDup (row_ids (step_pages s pages)).
Proof. intros [Hs _] Hnd. destruct s; [apply NoDup_insert; [done|apply Hs]|by apply NoDup_erase]. Qed.

(** *** As a map *)

Lemma rows_map_lookup pages id r : NoDup (row_ids pages) -> rows_map pages !! id = Some r <-> r ∈ concat pages /\ row_id r = id.
Proof.
  intros Hnd. unfold rows_map. rewrite <- elem_of_list_to_map.
  - rewrite list_elem_of_fmap. split; [intros (q & [= -> ->] & Hq); done|intros [Hr <-]; by exists r].
  - by rewrite <- list_fmap_compose.
Qed.

Lemma rows_map_None pages id : rows_map pages !! id = None <-> id ∉ row_ids pages.
Proof. unfold rows_map. rewrite <- not_elem_of_list_to_map, <- list_fmap_compose. done. Qed.

Lemma rows_map_insert r pages :
  row_id r ∉ row_ids pages -> rows_map (pages_insert r pages) = <[row_id r := r]> (rows_map pages).
Proof.
  intros Hni. unfold rows_map. rewrite concat_insert, fmap_app, list_to_map_app. cbn [fmap list_fmap list_to_map foldr].
  rewrite <- insert_union_r; [by rewrite map_union_empty|]. by apply rows_map_None.
Qed.

Lemma rows_map_erase id pages : NoDup (row_ids pages) -> rows_map (pages_erase id pages) = delete id (rows_map pages).
Proof.
  intros Hnd. apply map_eq. intros x. apply option_eq. intros r.
  rewrite rows_map_lookup by (by apply NoDup_erase). rewrite lookup_delete_Some, rows_map_lookup by done.
  rewrite concat_erase, list_elem_of_filter. naive_solver.
Qed.

Lemma steps_pages_app ms1 ms2 pages : steps_pages (ms1 ++ ms2) pages = steps_pages ms2 (steps_pages ms1 pages).
Proof. apply foldl_app. Qed.

Lemma steps_ok_app `{LZ4Lib} schema ct ms1 ms2 pages :
  steps_ok schema ct (ms1 ++ ms2) pages <-> steps_ok schema ct ms1 pages /\ steps_ok schema ct ms2 (steps_pages ms1 pages).
Proof.
  revert pages. induction ms1 as [|s ms1 IH]; intros pages; cbn [app steps_ok]; [by split; [split|intros [_ ?]]|].
  rewrite IH. tauto.
Qed.

Lemma steps_NoDup `{LZ4Lib} schema ct ms pages :
  steps_ok schema ct ms pages -> NoDup (row_ids pages) -> NoDup (row_ids (steps_pages ms pages)).
Proof.
  revert pages. induction ms as [|s ms IH]; intros pages; [done|]. intros [Hs Hms] Hnd.
  apply (IH (step_pages s pages)); [done|]. by eapply step_NoDup.
Qed.

(** *** Replaying *)

(** Replaying a step that is allowed is taking it. *)
Lemma step_replay `{LZ4Lib} schema ct s pages :
  step_ok schema ct s pages -> replay_step s pages = step_pages s pages /\ replay_ok schema ct s pages.
Proof.
  intros [Hs Hst]. destruct s as [r|id]; cbn [replay_step step_pages] in *; [|by split].
  destruct Hs as (Hok & Hni & Hlt). unfold replay_ok. cbn [replay_step]. rewrite bool_decide_eq_false_2 by done. by split_and!.
Qed.

Lemma steps_replay `{LZ4Lib} schema ct ms pages :
  steps_ok schema ct ms pages -> replays ms pages = steps_pages ms pages /\ replays_ok schema ct ms pages.
Proof.
  revert pages. induction ms as [|s ms IH]; intros pages; [done|]. intros [Hs Hms].
  destruct (step_replay _ _ _ _ Hs) as [Heq Hok]. rewrite <- Heq in Hms. destruct (IH _ Hms) as [Heqs Hoks].
  unfold replays, steps_pages in *. cbn [foldl replays_ok]. split; [by rewrite Heqs, Heq|by split].
Qed.

Lemma replays_app ms1 ms2 pages : replays (ms1 ++ ms2) pages = replays ms2 (replays ms1 pages).
Proof. apply foldl_app. Qed.

Lemma replays_ok_app `{LZ4Lib} schema ct ms1 ms2 pages :
  replays_ok schema ct (ms1 ++ ms2) pages <-> replays_ok schema ct ms1 pages /\ replays_ok schema ct ms2 (replays ms1 pages).
Proof.
  revert pages. induction ms1 as [|s ms1 IH]; intros pages; cbn [app replays_ok]; [by split; [split|intros [_ ?]]|].
  rewrite IH. tauto.
Qed.

Lemma replay_NoDup s pages : NoDup (row_ids pages) -> NoDup (row_ids (replay_step s pages)).
Proof.
  intros Hnd. destruct s as [r|id]; cbn [replay_step]; [|by apply NoDup_erase].
  case_bool_decide; [done|]. by apply NoDup_insert.
Qed.

Lemma replays_NoDup ms pages : NoDup (row_ids pages) -> NoDup (row_ids (replays ms pages)).
Proof.
  revert pages. induction ms as [|s ms IH]; intros pages Hnd; [done|]. by apply (IH (replay_step s pages)), replay_NoDup.
Qed.

(** Erasing a row that is not there. *)
Lemma erase_absent id pages : id ∉ row_ids pages -> pages_erase id pages = pages.
Proof.
  intros Hni. unfold pages_erase. rewrite <- (list_fmap_id pages) at 2. apply list_fmap_ext. intros i rows Hi.
  apply filter_all, Forall_forall. intros r Hr Hid. apply Hni. rewrite <- Hid. unfold row_ids.
  apply list_elem_of_fmap_2, elem_of_concat. exists rows. split; [done|by eapply list_elem_of_lookup_2].
Qed.

(** *** Where the rows are *)

Lemma row_at_unique pages id p1 s1 p2 s2 :
  NoDup (row_ids pages) -> row_at pages id p1 s1 -> row_at pages id p2 s2 -> p1 = p2 /\ s1 = s2.
Proof.
  intros Hnd (rows1 & r1 & Hp1 & Hs1 & Hl1 & Hid1) (rows2 & r2 & Hp2 & Hs2 & Hl2 & Hid2).
  unfold page_rows in Hp1, Hp2. do 2 case_bool_decide; try done.
  enough (Hu : forall (i j : nat) (l1 l2 : list Row) (a b : nat) x y, pages !! i = Some l1 -> l1 !! a = Some x ->
    pages !! j = Some l2 -> l2 !! b = Some y -> row_id x = row_id y -> i = j /\ a = b).
  { destruct (Hu _ _ _ _ _ _ _ _ Hp1 Hl1 Hp2 Hl2 ltac:(congruence)). lia. }
  clear -Hnd. induction pages as [|l pages IH]; intros i j l1 l2 a b x y Hi Ha Hj Hb Hxy; [done|].
  change (l :: pages) with ([l] ++ pages) in Hnd. rewrite row_ids_app, row_ids_one in Hnd. apply NoDup_app in Hnd as (Hn1 & Hd & Hn2).
  assert (Hin : forall (k : nat) (lk : list Row) (c : nat) z, pages !! k = Some lk -> lk !! c = Some z -> row_id z ∈ row_ids pages).
  { intros k lk c z Hk Hc. unfold row_ids. apply list_elem_of_fmap_2, elem_of_concat. exists lk.
    split; by eapply list_elem_of_lookup_2. }
  assert (Hin1 : forall (c : nat) z, l !! c = Some z -> row_id z ∈ (row_id <$> l)).
  { intros c z Hc. by eapply list_elem_of_fmap_2, list_elem_of_lookup_2. }
  destruct i as [|i], j as [|j]; cbn in Hi, Hj; simplify_eq.
  - split; [done|]. eapply (NoDup_lookup _ a b (row_id x) Hn1); rewrite list_lookup_fmap, ?Ha, ?Hb; cbn; congruence.
  - destruct (Hd (row_id x)); [by eapply Hin1|]. rewrite Hxy. by eapply Hin.
  - destruct (Hd (row_id y)); [by eapply Hin1|]. rewrite <- Hxy. by eapply Hin.
  - destruct (IH Hn2 i j l1 l2 a b x y Hi Ha Hj Hb Hxy). lia.
Qed.

Lemma row_at_elem pages id pid slot : row_at pages id pid slot -> id ∈ row_ids pages.
Proof. intros Hr. apply row_at_ids. by exists pid, slot. Qed.

(** Taking a row out of its page is taking it out of the pages. *)
Lemma delete_filter (rows : list Row) (i : nat) r :
  NoDup (row_id <$> rows) -> rows !! i = Some r -> delete i rows = filter (fun q => row_id q <> row_id r) rows.
Proof.
  revert i. induction rows as [|q rows IH]; intros i Hnd Hi; [done|].
  rewrite fmap_cons in Hnd. apply NoDup_cons in Hnd as [Hni Hnd]. destruct i as [|i]; cbn in Hi.
  - injection Hi as ->. rewrite filter_cons_False by tauto. cbn [delete list_delete]. symmetry. apply filter_all, Forall_forall.
    intros x Hx Heq. apply Hni. rewrite <- Heq. by apply list_elem_of_fmap_2.
  - cbn [delete list_delete]. fold (delete i rows). rewrite filter_cons_True; [by rewrite <- (IH i)|].
    intros Heq. apply Hni. rewrite Heq. by eapply list_elem_of_fmap_2, list_elem_of_lookup_2.
Qed.

Lemma page_NoDup pages pid rows : NoDup (row_ids pages) -> page_rows pages pid = Some rows -> NoDup (row_id <$> rows).
Proof.
  unfold page_rows. case_bool_decide; [|done]. intros Hnd Hl. apply take_drop_middle in Hl. rewrite <- Hl in Hnd.
  change (rows :: drop (S (Z.to_nat pid)) pages) with ([rows] ++ drop (S (Z.to_nat pid)) pages) in Hnd.
  rewrite !row_ids_app, row_ids_one in Hnd. apply NoDup_app in Hnd as (_ & _ & Hnd). by apply NoDup_app in Hnd as (Hnd & _).
Qed.

Lemma pages_erase_insert pages pid rows (i : nat) r :
  NoDup (row_ids pages) -> page_rows pages pid = Some rows -> rows !! i = Some r ->
  pages_erase (row_id r) pages = <[Z.to_nat pid := delete i rows]> pages.
Proof.
  intros Hnd Hp Hi. pose proof (page_rows_range _ _ _ Hp) as Hrange. pose proof (page_NoDup _ _ _ Hnd Hp) as Hnr.
  assert (Hat : row_at pages (row_id r) pid (Z.of_nat i)).
  { exists rows, r. rewrite Nat2Z.id. split_and!; [done|lia|done|done]. }
  rewrite (delete_filter rows i r) by done. apply list_eq. intros k. unfold pages_erase. rewrite list_lookup_fmap.
  destruct (decide (k = Z.to_nat pid)) as [->|Hne].
  - rewrite list_lookup_insert_eq by lia. unfold page_rows in Hp. rewrite bool_decide_eq_true_2 in Hp by lia. by rewrite Hp.
  - rewrite list_lookup_insert_ne by done. destruct (pages !! k) as [l|] eqn:Hk; [|done]. cbn. f_equal.
    apply filter_all, Forall_forall. intros q Hq Heq. apply list_elem_of_lookup in Hq as [j Hj].
    assert (Hat2 : row_at pages (row_id r) (Z.of_nat k) (Z.of_nat j)).
    { exists l, q. rewrite page_rows_lookup, Nat2Z.id. split_and!; [done|lia|done|done]. }
    destruct (row_at_unique _ _ _ _ _ _ Hnd Hat Hat2). lia.
Qed.

(** *** The index after a removal *)

(** The slot of a row in its page. *)
Definition slot_in (rows : list Row) (id : Z) : Z :=
  match list_find (fun r => row_id r = id) rows with Some (j, _) => Z.of_nat j | None => -1 end.

Lemma slot_in_lookup (rows : list Row) (j : nat) r :
  NoDup (row_id <$> rows) -> rows !! j = Some r -> slot_in rows (row_id r) = Z.of_nat j.
Proof.
  intros Hnd Hj. unfold slot_in. destruct (list_find _ rows) as [[k q]|] eqn:E.
  - apply list_find_Some in E as (Hk & Hid & _). f_equal.
    eapply (NoDup_lookup _ k j (row_id r) Hnd); rewrite list_lookup_fmap, ?Hk, ?Hj; cbn; congruence.
  - apply list_find_None in E. rewrite Forall_lookup in E. by destruct (E j r Hj).
Qed.

(** The index that [erase_unlocked] leaves: the id gone, the slots of the other
    rows of the page set to where they are now. *)
Lemma index_erase pages pid rows (i : nat) r (m m' : gmap Z IndexEntry) :
  NoDup (row_ids pages) -> page_rows pages pid = Some rows -> rows !! i = Some r ->
  (forall id p s, loc_of <$> m !! id = Some (p, s) <-> row_at pages id p s) ->
  (forall id, m' !! id =
     if bool_decide (id = row_id r) then None
     else (fun e => if bool_decide (page_id e = pid) then set_row_slot (slot_in (delete i rows) id) e else e) <$> m !! id) ->
  forall id p s, loc_of <$> m' !! id = Some (p, s) <-> row_at (pages_erase (row_id r) pages) id p s.
Proof.
  intros Hnd Hp Hi Hm Hm' id p s. pose proof (page_rows_range _ _ _ Hp) as Hrange.
  pose proof (page_NoDup _ _ _ Hnd Hp) as Hnr. set (rows' := delete i rows) in *.
  assert (Hnr' : NoDup (row_id <$> rows')).
  { unfold rows'. rewrite list_fmap_delete. eapply sublist_NoDup; [exact Hnr|apply sublist_delete]. }
  pose proof (NoDup_erase (row_id r) pages Hnd) as Hnd'.
  rewrite (pages_erase_insert pages pid rows i r Hnd Hp Hi). fold rows'. rewrite (pages_erase_insert pages pid rows i r Hnd Hp Hi) in Hnd'. fold rows' in Hnd'.
  assert (Hpages' : forall q, page_rows (<[Z.to_nat pid:=rows']> pages) q = if bool_decide (q = pid) then Some rows' else page_rows pages q)
    by (intros q; by apply page_rows_insert).
  assert (Hr' : forall q, q ∈ rows' -> row_id q <> row_id r).
  { intros q Hq. unfold rows' in Hq. rewrite (delete_filter rows i r) in Hq by done. by apply list_elem_of_filter in Hq as [? _]. }
  rewrite Hm'. case_bool_decide as Hid.
  - split; [done|]. subst id. intros (l & q & Hl & Hs & Hq & Hqid). rewrite Hpages' in Hl. case_bool_decide.
    + injection Hl as <-. apply list_elem_of_lookup_2 in Hq. by destruct (Hr' q Hq).
    + assert (Hat : row_at pages (row_id r) p s) by (exists l, q; done).
      assert (Hat2 : row_at pages (row_id r) pid (Z.of_nat i)) by (exists rows, r; rewrite Nat2Z.id; split_and!; [done|lia|done|done]).
      by destruct (row_at_unique _ _ _ _ _ _ Hnd Hat Hat2).
  - destruct (m !! id) as [e|] eqn:He; cbn.
    + assert (Hat : row_at pages id (page_id e) (row_slot e)) by (apply Hm; by rewrite He).
      case_bool_decide as Hpe.
      * assert (Hnew : row_at (<[Z.to_nat pid:=rows']> pages) id pid (slot_in rows' id)).
        { destruct Hat as (l & q & Hl & Hs & Hq & Hqid). rewrite Hpe, Hp in Hl. injection Hl as <-.
          apply list_elem_of_lookup_2 in Hq. assert (Hq' : q ∈ rows').
          { unfold rows'. rewrite (delete_filter rows i r) by done. apply list_elem_of_filter. split; [congruence|done]. }
          apply list_elem_of_lookup in Hq' as [j Hj]. pose proof (slot_in_lookup rows' j q Hnr' Hj) as Hsl. rewrite Hqid in Hsl.
          exists rows', q. rewrite Hpages', bool_decide_eq_true_2, Hsl, Nat2Z.id by done. split_and!; [done|lia|done|done]. }
        unfold loc_of. cbn. rewrite Hpe. split; [by intros [= <- <-]|]. intros Hat2.
        by destruct (row_at_unique _ _ _ _ _ _ Hnd' Hnew Hat2) as [-> ->].
      * assert (Hnew : row_at (<[Z.to_nat pid:=rows']> pages) id (page_id e) (row_slot e)).
        { destruct Hat as (l & q & Hl & Hs & Hq & Hqid). exists l, q. by rewrite Hpages', bool_decide_eq_false_2. }
        unfold loc_of. split; [by intros [= <- <-]|]. intros Hat2.
        by destruct (row_at_unique _ _ _ _ _ _ Hnd' Hnew Hat2) as [-> ->].
    + split; [done|]. intros (l & q & Hl & Hs & Hq & Hqid). exfalso. rewrite Hpages' in Hl.
      assert (Hin : id ∈ row_ids pages).
      { case_bool_decide.
        - injection Hl as <-. apply list_elem_of_lookup_2 in Hq. unfold rows' in Hq. rewrite (delete_filter rows i r) in Hq by done.
          apply list_elem_of_filter in Hq as [_ Hq]. apply list_elem_of_lookup in Hq as [j Hj].
          apply (row_at_elem pages id pid (Z.of_nat j)). exists rows, q. rewrite Nat2Z.id. split_and!; [done|lia|done|done].
        - apply (row_at_elem pages id p s). by exists l, q. }
      apply row_at_ids in Hin as (p0 & s0 & Hat). apply Hm in Hat. by rewrite He in Hat.
Qed.

(** *** The trees after a step *)

Lemma row_key_typed schema fi fd r :
  fields schema !! fi = Some fd -> Forall2 value_ok (fields schema) (row_fields r) ->
  exists v k, row_fields r !! fi = Some v /\ bptree_key_encode_vec v (fd_type fd) = Ok k /\ row_key fd fi r = Some k.
Proof.
  intros Hfd Hf. destruct (Forall2_lookup_l _ _ _ _ _ Hf Hfd) as (v & Hv & (Ht & _)).
  assert (Hk : exists k, bptree_key_encode_vec v (fd_type fd) = Ok k) by (destruct (fd_type fd), v; cbn in Ht |- *; by eauto).
  destruct Hk as [k Hk]. exists v, k. unfold row_key. rewrite Hv. cbn. by rewrite Hk.
Qed.

Lemma filter_ext_in {A} (P Q : A -> Prop) `{!forall x, Decision (P x), !forall x, Decision (Q x)} (l : list A) :
  (forall x, x ∈ l -> P x <-> Q x) -> filter P l = filter Q l.
Proof.
  induction l as [|x l IH]; intros Hl; [done|]. rewrite !filter_cons, (decide_ext (P x) (Q x)) by (apply Hl; by left).
  rewrite IH; [done|]. intros y Hy. apply Hl. by right.
Qed.

Lemma row_unique (rows : list Row) r q : NoDup (row_id <$> rows) -> r ∈ rows -> q ∈ rows -> row_id q = row_id r -> q = r.
Proof.
  intros Hnd [i Hi]%list_elem_of_lookup [j Hj]%list_elem_of_lookup Hid. assert (i = j); [|congruence].
  eapply (NoDup_lookup _ i j (row_id r) Hnd); rewrite list_lookup_fmap, ?Hi, ?Hj; cbn; congruence.
Qed.

Section trees.
Context (schema : Schema) (rows : list Row) (name : bytes) (t : BPTree) (r : Row).
Context (Ht : tree_rep schema rows name t) (Hr : Forall2 value_ok (fields schema) (row_fields r)).

(** The call that the loop over the indexes makes. *)
Lemma tree_call :
  exists fi fd v k, field_index schema name = Z.of_nat fi /\ fields schema !! fi = Some fd /\
    row_fields r !! fi = Some v /\ bptree_key_encode_vec v (fd_type fd) = Ok k /\ row_key fd fi r = Some k /\
    forall k, default [] (bpt_map t !! k) = row_id <$> with_key fd fi k rows.
Proof.
  destruct Ht as [_ (fi & fd & Hfi & Hfd & Hmap)]. destruct (row_key_typed schema fi fd r Hfd Hr) as (v & k & Hv & Hk & Hrk).
  by exists fi, fd, v, k.
Qed.

Lemma tree_insert :
  row_id r ∉ (row_id <$> rows) ->
  exists fi fd v t', field_index schema name = Z.of_nat fi /\ fields schema !! fi = Some fd /\ row_fields r !! fi = Some v /\
    bpt_insert v (fd_type fd) (row_id r) t = (Ok tt, t') /\ tree_rep schema (rows ++ [r]) name t'.
Proof.
  intros Hni. destruct tree_call as (fi & fd & v & k & Hfi & Hfd & Hv & Hk & Hrk & Hmap).
  destruct (bpt_insert_run v (fd_type fd) (row_id r) t k (tr_wf _ _ _ _ Ht) Hk) as (t' & Hrun & Hwf & Hm).
  exists fi, fd, v, t'. split_and!; try done. split; [done|]. exists fi, fd. split_and!; try done.
  intros k'. rewrite Hm. unfold with_key. rewrite filter_app, fmap_app. fold (with_key fd fi k' rows). rewrite <- Hmap.
  destruct (decide (k' = k)) as [->|Hne].
  - rewrite lookup_insert_eq, filter_cons_True by done. cbn [default]. unfold add_id.
    pose proof (Hmap k) as Hk'. destruct (bpt_map t !! k) as [l|]; [cbn in Hk' |- *|done].
    rewrite bool_decide_eq_false_2; [done|]. rewrite Hk'. intros (q & Hq & [_ Hin]%list_elem_of_filter)%list_elem_of_fmap.
    apply Hni. rewrite Hq. by apply list_elem_of_fmap_2.
  - rewrite lookup_insert_ne by done. rewrite filter_cons_False by congruence. cbn. by rewrite app_nil_r.
Qed.

Lemma tree_erase :
  NoDup (row_id <$> rows) -> r ∈ rows ->
  exists fi fd v t', field_index schema name = Z.of_nat fi /\ fields schema !! fi = Some fd /\ row_fields r !! fi = Some v /\
    bpt_erase v (fd_type fd) (row_id r) t = (Ok tt, t') /\
    tree_rep schema (filter (fun q => row_id q <> row_id r) rows) name t'.
Proof.
  intros Hnd Hin. destruct tree_call as (fi & fd & v & k & Hfi & Hfd & Hv & Hk & Hrk & Hmap).
  destruct (bpt_erase_run v (fd_type fd) (row_id r) t k (tr_wf _ _ _ _ Ht) Hk) as (t' & Hrun & Hwf & Hm).
  exists fi, fd, v, t'. split_and!; try done. split; [done|]. exists fi, fd. split_and!; try done.
  intros k'. rewrite Hm. unfold with_key. rewrite list_filter_filter.
  destruct (decide (k' = k)) as [->|Hne].
  - transitivity (vec_remove (row_id r) (default [] (bpt_map t !! k))).
    + rewrite lookup_partial_alter_eq. destruct (bpt_map t !! k) as [l|]; cbn; [|done]. by case_bool_decide.
    + rewrite Hmap. unfold with_key, vec_remove. clear. induction rows as [|q qs IH]; [done|].
      rewrite !filter_cons. repeat case_decide; try tauto; rewrite ?fmap_cons, ?filter_cons; repeat case_decide; try tauto; by rewrite ?IH.
  - rewrite lookup_partial_alter_ne, Hmap by done. f_equal. unfold with_key. apply filter_ext_in.
    intros q Hq. split; [|tauto]. intros Hk'. split; [done|]. intros Hid. rewrite (row_unique rows r q Hnd Hin Hq Hid) in Hk'. congruence.
Qed.
End trees.

Lemma tree_rep_new schema name fi fd :
  field_index schema name = Z.of_nat fi -> fields schema !! fi = Some fd -> tree_rep schema [] name [].
Proof. intros Hfi Hfd. split; [split; constructor|]. by exists fi, fd. Qed.
