(* ===== verification/DbOps.v ===== *)
(** The operations of the database ([src/db.cpp]) implement the steps of DbSpec.v:
    inserting, erasing, updating and their batches, reading, scanning, the
    secondary indexes and checkpoints. *)
From S2P Require Import Prelude Types Serialise Page Std BPTree Index Posix Wal Compression Migrate Storage Cache Pager Filter Db DbSpec.

(** ** The state of an open database *)

Section rep.
Context {F : Type} `{FileSys F} `{LZ4Lib} (schema : Schema) (ct : CompressionType).

(** Without the log: the pages, the primary and the secondary indexes agree. *)
Record db_core (hdr : DBHeader) (sy : bytes) (pages : list (list Row)) (d : DB F) : Prop := {
  dc_live : db_live d = true;
  dc_schema : db_schema d = schema;
  dc_pager : pager_rep schema ct hdr sy pages (db_pager d);
  dc_index : index_rep pages (pg_index (db_pager d));
  dc_ids : NoDup (row_ids pages);
  dc_trees : trees_rep schema (concat pages) (db_indexes d);
}.
End rep.

(** ** Lemmas *)

Section lifting.
Context {F : Type} `{FileSys F} `{LZ4Lib}.
Implicit Types (d : DB F).

Lemma on_pager_ok {A} (m : M (Pager F) A) d a p' :
  db_live d = true -> m (db_pager d) = (Ok a, p') -> on_pager m d = (Ok a, db_set_pager p' d).
Proof.
  intros Hl Hm. unfold on_pager. rewrite (M_bind_ok get _ _ _ _ eq_refl), Hl.
  unfold the_pager. by rewrite (zoom_ok db_pager db_set_pager _ _ _ _ Hm).
Qed.

Lemma the_wal_ok {A} (m : M (WAL F) A) d a w' :
  m (db_wal d) = (Ok a, w') -> the_wal m d = (Ok a, db_set_wal w' d).
Proof. intros Hm. unfold the_wal. by rewrite (zoom_ok db_wal db_set_wal _ _ _ _ Hm). Qed.

Lemma db_set_pager_id d : db_set_pager (db_pager d) d = d.
Proof. by destruct d. Qed.

Lemma db_set_wal_id d : db_set_wal (db_wal d) d = d.
Proof. by destruct d. Qed.

Lemma db_set_index_id d : db_set_pager (pg_set_index (pg_index (db_pager d)) (db_pager d)) d = d.
Proof. by destruct d as [?????[] ????]. Qed.

(** A call that reads the Pager. *)
Lemma on_pager_read {A} (m : M (Pager F) A) d a :
  db_live d = true -> m (db_pager d) = (Ok a, db_pager d) -> on_pager m d = (Ok a, d).
Proof. intros Hl Hm. rewrite (on_pager_ok _ _ _ _ Hl Hm). by rewrite db_set_pager_id. Qed.

Lemma on_index_ok {A} (m : M IndexManager A) (p : Pager F) a i' :
  m (pg_index p) = (Ok a, i') -> on_index m p = (Ok a, pg_set_index i' p).
Proof. intros Hm. unfold on_index. by rewrite (zoom_ok pg_index pg_set_index _ _ _ _ Hm). Qed.
End lifting.

(** *** Sizes of rows *)

Lemma values_bound fs vs : Forall2 value_ok fs vs -> zlen (encode_values vs) <= 65537 * zlen fs.
Proof.
  induction 1 as [|f v fs vs (Ht & Hw & Hs) _ IH]; [done|]. rewrite encode_values_cons, length_app. cbn [length].
  pose proof (length_encode_value v) as Hl. destruct v; cbn in Hs; lia.
Qed.

Lemma row_byte_size_loop_total row i fs sz :
  (i + length fs <= length (row_fields row))%nat ->
  (exists n, row_byte_size_loop row (Z.of_nat i) fs sz = Ok n) \/ row_byte_size_loop row (Z.of_nat i) fs sz = Throw XDLError.
Proof.
  revert i sz. induction fs as [|f fs IH]; intros i sz Hl; cbn [row_byte_size_loop length] in *; [left; by eexists|].
  destruct (lookup_lt_is_Some_2 (row_fields row) i) as [v Hv]; [lia|]. rewrite (at_index _ _ _ Hv). cbn [mbind outcome_bind].
  destruct (field_byte_size_total v (fd_type f)) as [[n ->]| ->]; [|by right]. cbn [mbind outcome_bind].
  replace (Z.of_nat i + 1) with (Z.of_nat (S i)) by lia. apply IH. lia.
Qed.

(** The size of a row of the right arity: the length of its bytes, or [XDLError]
    for a value of another type or a string that is too long. *)
Lemma serialised_row_size_run schema r :
  zlen (fields schema) <= 1024 -> length (row_fields r) = length (fields schema) -> Forall value_wf (row_fields r) ->
  if bool_decide (Forall2 value_ok (fields schema) (row_fields r))
  then serialised_row_size r schema = Ok (zlen (encode_row r)) /\ zlen (encode_row r) < 2 ^ 32
  else serialised_row_size r schema = Throw XDLError.
Proof.
  intros Hf Hl Hw. unfold serialised_row_size. case_bool_decide as Hok.
  - pose proof (values_bound _ _ Hok). rewrite length_encode_row. split; [|lia].
    rewrite <- length_encode_row. apply row_byte_size_ok; [done|]. rewrite length_encode_row. lia.
  - destruct (row_byte_size_loop_total r 0 (fields schema) (4 + 4)) as [[n Hn]|Hn]; [lia| |exact Hn].
    destruct Hok. by apply (row_byte_size_inv schema r n).
Qed.

Lemma row_ok_size schema r : row_ok schema r -> serialised_row_size r schema = Ok (zlen (encode_row r)).
Proof. intros Hr. unfold serialised_row_size. apply row_byte_size_ok; [apply Hr|by eapply row_ok_length]. Qed.

Section runs.
Context {F : Type} `{FileLaws F} `{!FileReliable F} `{!PreadWhole F} `{LZ4Laws}.
Context (schema : Schema) (ct : CompressionType) (hdr : DBHeader) (sy : bytes).
#[local] Abbreviation pager_rep := (pager_rep schema ct hdr sy).
#[local] Abbreviation pager_ref := (pager_ref schema ct hdr sy).
#[local] Abbreviation db_core := (db_core schema ct hdr sy).
#[local] Abbreviation storable := (storable schema ct).
Implicit Types (d : DB F) (pg : Pager F) (pages : list (list Row)).

Lemma pager_schema_ok pages pg : pager_rep pages pg -> schema_wire_ok schema.
Proof. intros (_ & ps & D & _ & Hpool). exact (lay_schema_ok _ _ _ (er_layout _ _ _ _ _ _ (po_env _ _ _ _ _ _ _ _ Hpool))). Qed.

Lemma pager_storable pages pg : pager_rep pages pg -> Forall storable pages /\ zlen pages < 2 ^ 32.
Proof. intros (_ & ps & D & _ & Hpool). by destruct Hpool. Qed.

Lemma pager_rep_index pages pg i : pager_rep pages pg -> pager_rep pages (pg_set_index i pg).
Proof. done. Qed.

(** *** Insertion *)

(** [get_or_create_writable_page] gives the page of [target]. *)
Lemma writable_page_run pages d r init rows :
  db_core pages d -> row_ok schema r -> zlen pages + 1 < 2 ^ 32 -> target r pages = (init, rows) ->
  exists l pg, get_or_create_writable_page r d = (Ok l, db_set_pager pg d) /\
    pager_ref (init ++ [rows]) pg l (zlen init) /\ pg_index pg = pg_index (db_pager d).
Proof.
  intros [Hlive Hsch Hrep _ _ _] Hr Hlt Ht. unfold get_or_create_writable_page. rewrite (M_bind_ok get _ _ _ _ eq_refl).
  rewrite Hsch. rewrite (M_bind_ok (lift _) _ _ (zlen (encode_row r)) d) by (unfold lift; by rewrite row_ok_size).
  rewrite bool_decide_eq_false_2 by (destruct Hr as (_ & _ & Hsz); lia).
  pose proof Hrep as [Hn _].
  rewrite (M_bind_ok (on_pager _) _ d (zlen pages) d) by (apply on_pager_read; [done|]; unfold page_count; by rewrite (M_bind_ok get _ _ _ _ eq_refl), Hn).
  assert (Hnew : init = pages -> rows = [] ->
    exists l pg, on_pager new_page d = (Ok l, db_set_pager pg d) /\ pager_ref (init ++ [rows]) pg l (zlen init) /\
      pg_index pg = pg_index (db_pager d)).
  { intros -> ->. destruct (new_page_run schema ct hdr sy pages (db_pager d) Hrep Hlt) as (l & pg & Hrun & Href & Hi).
    exists l, pg. split_and!; [by apply on_pager_ok|done|done]. }
  case_bool_decide as Hpos.
  - destruct (last pages) as [lastrows|] eqn:El; [|apply last_None in El; subst pages; cbn in Hpos; lia].
    pose proof El as [ini Epages]%last_Some.
    assert (Hu : u32 (zlen pages - 1) = zlen ini) by (unfold u32; rewrite Z.mod_small; rewrite Epages, length_app in *; cbn [length] in *; lia).
    assert (Hrows : page_rows pages (zlen ini) = Some lastrows)
      by (rewrite Epages, page_rows_snoc; by rewrite bool_decide_eq_true_2).
    rewrite Hu. destruct (get_mutable_page_run schema ct hdr sy pages (db_pager d) (zlen ini) lastrows Hrep Hrows) as (l & pg & Hrun & Href & Hi).
    rewrite (M_bind_ok _ _ _ _ _ (on_pager_ok _ _ _ _ Hlive Hrun)).
    destruct (page_at_run schema ct hdr sy pages pg l (zlen ini) lastrows Href Hrows) as (p & Hp & Hprep & Hid).
    rewrite (M_bind_ok (on_pager _) _ (db_set_pager pg d) p (db_set_pager pg d)) by (apply on_pager_read; [done|exact Hp]).
    unfold has_capacity. rewrite (rep_count _ _ _ Hprep), (rep_data _ _ _ Hprep).
    unfold target in Ht. rewrite El in Ht. rewrite <- bool_decide_and. fold (page_fits lastrows r).
    destruct (decide (page_fits lastrows r)) as [Hfit|Hfit].
    + rewrite bool_decide_eq_true_2 in Ht |- * by exact Hfit. injection Ht as <- <-. rewrite Epages, removelast_last in *.
      by exists l, pg.
    + rewrite bool_decide_eq_false_2 in Ht |- * by exact Hfit. injection Ht as <- <-.
      assert (Hrep' : pager_rep pages pg) by (by eapply pager_ref_rep).
      destruct (new_page_run schema ct hdr sy pages pg Hrep' Hlt) as (l2 & pg2 & Hrun2 & Href2 & Hi2).
      exists l2, pg2. split_and!; [exact (on_pager_ok new_page (db_set_pager pg d) l2 pg2 Hlive Hrun2)|done|congruence].
  - assert (pages = []) as -> by (destruct pages; [done|cbn in Hpos; lia]). cbn in Ht. injection Ht as <- <-. by apply Hnew.
Qed.

(** Appending the row to that page: the bytes the log gets, and the state. *)
Lemma append_run init rows pg l r :
  pager_ref (init ++ [rows]) pg l (zlen init) -> row_ok schema r -> storable (rows ++ [r]) ->
  exists p p' pg', page_at l pg = (Ok p, pg) /\ p_row_count p = zlen rows /\
    mutate_page l (append_row r schema) pg = (Ok tt, pg') /\ page_at l pg' = (Ok p', pg') /\ p_id p' = zlen init /\
    p_id p = zlen init /\
    (off ← row_data_ptr p' (zlen rows); len ← row_data_len p' (zlen rows); load (p_data p') off len) = Ok (encode_row r) /\
    pager_ref (init ++ [rows ++ [r]]) pg' l (zlen init) /\ pg_index pg' = pg_index pg.
Proof.
  intros Href Hr Hst.
  assert (Hrows : page_rows (init ++ [rows]) (zlen init) = Some rows) by (by rewrite page_rows_snoc, bool_decide_eq_true_2).
  destruct (page_at_run schema ct hdr sy _ pg l _ rows Href Hrows) as (p & Hp & Hprep & Hid).
  destruct (mutate_page_run schema ct hdr sy (append_row r schema) _ pg l _ rows (rows ++ [r]) tt Href Hrows Hst)
    as (pg' & Hm & Href' & Hi).
  { intros q Hq Hqid. destruct Hst as (_ & Hsz & _). rewrite encode_rows_app, length_app in Hsz.
    rewrite (encode_rows_cons r []), length_app in Hsz. unfold PAGE_SIZE in Hsz.
    assert (zlen (p_data q) + zlen (encode_row r) < 2 ^ 31) by (rewrite (rep_data _ _ _ Hq); lia).
    eexists. split; [apply (append_row_run schema r q Hr); lia|]. split_and!; [by apply page_rep_snoc|done|done]. }
  replace (<[Z.to_nat (zlen init):=rows ++ [r]]> (init ++ [rows])) with (init ++ [rows ++ [r]]) in Href'.
  2: { rewrite Nat2Z.id, insert_app_r_alt, Nat.sub_diag by lia. done. }
  assert (Hrows' : page_rows (init ++ [rows ++ [r]]) (zlen init) = Some (rows ++ [r])) by (by rewrite page_rows_snoc, bool_decide_eq_true_2).
  destruct (page_at_run schema ct hdr sy _ pg' l _ _ Href' Hrows') as (p' & Hp' & Hprep' & Hid').
  assert (Hlk : (rows ++ [r]) !! length rows = Some r) by (rewrite lookup_app_r, Nat.sub_diag by lia; done).
  destruct (page_rep_slot _ _ _ _ _ Hprep' Hlk) as (m1 & m2 & Hd & Ho & _).
  exists p, p', pg'. unfold row_data_ptr. rewrite (row_data_len_rep _ _ _ _ _ Hprep' Hlk), Ho, Hd. cbn [mbind outcome_bind].
  split_and!; try done; [apply Hprep|by apply load_app_mid].
Qed.

(** *** The loop over the secondary indexes *)

Lemma on_tree_ok name (m : M BPTree unit) d t t' :
  db_indexes d !! name = Some t -> m t = (Ok tt, t') ->
  on_tree name m d = (Ok tt, db_set_indexes (<[name := t']> (db_indexes d)) d).
Proof.
  intros Ht Hm. unfold on_tree.
  exact (zoom_ok (fun d => default [] (db_indexes d !! name)) (fun t d => db_set_indexes (<[name := t]> (db_indexes d)) d)
           m d tt t' ltac:(cbv beta; by rewrite Ht)).
Qed.

(** The trees named are each updated once, whatever the order. *)
Lemma index_fields_run op r names d rows rows' :
  NoDup names -> (forall n, n ∈ names -> is_Some (db_indexes d !! n)) ->
  (forall n t, n ∈ names -> db_indexes d !! n = Some t -> tree_rep schema rows n t -> exists fi fd v t',
     field_index schema n = Z.of_nat fi /\ fields schema !! fi = Some fd /\ row_fields r !! fi = Some v /\
     op v (fd_type fd) (row_id r) t = (Ok tt, t') /\ tree_rep schema rows' n t') ->
  db_schema d = schema -> (forall n t, n ∈ names -> db_indexes d !! n = Some t -> tree_rep schema rows n t) ->
  exists ix, mfor (index_field op r (row_id r)) names d = (Ok tt, db_set_indexes ix d) /\
    (forall n, n ∈ names -> exists t', ix !! n = Some t' /\ tree_rep schema rows' n t') /\
    (forall n, n ∉ names -> ix !! n = db_indexes d !! n).
Proof.
  revert d. induction names as [|n names IH]; intros d Hnd Hdom Hop Hsch Htr.
  - exists (db_indexes d). split_and!; [by destruct d| |done]. by intros n ?%not_elem_of_nil.
  - apply NoDup_cons in Hnd as [Hni Hnd]. destruct (Hdom n) as [t Ht]; [by left|].
    destruct (Hop n t) as (fi & fd & v & t' & Hfi & Hfd & Hv & Hrun & Htr'); [by left|done|apply Htr; [by left|done]|].
    cbn [mfor]. set (d1 := db_set_indexes (<[n := t']> (db_indexes d)) d).
    rewrite (M_bind_ok _ _ d tt d1).
    2: { unfold index_field. rewrite (M_bind_ok get _ _ _ _ eq_refl), Hsch, Hfi. cbv zeta. rewrite bool_decide_eq_true_2 by lia.
         rewrite (M_bind_ok (lift _) _ _ v d) by (unfold lift; by rewrite (index_lookup _ _ _ Hv)).
         rewrite (M_bind_ok (lift _) _ _ fd d) by (unfold lift; by rewrite (index_lookup _ _ _ Hfd)).
         by apply (on_tree_ok _ _ _ t). }
    assert (Hold : forall x, x ∈ names -> db_indexes d1 !! x = db_indexes d !! x)
      by (intros x Hx; cbn; apply lookup_insert_ne; intros ->; done).
    destruct (IH d1 Hnd) as (ix & Hr & Hnew & Hrest).
    + intros x Hx. rewrite Hold by done. apply Hdom. by right.
    + intros x t0 Hx Hx0. rewrite Hold in Hx0 by done. apply Hop; [by right|done].
    + done.
    + intros x t0 Hx Hx0. rewrite Hold in Hx0 by done. apply Htr; [by right|done].
    + exists ix. split_and!; [exact Hr| |].
      * intros x [->|Hx]%elem_of_cons; [|by apply Hnew]. exists t'. split; [|done]. rewrite (Hrest n Hni). cbn. by rewrite lookup_insert_eq.
      * intros x [Hne Hx]%not_elem_of_cons. rewrite (Hrest x Hx). cbn. by rewrite lookup_insert_ne.
Qed.

Lemma update_indexes_run op r d rows rows' :
  db_schema d = schema -> trees_rep schema rows (db_indexes d) ->
  (forall n t, tree_rep schema rows n t -> exists fi fd v t',
     field_index schema n = Z.of_nat fi /\ fields schema !! fi = Some fd /\ row_fields r !! fi = Some v /\
     op v (fd_type fd) (row_id r) t = (Ok tt, t') /\ tree_rep schema rows' n t') ->
  exists ix, update_indexes op r (row_id r) d = (Ok tt, db_set_indexes ix d) /\ trees_rep schema rows' ix /\
    dom ix = dom (db_indexes d).
Proof.
  intros Hsch Htr Hop. unfold update_indexes. rewrite (M_bind_ok get _ _ _ _ eq_refl).
  assert (Hin : forall n, n ∈ (map_to_list (db_indexes d)).*1 <-> is_Some (db_indexes d !! n)).
  { intros n. rewrite list_elem_of_fmap. split.
    - intros ([n' t] & -> & Hx%elem_of_map_to_list). by exists t.
    - intros [t Hx]. exists (n, t). by rewrite elem_of_map_to_list. }
  destruct (index_fields_run op r (map_to_list (db_indexes d)).*1 d rows rows') as (ix & Hr & Hnew & Hrest).
  - apply NoDup_fst_map_to_list.
  - intros n Hn. by apply Hin.
  - intros n t _ _. apply Hop.
  - done.
  - intros n t _ Hn. by apply Htr.
  - exists ix. split_and!; [done| |].
    + intros n t Hn. destruct (decide (n ∈ (map_to_list (db_indexes d)).*1)) as [Hx|Hx].
      * destruct (Hnew n Hx) as (t' & Ht' & Htr'). congruence.
      * rewrite (Hrest n Hx) in Hn. destruct Hx. apply Hin. by exists t.
    + apply set_eq. intros n. rewrite !elem_of_dom. destruct (decide (n ∈ (map_to_list (db_indexes d)).*1)) as [Hx|Hx].
      * rewrite <- Hin. destruct (Hnew n Hx) as (t' & -> & _). by split.
      * by rewrite (Hrest n Hx).
Qed.

(** *** The log *)

(** The log holds these records, in the file or in the buffer ... *)
Definition wal_state (w : WAL F) (recs : list WALRecord) : Prop :=
  exists fl bu, wal_rep wal_header w fl bu /\ fl ++ bu = recs.

(** ... or all of them safe from a crash. *)
Definition wal_durable (w : WAL F) (recs : list WALRecord) : Prop :=
  wal_rep wal_header w recs [] /\ f_synced (w_file w) = f_content (w_file w).

Lemma wal_durable_state w recs : wal_durable w recs -> wal_state w recs.
Proof. intros [Hw _]. exists recs, []. by rewrite app_nil_r. Qed.

Lemma log_size_snoc recs rec : log_size wal_header (recs ++ [rec]) = log_size wal_header recs + 21 + zlen (wr_row_data rec).
Proof. rewrite log_size_app. cbn [encode_records fmap list_fmap concat]. rewrite app_nil_r. pose proof (length_encode_record rec). lia. Qed.

(** Writing one record, as [log_insert] and [log_delete] do. *)
Lemma log_record_run w recs rec (b : bool) :
  wal_state w recs -> record_ok rec -> 21 + zlen (wr_row_data rec) <= WAL_BUFFER_SIZE ->
  log_size wal_header (recs ++ [rec]) < 2 ^ 63 ->
  exists w' off,
    (off ← write_record (wr_type rec) (wr_row_data rec) (wr_row_id rec) (wr_page_id rec) (wr_row_slot rec);
     (if b then wal_sync else mret tt) ;; mret off) w = (Ok off, w') /\
    wal_state w' (recs ++ [rec]) /\ (b = true -> wal_durable w' (recs ++ [rec])).
Proof.
  intros (fl & bu & Hw & <-) Hok Hmax Hsz. rewrite <- app_assoc in Hsz.
  destruct (record_sync_run wal_header w fl bu rec b Hw Hok Hmax Hsz) as (w' & fl' & bu' & Hr & Hw' & Happ & Hb).
  exists w', (log_size wal_header (fl ++ bu)). rewrite <- app_assoc, <- Happ. split_and!; [done|by exists fl', bu'|].
  intros [-> Hs]%Hb. split; [|done]. by rewrite app_nil_r.
Qed.

(** [wal_->sync()] *)
Lemma wal_sync_run w recs :
  wal_state w recs -> log_size wal_header recs < 2 ^ 63 -> exists w', wal_sync w = (Ok tt, w') /\ wal_durable w' recs.
Proof.
  intros (fl & bu & Hw & <-) Hsz. destruct (sync_run wal_header w fl bu Hw Hsz) as (w' & Hr & Hw' & Hs). by exists w'.
Qed.

(** What no operation on rows changes. *)
Definition db_frame (d d' : DB F) : Prop :=
  db_open d' = db_open d /\ db_explicit d' = db_explicit d /\ db_compression d' = db_compression d /\
  db_cache_cap d' = db_cache_cap d /\ dom (db_indexes d') = dom (db_indexes d).

#[export] Instance db_frame_refl : Reflexive db_frame.
Proof. by intros d. Qed.
#[export] Instance db_frame_trans : Transitive db_frame.
Proof. unfold db_frame. intros ? ? ? ? ?. intuition congruence. Qed.

(** [insert_unlocked] of a row that may be inserted. *)
Lemma insert_unlocked_run pages d recs r b :
  db_core pages d -> wal_state (db_wal d) recs -> step_ok schema ct (SInsert r) pages ->
  log_size wal_header recs + 21 + zlen (encode_row r) < 2 ^ 63 ->
  exists d' rec, insert_unlocked r b d = (Ok tt, d') /\ db_core (pages_insert r pages) d' /\ db_frame d d' /\
    logs (SInsert r) rec /\ record_ok rec /\ wal_state (db_wal d') (recs ++ [rec]) /\
    (b = true -> wal_durable (db_wal d') (recs ++ [rec])).
Proof.
  intros Hcore Hwal ((Hr & Hni & Hlt) & Hst) Hlog. destruct (target r pages) as [init rows] eqn:Ht.
  destruct (writable_page_run pages d r init rows Hcore Hr Hlt Ht) as (l & pg1 & Hrun1 & Href1 & Hi1).
  pose proof Hcore as [Hlive Hsch Hrep Hidx Hids Htr].
  assert (Hstn : storable (rows ++ [r])).
  { cbn [step_pages] in Hst. unfold pages_insert in Hst. rewrite Ht in Hst. apply Forall_app in Hst as [_ Hst]. apply Forall_cons in Hst as [Hst _]. exact Hst. }
  destruct (append_run init rows pg1 l r Href1 Hr Hstn) as (p & p' & pg2 & Hp & Hpc & Hm & Hp' & Hpid' & Hpid & Hload & Href2 & Hi2).
  unfold insert_unlocked. rewrite (M_bind_ok get _ _ _ _ eq_refl).
  rewrite bool_decide_eq_false_2; [|rewrite Hsch; destruct Hr as (_ & Hv & _); apply Forall2_length in Hv; lia].
  rewrite (M_bind_ok (db_find _) _ d None d).
  2: { unfold db_find. rewrite (M_bind_ok get _ _ _ _ eq_refl). unfold mret, M_ret. do 2 f_equal.
       rewrite idx_find_run by apply Hidx. apply eq_None_not_Some. by rewrite (index_rep_ids _ _ _ Hidx). }
  rewrite (M_bind_ok _ _ _ _ _ Hrun1).
  rewrite (M_bind_ok (on_pager (page_at l)) _ (db_set_pager pg1 d) p (db_set_pager pg1 d)) by (by apply on_pager_read).
  rewrite Hpc, Hsch. rewrite (M_bind_ok _ _ _ _ _ (on_pager_ok _ (db_set_pager pg1 d) _ pg2 Hlive Hm)).
  set (d2 := db_set_pager pg2 d). change (db_set_pager pg2 (db_set_pager pg1 d)) with d2.
  rewrite (M_bind_ok (on_pager (page_at l)) _ d2 p' d2) by (by apply on_pager_read).
  apply outcome_bind_inv in Hload as (off & Hoff & Hload). apply outcome_bind_inv in Hload as (len & Hlen & Hload).
  rewrite (M_bind_ok (lift _) _ d2 off d2) by (unfold lift; by rewrite Hoff).
  rewrite (M_bind_ok (lift _) _ d2 len d2) by (unfold lift; by rewrite Hlen).
  rewrite (M_bind_ok (lift _) _ d2 (encode_row r) d2) by (unfold lift; by rewrite Hload).
  set (rec := mkWALRecord INSERT (row_id r) (p_id p') (zlen rows) (encode_row r)).
  assert (Hfit : zlen init < 2 ^ 32 /\ zlen rows < 2 ^ 32).
  { assert (zlen init <= zlen pages /\ zlen rows < 64) as [? ?]; [|lia].
    apply target_split in Ht as [(-> & -> & _)|(-> & Hfit & _)]; [cbn; lia|]. unfold MAX_ROWS_PER_PAGE in Hfit. rewrite length_app. lia. }
  destruct Hr as (Hrid & Hrv & Hrsz). pose proof Hrsz as Hrsz'. unfold PAGE_SIZE in Hrsz'.
  assert (Hrec : record_ok rec).
  { unfold record_ok, rec; cbn [wr_type wr_row_id wr_page_id wr_row_slot wr_row_data]. rewrite Hpid'. unfold INSERT. lia. }
  destruct (log_record_run (db_wal d) recs rec b Hwal Hrec) as (w' & woff & Hw & Hws & Hwd);
    [cbn [rec wr_row_data]; unfold WAL_BUFFER_SIZE; lia|rewrite log_size_snoc; cbn [rec wr_row_data]; lia|].
  rewrite (M_bind_ok _ _ _ _ _ (the_wal_ok _ d2 _ w' Hw)). set (d3 := db_set_wal w' d2).
  rewrite (M_bind_ok (on_pager _) _ d3 (page_offset pg2 (p_id p')) d3) by (by apply on_pager_read).
  assert (Hidx2 : index_rep (init ++ [rows]) (pg_index pg2)).
  { rewrite Hi2, Hi1. apply target_split in Ht as [(-> & -> & _)|(-> & _)]; [by apply index_rep_empty_page|done]. }
  assert (Hni2 : row_id r ∉ row_ids (init ++ [rows])).
  { apply target_split in Ht as [(-> & -> & _)|(-> & _)]; [|done]. rewrite row_ids_app, row_ids_one. cbn. by rewrite app_nil_r. }
  destruct (index_add init rows r (page_offset pg2 (p_id p')) (pg_index pg2) Hidx2 Hni2) as (i' & Hins & Hidx').
  rewrite Hpid' in Hins |- *.
  rewrite (M_bind_ok _ _ _ _ _ (on_pager_ok _ d3 _ _ Hlive (on_index_ok _ _ _ _ Hins))).
  set (d4 := db_set_pager (pg_set_index i' pg2) d3).
  assert (Hpages : pages_insert r pages = init ++ [rows ++ [r]]) by (unfold pages_insert; by rewrite Ht).
  destruct (update_indexes_run bpt_insert r d4 (concat pages) (concat (pages_insert r pages)) Hsch Htr) as (ix & Hix & Htr' & Hdom).
  { intros n t Htree. rewrite concat_insert. by apply (tree_insert schema (concat pages) n t r Htree Hrv). }
  exists (db_set_indexes ix d4), rec. split_and!; [exact Hix| |done|done|done|done|done].
  rewrite Hpages in Htr' |- *. split; try done.
  - apply pager_ref_rep in Href2. exact Href2.
  - rewrite <- Hpages. by apply NoDup_insert.
Qed.

(** *** Deletion *)

Lemma db_find_run pages d id : db_core pages d -> db_find id d = (Ok (idx_map (pg_index (db_pager d)) !! id), d).
Proof.
  intros Hc. unfold db_find. rewrite (M_bind_ok get _ _ _ _ eq_refl). unfold mret, M_ret. do 2 f_equal.
  apply idx_find_run, (dc_index _ _ _ _ _ _ Hc).
Qed.

(** An entry of the index names a row. *)
Lemma entry_row pages i id e :
  index_rep pages i -> idx_map i !! id = Some e ->
  exists rows (n : nat) r, page_rows pages (page_id e) = Some rows /\ row_slot e = Z.of_nat n /\ rows !! n = Some r /\ row_id r = id.
Proof.
  intros [_ Hl] He. assert (Hat : row_at pages id (page_id e) (row_slot e)) by (apply Hl; unfold locs; by rewrite lookup_fmap, He).
  destruct Hat as (rows & r & Hp & Hs & Hr & Hid). exists rows, (Z.to_nat (row_slot e)), r. split_and!; [done|lia|done|done].
Qed.

Lemma entry_ids pages i id : index_rep pages i -> is_Some (idx_map i !! id) <-> id ∈ row_ids pages.
Proof. intros Hi. apply (index_rep_ids pages i id Hi). Qed.

Lemma locate_slot_run rows p (n : nat) r :
  page_rep schema rows p -> rows !! n = Some r -> locate_slot p (Z.of_nat n) (row_id r) = Ok (Z.of_nat n).
Proof.
  intros Hp Hn. unfold locate_slot. pose proof (lookup_lt_Some _ _ _ Hn). rewrite (rep_count _ _ _ Hp), bool_decide_eq_true_2 by lia.
  rewrite (row_id_at_rep _ _ _ _ _ Hp Hn). cbn [mbind outcome_bind]. by rewrite bool_decide_eq_true_2.
Qed.

(** The loop of [repair_slots_after_erase]. *)
Lemma repair_loop_run pages l pid rows ids d :
  db_live d = true -> pager_ref pages (db_pager d) l pid -> page_rows pages pid = Some rows -> NoDup ids ->
  idx_wf (pg_index (db_pager d)) ->
  exists i', mfor (fun rid =>
      page ← on_pager (page_at l);
      slot ← lift (find_row page rid);
      if bool_decide (slot >= 0) then on_pager (on_index (update_slot rid slot)) else mret tt) ids d
    = (Ok tt, db_set_pager (pg_set_index i' (db_pager d)) d) /\ idx_wf i' /\
    forall id, idx_map i' !! id =
      (fun e => if bool_decide (id ∈ ids /\ 0 <= slot_in rows id) then set_row_slot (slot_in rows id) e else e) <$>
        idx_map (pg_index (db_pager d)) !! id.
Proof.
  revert d. induction ids as [|x ids IH]; intros d Hl Href Hp Hnd Hwf.
  - exists (pg_index (db_pager d)). split_and!; [by rewrite db_set_index_id|done|]. intros id. rewrite bool_decide_eq_false_2 by set_solver.
    by destruct (_ !! id).
  - apply NoDup_cons in Hnd as [Hni Hnd]. destruct (page_at_run schema ct hdr sy pages (db_pager d) l pid rows Href Hp) as (p & Hpa & Hrep & _).
    assert (Hstep : exists i1, (page ← on_pager (page_at l); slot ← lift (find_row page x);
        if bool_decide (slot >= 0) then on_pager (on_index (update_slot x slot)) else mret tt) d
      = (Ok tt, db_set_pager (pg_set_index i1 (db_pager d)) d) /\ idx_wf i1 /\
      idx_map i1 = if bool_decide (0 <= slot_in rows x) then alter (set_row_slot (slot_in rows x)) x (idx_map (pg_index (db_pager d)))
                   else idx_map (pg_index (db_pager d))).
    { rewrite (M_bind_ok (on_pager _) _ d p d) by (by apply on_pager_read).
      rewrite (M_bind_ok (lift _) _ d (slot_in rows x) d) by (unfold lift; by rewrite (find_row_rep _ _ _ _ Hrep)).
      destruct (decide (0 <= slot_in rows x)).
      - rewrite !bool_decide_eq_true_2 by lia.
        destruct (idx_update_run (set_row_slot (slot_in rows x)) x (pg_index (db_pager d))) as [Hw Hm]; [done|done|].
        eexists. split_and!; [apply on_pager_ok; [done|by apply on_index_ok]|exact Hw|exact Hm].
      - rewrite !bool_decide_eq_false_2 by lia. exists (pg_index (db_pager d)). split_and!; [by rewrite db_set_index_id|done|done]. }
    destruct Hstep as (i1 & Hrun & Hw1 & Hm1). cbn [mfor]. rewrite (M_bind_ok _ _ _ _ _ Hrun).
    set (d1 := db_set_pager _ d). destruct (IH d1 Hl Href Hp Hnd Hw1) as (i' & Hrest & Hw' & Hm').
    exists i'. split_and!; [exact Hrest|done|]. intros id. rewrite Hm'. cbn [d1 db_pager db_set_pager pg_index pg_set_index]. rewrite Hm1.
    destruct (decide (id = x)) as [->|Hne].
    + rewrite (bool_decide_eq_false_2 (x ∈ ids /\ _)) by tauto. destruct (decide (0 <= slot_in rows x)).
      * rewrite !bool_decide_eq_true_2 by (first [done | split; [by left|done]]). rewrite lookup_alter_eq. by destruct (_ !! x).
      * rewrite !bool_decide_eq_false_2 by tauto. by destruct (_ !! x).
    + assert (Hlk : (if bool_decide (0 <= slot_in rows x) then alter (set_row_slot (slot_in rows x)) x (idx_map (pg_index (db_pager d)))
                     else idx_map (pg_index (db_pager d))) !! id = idx_map (pg_index (db_pager d)) !! id)
        by (case_bool_decide; [by rewrite lookup_alter_ne|done]).
      rewrite Hlk. rewrite (bool_decide_ext (id ∈ x :: ids /\ 0 <= slot_in rows id) (id ∈ ids /\ 0 <= slot_in rows id)); [done|].
      rewrite elem_of_cons. naive_solver.
Qed.

(** After a row has left page [pid] and the index, the repair restores it. *)
Lemma repair_run pages d pid rows (n : nat) r i0 :
  db_live d = true -> index_rep pages i0 -> NoDup (row_ids pages) ->
  page_rows pages pid = Some rows -> rows !! n = Some r ->
  pager_rep (pages_erase (row_id r) pages) (db_pager d) ->
  idx_wf (pg_index (db_pager d)) -> idx_map (pg_index (db_pager d)) = delete (row_id r) (idx_map i0) ->
  exists pg', repair_slots_after_erase pid d = (Ok tt, db_set_pager pg' d) /\
    pager_rep (pages_erase (row_id r) pages) pg' /\ index_rep (pages_erase (row_id r) pages) (pg_index pg').
Proof.
  intros Hl Hi0 Hnd Hp Hn Hrep Hwf Hm. unfold repair_slots_after_erase. rewrite (M_bind_ok get _ _ _ _ eq_refl).
  pose proof (page_rows_range _ _ _ Hp) as Hrange.
  pose proof (pages_erase_insert pages pid rows n r Hnd Hp Hn) as Hpe. set (rows' := delete n rows) in *.
  assert (Hp' : page_rows (pages_erase (row_id r) pages) pid = Some rows') by (by rewrite Hpe, page_rows_insert, bool_decide_eq_true_2).
  pose proof Hi0 as [_ Hloc].
  assert (Hfin : forall (i' : IndexManager) (ids : gset Z),
    idx_wf i' -> (forall id, id ∈ ids <-> on_page (idx_map (pg_index (db_pager d))) pid id) ->
    (forall id, idx_map i' !! id =
      (fun e => if bool_decide (id ∈ ids /\ 0 <= slot_in rows' id) then set_row_slot (slot_in rows' id) e else e) <$>
        idx_map (pg_index (db_pager d)) !! id) -> index_rep (pages_erase (row_id r) pages) i').
  { intros i' ids Hw Hids Hmap. split; [done|]. unfold locs. intros id p s. rewrite lookup_fmap.
    eapply (index_erase pages pid rows n r (idx_map i0) (idx_map i') Hnd Hp Hn).
    - intros id' p' s'. rewrite <- Hloc. unfold locs. by rewrite lookup_fmap.
    - intros id'. rewrite Hmap, Hm. destruct (decide (id' = row_id r)) as [Hid|Hid];
        [rewrite (bool_decide_eq_true_2 _ Hid), Hid; by rewrite lookup_delete_eq|rewrite (bool_decide_eq_false_2 _ Hid)].
      rewrite lookup_delete_ne by done. destruct (idx_map i0 !! id') as [e|] eqn:He; [cbn|done]. f_equal.
      assert (Hb : bool_decide (id' ∈ ids /\ 0 <= slot_in rows' id') = bool_decide (page_id e = pid)); [|by rewrite Hb].
      apply bool_decide_ext.
      rewrite Hids, Hm. unfold on_page. rewrite lookup_delete_ne, He by done. split; [naive_solver|]. intros <-. split; [by exists e|].
      destruct (entry_row pages i0 id' e Hi0 He) as (l & j & q & Hl1 & _ & Hj & Hq). rewrite Hp in Hl1. injection Hl1 as <-.
      assert (Hin : q ∈ rows').
      { unfold rows'. rewrite (delete_filter rows n r (page_NoDup _ _ _ Hnd Hp) Hn). apply list_elem_of_filter.
        split; [congruence|]. by eapply list_elem_of_lookup_2. }
      apply list_elem_of_lookup in Hin as [k Hk]. rewrite <- Hq, (slot_in_lookup rows' k q); [lia| |done].
      eapply (page_NoDup _ (page_id e)); [|exact Hp']. by apply NoDup_erase. }
  pose proof (iwf_pages _ Hwf) as Hpages. unfold ids_for_page.
  destruct (page_to_ids_ (pg_index (db_pager d)) !! pid) as [ids|] eqn:Eids.
  - destruct (get_mutable_page_run schema ct hdr sy _ (db_pager d) pid rows' Hrep Hp') as (l & pg1 & Hrun & Href & Hi1).
    rewrite (M_bind_ok _ _ _ _ _ (on_pager_ok _ _ _ _ Hl Hrun)). set (d1 := db_set_pager pg1 d).
    destruct (repair_loop_run (pages_erase (row_id r) pages) l pid rows' (elements ids) d1) as (i' & Hloop & Hw' & Hm'); try done.
    + apply NoDup_elements.
    + cbn. by rewrite Hi1.
    + exists (pg_set_index i' pg1). split_and!; [exact Hloop| |].
      * apply pager_ref_rep in Href. exact Href.
      * apply (Hfin i' ids Hw').
        -- intros id. rewrite <- Hpages, Eids. done.
        -- intros id. rewrite Hm'. cbn [d1 db_pager db_set_pager]. rewrite Hi1.
           by rewrite (bool_decide_ext (id ∈ elements ids /\ 0 <= slot_in rows' id) (id ∈ ids /\ 0 <= slot_in rows' id)) by (by rewrite elem_of_elements).
  - exists (db_pager d). split_and!; [by rewrite db_set_pager_id|done|]. apply (Hfin _ ∅ Hwf).
    + intros id. by rewrite <- Hpages, Eids.
    + intros id. rewrite bool_decide_eq_false_2 by set_solver. by destruct (_ !! id).
Qed.

(** A row of the pages is storable. *)
Lemma page_row_ok pages pg pid rows (n : nat) r :
  pager_rep pages pg -> page_rows pages pid = Some rows -> rows !! n = Some r -> row_ok schema r /\ zlen rows < 2 ^ 32 /\ 0 <= pid < 2 ^ 32.
Proof.
  intros Hrep Hp Hn. destruct (pager_storable _ _ Hrep) as [Hst Hlt]. pose proof (page_rows_range _ _ _ Hp).
  pose proof (proj1 (Forall_forall _ _) Hst rows (page_rows_elem _ _ _ Hp)) as (Hr & Hsz & _).
  pose proof (encode_rows_count rows). unfold PAGE_SIZE in Hsz. split_and!; [by eapply Forall_lookup_1|lia..].
Qed.

(** Taking the row out of its page, through a reference to the page. *)
Lemma erase_page_run pages pg l pid rows (n : nat) r :
  pager_ref pages pg l pid -> NoDup (row_ids pages) -> page_rows pages pid = Some rows -> rows !! n = Some r ->
  Forall storable (pages_erase (row_id r) pages) ->
  exists pg', mutate_page l (erase_row (Z.of_nat n)) pg = (Ok tt, pg') /\
    pager_ref (pages_erase (row_id r) pages) pg' l pid /\ pg_index pg' = pg_index pg.
Proof.
  intros Href Hnd Hp Hn Hst. pose proof (pages_erase_insert pages pid rows n r Hnd Hp Hn) as Hpe.
  pose proof (page_rows_range _ _ _ Hp) as Hrange. rewrite Hpe in Hst |- *.
  assert (Hstn : storable (delete n rows)).
  { apply (proj1 (Forall_forall _ _) Hst), list_elem_of_lookup. exists (Z.to_nat pid). apply list_lookup_insert_eq. lia. }
  apply (mutate_page_run schema ct hdr sy (erase_row (Z.of_nat n)) pages pg l pid rows (delete n rows) tt Href Hp Hstn).
  intros p Hprep Hid. eexists. split; [by apply (erase_row_run schema rows p n r)|]. split_and!; [|done|done].
  destruct Hstn as (Hok & Hsz & _). unfold PAGE_SIZE in Hsz. split; cbn; try done. lia.
Qed.

(** [erase_unlocked] of an id that is there. *)
Lemma erase_unlocked_run pages d recs id :
  db_core pages d -> wal_state (db_wal d) recs -> step_ok schema ct (SErase id) pages ->
  log_size wal_header recs + 21 < 2 ^ 63 ->
  exists d' rec, erase_unlocked id d = (Ok true, d') /\ db_core (pages_erase id pages) d' /\ db_frame d d' /\
    logs (SErase id) rec /\ record_ok rec /\ wal_state (db_wal d') (recs ++ [rec]).
Proof.
  intros Hcore Hwal [Hin Hst] Hlog. pose proof Hcore as [Hlive Hsch Hrep Hidx Hids Htr].
  destruct (proj2 (entry_ids pages _ id Hidx) Hin) as [e He].
  destruct (entry_row pages _ id e Hidx He) as (rows & n & r & Hp & Hslot & Hn & Hid). subst id.
  destruct (page_row_ok pages _ _ rows n r Hrep Hp Hn) as (Hrok & Hrows32 & Hpid32).
  unfold erase_unlocked. rewrite (M_bind_ok get _ _ _ _ eq_refl), (M_bind_ok _ _ _ _ _ (db_find_run pages d _ Hcore)), He.
  destruct (get_mutable_page_run schema ct hdr sy pages (db_pager d) _ rows Hrep Hp) as (l & pg1 & Hrun1 & Href1 & Hi1).
  rewrite (M_bind_ok _ _ _ _ _ (on_pager_ok _ _ _ _ Hlive Hrun1)). set (d1 := db_set_pager pg1 d).
  destruct (page_at_run schema ct hdr sy pages pg1 l _ rows Href1 Hp) as (p & Hpa & Hprep & _).
  rewrite (M_bind_ok (on_pager (page_at l)) _ d1 p d1) by (by apply on_pager_read). rewrite Hslot.
  rewrite (M_bind_ok (lift _) _ d1 (Z.of_nat n) d1) by (unfold lift; by rewrite (locate_slot_run _ _ _ _ Hprep Hn)).
  rewrite bool_decide_eq_false_2 by lia. rewrite Hsch.
  rewrite (M_bind_ok (lift _) _ d1 r d1) by (unfold lift; by rewrite (get_row_rep _ _ _ _ _ Hprep Hn)).
  set (rec := mkWALRecord DELETE (row_id r) (page_id e) (Z.of_nat n) []).
  pose proof (lookup_lt_Some _ _ _ Hn) as Hlt.
  assert (Hrec : record_ok rec).
  { unfold record_ok, rec; cbn [wr_type wr_row_id wr_page_id wr_row_slot wr_row_data]. destruct Hrok as (Hri & _ & _). unfold DELETE. cbn [length]. lia. }
  destruct (log_record_run (db_wal d) recs rec false Hwal Hrec) as (w' & woff & Hw & Hws & _);
    [by vm_compute|rewrite log_size_snoc; cbn [rec wr_row_data length]; lia|].
  rewrite (M_bind_ok _ _ _ _ _ (the_wal_ok _ d1 _ w' Hw)). set (d2 := db_set_wal w' d1).
  destruct (erase_page_run pages pg1 l _ rows n r Href1 Hids Hp Hn Hst) as (pg2 & Hrun2 & Href2 & Hi2).
  rewrite (M_bind_ok _ _ _ _ _ (on_pager_ok _ d2 _ _ Hlive Hrun2)). set (d3 := db_set_pager pg2 d2).
  destruct (idx_remove_run (row_id r) (pg_index pg2)) as (i' & Hrem & Hwf' & Hmap'); [rewrite Hi2, Hi1; apply Hidx|].
  rewrite (M_bind_ok _ _ _ _ _ (on_pager_ok _ d3 _ _ Hlive (on_index_ok _ _ _ _ Hrem))). set (d4 := db_set_pager _ d3).
  destruct (repair_run pages d4 (page_id e) rows n r (pg_index (db_pager d))) as (pg5 & Hrepair & Hrep5 & Hidx5); try done.
  { apply pager_ref_rep in Href2. exact Href2. }
  { cbn [d4 db_pager db_set_pager pg_index pg_set_index]. by rewrite Hmap', Hi2, Hi1. }
  rewrite (M_bind_ok _ _ _ _ _ Hrepair). set (d5 := db_set_pager pg5 d4).
  destruct (update_indexes_run bpt_erase r d5 (concat pages) (concat (pages_erase (row_id r) pages)) Hsch Htr) as (ix & Hix & Htr' & Hdom).
  { intros nm t Htree. assert (Hrc : r ∈ concat pages).
    { apply elem_of_concat. exists rows. split; [by eapply list_elem_of_lookup_2|by eapply page_rows_elem]. }
    rewrite concat_erase. by apply (tree_erase schema (concat pages) nm t r Htree (proj1 (proj2 Hrok))). }
  rewrite (M_bind_ok _ _ _ _ _ Hix). exists (db_set_indexes ix d5), rec.
  split_and!; try done. split; try done. by apply NoDup_erase.
Qed.
End runs.
