(* ===== verification/DbQuery.v ===== *)
(** Reading the database ([src/db.cpp]): point lookups, scans with a filter,
    secondary indexes and range scans over them.  Each call may load and evict
    pages, and returns what the rows of DbSpec.v say. *)
From S2P Require Import Prelude Types Serialise Page Std BPTree Index Posix Wal Compression Migrate Storage Cache Pager Filter Db DbSpec DbOps.

(** ** Definitions *)

(** The rows that a filter lets through. *)
Definition selected (f : ScanFilter) (schema : Schema) (r : Row) : Prop := matches f r schema = Ok true.
#[export] Instance outcome_eq_decision {A} `{EqDecision A} : EqDecision (outcome A).
Proof. solve_decision. Defined.
#[export] Instance selected_dec f schema r : Decision (selected f schema r).
Proof. unfold selected. apply _. Defined.

(** The visits of a scan. *)
Definition visit_selected {T} (f : ScanFilter) (schema : Schema) (visitor : Row -> M T unit) (rows : list Row) : M T unit :=
  mfor visitor (filter (selected f schema) rows).

(** The key of the row lies between the bounds. *)
Definition key_in_range (fd : FieldDef) (fi : nat) (lo : option bytes) (li : bool) (hi : option bytes) (hii : bool) (r : Row) : Prop :=
  match row_key fd fi r with Some k => above lo li k = true /\ below hi hii k = true | None => False end.
#[export] Instance key_in_range_dec fd fi lo li hi hii r : Decision (key_in_range fd fi lo li hi hii r).
Proof. unfold key_in_range. destruct (row_key fd fi r); apply _. Defined.

(** [res] holds the rows between the bounds, each once, in the order of their keys,
    those with the same key in the order they have among the rows. *)
Record key_ordered (fd : FieldDef) (fi : nat) (lo : option bytes) (li : bool) (hi : option bytes) (hii : bool)
    (rows res : list Row) : Prop := {
  ko_rows : res ≡ₚ filter (key_in_range fd fi lo li hi hii) rows;
  ko_sorted : StronglySorted (fun r q => forall k k', row_key fd fi r = Some k -> row_key fd fi q = Some k' -> ~ key_lt k' k) res;
  ko_stable : forall k, above lo li k = true -> below hi hii k = true -> with_key fd fi k res = with_key fd fi k rows;
}.

(** The rows in the order of their keys, by insertion: a row goes before those with
    the same key. *)
Definition key_before (fd : FieldDef) (fi : nat) (r q : Row) : bool :=
  match row_key fd fi r, row_key fd fi q with Some k, Some k' => negb (bool_decide (key_lt k' k)) | _, _ => true end.
Fixpoint key_insert (fd : FieldDef) (fi : nat) (r : Row) (rows : list Row) : list Row :=
  match rows with
  | [] => [r]
  | q :: rows' => if key_before fd fi r q then r :: rows else q :: key_insert fd fi r rows'
  end.
Definition key_sort (fd : FieldDef) (fi : nat) (rows : list Row) : list Row := foldr (key_insert fd fi) [] rows.

(** What a range scan returns. *)
Definition range_rows (schema : Schema) (field : bytes) (lo : option FieldValue) (li : bool) (hi : option FieldValue) (hii : bool)
    (indexed : bool) (rows : list Row) : list Row :=
  let fi := Z.to_nat (field_index schema field) in
  match fields schema !! fi with
  | None => []
  | Some fd =>
      match encode_bound lo (fd_type fd), encode_bound hi (fd_type fd) with
      | Ok lk, Ok hk => let found := filter (key_in_range fd fi lk li hk hii) rows in if indexed then key_sort fd fi found else found
      | _, _ => []
      end
  end.

(** The bounds have the type of the field. *)
Definition bounds_typed (schema : Schema) (field : bytes) (lo hi : option FieldValue) : Prop :=
  match fields schema !! Z.to_nat (field_index schema field) with
  | None => False
  | Some fd => match encode_bound lo (fd_type fd), encode_bound hi (fd_type fd) with Ok _, Ok _ => True | _, _ => False end
  end.
#[export] Instance bounds_typed_dec schema field lo hi : Decision (bounds_typed schema field lo hi).
Proof. unfold bounds_typed. destruct (fields schema !! _) as [fd|]; [|apply _]. destruct (encode_bound lo (fd_type fd)), (encode_bound hi (fd_type fd)); apply _. Defined.

(** ** Lemmas *)

Lemma mfor_app {S A} (body : A -> M S unit) l1 l2 s :
  mfor body (l1 ++ l2) s = (mfor body l1 ;; mfor body l2) s.
Proof.
  revert s. induction l1 as [|x l1 IH]; intros s; [done|]. cbn [mfor app]. unfold mbind, M_bind in *.
  destruct (body x s) as [[[]|e|] s']; [apply IH|done..].
Qed.

Lemma mfor_ext {S A B} (body : A -> M S unit) (f : B -> M S unit) (xs : list A) (ys : list B) s :
  Forall2 (fun x y => forall s, body x s = f y s) xs ys -> mfor body xs s = mfor f ys s.
Proof.
  intros Hf. revert s. induction Hf as [|x y xs ys Hxy _ IH]; intros s; [done|]. cbn [mfor]. unfold mbind, M_bind.
  rewrite Hxy. destruct (f y s) as [[[]|e|] s']; [apply IH|done..].
Qed.

Lemma mfor_filter {S A} (P : A -> Prop) `{!forall x, Decision (P x)} (body : A -> M S unit) l s :
  mfor (fun x => if decide (P x) then body x else mret tt) l s = mfor body (filter P l) s.
Proof.
  revert s. induction l as [|x l IH]; intros s; [done|]. rewrite filter_cons. cbn [mfor].
  case_decide; cbn [mfor]; unfold mbind, M_bind; [|apply IH].
  destruct (body x s) as [[[]|e|] s']; [apply IH|done..].
Qed.

(** The loop over the slots of a page as a loop over its rows. *)
Lemma mfor_slots {S} (body : Z -> M S unit) (f : Row -> M S unit) (rows : list Row) s :
  (forall (n : nat) r, rows !! n = Some r -> forall s, body (Z.of_nat n) s = f r s) ->
  mfor body (zseq (zlen rows)) s = mfor f rows s.
Proof.
  intros Hb. apply mfor_ext. apply Forall2_same_length_lookup_2.
  - unfold zseq. rewrite length_seqZ. lia.
  - intros n x r Hx Hr. unfold zseq in Hx. apply lookup_seqZ in Hx as [-> _]. by apply Hb.
Qed.

Lemma key_in_range_key fd fi lk li hk hii r k :
  row_key fd fi r = Some k -> key_in_range fd fi lk li hk hii r <-> above lk li k = true /\ below hk hii k = true.
Proof. unfold key_in_range. by intros ->. Qed.

(** *** The order of the rows of a range *)

Section keys.
Context (fd : FieldDef) (fi : nat).
Implicit Types (rows : list Row) (ks : list bytes).

Definition with_keys ks rows : list Row := concat ((fun k => with_key fd fi k rows) <$> ks).

Lemma with_key_elem k rows r : r ∈ with_key fd fi k rows <-> r ∈ rows /\ row_key fd fi r = Some k.
Proof. unfold with_key. rewrite list_elem_of_filter. tauto. Qed.

Lemma with_key_idem k k' rows : with_key fd fi k (with_key fd fi k' rows) = if decide (k = k') then with_key fd fi k rows else [].
Proof.
  unfold with_key. rewrite list_filter_filter. case_decide as Hk.
  - subst k'. apply list_filter_iff. tauto.
  - apply filter_none, Forall_forall. intros r _ [??]. congruence.
Qed.

Lemma with_keys_stable ks rows k :
  NoDup ks -> with_key fd fi k (with_keys ks rows) = if decide (k ∈ ks) then with_key fd fi k rows else [].
Proof.
  induction ks as [|k' ks IH]; intros Hnd; [done|]. apply NoDup_cons in Hnd as [Hni Hnd].
  unfold with_keys. cbn [fmap list_fmap concat]. fold (with_keys ks rows). unfold with_key at 1. rewrite filter_app.
  fold (with_key fd fi k (with_key fd fi k' rows)) (with_key fd fi k (with_keys ks rows)). rewrite with_key_idem, (IH Hnd).
  destruct (decide (k = k')) as [->|Hne].
  - rewrite (decide_False (P := k' ∈ ks)), (decide_True (P := k' ∈ k' :: ks)) by (done || by left). by rewrite app_nil_r.
  - cbn. rewrite (decide_ext (k ∈ k' :: ks) (k ∈ ks)); [done|]. rewrite elem_of_cons. tauto.
Qed.

Lemma with_keys_sorted ks rows :
  StronglySorted key_lt ks ->
  StronglySorted (fun r q => forall k k', row_key fd fi r = Some k -> row_key fd fi q = Some k' -> ~ key_lt k' k) (with_keys ks rows).
Proof.
  induction 1 as [|k ks Hs IH Hall]; [constructor|]. unfold with_keys. cbn [fmap list_fmap concat]. fold (with_keys ks rows).
  apply StronglySorted_app_2; [| |exact IH].
  - intros r q Hr Hq k1 k2 H1 H2. apply with_key_elem in Hr as [_ Hr]. apply elem_of_concat in Hq as (l & Hq & Hl).
    apply list_elem_of_fmap in Hl as (k' & -> & Hk'). apply with_key_elem in Hq as [_ Hq].
    assert (k1 = k) as -> by congruence. assert (k2 = k') as -> by congruence.
    pose proof (proj1 (Forall_forall _ _) Hall k' Hk') as Hlt. intros Hgt. by apply (key_lt_irrefl k), (key_lt_trans k k' k).
  - assert (Hk : Forall (fun r => row_key fd fi r = Some k) (with_key fd fi k rows)) by (apply Forall_forall; intros r [_ ?]%with_key_elem; done).
    induction Hk as [|r l Hr Hl IHl]; constructor; [done|]. eapply Forall_impl; [exact Hl|]. intros q Hq k1 k2 H1 H2.
    assert (k1 = k) as -> by congruence. assert (k2 = k) as -> by congruence. apply key_lt_irrefl.
Qed.

Lemma with_keys_cons_out ks r rows :
  (forall k, k ∈ ks -> row_key fd fi r <> Some k) -> with_keys ks (r :: rows) = with_keys ks rows.
Proof.
  intros Hk. unfold with_keys. induction ks as [|k ks IH]; [done|]. cbn [fmap list_fmap concat]. f_equal; [|apply IH; intros; apply Hk; by right].
  unfold with_key. rewrite filter_cons_False; [done|]. apply Hk. by left.
Qed.

Lemma with_keys_cons_in ks r rows k :
  NoDup ks -> k ∈ ks -> row_key fd fi r = Some k -> with_keys ks (r :: rows) ≡ₚ r :: with_keys ks rows.
Proof.
  intros Hnd [l1 [l2 ->]]%list_elem_of_split Hk. apply NoDup_app in Hnd as (_ & Hd & Hnd). apply NoDup_cons in Hnd as [Hni _].
  unfold with_keys. rewrite !fmap_app, !concat_app, !fmap_cons. cbn [concat].
  fold (with_keys l1 (r :: rows)) (with_keys l2 (r :: rows)) (with_keys l1 rows) (with_keys l2 rows).
  rewrite (with_keys_cons_out l1), (with_keys_cons_out l2).
  - unfold with_key. rewrite filter_cons_True by done. symmetry. apply Permutation_middle.
  - intros k' Hk' Heq. assert (k' = k) as -> by congruence. done.
  - intros k' Hk' Heq. assert (k' = k) as -> by congruence. apply (Hd k Hk'). by left.
Qed.

Lemma with_keys_ordered ks lk li hk hii rows :
  StronglySorted key_lt ks -> (forall k, k ∈ ks -> above lk li k = true /\ below hk hii k = true) ->
  (forall k, above lk li k = true -> below hk hii k = true -> with_key fd fi k rows <> [] -> k ∈ ks) ->
  key_ordered fd fi lk li hk hii rows (with_keys ks rows).
Proof.
  intros Hs Hin Hall. assert (Hnd : NoDup ks).
  { clear -Hs. induction Hs as [|k ks Hs IH Hf]; constructor; [|done]. intros Hk. by apply (key_lt_irrefl k), (proj1 (Forall_forall _ _) Hf k Hk). }
  split; [|by apply with_keys_sorted|].
  - clear Hs. assert (Hall' : forall r k, r ∈ rows -> row_key fd fi r = Some k -> above lk li k = true -> below hk hii k = true -> k ∈ ks).
    { intros r k Hr Hk Ha Hb. apply Hall; [done..|]. intros Hnil. assert (Hr' : r ∈ with_key fd fi k rows) by (by apply with_key_elem).
      rewrite Hnil in Hr'. by apply elem_of_nil in Hr'. }
    clear Hall. induction rows as [|r rows IH]; [clear; induction ks; done|].
    rewrite filter_cons. case_decide as Hd; unfold key_in_range in Hd; destruct (row_key fd fi r) as [k|] eqn:Hrk.
    + destruct Hd as [Ha Hb]. rewrite (with_keys_cons_in ks r rows k) by (done || (eapply Hall'; [by left|done..])).
      rewrite IH; [done|]. intros. eapply Hall'; [by right|done..].
    + done.
    + rewrite with_keys_cons_out; [apply IH; intros; eapply Hall'; [by right|done..]|]. intros k' Hk' Heq. apply Hd.
      assert (k' = k) as -> by congruence. by apply Hin.
    + rewrite with_keys_cons_out by (by rewrite Hrk). apply IH. intros. eapply Hall'; [by right|done..].
  - intros k Ha Hb. rewrite with_keys_stable by done. case_decide as Hk; [done|].
    destruct (with_key fd fi k rows) eqn:E; [done|]. destruct Hk. apply Hall; [done..|]. by rewrite E.
Qed.

(** *** Sorting by keys *)

Definition keys_sorted (rows : list Row) : Prop :=
  StronglySorted (fun r q => forall k k', row_key fd fi r = Some k -> row_key fd fi q = Some k' -> ~ key_lt k' k) rows.

Lemma key_before_spec r q : key_before fd fi r q = true <-> forall k k', row_key fd fi r = Some k -> row_key fd fi q = Some k' -> ~ key_lt k' k.
Proof.
  unfold key_before. destruct (row_key fd fi r) as [k|], (row_key fd fi q) as [k'|]; [|by split; intros; congruence..].
  rewrite negb_true_iff, bool_decide_eq_false. split; [by intros ? ?? [= <-] [= <-]|auto].
Qed.

Lemma key_insert_perm r rows : key_insert fd fi r rows ≡ₚ r :: rows.
Proof. induction rows as [|q rows IH]; [done|]. cbn [key_insert]. destruct (key_before fd fi r q); [done|]. rewrite IH. apply Permutation_swap. Qed.

Lemma key_insert_sorted r rows : Forall (fun q => is_Some (row_key fd fi q)) (r :: rows) -> keys_sorted rows -> keys_sorted (key_insert fd fi r rows).
Proof.
  intros [[kr Hr] Hall]%Forall_cons. induction 1 as [|q rows Hs IH Hf]; [repeat constructor|]. apply Forall_cons in Hall as [[kq Hq] Hall].
  cbn [key_insert]. destruct (key_before fd fi r q) eqn:Eb.
  - pose proof (proj1 (key_before_spec r q) Eb kr kq Hr Hq) as Hle. constructor; [by constructor|]. constructor; [by apply key_before_spec|].
    apply Forall_forall. intros x Hx k k' Hk Hk'. assert (k = kr) as -> by congruence.
    pose proof (proj1 (Forall_forall _ _) Hf x Hx kq k' Hq Hk') as Hle2.
    intros Hlt. destruct (key_lt_total kq kr) as [?|[->|Hgt]]; [done|done|]. apply Hle2. by eapply key_lt_trans.
  - constructor; [by apply IH|]. rewrite key_insert_perm. constructor; [|exact Hf]. intros k k' Hk Hk'.
    assert (Hlt : key_lt kq kr).
    { apply not_true_iff_false in Eb. unfold key_before in Eb. rewrite Hr, Hq in Eb. rewrite not_true_iff_false, negb_false_iff, bool_decide_eq_true in Eb. done. }
    assert (k = kq) as -> by congruence. assert (k' = kr) as -> by congruence. intros Hgt. by apply (key_lt_irrefl kr), (key_lt_trans kr kq kr).
Qed.

Lemma key_insert_stable r rows k : with_key fd fi k (key_insert fd fi r rows) = with_key fd fi k (r :: rows).
Proof.
  induction rows as [|q rows IH]; [done|]. cbn [key_insert]. destruct (key_before fd fi r q) eqn:Eb; [done|].
  unfold with_key in *. rewrite (filter_cons _ q), IH, !filter_cons. repeat case_decide; try done.
  exfalso. unfold key_before in Eb. destruct (row_key fd fi r) as [kr|], (row_key fd fi q) as [kq|]; try done.
  rewrite negb_false_iff, bool_decide_eq_true in Eb. assert (kr = kq) as -> by congruence. by apply key_lt_irrefl in Eb.
Qed.

Lemma key_sort_perm rows : key_sort fd fi rows ≡ₚ rows.
Proof. induction rows as [|r rows IH]; [done|]. cbn [key_sort foldr]. fold (key_sort fd fi rows). by rewrite key_insert_perm, IH. Qed.

Lemma key_sort_sorted rows : Forall (fun q => is_Some (row_key fd fi q)) rows -> keys_sorted (key_sort fd fi rows).
Proof.
  induction 1 as [|r rows Hr Hall IH]; [constructor|]. cbn [key_sort foldr]. fold (key_sort fd fi rows). apply key_insert_sorted; [|done].
  constructor; [done|]. by rewrite key_sort_perm.
Qed.

Lemma key_sort_stable rows k : with_key fd fi k (key_sort fd fi rows) = with_key fd fi k rows.
Proof.
  induction rows as [|r rows IH]; [done|]. cbn [key_sort foldr]. fold (key_sort fd fi rows). rewrite key_insert_stable.
  unfold with_key in *. by rewrite !filter_cons, IH.
Qed.

(** There is one way to sort a list stably. *)
Lemma sorted_unique rows1 rows2 :
  Forall (fun q => is_Some (row_key fd fi q)) rows1 -> Forall (fun q => is_Some (row_key fd fi q)) rows2 ->
  keys_sorted rows1 -> keys_sorted rows2 -> (forall k, with_key fd fi k rows1 = with_key fd fi k rows2) -> rows1 = rows2.
Proof.
  intros Hk1. revert rows2. induction Hk1 as [|r1 rows1 [k1 Hr1] Hk1 IH]; intros rows2 Hk2 Hs1 Hs2 Heq.
  { destruct Hk2 as [|r2 rows2 [k2 Hr2] _]; [done|]. specialize (Heq k2). unfold with_key in Heq. by rewrite filter_cons_True in Heq by done. }
  destruct Hk2 as [|r2 rows2 [k2 Hr2] Hk2]. { specialize (Heq k1). unfold with_key in Heq. by rewrite filter_cons_True in Heq by done. }
  assert (Hin : forall ra rowsa ka rb rowsb kb, row_key fd fi ra = Some ka -> row_key fd fi rb = Some kb ->
    keys_sorted (rb :: rowsb) -> (forall k, with_key fd fi k (ra :: rowsa) = with_key fd fi k (rb :: rowsb)) -> ~ key_lt ka kb).
  { intros ra rowsa ka rb rowsb kb Ha Hb Hs He Hlt. assert (Hx : ra ∈ with_key fd fi ka (ra :: rowsa)) by (apply with_key_elem; split; [by left|done]).
    rewrite He in Hx. apply with_key_elem in Hx as [[->|Hx]%elem_of_cons _].
    - assert (ka = kb) as -> by congruence. by apply key_lt_irrefl in Hlt.
    - apply StronglySorted_inv in Hs as [_ Hf]. by apply (proj1 (Forall_forall _ _) Hf ra Hx kb ka Hb Ha). }
  assert (k1 = k2) as ->.
  { destruct (key_lt_total k1 k2) as [Hlt|[?|Hlt]]; [|done|]; exfalso; revert Hlt; [eapply (Hin r1 rows1 k1 r2 rows2 k2)|eapply (Hin r2 rows2 k2 r1 rows1 k1)]; done. }
  pose proof (Heq k2) as Hh. unfold with_key in Hh. rewrite !filter_cons_True in Hh by done. injection Hh as -> _. f_equal.
  apply IH; [done|by apply StronglySorted_inv in Hs1 as [? _]|by apply StronglySorted_inv in Hs2 as [? _]|].
  intros k. specialize (Heq k). unfold with_key in *. rewrite !filter_cons in Heq. case_decide; [by injection Heq|done].
Qed.

(** A list in the order of the keys is the sorted one. *)
Lemma key_ordered_sort lk li hk hii rows res :
  key_ordered fd fi lk li hk hii rows res -> res = key_sort fd fi (filter (key_in_range fd fi lk li hk hii) rows).
Proof.
  intros [Hp Hs Hst]. set (found := filter (key_in_range fd fi lk li hk hii) rows) in *.
  assert (Hk : Forall (fun q => is_Some (row_key fd fi q)) found).
  { apply Forall_forall. intros q [Hq _]%list_elem_of_filter. unfold key_in_range in Hq. by destruct (row_key fd fi q). }
  apply sorted_unique; [by rewrite Hp|by rewrite key_sort_perm|exact Hs|by apply key_sort_sorted|]. intros k. rewrite key_sort_stable.
  destruct (above lk li k) eqn:Ha, (below hk hii k) eqn:Hb.
  1: { rewrite Hst by done. unfold with_key, found. rewrite list_filter_filter. apply list_filter_iff. intros q. split; [|tauto].
       intros Hq. split; [done|]. by apply (key_in_range_key _ _ _ _ _ _ _ k). }
  all: assert (Hno : forall l, l ≡ₚ found -> with_key fd fi k l = []); [|by rewrite !Hno].
  all: intros l Hl; apply filter_none, Forall_forall; intros q Hq Hqk; rewrite Hl in Hq; apply list_elem_of_filter in Hq as [Hq _];
    apply (key_in_range_key _ _ _ _ _ _ _ k Hqk) in Hq as [??]; congruence.
Qed.
End keys.

(** A range scan makes no rows up. *)
Lemma range_rows_subset schema name lo li hi hii ix rows r : r ∈ range_rows schema name lo li hi hii ix rows -> r ∈ rows.
Proof.
  unfold range_rows. destruct (fields schema !! _) as [fd|]; [|by intros ?%elem_of_nil].
  destruct (encode_bound lo (fd_type fd)), (encode_bound hi (fd_type fd)); try by intros ?%elem_of_nil.
  cbv zeta. destruct ix; [rewrite key_sort_perm|]; by intros [_ ?]%list_elem_of_filter.
Qed.

Section with_calls.
Context {F : Type} `{FileSys F} `{LZ4Lib} {T : Type}.
Implicit Types (d : DB F) (t : T).

Lemma with_db_eq {A} (m : M (DB F) A) d t : with_db m (d, t) = ((m d).1, ((m d).2, t)).
Proof. unfold with_db, zoom. cbn. by destruct (m d). Qed.
Lemma with_own_eq {A} (m : M T A) d t : with_own m (d, t) = ((m t).1, (d, (m t).2)).
Proof. unfold with_own, zoom. cbn. by destruct (m t). Qed.
Lemma with_db_ok {A} (m : M (DB F) A) d t a d' : m d = (Ok a, d') -> with_db m (d, t) = (Ok a, (d', t)).
Proof. intros Hm. by rewrite with_db_eq, Hm. Qed.
End with_calls.

Section reads.
Context {F : Type} `{FileLaws F} `{!FileReliable F} `{!PreadWhole F} `{LZ4Laws}.
Context (schema : Schema) (ct : CompressionType) (hdr : DBHeader) (sy : bytes).
#[local] Abbreviation pager_rep := (pager_rep schema ct hdr sy).
#[local] Abbreviation pager_ref := (pager_ref schema ct hdr sy).
#[local] Abbreviation db_core := (db_core schema ct hdr sy).
Implicit Types (d : DB F) (pg : Pager F) (pages : list (list Row)).

(** What a call that only reads leaves: the pages in the cache may be others. *)
Definition reads pages d d' : Prop :=
  exists pg', d' = db_set_pager pg' d /\ pager_rep pages pg' /\ pg_index pg' = pg_index (db_pager d).

Lemma reads_core pages d d' : reads pages d d' -> db_core pages d -> db_core pages d'.
Proof. intros (pg' & -> & Hrep & Hi) [Hl Hs Hp Hx Hn Ht]. split; try done. cbn. by rewrite Hi. Qed.

Lemma reads_frame pages d d' : reads pages d d' -> db_frame d d' /\ db_wal d' = db_wal d /\ db_indexes d' = db_indexes d.
Proof. by intros (pg' & -> & _). Qed.

Lemma reads_refl pages d : db_core pages d -> reads pages d d.
Proof. intros Hc. exists (db_pager d). split_and!; [by rewrite db_set_pager_id|apply Hc|done]. Qed.

Lemma reads_trans pages d1 d2 d3 : reads pages d1 d2 -> reads pages d2 d3 -> reads pages d1 d3.
Proof. intros (pg1 & -> & _ & Hi1) (pg2 & -> & Hr2 & Hi2). exists pg2. split_and!; [done|done|]. cbn in Hi2. congruence. Qed.

(** Loading a page to read it. *)
Lemma read_page_run pages d pid rows :
  db_core pages d -> page_rows pages pid = Some rows ->
  exists l p d', on_pager (get_page pid) d = (Ok l, d') /\ on_pager (page_at l) d' = (Ok p, d') /\
    page_rep schema rows p /\ reads pages d d'.
Proof.
  intros [Hl _ Hrep _ _ _] Hp. destruct (get_page_run schema ct hdr sy pages (db_pager d) pid rows Hrep Hp) as (l & pg' & Hrun & Href & Hi).
  destruct (page_at_run schema ct hdr sy pages pg' l pid rows Href Hp) as (p & Hpa & Hprep & _).
  exists l, p, (db_set_pager pg' d). split_and!; [by apply on_pager_ok|by apply on_pager_read|done|].
  exists pg'. split_and!; [done|by eapply pager_ref_rep|done].
Qed.

(** *** Lookup *)

(** [get_unlocked] finds the row with the id. *)
Lemma get_unlocked_run pages d id :
  db_core pages d ->
  exists d', get_unlocked id d = (match rows_map pages !! id with Some r => Ok r | None => Throw NotFoundError end, d') /\
    reads pages d d'.
Proof.
  intros Hc. pose proof Hc as [Hl Hs Hrep Hi Hn Ht]. unfold get_unlocked. rewrite (M_bind_ok get _ _ _ _ eq_refl).
  rewrite (M_bind_ok _ _ _ _ _ (db_find_run schema ct hdr sy pages d id Hc)).
  destruct (idx_map (pg_index (db_pager d)) !! id) as [e|] eqn:He.
  - destruct (entry_row pages _ id e Hi He) as (rows & n & r & Hp & Hslot & Hr & Hid).
    destruct (read_page_run pages d _ rows Hc Hp) as (l & p & d' & Hrun & Hpa & Hprep & Hreads).
    rewrite (M_bind_ok _ _ _ _ _ Hrun), (M_bind_ok _ _ _ _ _ Hpa). exists d'. split; [|done].
    unfold lift. rewrite Hslot, Hs, (get_row_rep _ _ _ _ _ Hprep Hr).
    rewrite (proj2 (rows_map_lookup pages id r Hn)); [done|]. split; [|done].
    apply elem_of_concat. exists rows. split; [by eapply list_elem_of_lookup_2|by eapply page_rows_elem].
  - exists d. split; [|by apply reads_refl]. assert (Hni : id ∉ row_ids pages).
    { rewrite <- (entry_ids pages _ id Hi), He. by intros [??]. }
    apply rows_map_None in Hni. by rewrite Hni.
Qed.

(** *** Scans *)

Section each_slot.
Context {T : Type} (body : Page -> Z -> M T unit) (f : Row -> M T unit) (pages : list (list Row)).
Context (Hbody : forall p rows (n : nat) r, page_rep schema rows p -> rows ∈ pages -> rows !! n = Some r ->
  forall t, body p (Z.of_nat n) t = f r t).

Lemma each_page_run d (t : T) pre rest :
  pages = pre ++ rest -> db_core pages d ->
  exists d', mfor (fun pid =>
      l ← with_db (on_pager (get_page pid));
      page ← with_db (on_pager (page_at l));
      with_own (mfor (body page) (zseq (p_row_count page)))) (seqZ (zlen pre) (zlen rest)) (d, t)
    = ((mfor f (concat rest) t).1, (d', (mfor f (concat rest) t).2)) /\ reads pages d d'.
Proof.
  revert d t pre. induction rest as [|rows rest IH]; intros d t pre Hpages Hc; [exists d; split; [done|by apply reads_refl]|].
  rewrite seqZ_cons_step by (cbn [length]; lia). cbn [mfor concat].
  assert (Hp : page_rows pages (zlen pre) = Some rows) by (rewrite page_rows_lookup, Hpages, lookup_app_r, Nat.sub_diag by lia; done).
  destruct (read_page_run pages d _ rows Hc Hp) as (l & p & d1 & Hrun & Hpa & Hprep & Hreads).
  assert (Hpage : (l ← with_db (on_pager (get_page (zlen pre))); page ← with_db (on_pager (page_at l));
      with_own (mfor (body page) (zseq (p_row_count page)))) (d, t) = ((mfor f rows t).1, (d1, (mfor f rows t).2))).
  { rewrite (M_bind_ok _ _ _ _ _ (with_db_ok _ d t _ _ Hrun)), (M_bind_ok _ _ _ _ _ (with_db_ok _ d1 t _ _ Hpa)).
    rewrite with_own_eq, (rep_count _ _ _ Hprep), (mfor_slots (body p) f rows t); [done|].
    intros n r Hr. apply (Hbody p rows); [done|by eapply page_rows_elem|done]. }
  unfold mbind at 1, M_bind at 1. rewrite Hpage, mfor_app. unfold mbind, M_bind.
  destruct (mfor f rows t) as [[[]|e|] t1]; cbn [fst snd]; [|exists d1; by split..].
  destruct (IH d1 t1 (pre ++ [rows])) as (d' & Hrest & Hreads'); [by rewrite <- app_assoc|by eapply reads_core|].
  exists d'. split; [|by eapply reads_trans]. rewrite <- Hrest, length_app. cbn [length]. f_equal. f_equal; lia.
Qed.

(** The two nested loops are one loop over the rows, stopped by the first exception. *)
Lemma each_slot_run d t :
  db_core pages d ->
  exists d', each_slot body (d, t) = ((mfor f (concat pages) t).1, (d', (mfor f (concat pages) t).2)) /\ reads pages d d'.
Proof.
  intros Hc. unfold each_slot. rewrite (M_bind_ok _ _ (d, t) (zlen pages) (d, t)).
  - apply (each_page_run d t [] pages eq_refl Hc).
  - apply with_db_ok, on_pager_read; [apply Hc|]. unfold page_count. rewrite (M_bind_ok get _ _ _ _ eq_refl).
    destruct (dc_pager _ _ _ _ _ _ Hc) as [Hn _]. by rewrite Hn.
Qed.
End each_slot.

(** On the bytes of a stored row the filter answers as on the row. *)
Lemma matches_raw_matches f r m1 m2 :
  NoDup (fd_name <$> fields schema) -> NoDup f.*1 -> row_ok schema r ->
  matches_raw f (m1 ++ encode_row r ++ m2) (zlen m1) schema = Ok (bool_decide (selected f schema r)).
Proof.
  intros Hn Hf (_ & Hv & _). destruct (matches_raw_sat f schema r m1 m2 Hf Hv) as (b & -> & Hb).
  destruct (matches_sat f schema r Hn Hv) as (b' & Hb' & Hs'). f_equal.
  apply Bool.eq_iff_eq_true. rewrite Hb, bool_decide_eq_true, <- Hs'. unfold selected. rewrite Hb'. split; [by intros ->|by intros [= ->]].
Qed.

Lemma visit_slot_run {T} f (visitor : Row -> M T unit) p rows (n : nat) r (t : T) :
  NoDup (fd_name <$> fields schema) -> NoDup f.*1 -> page_rep schema rows p -> rows !! n = Some r ->
  visit_slot schema f visitor p (Z.of_nat n) t = (if decide (selected f schema r) then visitor r else mret tt) t.
Proof.
  intros Hn Hf Hprep Hr. destruct (page_rep_slot _ _ _ _ _ Hprep Hr) as (m1 & m2 & Hd & Ho & _ & _ & Hok & _).
  unfold visit_slot, row_data_ptr. rewrite (M_bind_ok (lift _) _ t (zlen m1) t) by (unfold lift; by rewrite Ho).
  rewrite (M_bind_ok (lift _) _ t (bool_decide (selected f schema r)) t) by (unfold lift; by rewrite Hd, matches_raw_matches).
  destruct (decide (selected f schema r)); [rewrite bool_decide_eq_true_2 by done|by rewrite bool_decide_eq_false_2].
  cbn [negb]. rewrite (M_bind_ok (lift _) _ t r t) by (unfold lift; by rewrite (get_row_rep _ _ _ _ _ Hprep Hr)). done.
Qed.

Lemma scan_unlocked_run {T} pages d (t : T) f (visitor : Row -> M T unit) :
  db_core pages d -> NoDup (fd_name <$> fields schema) -> NoDup f.*1 ->
  let res := visit_selected f schema visitor (concat pages) t in
  exists d', scan_unlocked visitor f (d, t) = (res.1, (d', res.2)) /\ reads pages d d'.
Proof.
  intros Hc Hn Hf res. unfold scan_unlocked. rewrite (M_bind_ok _ _ (d, t) d (d, t)) by (by apply with_db_ok).
  rewrite (dc_schema _ _ _ _ _ _ Hc). unfold res, visit_selected. rewrite <- mfor_filter.
  apply each_slot_run; [|done]. intros p rows n r Hprep _ Hr t'. by apply (visit_slot_run f visitor p rows).
Qed.

(** A visitor that collects. *)
Lemma push_all (rows acc : list Row) : mfor push_back rows acc = (Ok tt, acc ++ rows).
Proof.
  revert acc. induction rows as [|r rows IH]; intros acc; cbn [mfor]; [by rewrite app_nil_r|].
  rewrite (M_bind_ok (push_back r) _ acc tt (acc ++ [r]) eq_refl), IH. by rewrite <- app_assoc.
Qed.

Lemma scan_all_run pages d f :
  db_core pages d -> db_open d = true -> NoDup (fd_name <$> fields schema) -> NoDup f.*1 ->
  exists d', scan_all f d = (Ok (filter (selected f schema) (concat pages)), d') /\ reads pages d d'.
Proof.
  intros Hc Ho Hn Hf. destruct (scan_unlocked_run pages d [] f push_back Hc Hn Hf) as (d' & Hrun & Hreads).
  exists d'. split; [|done]. unfold scan_all, with_local, scan.
  rewrite (M_bind_ok _ _ (d, []) d (d, [])) by (by apply with_db_ok). rewrite Ho. cbn [negb]. rewrite Hrun.
  unfold visit_selected. rewrite push_all. done.
Qed.

(** *** Secondary indexes *)

(** The loop of [create_index] builds the tree of the rows. *)
Lemma build_tree name fi fd rows done_ t :
  field_index schema name = Z.of_nat fi -> fields schema !! fi = Some fd ->
  tree_rep schema done_ name t -> NoDup (row_id <$> done_ ++ rows) -> Forall (row_ok schema) rows ->
  exists t', mfor (fun r => v ← lift (index_ (row_fields r) (Z.of_nat fi)); bpt_insert v (fd_type fd) (row_id r)) rows t = (Ok tt, t') /\
    tree_rep schema (done_ ++ rows) name t'.
Proof.
  intros Hfi Hfd. revert done_ t. induction rows as [|r rows IH]; intros done_ t Ht Hnd Hok; [exists t; by rewrite app_nil_r|].
  apply Forall_cons in Hok as [(Hid & Hv & Hsz) Hok]. assert (Hni : row_id r ∉ (row_id <$> done_)).
  { rewrite fmap_app, fmap_cons in Hnd. apply NoDup_app in Hnd as (_ & Hd & _). intros Hin. apply (Hd _ Hin). by left. }
  destruct (tree_insert schema done_ name t r Ht Hv Hni) as (fi' & fd' & v & t1 & Hfi' & Hfd' & Hvl & Hrun & Ht1).
  assert (fi' = fi) as -> by lia. assert (fd' = fd) as -> by congruence. cbn [mfor].
  rewrite (M_bind_ok _ _ t tt t1) by (rewrite (M_bind_ok (lift _) _ t v t) by (unfold lift; by rewrite (index_lookup _ _ _ Hvl)); done).
  destruct (IH (done_ ++ [r]) t1 Ht1) as (t' & Hrest & Ht'); [by rewrite <- app_assoc|done|]. exists t'. by rewrite <- app_assoc in Ht'.
Qed.

Lemma pages_rows_ok pages pg : pager_rep pages pg -> Forall (row_ok schema) (concat pages).
Proof.
  intros Hrep. destruct (pager_storable schema ct hdr sy pages pg Hrep) as [Hst _]. apply Forall_concat.
  eapply Forall_impl; [exact Hst|]. by intros rows (Hr & _).
Qed.

(** [create_index] on a field that has no index yet. *)
Lemma create_index_run pages d name fi fd :
  db_core pages d -> field_index schema name = Z.of_nat fi -> fields schema !! fi = Some fd -> db_indexes d !! name = None ->
  exists d', create_index name d = (Ok tt, d') /\ db_core pages d' /\ db_wal d' = db_wal d /\ db_open d' = db_open d /\
    dom (db_indexes d') = {[name]} ∪ dom (db_indexes d).
Proof.
  intros Hc Hfi Hfd Hnone. pose proof Hc as [Hl Hs Hrep Hi Hn Ht]. unfold create_index. rewrite (M_bind_ok get _ _ _ _ eq_refl), Hs, Hfi. cbv zeta.
  rewrite bool_decide_eq_false_2 by lia. rewrite bool_decide_eq_false_2 by (rewrite Hnone; by intros [??]).
  rewrite (M_bind_ok (lift _) _ d fd d) by (unfold lift; by rewrite (index_lookup _ _ _ Hfd)).
  destruct (build_tree name fi fd (concat pages) [] [] Hfi Hfd) as (t & Hbuild & Htree);
    [by eapply tree_rep_new|exact Hn|by eapply pages_rows_ok|].
  destruct (each_slot_run (fun page slot => r ← lift (get_row page slot schema); v ← lift (index_ (row_fields r) (Z.of_nat fi));
      bpt_insert v (fd_type fd) (row_id r)) (fun r => v ← lift (index_ (row_fields r) (Z.of_nat fi)); bpt_insert v (fd_type fd) (row_id r))
      pages) with (d := d) (t := ([] : BPTree)) as (d1 & Hrun & Hreads); [|done|].
  { intros p rows n r Hprep _ Hr t'. by rewrite (M_bind_ok (lift _) _ t' r t') by (unfold lift; by rewrite (get_row_rep _ _ _ _ _ Hprep Hr)). }
  rewrite Hbuild in Hrun. rewrite (M_bind_ok (with_local _ _) _ d t d1) by (unfold with_local; by rewrite Hrun).
  pose proof (reads_core _ _ _ Hreads Hc) as Hc1. destruct (reads_frame _ _ _ Hreads) as ((Ho & _) & Hw & Hix).
  eexists. split; [reflexivity|]. split_and!; [|done|done|].
  - destruct Hc1 as [Hl1 Hs1 Hrep1 Hi1 Hn1 Ht1]. split; try done. cbn. apply map_Forall_insert_2; [exact Htree|done].
  - cbn. by rewrite dom_insert_L, Hix.
Qed.

(** *** Range scans without an index *)

Lemma compare_field_values_run a b ft ka kb :
  bptree_key_encode_vec a ft = Ok ka -> bptree_key_encode_vec b ft = Ok kb ->
  compare_field_values a b ft = Ok (comparison_sign (lex ka kb)).
Proof. intros Ha Hb. unfold compare_field_values. rewrite Ha, Hb. cbn [mbind outcome_bind]. by rewrite bptree_key_compare_lex. Qed.

Lemma in_bounds_run v ft lo li hi hii k lk hk :
  bptree_key_encode_vec v ft = Ok k -> encode_bound lo ft = Ok lk -> encode_bound hi ft = Ok hk ->
  in_bounds v ft lo li hi hii = Ok (above lk li k && below hk hii k).
Proof.
  intros Hk Hlo Hhi. unfold in_bounds, encode_bound in *.
  assert (Hlow : match lo with
    | None => Ok true
    | Some lo => c ← compare_field_values v lo ft; Ok (negb (bool_decide (c < 0) || bool_decide (c = 0) && negb li))
    end = Ok (above lk li k)).
  { destruct lo as [l|]; [|by injection Hlo as <-]. apply outcome_bind_inv in Hlo as (kl & Hkl & [= <-]).
    rewrite (compare_field_values_run v l ft k kl Hk Hkl). cbn [mbind outcome_bind above]. by destruct (lex k kl), li. }
  rewrite Hlow. cbn [mbind outcome_bind]. destruct (above lk li k); [|done]. cbn [negb andb].
  destruct hi as [h|]; [|by injection Hhi as <-]. apply outcome_bind_inv in Hhi as (kh & Hkh & [= <-]).
  rewrite (compare_field_values_run v h ft k kh Hk Hkh). cbn [mbind outcome_bind below]. by destruct (lex k kh), hii.
Qed.

Lemma bounds_visitor_run fi fd lo li hi hii lk hk r acc :
  fields schema !! fi = Some fd -> row_ok schema r -> encode_bound lo (fd_type fd) = Ok lk -> encode_bound hi (fd_type fd) = Ok hk ->
  bounds_visitor (Z.of_nat fi) (fd_type fd) lo li hi hii r acc =
    (if decide (key_in_range fd fi lk li hk hii r) then push_back r else mret tt) acc.
Proof.
  intros Hfd (_ & Hv & _) Hlo Hhi. destruct (row_key_typed schema fi fd r Hfd Hv) as (v & k & Hvl & Hk & Hrk).
  unfold bounds_visitor. rewrite (M_bind_ok (lift _) _ acc v acc) by (unfold lift; by rewrite (index_lookup _ _ _ Hvl)).
  rewrite (M_bind_ok (lift _) _ acc (above lk li k && below hk hii k) acc) by (unfold lift; by erewrite in_bounds_run).
  pose proof (key_in_range_key fd fi lk li hk hii r k Hrk) as Hd. rewrite <- andb_true_iff in Hd.
  destruct (above lk li k && below hk hii k); case_decide; try done; [|naive_solver]. naive_solver.
Qed.

Lemma range_scan_unindexed pages d name fi fd lo li hi hii lk hk :
  db_core pages d -> NoDup (fd_name <$> fields schema) -> field_index schema name = Z.of_nat fi -> fields schema !! fi = Some fd ->
  db_indexes d !! name = None -> encode_bound lo (fd_type fd) = Ok lk -> encode_bound hi (fd_type fd) = Ok hk ->
  exists d', index_range_scan name lo li hi hii d = (Ok (filter (key_in_range fd fi lk li hk hii) (concat pages)), d') /\ reads pages d d'.
Proof.
  intros Hc Hn Hfi Hfd Hnone Hlo Hhi. unfold index_range_scan. rewrite (M_bind_ok get _ _ _ _ eq_refl), (dc_schema _ _ _ _ _ _ Hc), Hfi. cbv zeta.
  rewrite bool_decide_eq_false_2 by lia. rewrite (M_bind_ok (lift _) _ d fd d) by (unfold lift; by rewrite (index_lookup _ _ _ Hfd)).
  rewrite Hnone. set (vis := bounds_visitor _ _ _ _ _ _).
  destruct (scan_unlocked_run pages d [] [] vis Hc Hn (NoDup_nil_2)) as (d' & Hrun & Hreads). exists d'. split; [|done].
  unfold with_local. rewrite Hrun. unfold visit_selected.
  assert (Hall : filter (selected [] schema) (concat pages) = concat pages) by (apply filter_all, Forall_forall; done).
  rewrite Hall. erewrite (mfor_ext vis (fun r => if decide (key_in_range fd fi lk li hk hii r) then push_back r else mret tt) _ (concat pages)).
  - rewrite mfor_filter, push_all. done.
  - pose proof (pages_rows_ok pages (db_pager d) (dc_pager _ _ _ _ _ _ Hc)) as Hok. apply Forall_Forall2_diag.
    eapply Forall_impl; [exact Hok|]. intros r Hr acc. by apply bounds_visitor_run.
Qed.

(** *** Range scans over an index *)

(** The place [(page, slot)] holds the row. *)
Definition placed pages (l : Z * Z) (r : Row) : Prop :=
  exists rows (n : nat), page_rows pages l.1 = Some rows /\ l.2 = Z.of_nat n /\ rows !! n = Some r.

Lemma locations_run pages d entries res :
  db_core pages d -> concat (ids <$> entries) = row_id <$> res -> Forall (fun r => r ∈ concat pages) res ->
  Forall2 (placed pages) (locations d entries) res.
Proof.
  intros Hc Hids Hin. pose proof Hc as [Hl Hs Hrep Hi Hn Ht]. unfold locations.
  set (f := fun id => en ← idx_find (pg_index (db_pager d)) id; Some (page_id en, row_slot en)).
  assert (Hloc : concat ((fun e => omap f (ids e)) <$> entries) = omap f (concat (ids <$> entries))).
  { clear. induction entries as [|e es IH]; [done|]. cbn [concat fmap list_fmap]. by rewrite omap_app, IH. }
  rewrite Hloc, Hids. clear Hloc Hids entries. induction Hin as [|r res Hr Hin IH]; [constructor|]. rewrite fmap_cons. cbn [omap list_omap].
  destruct (proj2 (entry_ids pages _ (row_id r) Hi)) as [e He]; [by apply list_elem_of_fmap_2|].
  destruct (entry_row pages _ _ e Hi He) as (rows & n & q & Hp & Hslot & Hq & Hid).
  assert (q = r) as ->.
  { apply (row_unique (concat pages)); [exact Hn|done| |done]. apply elem_of_concat. exists rows.
    split; [by eapply list_elem_of_lookup_2|by eapply page_rows_elem]. }
  assert (Hf : f (row_id r) = Some (page_id e, row_slot e)) by (unfold f; rewrite (idx_find_run _ _ (proj1 Hi)), He; done).
  rewrite Hf. constructor; [by exists rows, n|done].
Qed.

(** Grouping by page loses no place. *)
Lemma by_page_elem locs p (o : nat) s : (o, s) ∈ default [] (by_page locs !! p) <-> locs !! o = Some (p, s).
Proof.
  unfold by_page. set (step := fun (m : gmap Z (list (nat * Z))) (il : nat * (Z * Z)) => <[il.2.1 := default [] (m !! il.2.1) ++ [(il.1, il.2.2)]]> m).
  assert (Hgen : forall ils m, (o, s) ∈ default [] (foldl step m ils !! p) <-> (o, s) ∈ default [] (m !! p) \/ (o, (p, s)) ∈ ils).
  { induction ils as [|[i [q x]] ils IH]; intros m; cbn [foldl]; [by rewrite elem_of_nil; tauto|].
    rewrite IH, elem_of_cons. unfold step at 1. cbn. destruct (decide (q = p)) as [->|Hne].
    - rewrite lookup_insert_eq. cbn. rewrite elem_of_app, list_elem_of_singleton. split; [intros [[?|[= -> ->]]|?]|intros [?|[[= -> ->]|?]]]; tauto.
    - rewrite lookup_insert_ne by done. split; [tauto|]. intros [?|[[= -> -> ->]|?]]; tauto. }
  rewrite Hgen, lookup_empty. cbn. split.
  - intros [Hn|Hin]; [by apply elem_of_nil in Hn|]. apply list_elem_of_lookup in Hin as [j Hj].
    rewrite list_lookup_imap in Hj. apply fmap_Some in Hj as (l & Hl & [= -> ->]). done.
  - intros Hl. right. apply list_elem_of_lookup. exists o. by rewrite list_lookup_imap, Hl.
Qed.

(** ... and makes no empty group. *)
Lemma by_page_nonempty locs p : by_page locs !! p <> Some [].
Proof.
  unfold by_page. generalize (imap pair locs). intros ils.
  assert (Hne : forall m : gmap Z (list (nat * Z)), (forall q, m !! q <> Some []) ->
    foldl (fun m (il : nat * (Z * Z)) => <[il.2.1 := default [] (m !! il.2.1) ++ [(il.1, il.2.2)]]> m) m ils !! p <> Some []).
  { induction ils as [|il ils IH]; intros m Hm; cbn [foldl]; [apply Hm|]. apply IH. intros q.
    destruct (decide (q = il.2.1)) as [->|]; [rewrite lookup_insert_eq; intros [= Hx]; by apply app_nil in Hx as [_ ?]|by rewrite lookup_insert_ne]. }
  apply Hne. intros q. by rewrite lookup_empty.
Qed.

(** Every group comes from a place. *)
Lemma by_page_page locs p group : by_page locs !! p = Some group -> exists s, (p, s) ∈ locs.
Proof.
  intros Hg. destruct group as [|[o s] group]; [by apply by_page_nonempty in Hg|]. exists s.
  assert (Ho : (o, s) ∈ default [] (by_page locs !! p)) by (rewrite Hg; apply list_elem_of_here).
  apply by_page_elem in Ho. by eapply list_elem_of_lookup_2.
Qed.

(** Filling in some of the results. *)
Definition filled (res : list Row) (done_ : nat -> Prop) (acc : list Row) : Prop :=
  length acc = length res /\ forall o, done_ o -> acc !! o = res !! o.

Section fetch.
Context (pages : list (list Row)) (res : list Row).
Implicit Types (group : list (nat * Z)).

Definition in_group p group : Prop := Forall (fun os => exists r, res !! os.1 = Some r /\ placed pages (p, os.2) r) group.

Lemma fetch_group_run d p page rows group (done_ : nat -> Prop) acc :
  page_rows pages p = Some rows -> page_rep schema rows page -> in_group p group -> filled res done_ acc ->
  exists acc', mfor (fun os => r ← lift (get_row page os.2 schema); with_own (modify (<[os.1 := r]>))) group (d, acc)
      = (Ok tt, (d, acc')) /\ filled res (fun o => done_ o \/ o ∈ group.*1) acc'.
Proof.
  intros Hp Hprep Hg. revert done_ acc. induction Hg as [|[o s] group (r & Hr & rows' & n & Hp' & Hs & Hn) Hg IH]; intros done_ acc Hfill.
  - exists acc. split; [done|]. destruct Hfill as [Hlen Hd]. split; [done|]. intros o [?|Hn]; [by apply Hd|by apply elem_of_nil in Hn].
  - cbn [fst snd] in *. assert (rows' = rows) as -> by congruence. cbn [mfor].
    rewrite (M_bind_ok _ _ (d, acc) tt (d, <[o := r]> acc)).
    2: { cbn [fst snd]. rewrite (M_bind_ok (lift _) _ (d, acc) r (d, acc)) by (unfold lift; by rewrite Hs, (get_row_rep _ _ _ _ _ Hprep Hn)).
         by rewrite with_own_eq. }
    destruct (IH (fun x => done_ x \/ x = o) (<[o := r]> acc)) as (acc' & Hrun & Hf).
    { destruct Hfill as [Hlen Hd]. split; [by rewrite length_insert|]. intros x [Hx| ->].
      - destruct (decide (x = o)) as [->|Hne]; [|by rewrite list_lookup_insert_ne, Hd].
        rewrite list_lookup_insert_eq; [by rewrite Hr|]. rewrite Hlen. by apply lookup_lt_Some in Hr.
      - rewrite list_lookup_insert_eq; [by rewrite Hr|]. rewrite Hlen. by apply lookup_lt_Some in Hr. }
    exists acc'. split; [done|]. destruct Hf as [Hlen Hd]. split; [done|]. intros x Hx. apply Hd. rewrite fmap_cons, elem_of_cons in Hx. tauto.
Qed.

Lemma fetch_groups_run d groups (done_ : nat -> Prop) acc :
  db_core pages d -> Forall (fun g => is_Some (page_rows pages g.1) /\ in_group g.1 g.2) groups -> filled res done_ acc ->
  exists d' acc', mfor (fun pi =>
      l ← with_db (on_pager (get_page pi.1));
      page ← with_db (on_pager (page_at l));
      mfor (fun os => r ← lift (get_row page os.2 schema); with_own (modify (<[os.1 := r]>))) pi.2) groups (d, acc)
    = (Ok tt, (d', acc')) /\ reads pages d d' /\ filled res (fun o => done_ o \/ exists g, g ∈ groups /\ o ∈ g.2.*1) acc'.
Proof.
  intros Hc Hg. revert d done_ acc Hc. induction Hg as [|[p group] groups [[rows Hp] Hgr] Hg IH]; intros d done_ acc Hc Hfill; cbn [fst snd] in *.
  - exists d, acc. split_and!; [done|by apply reads_refl|]. destruct Hfill as [Hlen Hd]. split; [done|].
    intros o [?|(g & Hn & _)]; [by apply Hd|by apply elem_of_nil in Hn].
  - destruct (read_page_run pages d p rows Hc Hp) as (l & page & d1 & Hrun & Hpa & Hprep & Hreads). cbn [mfor].
    destruct (fetch_group_run d1 p page rows group done_ acc Hp Hprep Hgr Hfill) as (acc1 & Hgrun & Hfill1).
    rewrite (M_bind_ok _ _ (d, acc) tt (d1, acc1)).
    2: { cbn [fst snd]. rewrite (M_bind_ok _ _ _ _ _ (with_db_ok _ d acc _ _ Hrun)), (M_bind_ok _ _ _ _ _ (with_db_ok _ d1 acc _ _ Hpa)). done. }
    destruct (IH d1 (fun o => done_ o \/ o ∈ group.*1) acc1) as (d' & acc' & Hrest & Hreads' & Hlen & Hd); [by eapply reads_core|done|].
    exists d', acc'. split_and!; [done|by eapply reads_trans|]. split; [done|]. intros o [Ho|(g & [->|Hg']%elem_of_cons & Ho)]; apply Hd; [tauto|tauto|].
    right. by exists g.
Qed.

(** [fetch] fills in every row, in the order of the places. *)
Lemma fetch_run d locs init :
  db_core pages d -> Forall2 (placed pages) locs res -> length init = length locs ->
  exists d', fetch schema locs (d, init) = (Ok tt, (d', res)) /\ reads pages d d'.
Proof.
  intros Hc Hpl Hlen. pose proof (Forall2_length _ _ _ Hpl) as Hlr.
  assert (Hgrp : forall p o s, (o, s) ∈ default [] (by_page locs !! p) -> exists r, res !! o = Some r /\ placed pages (p, s) r).
  { intros p o s Ho%by_page_elem. apply (Forall2_lookup_l _ _ _ _ _ Hpl) in Ho as (r & ? & ?). by exists r. }
  destruct (fetch_groups_run d (map_to_list (by_page locs)) (fun _ => False) init Hc) as (d' & acc' & Hrun & Hreads & Hl & Hd).
  - apply Forall_forall. intros [p group] Hg%elem_of_map_to_list. cbn [fst snd].
    assert (Hin : in_group p group).
    { apply Forall_forall. intros [o s] Ho. apply Hgrp. by rewrite Hg. }
    split; [|done]. destruct (by_page_page _ _ _ Hg) as (s & [o Hs]%list_elem_of_lookup).
    destruct (Forall2_lookup_l _ _ _ _ _ Hpl Hs) as (r & _ & rows & n & Hp & _). by exists rows.
  - split; [lia|done].
  - exists d'. split; [|done]. unfold fetch. rewrite Hrun. do 3 f_equal. apply list_eq. intros o.
    destruct (decide (o < length res)%nat) as [Ho|Ho]; [|rewrite !lookup_ge_None_2 by lia; done].
    apply Hd. right. destruct (lookup_lt_is_Some_2 locs o) as [[p s] Hps]; [lia|]. pose proof Hps as Hbp%by_page_elem.
    destruct (by_page locs !! p) as [group|] eqn:Hg; [cbn in Hbp|by apply elem_of_nil in Hbp].
    exists (p, group). split; [by apply elem_of_map_to_list|]. by apply (list_elem_of_fmap_2 fst) in Hbp.
Qed.
End fetch.

(** A range scan that uses the tree. *)
Lemma range_scan_indexed pages d name fi fd lo li hi hii lk hk :
  db_core pages d -> field_index schema name = Z.of_nat fi -> fields schema !! fi = Some fd ->
  is_Some (db_indexes d !! name) -> encode_bound lo (fd_type fd) = Ok lk -> encode_bound hi (fd_type fd) = Ok hk ->
  exists d' res, index_range_scan name lo li hi hii d = (Ok res, d') /\ reads pages d d' /\
    key_ordered fd fi lk li hk hii (concat pages) res.
Proof.
  intros Hc Hfi Hfd [t Ht] Hlo Hhi. pose proof Hc as [Hl Hs Hrep Hi Hn Htr].
  destruct (Htr name t Ht) as [Hwf (fi' & fd' & Hfi' & Hfd' & Hmap)].
  assert (fi' = fi) as -> by lia. assert (fd' = fd) as -> by congruence.
  unfold index_range_scan. rewrite (M_bind_ok get _ _ _ _ eq_refl), Hs, Hfi. cbv zeta.
  rewrite bool_decide_eq_false_2 by lia. rewrite (M_bind_ok (lift _) _ d fd d) by (unfold lift; by rewrite (index_lookup _ _ _ Hfd)).
  rewrite Ht. set (es := filter (in_range lk li hk hii) t).
  rewrite (M_bind_ok (lift _) _ d es d) by (unfold lift; by rewrite (range_scan_run t lo _ li hi _ hii lk hk)).
  set (ks := key_data <$> es). set (res := with_keys fd fi ks (concat pages)).
  assert (Hes : forall e, e ∈ es <-> bpt_map t !! key_data e = Some (ids e) /\ above lk li (key_data e) = true /\ below hk hii (key_data e) = true).
  { intros e. unfold es. rewrite list_elem_of_filter, bpt_map_lookup by done. unfold in_range. tauto. }
  assert (Hids : concat (ids <$> es) = row_id <$> res).
  { unfold res, with_keys, ks. assert (Hall : Forall (fun e => ids e = row_id <$> with_key fd fi (key_data e) (concat pages)) es).
    { apply Forall_forall. intros e [He _]%Hes. rewrite <- Hmap, He. done. }
    clear -Hall. induction Hall as [|e es He Hes IH]; [done|]. cbn [fmap list_fmap concat]. by rewrite fmap_app, He, IH. }
  assert (Hin : Forall (fun r => r ∈ concat pages) res).
  { apply Forall_forall. intros r (l & Hr & Hlk)%elem_of_concat. apply list_elem_of_fmap in Hlk as (k & -> & _). by apply with_key_elem in Hr as [? _]. }
  pose proof (locations_run pages d es res Hc Hids Hin) as Hpl.
  destruct (fetch_run pages res d (locations d es) (replicate (length (locations d es)) (mkRow 0 [])) Hc Hpl) as (d' & Hf & Hreads);
    [by rewrite length_replicate|].
  exists d', res. split_and!; [|done|].
  - unfold with_local. by rewrite Hf.
  - apply with_keys_ordered.
    + apply (sv_sorted_filter key_data key_lt), Hwf.
    + intros k (e & -> & He%Hes)%list_elem_of_fmap. tauto.
    + intros k Ha Hb Hne. pose proof (Hmap k) as Hk. destruct (bpt_map t !! k) as [l|] eqn:El.
      * apply list_elem_of_fmap. exists (mkEntry k l). split; [done|]. by apply Hes.
      * destruct (with_key fd fi k (concat pages)); [done|by cbn in Hk].
Qed.

(** Every range scan with typed bounds. *)
Lemma index_range_scan_run pages d name lo li hi hii :
  db_core pages d -> NoDup (fd_name <$> fields schema) -> ~ field_index schema name < 0 -> bounds_typed schema name lo hi ->
  exists d', index_range_scan name lo li hi hii d =
      (Ok (range_rows schema name lo li hi hii (bool_decide (name ∈ dom (db_indexes d))) (concat pages)), d') /\ reads pages d d'.
Proof.
  intros Hc Hn Hpos Hty. destruct (field_index_nonneg schema name) as (fi & fd & Hfi & Hfd & _); [lia|].
  unfold bounds_typed, range_rows in *. rewrite Hfi, Nat2Z.id, Hfd in *.
  destruct (encode_bound lo (fd_type fd)) as [lk|e|] eqn:Hlo; [|done..]. destruct (encode_bound hi (fd_type fd)) as [hk|e|] eqn:Hhi; [|done..].
  cbv zeta. destruct (db_indexes d !! name) as [t|] eqn:Et.
  - rewrite bool_decide_eq_true_2 by (by apply elem_of_dom). destruct (range_scan_indexed pages d name fi fd lo li hi hii lk hk) as (d' & res & Hr & Hreads & Ho); try done.
    exists d'. by rewrite Hr, (key_ordered_sort _ _ _ _ _ _ _ _ Ho).
  - rewrite bool_decide_eq_false_2 by (by rewrite not_elem_of_dom). by apply (range_scan_unindexed pages d name fi fd).
Qed.
End reads.
