(* ===== verification/DbSession.v ===== *)
(** A session with the database ([src/db.cpp]): every public operation on rows, its
    checks included, against an ordered list of rows with distinct ids and a set of
    index names.  The log and the checkpoints are followed along, so that the
    records the log holds always rebuild the rows from the last checkpoint. *)
From S2P Require Import Prelude Types Serialise Page Std BPTree Index Posix Wal Compression Migrate Storage Cache Pager Filter Db DbSpec DbOps DbQuery.

(** ** The operations and what they promise *)

Inductive db_op :=
| DInsert (r : Row)
| DInsertBatch (rs : list Row)
| DUpdate (r : Row)
| DUpdateBatch (rs : list Row)
| DErase (id : Z)
| DEraseBatch (l : list Z)
| DGet (id : Z)
| DTryGet (id : Z)
| DScanAll (f : ScanFilter)
| DCreateIndex (name : bytes)
| DDropIndex (name : bytes)
| DHasIndex (name : bytes)
| DRangeScan (field : bytes) (lo : option FieldValue) (lo_inclusive : bool) (hi : option FieldValue) (hi_inclusive : bool)
| DStats
| DCheckpoint.

Inductive db_result :=
| RUnit
| RCount (n : Z)
| RRow (r : Row)
| RMaybe (o : option Row)
| RRows (l : list Row)
| RBool (b : bool)
| RStats (rows indexes version : Z).

(** The call; of the statistics, what the rows tell. *)
Definition db_run {F} `{FileSys F} `{LZ4Lib} (o : db_op) : M (DB F) db_result :=
  match o with
  | DInsert r => insert r ;; mret RUnit
  | DInsertBatch rs => n ← insert_batch rs; mret (RCount n)
  | DUpdate r => update r ;; mret RUnit
  | DUpdateBatch rs => n ← update_batch rs; mret (RCount n)
  | DErase id => erase id ;; mret RUnit
  | DEraseBatch l => n ← erase_batch l; mret (RCount n)
  | DGet id => r ← db_get id; mret (RRow r)
  | DTryGet id => r ← try_get id; mret (RMaybe r)
  | DScanAll f => l ← scan_all f; mret (RRows l)
  | DCreateIndex name => create_index name ;; mret RUnit
  | DDropIndex name => drop_index name ;; mret RUnit
  | DHasIndex name => b ← has_index name; mret (RBool b)
  | DRangeScan field lo li hi hii => l ← index_range_scan field lo li hi hii; mret (RRows l)
  | DStats => s ← db_stats; mret (RStats (s_row_count s) (s_index_count s) (s_schema_version s))
  | DCheckpoint => checkpoint ;; mret RUnit
  end.

(** *** Errors *)

Definition insert_error (schema : Schema) (l : list Z) (r : Row) : option exn :=
  if bool_decide (length (row_fields r) <> length (fields schema)) then Some XDLError
  else if bool_decide (row_id r ∈ l) then Some DuplicateKeyError
  else if bool_decide (row_ok schema r) then None else Some XDLError.

(** A batch of insertions fails as the first insertion of the sequence would. *)
Fixpoint insert_batch_error (schema : Schema) (l : list Z) (rs : list Row) : option exn :=
  match rs with
  | [] => None
  | r :: rs => match insert_error schema l r with
               | Some e => Some e
               | None => insert_batch_error schema (l ++ [row_id r]) rs
               end
  end.

Definition update_error (schema : Schema) (l : list Z) (r : Row) : option exn :=
  if bool_decide (row_id r ∉ l) then Some NotFoundError
  else if bool_decide (row_ok schema r) then None else Some XDLError.

(** In a batch of updates or deletions no id comes twice. *)
Fixpoint update_batch_error (schema : Schema) (l seen : list Z) (rs : list Row) : option exn :=
  match rs with
  | [] => None
  | r :: rs =>
      if bool_decide (length (row_fields r) <> length (fields schema)) then Some XDLError
      else if bool_decide (row_id r ∈ seen) then Some DuplicateKeyError
      else if bool_decide (row_id r ∉ l) then Some NotFoundError
      else if bool_decide (row_ok schema r) then update_batch_error schema l (row_id r :: seen) rs
      else Some XDLError
  end.

Fixpoint erase_batch_error (l seen es : list Z) : option exn :=
  match es with
  | [] => None
  | e :: es =>
      if bool_decide (e ∈ seen) then Some DuplicateKeyError
      else if bool_decide (e ∉ l) then Some NotFoundError
      else erase_batch_error l (e :: seen) es
  end.

Definition op_error (schema : Schema) (l : list Z) (o : db_op) : option exn :=
  match o with
  | DInsert r => insert_error schema l r
  | DInsertBatch rs => insert_batch_error schema l rs
  | DUpdate r => update_error schema l r
  | DUpdateBatch rs => update_batch_error schema l [] rs
  | DErase id => if bool_decide (id ∉ l) then Some NotFoundError else None
  | DEraseBatch es => erase_batch_error l [] es
  | DGet id => if bool_decide (id ∉ l) then Some NotFoundError else None
  | DCreateIndex name | DRangeScan name _ _ _ _ => if bool_decide (field_index schema name < 0) then Some XDLError else None
  | _ => None
  end.

(** *** Effects and results *)

Definition op_steps (o : db_op) : list row_step :=
  match o with
  | DInsert r => [SInsert r]
  | DInsertBatch rs => SInsert <$> rs
  | DUpdate r => [SErase (row_id r); SInsert r]
  | DUpdateBatch rs => concat ((fun r => [SErase (row_id r); SInsert r]) <$> rs)
  | DErase id => [SErase id]
  | DEraseBatch es => SErase <$> es
  | _ => []
  end.

(** A step on the rows in their order. *)
Definition step_rows (s : row_step) (rows : list Row) : list Row :=
  match s with SInsert r => rows ++ [r] | SErase id => filter (fun r => row_id r <> id) rows end.
Definition steps_rows (ms : list row_step) (rows : list Row) : list Row := foldl (fun rs s => step_rows s rs) rows ms.

Definition find_id (id : Z) (rows : list Row) : option Row := head (filter (fun r => row_id r = id) rows).

Definition op_value (schema : Schema) (o : db_op) (rows : list Row) (names : gset bytes) : db_result :=
  match o with
  | DInsert _ | DUpdate _ | DErase _ | DCreateIndex _ | DDropIndex _ | DCheckpoint => RUnit
  | DInsertBatch rs | DUpdateBatch rs => RCount (zlen rs)
  | DEraseBatch es => RCount (zlen es)
  | DGet id => match find_id id rows with Some r => RRow r | None => RUnit end
  | DTryGet id => RMaybe (find_id id rows)
  | DScanAll f => RRows (filter (selected f schema) rows)
  | DHasIndex name => RBool (bool_decide (name ∈ names))
  | DRangeScan field lo li hi hii => RRows (range_rows schema field lo li hi hii (bool_decide (field ∈ names)) rows)
  | DStats => RStats (zlen rows) (Z.of_nat (size names)) (ver schema)
  end.

Definition op_names (o : db_op) (names : gset bytes) : gset bytes :=
  match o with
  | DCreateIndex name => {[name]} ∪ names
  | DDropIndex name => names ∖ {[name]}
  | _ => names
  end.

(** An operation on the abstract database: an error changes nothing. *)
Definition op_spec (schema : Schema) (o : db_op) (st : list Row * gset bytes) : outcome db_result * (list Row * gset bytes) :=
  match op_error schema (row_id <$> st.1) o with
  | Some e => (Throw e, st)
  | None => (Ok (op_value schema o st.1 st.2), (steps_rows (op_steps o) st.1, op_names o st.2))
  end.

(** *** What fits *)

(** The page fits its slot when it is compressed. *)
Definition compressible `{LZ4Lib} (ct : CompressionType) (rows : list Row) : Prop :=
  match compress ct (encode_rows rows) with Ok blob => zlen blob <= PAGE_SIZE | _ => True end.
#[export] Instance compressible_dec `{LZ4Lib} ct rows : Decision (compressible ct rows).
Proof. unfold compressible. destruct (compress ct (encode_rows rows)); apply _. Defined.

Fixpoint steps_room `{LZ4Lib} (ct : CompressionType) (ms : list row_step) (pages : list (list Row)) : Prop :=
  match ms with
  | [] => True
  | s :: ms => zlen pages + 1 < 2 ^ 32 /\ Forall (compressible ct) (step_pages s pages) /\ steps_room ct ms (step_pages s pages)
  end.
#[export] Instance steps_room_dec `{LZ4Lib} ct ms pages : Decision (steps_room ct ms pages).
Proof. revert pages. induction ms; intros pages; cbn [steps_room]; apply _. Defined.

Definition step_size (s : row_step) : Z := match s with SInsert r => 21 + zlen (encode_row r) | SErase _ => 21 end.
Definition steps_size (ms : list row_step) : Z := foldr (fun s n => step_size s + n) 0 ms.

(** Values of their C++ types; one constraint per field, as the map of a filter has. *)
Definition row_wf (r : Row) : Prop := 0 <= row_id r < 2 ^ 32 /\ Forall value_wf (row_fields r).
Definition op_wf (o : db_op) : Prop :=
  match o with
  | DInsert r | DUpdate r => row_wf r
  | DInsertBatch rs | DUpdateBatch rs => Forall row_wf rs
  | DScanAll f => NoDup f.*1
  | _ => True
  end.
#[export] Instance row_wf_dec r : Decision (row_wf r).
Proof. unfold row_wf. apply _. Defined.
#[export] Instance op_wf_dec o : Decision (op_wf o).
Proof. destruct o; cbn [op_wf]; apply _. Defined.

(** A range scan gets bounds of the field's type. *)
Definition op_typed (schema : Schema) (o : db_op) : Prop :=
  match o with DRangeScan field lo _ hi _ => bounds_typed schema field lo hi | _ => True end.
#[export] Instance op_typed_dec schema o : Decision (op_typed schema o).
Proof. destruct o; cbn [op_typed]; apply _. Defined.

(** The pages and the size of the log after an operation. *)
Definition op_pages (schema : Schema) (o : db_op) (pages : list (list Row)) : list (list Row) :=
  match op_error schema (row_ids pages) o with Some _ => pages | None => steps_pages (op_steps o) pages end.
Definition op_log (schema : Schema) (o : db_op) (pages : list (list Row)) (n : Z) : Z :=
  match op_error schema (row_ids pages) o, o with
  | Some _, _ => n
  | None, DCheckpoint => zlen wal_header
  | None, _ => n + steps_size (op_steps o)
  end.

Definition op_room `{LZ4Lib} (schema : Schema) (ct : CompressionType) (o : db_op) (pages : list (list Row)) (n : Z) : Prop :=
  op_wf o /\
  match op_error schema (row_ids pages) o with
  | Some _ => True
  | None => op_typed schema o /\ steps_room ct (op_steps o) pages /\ n + steps_size (op_steps o) < 2 ^ 63
  end.
#[export] Instance op_room_dec `{LZ4Lib} schema ct o pages n : Decision (op_room schema ct o pages n).
Proof. unfold op_room. destruct (op_error _ _ o); apply _. Defined.

Fixpoint ops_room `{LZ4Lib} (schema : Schema) (ct : CompressionType) (ops : list db_op) (pages : list (list Row)) (n : Z) : Prop :=
  match ops with
  | [] => True
  | o :: ops => op_room schema ct o pages n /\ ops_room schema ct ops (op_pages schema o pages) (op_log schema o pages n)
  end.
#[export] Instance ops_room_dec `{LZ4Lib} schema ct ops pages n : Decision (ops_room schema ct ops pages n).
Proof. revert pages n. induction ops; intros pages n; cbn [ops_room]; apply _. Defined.

Fixpoint spec_results (schema : Schema) (ops : list db_op) (st : list Row * gset bytes) : list (outcome db_result) :=
  match ops with
  | [] => []
  | o :: ops => (op_spec schema o st).1 :: spec_results schema ops (op_spec schema o st).2
  end.

(** ** The state of a session *)

(** What has happened since the last checkpoint, which the state does not tell. *)
Record history := mkHistory {
  g_hdr : DBHeader;             (* the file header at the checkpoint *)
  g_sy : bytes;                 (* the bytes of the file that survive a crash *)
  g_base : list (list Row);     (* the pages at the checkpoint *)
  g_steps : list row_step;
  g_recs : list WALRecord;      (* the records of the log *)
}.

Record db_rep {F} `{FileSys F} `{LZ4Lib} (schema : Schema) (ct : CompressionType) (g : history) (pages : list (list Row))
    (d : DB F) : Prop := {
  rp_core : db_core schema ct (g_hdr g) (g_sy g) pages d;
  rp_open : db_open d = true;
  rp_hdr : db_header_ok (g_hdr g);
  rp_wal : wal_durable (db_wal d) (g_recs g);
  rp_log : Forall2 logs (g_steps g) (g_recs g);
  rp_pages : pages = replays (g_steps g) (g_base g);
  rp_steps : replays_ok schema ct (g_steps g) (g_base g);
  rp_base : NoDup (row_ids (g_base g));
  rp_base_ok : Forall (storable schema ct) (g_base g) /\ zlen (g_base g) < 2 ^ 32;
  rp_names : NoDup (fd_name <$> fields schema);
}.

(** The checkpointed pages are safe in the file. *)
Definition saved `{LZ4Lib} (schema : Schema) (g : history) : Prop := on_disk schema (g_hdr g) (g_base g) (g_sy g).

(** ** Lemmas: which steps an operation takes *)

Definition step_legal (schema : Schema) (s : row_step) (X : gset Z) : Prop :=
  match s with SInsert r => row_ok schema r /\ row_id r ∉ X | SErase id => id ∈ X end.
Definition step_ids (s : row_step) (X : gset Z) : gset Z :=
  match s with SInsert r => X ∪ {[row_id r]} | SErase id => X ∖ {[id]} end.
Fixpoint steps_legal (schema : Schema) (ms : list row_step) (X : gset Z) : Prop :=
  match ms with
  | [] => True
  | s :: ms => step_legal schema s X /\ steps_legal schema ms (step_ids s X)
  end.

Lemma steps_legal_app schema ms1 ms2 X :
  steps_legal schema ms1 X -> steps_legal schema ms2 (foldl (fun X s => step_ids s X) X ms1) -> steps_legal schema (ms1 ++ ms2) X.
Proof. revert X. induction ms1 as [|s ms1 IH]; intros X; [done|]. intros [Hs H1] H2. by split; [|apply IH]. Qed.

(** The set of the ids, from what a test of an id answers. *)
Lemma ids_step s pages X :
  (forall x, x ∈ X <-> x ∈ row_ids pages) -> forall x, x ∈ step_ids s X <-> x ∈ row_ids (step_pages s pages).
Proof.
  intros HX x. destruct s as [r|id]; cbn [step_ids step_pages].
  - rewrite row_ids_insert, elem_of_union, elem_of_singleton, elem_of_app, list_elem_of_singleton. by rewrite HX.
  - rewrite row_ids_erase, elem_of_difference, elem_of_singleton. by rewrite HX.
Qed.

Section legal.
Context (schema : Schema).

Lemma insert_batch_legal rs l X :
  insert_batch_error schema l rs = None -> (forall x, x ∈ X <-> x ∈ l) -> steps_legal schema (SInsert <$> rs) X.
Proof.
  revert l X. induction rs as [|r rs IH]; intros l X He HX; [done|]. cbn [insert_batch_error] in He.
  destruct (insert_error schema l r) as [e|] eqn:E; [done|]. unfold insert_error in E.
  case_bool_decide; [done|]. case_bool_decide as Hin; [done|]. case_bool_decide as Hok; [|done].
  split; [split; [done|by rewrite HX]|]. apply (IH (l ++ [row_id r])); [done|]. intros x. cbn [step_ids].
  rewrite elem_of_union, elem_of_singleton, elem_of_app, list_elem_of_singleton. by rewrite HX.
Qed.

Lemma update_batch_legal rs l seen X :
  update_batch_error schema l seen rs = None -> (forall x, x ∈ X <-> x ∈ l) ->
  steps_legal schema (concat ((fun r => [SErase (row_id r); SInsert r]) <$> rs)) X.
Proof.
  revert seen X. induction rs as [|r rs IH]; intros seen X He HX; [done|]. cbn [update_batch_error] in He.
  case_bool_decide; [done|]. case_bool_decide; [done|]. case_bool_decide as Hin; [done|].
  case_bool_decide as Hok; [|done]. cbn [fmap list_fmap concat app steps_legal step_legal step_ids].
  split_and!; [by apply HX|done|set_solver|]. eapply IH; [exact He|]. intros x. rewrite <- HX. apply HX in Hin. 
  destruct (decide (x = row_id r)); set_solver.
Qed.

Lemma erase_batch_legal es l seen X :
  erase_batch_error l seen es = None -> (forall x, x ∈ l /\ x ∉ seen -> x ∈ X) -> steps_legal schema (SErase <$> es) X.
Proof.
  revert seen X. induction es as [|e es IH]; intros seen X He HX; [done|]. cbn [erase_batch_error] in He.
  case_bool_decide; [done|]. case_bool_decide as Hin; [done|].
  split; [by apply HX|]. eapply IH; [exact He|]. intros x [Hl Hs]. apply not_elem_of_cons in Hs as [Hne Hs]. cbn [step_ids].
  apply elem_of_difference. split; [by apply HX|]. by rewrite elem_of_singleton.
Qed.

(** An operation that passes its checks takes legal steps. *)
Lemma op_legal o l X : op_error schema l o = None -> (forall x, x ∈ X <-> x ∈ l) -> steps_legal schema (op_steps o) X.
Proof.
  intros He HX. destruct o as [r|rs|r|rs|id|es|id|id|f|n|n|n|n ? ? ? ?| |]; cbn [op_steps op_error] in *; try done.
  - apply (insert_batch_legal [r] l X); [|done]. cbn [insert_batch_error]. by rewrite He.
  - by eapply insert_batch_legal.
  - unfold update_error in He. case_bool_decide as Hin; [done|]. case_bool_decide as Hok; [|done].
    cbn [steps_legal step_legal step_ids]. split_and!; [by apply HX|done|set_solver|done].
  - by eapply update_batch_legal.
  - case_bool_decide as Hin; [done|]. split; [by apply HX|done].
  - eapply erase_batch_legal; [exact He|]. intros x [Hx _]. by apply HX.
Qed.
End legal.

(** *** Legal steps that fit are allowed *)

Section room.
Context `{LZ4Lib} (schema : Schema) (ct : CompressionType).

Lemma storable_compressible rows :
  storable schema ct rows <-> Forall (row_ok schema) rows /\ zlen (encode_rows rows) <= PAGE_SIZE /\ compressible ct rows.
Proof.
  unfold storable, compressible. destruct (compress ct (encode_rows rows)) as [b| |]; naive_solver.
Qed.

Lemma encode_rows_filter (P : Row -> Prop) `{!forall r, Decision (P r)} rows : zlen (encode_rows (filter P rows)) <= zlen (encode_rows rows).
Proof.
  induction rows as [|r rows IH]; [done|]. rewrite filter_cons. case_decide; rewrite ?encode_rows_cons, ?length_app; lia.
Qed.

(** Legal steps keep the pages within a page's size. *)
Lemma step_sizes s pages X :
  step_legal schema s X -> Forall (storable schema ct) pages ->
  Forall (fun rows => Forall (row_ok schema) rows /\ zlen (encode_rows rows) <= PAGE_SIZE) (step_pages s pages).
Proof.
  intros Hs Hst. destruct s as [r|id]; cbn [step_pages] in *.
  - destruct Hs as [Hok _]. unfold pages_insert. destruct (target r pages) as [init rows] eqn:Ht.
    apply target_split in Ht as [(-> & -> & _)|(-> & _ & Hfit)].
    + apply Forall_app. split; [eapply Forall_impl; [exact Hst|]; by intros x (? & ? & _)|]. apply Forall_singleton.
      destruct Hok as (? & ? & Hsz). split; [by apply Forall_singleton|].
      cbn [app]. rewrite encode_rows_cons, length_app. change (encode_rows []) with (@nil byte). cbn [length]. lia.
    + apply Forall_app in Hst as [Hi Hr]. apply Forall_singleton in Hr as (Hr & _ & _). apply Forall_app.
      split; [eapply Forall_impl; [exact Hi|]; by intros x (? & ? & _)|]. apply Forall_singleton. split.
      * apply Forall_app. split; [done|]. by apply Forall_singleton.
      * rewrite encode_rows_app, length_app, (encode_rows_cons r []), length_app. change (encode_rows []) with (@nil byte). cbn [length]. lia.
  - unfold pages_erase. apply Forall_fmap. eapply Forall_impl; [exact Hst|]. intros rows (Hr & Hl & _). cbn.
    pose proof (encode_rows_filter (fun r => row_id r <> id) rows). split; [|lia].
    apply Forall_forall. intros q [_ Hq]%list_elem_of_filter. by apply (proj1 (Forall_forall _ _) Hr).
Qed.

Lemma step_ok_room s pages X :
  (forall x, x ∈ X <-> x ∈ row_ids pages) -> step_legal schema s X -> Forall (storable schema ct) pages ->
  zlen pages + 1 < 2 ^ 32 -> Forall (compressible ct) (step_pages s pages) -> step_ok schema ct s pages.
Proof.
  intros HX Hs Hst Hlt Hc. split.
  { destruct s as [r|id]; cbn in Hs; [|by apply HX]. destruct Hs as [Hok Hni]. by rewrite HX in Hni. }
  pose proof (step_sizes s pages X Hs Hst) as Hsz.
  assert (Hboth : Forall (fun rows => (Forall (row_ok schema) rows /\ zlen (encode_rows rows) <= PAGE_SIZE) /\ compressible ct rows) (step_pages s pages))
    by (by apply Forall_and).
  eapply Forall_impl; [exact Hboth|]. intros rows [[? ?] ?]. by apply storable_compressible.
Qed.

Lemma steps_ok_room ms pages X :
  (forall x, x ∈ X <-> x ∈ row_ids pages) -> steps_legal schema ms X -> Forall (storable schema ct) pages ->
  steps_room ct ms pages -> steps_ok schema ct ms pages.
Proof.
  revert pages X. induction ms as [|s ms IH]; intros pages X HX Hl Hst Hroom; [done|].
  destruct Hl as [Hs Hl]. destruct Hroom as (Hlt & Hc & Hroom).
  pose proof (step_ok_room s pages X HX Hs Hst Hlt Hc) as Hok. split; [done|].
  eapply IH; [by apply ids_step|done|apply Hok|done].
Qed.
End room.

Lemma concat_step s pages : concat (step_pages s pages) = step_rows s (concat pages).
Proof. destruct s; [apply concat_insert|apply concat_erase]. Qed.

Lemma concat_steps ms pages : concat (steps_pages ms pages) = steps_rows ms (concat pages).
Proof.
  revert pages. induction ms as [|s ms IH]; intros pages; [done|]. unfold steps_pages, steps_rows in *. cbn [foldl].
  by rewrite IH, concat_step.
Qed.

(** *** The checks *)

(** Decide [P] wherever it is tested. *)
Ltac bdec P H := destruct (decide P) as [H|H]; [rewrite ?(bool_decide_eq_true_2 P H)|rewrite ?(bool_decide_eq_false_2 P H)].

Section checks.
Context {F : Type} `{FileLaws F} `{LZ4Laws} (schema : Schema) (d : DB F) (ids0 : list Z).
Context (Hsch : db_schema d = schema) (Hfields : zlen (fields schema) <= 1024).
Context (Hids : forall id, is_Some (idx_find (pg_index (db_pager d)) id) <-> id ∈ ids0).

Lemma row_ok_length' r : row_ok schema r -> length (row_fields r) = length (fields schema).
Proof. intros (_ & Hv & _). by apply Forall2_length in Hv. Qed.

Lemma check_arity_run r :
  check_arity r d = if bool_decide (length (row_fields r) <> length (fields schema)) then Throw XDLError else Ok tt.
Proof.
  unfold check_arity. rewrite Hsch. by rewrite (bool_decide_ext (zlen (row_fields r) <> zlen (fields schema))
    (length (row_fields r) <> length (fields schema))) by lia.
Qed.

Lemma check_size_run r :
  row_wf r -> length (row_fields r) = length (fields schema) ->
  check_size r d = if bool_decide (row_ok schema r) then Ok tt else Throw XDLError.
Proof.
  intros [Hid Hw] Hl. unfold check_size. rewrite Hsch. pose proof (serialised_row_size_run schema r Hfields Hl Hw) as Hs.
  destruct (decide (Forall2 value_ok (fields schema) (row_fields r))) as [Hv|Hv].
  - rewrite (bool_decide_eq_true_2 _ Hv) in Hs. destruct Hs as [-> _]. cbn [mbind outcome_bind].
    destruct (decide (zlen (encode_row r) > PAGE_SIZE)) as [Hsz|Hsz].
    + rewrite (bool_decide_eq_true_2 _ Hsz), bool_decide_eq_false_2; [done|]. intros (_ & _ & ?). lia.
    + rewrite (bool_decide_eq_false_2 _ Hsz), bool_decide_eq_true_2; [done|]. split_and!; [lia..|done|lia].
  - rewrite (bool_decide_eq_false_2 _ Hv) in Hs. rewrite Hs, bool_decide_eq_false_2; [done|]. by intros (_ & ? & _).
Qed.

(** An error that is thrown, or none. *)
Definition throws (e : option exn) : outcome unit := match e with Some e => Throw e | None => Ok tt end.

Lemma bool_decide_neg (P : Prop) `{!Decision P} : bool_decide (~ P) = negb (bool_decide P).
Proof. by repeat case_bool_decide. Qed.

Lemma idx_none id : bool_decide (idx_find (pg_index (db_pager d)) id = None) = bool_decide (id ∉ ids0).
Proof. apply bool_decide_ext. rewrite <- Hids. destruct (idx_find _ id); naive_solver. Qed.

Lemma check_insert_batch_run rs l seen :
  Forall row_wf rs -> (forall x, x ∈ l <-> x ∈ ids0 \/ x ∈ seen) ->
  check_insert_batch rs seen d = throws (insert_batch_error schema l rs).
Proof.
  intros Hw. revert l seen. induction Hw as [|r rs Hr Hw IH]; intros l seen Hl; [done|].
  cbn [check_insert_batch insert_batch_error]. unfold insert_error. rewrite check_arity_run.
  bdec (length (row_fields r) <> length (fields schema)) Hlen; [done|]. cbn [mbind outcome_bind].
  rewrite (bool_decide_ext (is_Some _ \/ row_id r ∈ seen) (row_id r ∈ l)) by (by rewrite Hl, Hids).
  bdec (row_id r ∈ l) Hin; [done|]. rewrite check_size_run by (done || lia). bdec (row_ok schema r) Hok; [|done].
  cbn [mbind outcome_bind]. apply IH. intros x. rewrite elem_of_app, list_elem_of_singleton, Hl. set_solver.
Qed.

Lemma check_update_batch_run rs l seen :
  Forall row_wf rs -> (forall x, x ∈ l <-> x ∈ seen) ->
  check_update_batch rs seen d = throws (update_batch_error schema ids0 l rs).
Proof.
  intros Hw. revert l seen. induction Hw as [|r rs Hr Hw IH]; intros l seen Hl; [done|].
  cbn [check_update_batch update_batch_error]. rewrite check_arity_run.
  bdec (length (row_fields r) <> length (fields schema)) Hlen; [done|]. cbn [mbind outcome_bind].
  rewrite (bool_decide_ext (row_id r ∈ seen) (row_id r ∈ l)) by (by rewrite Hl).
  bdec (row_id r ∈ l) Hin; [done|]. rewrite idx_none. bdec (row_id r ∉ ids0) Hni; [done|].
  rewrite check_size_run by (done || lia). bdec (row_ok schema r) Hok; [|done].
  cbn [mbind outcome_bind]. apply IH. intros x. rewrite elem_of_cons, Hl. set_solver.
Qed.

Lemma check_erase_batch_run es l seen :
  (forall x, x ∈ l <-> x ∈ seen) -> check_erase_batch es seen d = throws (erase_batch_error ids0 l es).
Proof.
  revert l seen. induction es as [|e es IH]; intros l seen Hl; [done|]. cbn [check_erase_batch erase_batch_error].
  rewrite (bool_decide_ext (e ∈ seen) (e ∈ l)) by (by rewrite Hl). bdec (e ∈ l) Hin; [done|].
  rewrite idx_none. bdec (e ∉ ids0) Hni; [done|]. apply IH. intros x. rewrite elem_of_cons, Hl. set_solver.
Qed.
End checks.

(** *** Sequences of steps *)

Section steps.
Context {F : Type} `{FileLaws F} `{!FileReliable F} `{!PreadWhole F} `{LZ4Laws}.
Context (schema : Schema) (ct : CompressionType) (hdr : DBHeader) (sy : bytes).
#[local] Abbreviation db_core := (db_core schema ct hdr sy).
Implicit Types (d : DB F) (pages : list (list Row)).

(** The steps have been taken, and their records are in the log. *)
Definition stepped pages d recs ms d' : Prop :=
  exists new, db_core (steps_pages ms pages) d' /\ db_frame d d' /\ Forall2 logs ms new /\
    wal_state (db_wal d') (recs ++ new).

Lemma logs_size ms new : Forall2 logs ms new -> forall recs, log_size wal_header (recs ++ new) = log_size wal_header recs + steps_size ms.
Proof.
  induction 1 as [|s rec ms new Hs _ IH]; intros recs; [rewrite app_nil_r; cbn; lia|].
  change (recs ++ rec :: new) with (recs ++ [rec] ++ new). rewrite app_assoc, IH, log_size_snoc. cbn [steps_size foldr]. fold (steps_size ms).
  destruct s; cbn [logs] in Hs; destruct Hs as (_ & _ & ->); cbn [step_size length]; lia.
Qed.

Lemma steps_size_app ms1 ms2 : steps_size (ms1 ++ ms2) = steps_size ms1 + steps_size ms2.
Proof. unfold steps_size. induction ms1 as [|s ms1 IH]; [done|]. cbn [app foldr]. lia. Qed.

Lemma steps_size_pos ms : 0 <= steps_size ms.
Proof. induction ms as [|s ms IH]; [done|]. cbn [steps_size foldr]. fold (steps_size ms). destruct s; cbn [step_size]; lia. Qed.

Lemma stepped_nil pages d recs : db_core pages d -> wal_state (db_wal d) recs -> stepped pages d recs [] d.
Proof. intros Hc Hw. exists []. rewrite app_nil_r. by split_and!. Qed.

(** A call that takes these steps wherever they are allowed. *)
Definition takes {A} (m : M (DB F) A) (ms : list row_step) (a : A) : Prop :=
  forall pages d recs, db_core pages d -> wal_state (db_wal d) recs -> steps_ok schema ct ms pages ->
    log_size wal_header recs + steps_size ms < 2 ^ 63 -> exists d', m d = (Ok a, d') /\ stepped pages d recs ms d'.

Lemma takes_ret {A} (a : A) : takes (mret a) [] a.
Proof. intros pages d recs Hc Hw _ _. exists d. split; [done|by apply stepped_nil]. Qed.

Lemma takes_bind {A B} (m : M (DB F) A) (k : A -> M (DB F) B) ms1 ms2 a b :
  takes m ms1 a -> takes (k a) ms2 b -> takes (m ≫= k) (ms1 ++ ms2) b.
Proof.
  intros H1' H2' pages d recs Hc Hw [Hok1 Hok2]%steps_ok_app Hsz. rewrite steps_size_app in Hsz. pose proof (steps_size_pos ms2).
  destruct (H1' pages d recs Hc Hw Hok1) as (d1 & Hr1 & new1 & Hc1 & Hf1 & Hl1 & Hw1); [lia|].
  destruct (H2' (steps_pages ms1 pages) d1 (recs ++ new1) Hc1 Hw1 Hok2) as (d2 & Hr2 & new2 & Hc2 & Hf2 & Hl2 & Hw2).
  { rewrite (logs_size ms1 new1 Hl1). lia. }
  exists d2. rewrite (M_bind_ok _ _ _ _ _ Hr1). split; [done|]. exists (new1 ++ new2). rewrite steps_pages_app, app_assoc.
  split_and!; [done|by etrans|by apply Forall2_app|done].
Qed.

Lemma takes_mfor {A} (body : A -> M (DB F) unit) (f : A -> list row_step) l :
  (forall x, takes (body x) (f x) tt) -> takes (mfor body l) (concat (f <$> l)) tt.
Proof.
  intros Hb. induction l as [|x l IH]; [apply takes_ret|]. cbn [mfor fmap list_fmap concat]. apply (takes_bind _ _ _ _ tt); [apply Hb|exact IH].
Qed.

Lemma takes_insert r : takes (insert_unlocked r false) [SInsert r] tt.
Proof.
  intros pages d recs Hc Hw [Hok _] Hsz. cbn [steps_size foldr step_size] in Hsz.
  destruct (insert_unlocked_run schema ct hdr sy pages d recs r false Hc Hw Hok) as (d' & rec & Hr & Hc' & Hf & Hl & _ & Hw' & _); [lia|].
  exists d'. split; [done|]. exists [rec]. split_and!; [done|done|by constructor; [|constructor]|done].
Qed.

Lemma takes_erase id : takes (erase_unlocked id) [SErase id] true.
Proof.
  intros pages d recs Hc Hw [Hok _] Hsz. cbn [steps_size foldr step_size] in Hsz.
  destruct (erase_unlocked_run schema ct hdr sy pages d recs id Hc Hw Hok) as (d' & rec & Hr & Hc' & Hf & Hl & _ & Hw'); [lia|].
  exists d'. split; [done|]. exists [rec]. split_and!; [done|done|by constructor; [|constructor]|done].
Qed.

Lemma takes_erase_all es n : takes (erase_all es n) (SErase <$> es) (n + zlen es).
Proof.
  revert n. induction es as [|e es IH]; intros n; cbn [erase_all fmap list_fmap].
  - cbn [length]. rewrite Z.add_0_r. apply takes_ret.
  - replace (n + zlen (e :: es)) with (n + 1 + zlen es) by (cbn [length]; lia).
    change (SErase e :: (SErase <$> es)) with ([SErase e] ++ (SErase <$> es)).
    apply (takes_bind _ _ _ _ true); [apply takes_erase|apply IH].
Qed.
End steps.

(** *** Statistics *)

Lemma index_size pages i : index_rep pages i -> NoDup (row_ids pages) -> idx_size i = zlen (concat pages).
Proof.
  intros Hi Hnd. pose proof (idx_for_each_perm i (proj1 Hi)) as Hp. apply Permutation_length in Hp.
  unfold idx_for_each in Hp. rewrite length_fmap, length_app, length_map_to_list in Hp.
  assert (Hd : dom (idx_map i) = list_to_set (row_ids pages)).
  { apply leibniz_equiv. intros id. rewrite elem_of_dom, elem_of_list_to_set. by apply entry_ids. }
  assert (Hs : size (dom (idx_map i)) = length (row_ids pages)) by (rewrite Hd; by apply size_list_to_set).
  rewrite size_dom in Hs. unfold row_ids in Hs. rewrite length_fmap in Hs. unfold idx_size. lia.
Qed.

Section stats.
Context {F : Type} `{FileLaws F} `{!FileReliable F} `{LZ4Laws}.
Implicit Types (d : DB F).

(** Calls on the storage engine. *)
Definition db_set_storage (s : Storage F) d : DB F := db_set_pager (pg_set_storage s (db_pager d)) d.

Lemma the_storage_ok {A} (m : M (Storage F) A) d a s' :
  m (pg_storage (db_pager d)) = (Ok a, s') -> the_storage m d = (Ok a, db_set_storage s' d).
Proof.
  intros Hm. unfold the_storage, the_pager.
  exact (zoom_ok db_pager db_set_pager _ d a _ (zoom_ok pg_storage pg_set_storage m (db_pager d) a s' Hm)).
Qed.

Lemma the_storage_read {A} (m : M (Storage F) A) d a :
  m (pg_storage (db_pager d)) = (Ok a, pg_storage (db_pager d)) -> the_storage m d = (Ok a, d).
Proof. intros Hm. rewrite (the_storage_ok _ _ _ _ Hm). by destruct d as [?????[] ????]. Qed.

Lemma storage_file_size_run s : storage_up s -> storage_file_size s = (Ok (zlen (f_content (st_file s))), s).
Proof.
  intros [Hfd _ _]. unfold storage_file_size. rewrite (M_bind_ok get _ _ _ _ eq_refl), Hfd. cbn [negb].
  destruct (fstat_ok (st_file s)) as [n Hn]. rewrite Hn. by rewrite (fstat_law _ _ Hn).
Qed.

Lemma pager_up schema ct hdr sy pages (pg : Pager F) : pager_rep schema ct hdr sy pages pg -> storage_up (pg_storage pg).
Proof. intros (_ & ps & D & _ & Hpool). exact (er_up _ _ _ _ _ _ (po_env _ _ _ _ _ _ _ _ Hpool)). Qed.
End stats.

(** *** The operations *)

Section ops.
Context {F : Type} `{FileLaws F} `{!FileReliable F} `{!PreadWhole F} `{LZ4Laws}.
Context (schema : Schema) (ct : CompressionType).
#[local] Abbreviation db_rep := (db_rep schema ct).
Implicit Types (d : DB F) (pages : list (list Row)) (g : history).

Section session.
Context g pages d (Hrep : db_rep g pages d).

Lemma rep_schema : db_schema d = schema.
Proof. apply (rp_core _ _ _ _ _ Hrep). Qed.

Lemma rep_fields : zlen (fields schema) <= 1024.
Proof. pose proof (pager_schema_ok schema ct _ _ pages _ (dc_pager _ _ _ _ _ _ (rp_core _ _ _ _ _ Hrep))) as (_ & [_ ?] & _). lia. Qed.

Lemma rep_found id : is_Some (idx_find (pg_index (db_pager d)) id) <-> id ∈ row_ids pages.
Proof.
  pose proof (dc_index _ _ _ _ _ _ (rp_core _ _ _ _ _ Hrep)) as Hi. rewrite idx_find_run by apply Hi. apply (entry_ids pages _ id Hi).
Qed.

Lemma rep_find id : exists o, db_find id d = (Ok o, d) /\ (is_Some o <-> id ∈ row_ids pages).
Proof. exists (idx_find (pg_index (db_pager d)) id). split; [done|apply rep_found]. Qed.

Lemma rep_wal_state : wal_state (db_wal d) (g_recs g).
Proof. apply wal_durable_state, (rp_wal _ _ _ _ _ Hrep). Qed.

Lemma rep_storable : Forall (storable schema ct) pages.
Proof. apply (pager_storable schema ct _ _ pages _ (dc_pager _ _ _ _ _ _ (rp_core _ _ _ _ _ Hrep))). Qed.

Lemma when_open_run {A} (m : M (DB F) A) : when_open m d = m d.
Proof. unfold when_open. rewrite (M_bind_ok get _ _ _ _ eq_refl). by rewrite (rp_open _ _ _ _ _ Hrep). Qed.

(** What the operation's room gives once its checks have passed. *)
Lemma rep_steps_ok o :
  op_error schema (row_ids pages) o = None -> op_room schema ct o pages (log_size wal_header (g_recs g)) ->
  steps_ok schema ct (op_steps o) pages /\ log_size wal_header (g_recs g) + steps_size (op_steps o) < 2 ^ 63.
Proof.
  intros He [_ Hroom]. rewrite He in Hroom. destruct Hroom as (_ & Hroom & Hsz). split; [|done].
  apply (steps_ok_room schema ct _ pages (list_to_set (row_ids pages))); [by intros; rewrite elem_of_list_to_set| |apply rep_storable|done].
  eapply op_legal; [exact He|]. intros. by rewrite elem_of_list_to_set.
Qed.

(** The session after steps whose records are safe. *)
Definition grown (new : list WALRecord) (ms : list row_step) : history :=
  mkHistory (g_hdr g) (g_sy g) (g_base g) (g_steps g ++ ms) (g_recs g ++ new).

Lemma rep_grown ms new d' :
  db_core schema ct (g_hdr g) (g_sy g) (steps_pages ms pages) d' -> db_frame d d' -> Forall2 logs ms new ->
  wal_durable (db_wal d') (g_recs g ++ new) -> steps_ok schema ct ms pages -> db_rep (grown new ms) (steps_pages ms pages) d'.
Proof.
  intros Hc (Ho & _) Hl Hw Hok. destruct Hrep as [_ Hop Hh _ Hlg Hp Hs Hb Hbo Hn].
  split; cbn [grown g_hdr g_sy g_base g_steps g_recs]; try done.
  - congruence.
  - by apply Forall2_app.
  - rewrite replays_app, <- Hp. symmetry. by apply (steps_replay schema ct).
  - apply replays_ok_app. split; [done|]. rewrite <- Hp. by apply steps_replay.
Qed.

(** How a session goes on after an operation. *)
Definition continues (o : db_op) d' : Prop :=
  exists g', db_rep g' (op_pages schema o pages) d' /\
    dom (db_indexes d') = (op_spec schema o (concat pages, dom (db_indexes d))).2.2 /\
    log_size wal_header (g_recs g') = op_log schema o pages (log_size wal_header (g_recs g)) /\
    (saved schema g \/ o = DCheckpoint -> saved schema g') /\
    (op_error schema (row_ids pages) o = None -> o <> DCheckpoint ->
       g_base g' = g_base g /\ g_steps g' = g_steps g ++ op_steps o).

(** A failed operation leaves the database as it was. *)
Lemma continues_error o e : op_error schema (row_ids pages) o = Some e -> continues o d.
Proof.
  intros He. exists g. unfold op_pages, op_log, op_spec. cbn [fst snd]. fold (row_ids pages). rewrite He. cbn [snd].
  split_and!; [done|done|done|by intros [?| ->]|done].
Qed.

(** Steps, then the sync that makes their records durable. *)
Lemma continues_sync o d1 :
  op_error schema (row_ids pages) o = None -> o <> DCheckpoint -> (forall X, op_names o X = X) ->
  op_room schema ct o pages (log_size wal_header (g_recs g)) ->
  stepped schema ct (g_hdr g) (g_sy g) pages d (g_recs g) (op_steps o) d1 ->
  exists d', the_wal wal_sync d1 = (Ok tt, d') /\ continues o d'.
Proof.
  intros He Hne Hnm Hroom (new & Hc & Hf & Hl & Hw). destruct (rep_steps_ok o He Hroom) as [Hok Hsz].
  destruct (wal_sync_run (db_wal d1) (g_recs g ++ new) Hw) as (w' & Hr & Hd); [by rewrite (logs_size _ _ Hl)|].
  exists (db_set_wal w' d1). split; [by apply the_wal_ok|]. exists (grown new (op_steps o)).
  unfold op_pages, op_log, op_spec. cbn [fst snd]. fold (row_ids pages). rewrite He. cbn [snd]. rewrite Hnm. split_and!.
  - apply rep_grown; try done. destruct Hc. split; done.
  - apply Hf.
  - cbn. rewrite (logs_size _ _ Hl). by destruct o.
  - intros [Hs| ->]; done.
  - done.
Qed.

(** A call that only reads. *)
Lemma rep_reads d' : reads schema ct (g_hdr g) (g_sy g) pages d d' -> db_rep g pages d'.
Proof.
  intros Hr. destruct (reads_frame _ _ _ _ _ _ _ Hr) as ((Ho & _) & Hw & Hi).
  destruct Hrep as [Hc Hop Hh Hwl Hlg Hp Hst Hb Hbo Hn]. split; try done; [by eapply reads_core|congruence|by rewrite Hw].
Qed.

Lemma continues_reads o d' :
  op_error schema (row_ids pages) o = None -> op_steps o = [] -> o <> DCheckpoint -> (forall X, op_names o X = X) ->
  reads schema ct (g_hdr g) (g_sy g) pages d d' -> continues o d'.
Proof.
  intros He Hs Hne Hnm Hr. exists g. unfold op_pages, op_log, op_spec. cbn [fst snd]. fold (row_ids pages). rewrite He, Hs. cbn [snd]. rewrite Hnm.
  split_and!.
  - by apply rep_reads.
  - by destruct (reads_frame _ _ _ _ _ _ _ Hr) as (_ & _ & ->).
  - destruct o; cbn; try done; lia.
  - by intros [?| ->].
  - by rewrite app_nil_r.
Qed.

(** *** One operation at a time *)

(** What an operation has to return. *)
Definition answer (o : db_op) d : outcome db_result := (op_spec schema o (concat pages, dom (db_indexes d))).1.

Lemma answer_error o e : op_error schema (row_ids pages) o = Some e -> answer o d = Throw e.
Proof. unfold answer, op_spec. cbn [fst snd]. fold (row_ids pages). by intros ->. Qed.

Lemma answer_ok o : op_error schema (row_ids pages) o = None -> answer o d = Ok (op_value schema o (concat pages) (dom (db_indexes d))).
Proof. unfold answer, op_spec. cbn [fst snd]. fold (row_ids pages). by intros ->. Qed.

(** A batch operation: check everything, take the steps, sync. *)
Lemma batch_run {A B} o (e : option exn) (m : M (DB F) A) (a : A) (k : A -> B) :
  op_error schema (row_ids pages) o = e -> o <> DCheckpoint -> (forall X, op_names o X = X) ->
  op_room schema ct o pages (log_size wal_header (g_recs g)) ->
  takes schema ct (g_hdr g) (g_sy g) m (op_steps o) a ->
  match e with
  | Some e => (lift (throws (Some e)) ;; a ← m; the_wal wal_sync ;; mret (k a)) d = (Throw e, d)
  | None => exists d', (lift (throws None) ;; a ← m; the_wal wal_sync ;; mret (k a)) d = (Ok (k a), d') /\ continues o d'
  end.
Proof.
  intros He Hne Hnm Hroom Ht. destruct e as [e|]; [done|]. destruct (rep_steps_ok o He Hroom) as [Hok Hsz].
  destruct (Ht pages d (g_recs g) (rp_core _ _ _ _ _ Hrep) rep_wal_state Hok Hsz) as (d1 & Hr & Hst).
  destruct (continues_sync o d1 He Hne Hnm Hroom Hst) as (d' & Hs & Hc). exists d'. split; [|done].
  rewrite (M_bind_ok (lift _) _ d tt d eq_refl), (M_bind_ok _ _ _ _ _ Hr), (M_bind_ok _ _ _ _ _ Hs). done.
Qed.

Definition correct o : Prop := exists d', db_run o d = (answer o d, d') /\ continues o d'.

Lemma insert_batch_correct rs : op_room schema ct (DInsertBatch rs) pages (log_size wal_header (g_recs g)) -> correct (DInsertBatch rs).
Proof.
  intros Hroom. unfold correct. cbn [db_run]. unfold insert_batch. destruct (decide (rs = [])) as [->|Hnil].
  { rewrite answer_ok by done. eexists. rewrite (M_bind_ok (when_open _) _ d 0 d) by (by rewrite when_open_run).
    split; [reflexivity|]. apply continues_reads; try done. apply reads_refl, Hrep. }
  unfold mbind at 1, M_bind at 1. rewrite when_open_run, bool_decide_eq_false_2 by done.
  rewrite (M_bind_ok get _ _ _ _ eq_refl).
  rewrite (check_insert_batch_run schema d (row_ids pages) rep_schema rep_fields rep_found rs (row_ids pages) ∅ (proj1 Hroom)) by set_solver.
  assert (Ht : takes schema ct (g_hdr g) (g_sy g) (mfor (fun row => insert_unlocked row false) rs) (op_steps (DInsertBatch rs)) tt).
  { cbn [op_steps]. replace (SInsert <$> rs) with (concat ((fun r => [SInsert r]) <$> rs)) by (clear; induction rs as [|r rs IH]; [done|]; cbn; by rewrite <- IH).
    apply takes_mfor, takes_insert. }
  pose proof (batch_run (DInsertBatch rs) _ _ tt (fun _ => zlen rs) eq_refl ltac:(done) ltac:(done) Hroom Ht) as Hb. cbn [op_error] in Hb.
  destruct (insert_batch_error schema (row_ids pages) rs) as [e|] eqn:He.
  - rewrite Hb. exists d. rewrite (answer_error (DInsertBatch rs) e He). split; [done|by eapply continues_error].
  - destruct Hb as (d' & -> & Hc). exists d'. by rewrite (answer_ok (DInsertBatch rs) He).
Qed.

Lemma update_batch_correct rs : op_room schema ct (DUpdateBatch rs) pages (log_size wal_header (g_recs g)) -> correct (DUpdateBatch rs).
Proof.
  intros Hroom. unfold correct. cbn [db_run]. unfold update_batch. destruct (decide (rs = [])) as [->|Hnil].
  { rewrite answer_ok by done. eexists. rewrite (M_bind_ok (when_open _) _ d 0 d) by (by rewrite when_open_run).
    split; [reflexivity|]. apply continues_reads; try done. apply reads_refl, Hrep. }
  unfold mbind at 1, M_bind at 1. rewrite when_open_run, bool_decide_eq_false_2 by done.
  rewrite (M_bind_ok get _ _ _ _ eq_refl).
  rewrite (check_update_batch_run schema d (row_ids pages) rep_schema rep_fields rep_found rs [] ∅ (proj1 Hroom)) by set_solver.
  assert (Ht : takes schema ct (g_hdr g) (g_sy g) (mfor (fun row => _ ← erase_unlocked (row_id row); insert_unlocked row false) rs)
                 (op_steps (DUpdateBatch rs)) tt).
  { apply takes_mfor. intros r. apply (takes_bind _ _ _ _ _ _ [SErase (row_id r)] [SInsert r] true tt); [apply takes_erase|apply takes_insert]. }
  pose proof (batch_run (DUpdateBatch rs) _ _ tt (fun _ => zlen rs) eq_refl ltac:(done) ltac:(done) Hroom Ht) as Hb. cbn [op_error] in Hb.
  destruct (update_batch_error schema (row_ids pages) [] rs) as [e|] eqn:He.
  - rewrite Hb. exists d. rewrite (answer_error (DUpdateBatch rs) e He). split; [done|by eapply continues_error].
  - destruct Hb as (d' & -> & Hc). exists d'. by rewrite (answer_ok (DUpdateBatch rs) He).
Qed.

Lemma erase_batch_correct es : op_room schema ct (DEraseBatch es) pages (log_size wal_header (g_recs g)) -> correct (DEraseBatch es).
Proof.
  intros Hroom. unfold correct. cbn [db_run]. unfold erase_batch. destruct (decide (es = [])) as [->|Hnil].
  { rewrite answer_ok by done. eexists. rewrite (M_bind_ok (when_open _) _ d 0 d) by (by rewrite when_open_run).
    split; [reflexivity|]. apply continues_reads; try done. apply reads_refl, Hrep. }
  unfold mbind at 1, M_bind at 1. rewrite when_open_run, bool_decide_eq_false_2 by done.
  rewrite (M_bind_ok get _ _ _ _ eq_refl).
  rewrite (check_erase_batch_run schema d (row_ids pages) rep_schema rep_fields rep_found es [] ∅) by set_solver.
  assert (Ht : takes schema ct (g_hdr g) (g_sy g) (erase_all es 0) (op_steps (DEraseBatch es)) (0 + zlen es)) by apply takes_erase_all.
  pose proof (batch_run (DEraseBatch es) _ _ (0 + zlen es) (fun n => n) eq_refl ltac:(done) ltac:(done) Hroom Ht) as Hb. cbn [op_error] in Hb.
  destruct (erase_batch_error (row_ids pages) [] es) as [e|] eqn:He.
  - rewrite Hb. exists d. rewrite (answer_error (DEraseBatch es) e He). split; [done|by eapply continues_error].
  - destruct Hb as (d' & -> & Hc). exists d'. by rewrite (answer_ok (DEraseBatch es) He).
Qed.

(** One insertion: the checks are inside. *)
Lemma insert_unlocked_error r b e :
  row_wf r -> insert_error schema (row_ids pages) r = Some e -> insert_unlocked r b d = (Throw e, d).
Proof.
  intros Hw He. unfold insert_error in He. unfold insert_unlocked. rewrite (M_bind_ok get _ _ _ _ eq_refl), rep_schema.
  bdec (length (row_fields r) <> length (fields schema)) Hlen.
  { rewrite bool_decide_eq_true_2 by lia. rewrite (bool_decide_eq_true_2 _ Hlen) in He. by injection He as <-. }
  rewrite (bool_decide_eq_false_2 _ Hlen) in He. rewrite bool_decide_eq_false_2 by lia.
  destruct (rep_find (row_id r)) as (o & Hf & Ho). rewrite (M_bind_ok _ _ _ _ _ Hf).
  destruct (decide (row_id r ∈ row_ids pages)) as [Hin|Hin].
  { rewrite (bool_decide_eq_true_2 _ Hin) in He. apply Ho in Hin as [x ->]. by injection He as <-. }
  rewrite (bool_decide_eq_false_2 _ Hin) in He. destruct o as [x|]; [destruct Hin; apply Ho; by exists x|].
  destruct (decide (row_ok schema r)) as [Hok|Hok]; [by rewrite (bool_decide_eq_true_2 _ Hok) in He|].
  rewrite (bool_decide_eq_false_2 _ Hok) in He. injection He as <-.
  apply M_bind_throw. unfold get_or_create_writable_page. rewrite (M_bind_ok get _ _ _ _ eq_refl), rep_schema.
  pose proof (serialised_row_size_run schema r rep_fields ltac:(lia) (proj2 Hw)) as Hs.
  destruct (decide (Forall2 value_ok (fields schema) (row_fields r))) as [Hv|Hv].
  - rewrite (bool_decide_eq_true_2 _ Hv) in Hs. destruct Hs as [Hs _]. rewrite (M_bind_ok (lift _) _ d (zlen (encode_row r)) d) by (unfold lift; by rewrite Hs).
    rewrite bool_decide_eq_true_2; [done|]. destruct Hw as [Hid _]. destruct (decide (zlen (encode_row r) > PAGE_SIZE)); [done|].
    destruct Hok. split_and!; [lia..|done|lia].
  - rewrite (bool_decide_eq_false_2 _ Hv) in Hs. apply M_bind_throw. unfold lift. by rewrite Hs.
Qed.

Lemma insert_correct r : op_room schema ct (DInsert r) pages (log_size wal_header (g_recs g)) -> correct (DInsert r).
Proof.
  intros Hroom. unfold correct. cbn [db_run]. unfold insert. destruct (op_error schema (row_ids pages) (DInsert r)) as [e|] eqn:He.
  - exists d. rewrite (answer_error _ e He). split; [|by eapply continues_error].
    apply M_bind_throw. rewrite when_open_run. by apply insert_unlocked_error; [apply Hroom|].
  - destruct (rep_steps_ok (DInsert r) He Hroom) as [[Hok _] Hsz]. cbn [op_steps steps_size foldr step_size] in Hok, Hsz.
    destruct (insert_unlocked_run schema ct (g_hdr g) (g_sy g) pages d (g_recs g) r true (rp_core _ _ _ _ _ Hrep) rep_wal_state Hok)
      as (d' & rec & Hr & Hc & Hf & Hl & _ & Hw & Hd); [lia|].
    exists d'. rewrite (answer_ok _ He), (M_bind_ok (when_open _) _ d tt d') by (by rewrite when_open_run). split; [done|].
    exists (grown [rec] (op_steps (DInsert r))). unfold op_pages, op_log, op_spec. cbn [fst snd]. fold (row_ids pages). rewrite He. cbn [snd].
    assert (Hl2 : Forall2 logs [SInsert r] [rec]) by (by constructor; [|constructor]). split_and!.
    + apply rep_grown; try done. by apply Hd.
    + apply Hf.
    + cbn [grown g_recs]. rewrite (logs_size _ _ Hl2). done.
    + intros [Hs| ?]; done.
    + done.
Qed.

Lemma erase_unlocked_absent id : id ∉ row_ids pages -> erase_unlocked id d = (Ok false, d).
Proof.
  intros Hni. unfold erase_unlocked. rewrite (M_bind_ok get _ _ _ _ eq_refl).
  destruct (rep_find id) as (o & Hf & Ho). rewrite (M_bind_ok _ _ _ _ _ Hf). destruct o; [destruct Hni; apply Ho; by eexists|done].
Qed.

(** The steps of one operation, then its sync. *)
Lemma single_run {A} o (m : M (DB F) A) (a : A) (k : A -> M (DB F) unit) :
  op_error schema (row_ids pages) o = None -> o <> DCheckpoint -> (forall X, op_names o X = X) ->
  op_value schema o (concat pages) (dom (db_indexes d)) = RUnit ->
  op_room schema ct o pages (log_size wal_header (g_recs g)) -> takes schema ct (g_hdr g) (g_sy g) m (op_steps o) a ->
  k a = the_wal wal_sync ->
  exists d', ((m ≫= k) ;; mret RUnit) d = (answer o d, d') /\ continues o d'.
Proof.
  intros He Hne Hnm Hv Hroom Ht Hk. destruct (rep_steps_ok o He Hroom) as [Hok Hsz].
  destruct (Ht pages d (g_recs g) (rp_core _ _ _ _ _ Hrep) rep_wal_state Hok Hsz) as (d1 & Hr & Hst).
  destruct (continues_sync o d1 He Hne Hnm Hroom Hst) as (d' & Hs & Hc). exists d'. split; [|done].
  rewrite (answer_ok o He), Hv. rewrite (M_bind_ok (m ≫= k) _ d tt d'); [done|]. by rewrite (M_bind_ok _ _ _ _ _ Hr), Hk.
Qed.

Lemma erase_correct id : op_room schema ct (DErase id) pages (log_size wal_header (g_recs g)) -> correct (DErase id).
Proof.
  intros Hroom. unfold correct. cbn [db_run]. unfold erase, mbind at 1, M_bind at 1. rewrite when_open_run.
  destruct (decide (id ∈ row_ids pages)) as [Hin|Hin].
  - assert (He : op_error schema (row_ids pages) (DErase id) = None) by (cbn; by rewrite bool_decide_eq_false_2 by tauto).
    apply (single_run (DErase id) (erase_unlocked id) true _ He); try done. apply takes_erase.
  - assert (He : op_error schema (row_ids pages) (DErase id) = Some NotFoundError) by (cbn; by rewrite bool_decide_eq_true_2).
    exists d. rewrite (answer_error _ _ He), (M_bind_ok _ _ _ _ _ (erase_unlocked_absent id Hin)).
    split; [done|by eapply continues_error].
Qed.

Lemma update_correct r : op_room schema ct (DUpdate r) pages (log_size wal_header (g_recs g)) -> correct (DUpdate r).
Proof.
  intros Hroom. unfold correct. cbn [db_run]. unfold update, mbind at 1, M_bind at 1. rewrite when_open_run.
  destruct (rep_find (row_id r)) as (o & Hf & Ho). rewrite (M_bind_ok _ _ _ _ _ Hf).
  destruct (decide (row_id r ∈ row_ids pages)) as [Hin|Hin].
  2: { assert (He : op_error schema (row_ids pages) (DUpdate r) = Some NotFoundError) by (cbn; unfold update_error; by rewrite bool_decide_eq_true_2).
       exists d. rewrite (answer_error _ _ He). destruct o; [destruct Hin; apply Ho; by eexists|]. split; [done|by eapply continues_error]. }
  destruct o as [x|]; [|apply Ho in Hin as [? [=]]]. rewrite bool_decide_eq_false_2 by done.
  rewrite (M_bind_ok get _ _ _ _ eq_refl). rewrite (check_arity_run schema d rep_schema).
  destruct (decide (row_ok schema r)) as [Hok|Hok].
  - assert (He : op_error schema (row_ids pages) (DUpdate r) = None)
      by (cbn; unfold update_error; by rewrite bool_decide_eq_false_2, bool_decide_eq_true_2 by tauto).
    pose proof (row_ok_length' schema r Hok) as Hlen. rewrite bool_decide_eq_false_2 by lia.
    rewrite (M_bind_ok (lift _) _ d tt d eq_refl). rewrite (check_size_run schema d rep_schema rep_fields r (proj1 Hroom) Hlen), bool_decide_eq_true_2 by done.
    rewrite (M_bind_ok (lift _) _ d tt d eq_refl).
    assert (Ht : takes schema ct (g_hdr g) (g_sy g) (ok ← erase_unlocked (row_id r); if negb ok then throw NotFoundError else insert_unlocked r false)
                   (op_steps (DUpdate r)) tt).
    { apply (takes_bind _ _ _ _ _ _ [SErase (row_id r)] [SInsert r] true tt); [apply takes_erase|apply takes_insert]. }
    destruct (single_run (DUpdate r) _ tt (fun _ => the_wal wal_sync) He ltac:(done) ltac:(done) eq_refl Hroom Ht eq_refl) as (d' & Hr & Hc).
    exists d'. split; [|done]. rewrite <- Hr. unfold mbind, M_bind. destruct (erase_unlocked (row_id r) d) as [[[]|e|] d1]; cbn [negb throw]; try done.
  - assert (He : op_error schema (row_ids pages) (DUpdate r) = Some XDLError)
      by (cbn; unfold update_error; by rewrite !bool_decide_eq_false_2 by tauto).
    exists d. rewrite (answer_error _ _ He). split; [|by eapply continues_error].
    bdec (length (row_fields r) <> length (fields schema)) Hlen; [done|].
    rewrite (M_bind_ok (lift _) _ d tt d eq_refl). by rewrite (check_size_run schema d rep_schema rep_fields r (proj1 Hroom)), bool_decide_eq_false_2 by (done || lia).
Qed.

(** Looking a row up is finding it in the list. *)
Lemma find_id_map id : find_id id (concat pages) = rows_map pages !! id.
Proof.
  pose proof (dc_ids _ _ _ _ _ _ (rp_core _ _ _ _ _ Hrep)) as Hn. unfold find_id.
  destruct (filter (fun r => row_id r = id) (concat pages)) as [|r l] eqn:E; cbn [head hd_error].
  - symmetry. apply rows_map_None. intros (r & Hid & Hr)%list_elem_of_fmap.
    assert (Hx : r ∈ filter (fun r => row_id r = id) (concat pages)) by (by apply list_elem_of_filter). rewrite E in Hx. by apply elem_of_nil in Hx.
  - symmetry. apply rows_map_lookup; [done|]. assert (Hx : r ∈ filter (fun r => row_id r = id) (concat pages)) by (rewrite E; by left).
    apply list_elem_of_filter in Hx. tauto.
Qed.

Lemma get_correct id : correct (DGet id).
Proof.
  unfold correct. cbn [db_run]. unfold db_get.
  destruct (get_unlocked_run schema ct (g_hdr g) (g_sy g) pages d id (rp_core _ _ _ _ _ Hrep)) as (d' & Hr & Hreads).
  unfold mbind at 1, M_bind at 1. rewrite when_open_run, Hr. exists d'.
  assert (He : op_error schema (row_ids pages) (DGet id) = if bool_decide (id ∉ row_ids pages) then Some NotFoundError else None) by done.
  destruct (rows_map pages !! id) as [r|] eqn:Em.
  - assert (Hin : id ∈ row_ids pages).
    { destruct (decide (id ∈ row_ids pages)) as [|Hni]; [done|]. apply rows_map_None in Hni. congruence. }
    rewrite bool_decide_eq_false_2 in He by tauto. rewrite (answer_ok _ He). cbn [op_value]. rewrite find_id_map, Em.
    split; [done|]. by apply continues_reads.
  - apply rows_map_None in Em. rewrite bool_decide_eq_true_2 in He by done. rewrite (answer_error _ _ He). split; [done|].
    exists g. unfold op_pages, op_log, op_spec. cbn [fst snd]. fold (row_ids pages). rewrite He. cbn [snd].
    destruct (reads_frame _ _ _ _ _ _ _ Hreads) as (_ & _ & Hi). rewrite Hi. split_and!; [by apply rep_reads|done|done|by intros [?|?]|done].
Qed.

Lemma try_get_correct id : correct (DTryGet id).
Proof.
  unfold correct. cbn [db_run]. unfold try_get.
  destruct (get_unlocked_run schema ct (g_hdr g) (g_sy g) pages d id (rp_core _ _ _ _ _ Hrep)) as (d' & Hr & Hreads).
  unfold mbind at 1, M_bind at 1. rewrite when_open_run. unfold catch, mbind at 1, M_bind at 1. rewrite Hr. exists d'.
  rewrite (answer_ok (DTryGet id) eq_refl). cbn [op_value]. rewrite find_id_map. split; [by destruct (rows_map pages !! id)|].
  by apply continues_reads.
Qed.

Lemma scan_all_correct f : op_room schema ct (DScanAll f) pages (log_size wal_header (g_recs g)) -> correct (DScanAll f).
Proof.
  intros [Hf _]. unfold correct. cbn [db_run].
  destruct (scan_all_run schema ct (g_hdr g) (g_sy g) pages d f (rp_core _ _ _ _ _ Hrep) (rp_open _ _ _ _ _ Hrep) (rp_names _ _ _ _ _ Hrep) Hf)
    as (d' & Hr & Hreads).
  exists d'. rewrite (answer_ok (DScanAll f) eq_refl), (M_bind_ok _ _ _ _ _ Hr). split; [done|]. by apply continues_reads.
Qed.

Lemma range_scan_correct field lo li hi hii :
  op_room schema ct (DRangeScan field lo li hi hii) pages (log_size wal_header (g_recs g)) -> correct (DRangeScan field lo li hi hii).
Proof.
  intros [_ Hroom]. unfold correct. cbn [db_run op_error] in *. case_bool_decide as Hneg.
  - assert (He : op_error schema (row_ids pages) (DRangeScan field lo li hi hii) = Some XDLError) by (cbn; by rewrite bool_decide_eq_true_2).
    exists d. rewrite (answer_error _ _ He). split; [|by eapply continues_error].
    apply M_bind_throw. unfold index_range_scan. rewrite (M_bind_ok get _ _ _ _ eq_refl), rep_schema. cbv zeta. by rewrite bool_decide_eq_true_2.
  - assert (He : op_error schema (row_ids pages) (DRangeScan field lo li hi hii) = None) by (cbn; by rewrite bool_decide_eq_false_2).
    destruct (index_range_scan_run schema ct (g_hdr g) (g_sy g) pages d field lo li hi hii (rp_core _ _ _ _ _ Hrep) (rp_names _ _ _ _ _ Hrep) Hneg (proj1 Hroom))
      as (d' & Hr & Hreads).
    exists d'. rewrite (answer_ok _ He), (M_bind_ok _ _ _ _ _ Hr). split; [done|]. by apply continues_reads.
Qed.

(** A change to the indexes alone. *)
Lemma continues_indexes o d' :
  op_error schema (row_ids pages) o = None -> op_steps o = [] -> o <> DCheckpoint ->
  db_core schema ct (g_hdr g) (g_sy g) pages d' -> db_wal d' = db_wal d -> db_open d' = db_open d ->
  dom (db_indexes d') = op_names o (dom (db_indexes d)) -> continues o d'.
Proof.
  intros He Hs Hne Hc Hw Ho Hi. exists g. unfold op_pages, op_log, op_spec. cbn [fst snd]. fold (row_ids pages). rewrite He, Hs. cbn [snd].
  destruct Hrep as [_ Hop Hh Hwl Hlg Hp Hst Hb Hbo Hn]. split_and!; [|done| | |by rewrite app_nil_r].
  - split; try done; [congruence|by rewrite Hw].
  - destruct o; cbn; try done; lia.
  - by intros [?| ->].
Qed.

Lemma create_index_correct name : correct (DCreateIndex name).
Proof.
  unfold correct. cbn [db_run]. pose proof (rp_core _ _ _ _ _ Hrep) as Hc.
  destruct (decide (field_index schema name < 0)) as [Hneg|Hpos].
  - assert (He : op_error schema (row_ids pages) (DCreateIndex name) = Some XDLError) by (cbn; by rewrite bool_decide_eq_true_2).
    exists d. rewrite (answer_error _ _ He). split; [|by eapply continues_error].
    apply M_bind_throw. unfold create_index. rewrite (M_bind_ok get _ _ _ _ eq_refl), rep_schema. cbv zeta. by rewrite bool_decide_eq_true_2.
  - assert (He : op_error schema (row_ids pages) (DCreateIndex name) = None) by (cbn; by rewrite bool_decide_eq_false_2).
    rewrite (answer_ok _ He). destruct (db_indexes d !! name) as [t|] eqn:Et.
    + exists d. rewrite (M_bind_ok (create_index name) _ d tt d); [split; [done|]|].
      * apply continues_indexes; try done. cbn [op_names]. assert (name ∈ dom (db_indexes d)) by (apply elem_of_dom; by exists t). set_solver.
      * unfold create_index. rewrite (M_bind_ok get _ _ _ _ eq_refl), rep_schema. cbv zeta. rewrite bool_decide_eq_false_2 by done.
        rewrite Et. by rewrite bool_decide_eq_true_2 by done.
    + destruct (field_index_nonneg schema name) as (fi & fd & Hfi & Hfd & _); [lia|].
      destruct (create_index_run schema ct (g_hdr g) (g_sy g) pages d name fi fd Hc Hfi Hfd Et) as (d' & Hr & Hc' & Hw & Ho & Hd).
      exists d'. rewrite (M_bind_ok _ _ _ _ _ Hr). split; [done|]. by apply continues_indexes.
Qed.

Lemma drop_index_correct name : correct (DDropIndex name).
Proof.
  unfold correct. cbn [db_run]. eexists. rewrite (answer_ok (DDropIndex name) eq_refl), (M_bind_ok (drop_index name) _ _ _ _ eq_refl). split; [reflexivity|].
  apply continues_indexes; try done; [|cbn; by rewrite dom_delete_L].
  destruct (rp_core _ _ _ _ _ Hrep) as [Hl Hs Hp Hi Hn Ht]. split; try done. cbn. by apply map_Forall_delete.
Qed.

Lemma has_index_correct name : correct (DHasIndex name).
Proof.
  unfold correct. cbn [db_run]. exists d. rewrite (answer_ok (DHasIndex name) eq_refl). unfold has_index. split.
  - rewrite (M_bind_ok (get ≫= _) _ d (bool_decide (is_Some (db_indexes d !! name))) d eq_refl). cbn [op_value].
    unfold mret, M_ret. do 3 f_equal. apply bool_decide_ext. by rewrite elem_of_dom.
  - apply continues_reads; try done. apply reads_refl, Hrep.
Qed.

(** [stats], of which the pool and the files tell the rest. *)
Lemma db_stats_run :
  db_stats d = (Ok (mkStats (zlen (concat pages)) (zlen pages) (pager_cache_size (db_pager d)) (db_cache_cap d)
    (zlen (f_content (st_file (pg_storage (db_pager d))))) (ver schema) true (Z.of_nat (size (dom (db_indexes d))))), d).
Proof.
  pose proof (rp_core _ _ _ _ _ Hrep) as Hc. unfold db_stats. rewrite (M_bind_ok get _ _ _ _ eq_refl), (rp_open _ _ _ _ _ Hrep). cbn [negb].
  rewrite (M_bind_ok (the_storage _) _ d (zlen (f_content (st_file (pg_storage (db_pager d))))) d).
  2: { apply the_storage_read, storage_file_size_run. eapply pager_up, (dc_pager _ _ _ _ _ _ Hc). }
  rewrite (index_size pages) by (apply (dc_index _ _ _ _ _ _ Hc) || apply (dc_ids _ _ _ _ _ _ Hc)).
  rewrite (dc_schema _ _ _ _ _ _ Hc), (rep_open _ _ _ _ (proj1 (rp_wal _ _ _ _ _ Hrep))), size_dom.
  destruct (dc_pager _ _ _ _ _ _ Hc) as (Hn & _). unfold page_count. by rewrite Hn.
Qed.

Lemma stats_correct : correct DStats.
Proof.
  unfold correct. cbn [db_run]. exists d. rewrite (answer_ok DStats eq_refl), (M_bind_ok _ _ _ _ _ db_stats_run). split; [done|].
  apply continues_reads; try done. apply reads_refl, Hrep.
Qed.

(** *** Checkpoints *)

(** The session from a checkpoint on. *)
Definition fresh_history (hdr : DBHeader) (sy : bytes) : history := mkHistory hdr sy pages [] [].

Lemma header_count_ok n hdr : 0 <= n < 2 ^ 32 -> db_header_ok hdr -> db_header_ok (header_count n hdr).
Proof. unfold db_header_ok, header_count. cbn. tauto. Qed.

Lemma checkpoint_run :
  log_size wal_header (g_recs g) < 2 ^ 63 ->
  exists d' sy, checkpoint d = (Ok tt, d') /\
    let g' := fresh_history (header_count (zlen pages) (g_hdr g)) sy in
    db_rep g' pages d' /\ saved schema g' /\ db_indexes d' = db_indexes d /\
    f_synced (st_file (pg_storage (db_pager d'))) = f_content (st_file (pg_storage (db_pager d'))) /\
    dirty_pages (pg_cache (db_pager d')) = [].
Proof.
  intros Hsz. destruct Hrep as [Hc Hop Hh Hwl Hlg Hp Hst Hb Hbo Hn]. pose proof Hc as [Hl Hs Hpg Hi Hids Ht].
  destruct (flush_all_run schema ct (g_hdr g) (g_sy g) pages (db_pager d) Hpg (proj1 Hi) Hh)
    as (pg' & Hr & Hpg' & Hdisk & Hsy & Hwf & Hloc & Hof).
  destruct (clear_run (db_wal d) (g_recs g) [] (proj1 Hwl)) as (w' & Hr2 & Hw' & Hsy'); [by rewrite app_nil_r|].
  exists (db_set_wal w' (db_set_pager pg' d)), (f_content (st_file (pg_storage pg'))). split.
  { unfold checkpoint. rewrite when_open_run, (M_bind_ok _ _ _ _ _ (on_pager_ok _ _ _ _ Hl Hr)). by apply the_wal_ok. }
  split_and!; [|exact Hdisk|done|done|exact Hof]. split; cbn [fresh_history g_hdr g_sy g_base g_steps g_recs]; try done.
  - split; try done. cbn. split; [done|]. intros id pid slot. rewrite Hloc. apply Hi.
  - apply header_count_ok; [|done]. destruct (pager_storable schema ct _ _ pages _ Hpg) as [_ ?]. lia.
  - exact (pager_storable schema ct _ _ pages _ Hpg).
Qed.

Lemma checkpoint_correct : op_room schema ct DCheckpoint pages (log_size wal_header (g_recs g)) -> correct DCheckpoint.
Proof.
  intros [_ (_ & _ & Hsz)]. cbn [op_steps steps_size foldr] in Hsz.
  destruct checkpoint_run as (d' & sy & Hr & Hrep' & Hsv & Hix & _); [lia|].
  exists d'. cbn [db_run]. rewrite (answer_ok (DCheckpoint) eq_refl), (M_bind_ok _ _ _ _ _ Hr). split; [done|].
  eexists. split_and!; [exact Hrep'|by rewrite Hix|done|done|done].
Qed.

(** Every operation does what it promises. *)
Lemma op_correct o : op_room schema ct o pages (log_size wal_header (g_recs g)) -> correct o.
Proof.
  destruct o; intros Hroom;
    [by apply insert_correct|by apply insert_batch_correct|by apply update_correct|by apply update_batch_correct|by apply erase_correct
    |by apply erase_batch_correct|apply get_correct|apply try_get_correct|by apply scan_all_correct|apply create_index_correct
    |apply drop_index_correct|apply has_index_correct|by apply range_scan_correct|apply stats_correct|by apply checkpoint_correct].
Qed.
End session.

(** A sequence of operations. *)
Lemma ops_correct ops g pages d :
  db_rep g pages d -> ops_room schema ct ops pages (log_size wal_header (g_recs g)) ->
  exists d' g', trace db_run ops d = (spec_results schema ops (concat pages, dom (db_indexes d)), d') /\
    db_rep g' (foldl (fun ps o => op_pages schema o ps) pages ops) d' /\
    (saved schema g \/ DCheckpoint ∈ ops -> saved schema g').
Proof.
  revert g pages d. induction ops as [|o ops IH]; intros g pages d Hrep Hroom.
  { exists d, g. split_and!; [done..|]. intros [?|Hn]; [done|by apply elem_of_nil in Hn]. }
  destruct Hroom as [Ho Hroom]. destruct (op_correct g pages d Hrep o Ho) as (d1 & Hr & g1 & Hrep1 & Hi1 & Hlog & Hsv1 & _).
  rewrite <- Hlog in Hroom. destruct (IH g1 _ d1 Hrep1 Hroom) as (d' & g' & Hr' & Hrep' & Hsv').
  exists d', g'. split_and!; [|done|].
  - cbn [trace]. rewrite Hr, Hr'. cbn [spec_results]. f_equal. f_equal. f_equal.
    rewrite (surjective_pairing (op_spec schema o (concat pages, dom (db_indexes d))).2), <- Hi1. f_equal.
    unfold op_pages, op_spec. cbn [fst snd]. fold (row_ids pages). destruct (op_error schema (row_ids pages) o); cbn [fst snd]; [done|apply concat_steps].
  - intros Hs. apply Hsv'. rewrite elem_of_cons in Hs. destruct Hs as [Hs|[Hs|Hs]]; [left; tauto|left; apply Hsv1; by right|by right].
Qed.
End ops.
