(* ===== verification/DbSettings.v ===== *)
(** What no operation of the database changes: the settings it was constructed with
    ([explicit_schema_], [compression_], [cache_cap_], [migration_] of [include/xdl/db.h]).
    A call [leaves] a part of the state when the part is the same after it, whatever it
    returns or throws; that is closed under everything the monad composes. *)
From S2P Require Import Prelude Types Serialise Page BPTree Index Posix Wal Compression Migrate Storage Cache Pager Filter Db DbSpec DbOps DbQuery DbSession.

(** ** Definitions *)

Definition leaves {S X A} (f : S -> X) (m : M S A) : Prop := forall s, f (m s).2 = f s.

Definition db_settings {F} (d : DB F) : bool * CompressionType * Z * SchemaMigrate :=
  (db_explicit d, db_compression d, db_cache_cap d, db_migration d).

(** ** Lemmas: composition *)

Create HintDb leaves.

Section leaves.
Context {S X : Type} (f : S -> X).

Lemma leaves_ret {A} (a : A) : leaves f (mret a).
Proof. done. Qed.
Lemma leaves_get : leaves f get.
Proof. done. Qed.
Lemma leaves_lift {A} (o : outcome A) : leaves f (lift o).
Proof. done. Qed.
Lemma leaves_throw {A} e : leaves f (throw e : M S A).
Proof. done. Qed.
Lemma leaves_ub {A} : leaves f (ub : M S A).
Proof. done. Qed.
Lemma leaves_modify g : (forall s, f (g s) = f s) -> leaves f (modify g).
Proof. intros Hg s. apply Hg. Qed.
Lemma leaves_zoom {T A} (g : S -> T) p (m : M T A) : (forall t s, f (p t s) = f s) -> leaves f (zoom g p m).
Proof. intros Hp s. unfold zoom. destruct (m (g s)) as [o t]. apply Hp. Qed.

Lemma leaves_bind {A B} (m : M S A) (k : A -> M S B) : leaves f m -> (forall a, leaves f (k a)) -> leaves f (m ≫= k).
Proof.
  intros Hm Hk s. specialize (Hm s). unfold mbind, M_bind. destruct (m s) as [[a|e|] s']; cbn [snd] in *; [|exact Hm..].
  rewrite <- Hm. apply Hk.
Qed.

Lemma leaves_catch {A} (m : M S A) h : leaves f m -> (forall e, leaves f (h e)) -> leaves f (catch m h).
Proof. intros Hm Hh s. specialize (Hm s). unfold catch. destruct (m s) as [[a|e|] s']; cbn [snd] in *; [exact Hm| |exact Hm]. rewrite <- Hm. apply Hh. Qed.

Lemma leaves_mfor {A} (body : A -> M S unit) l : (forall x, leaves f (body x)) -> leaves f (mfor body l).
Proof. intros Hb. induction l as [|x l IH]; cbn [mfor]; [apply leaves_ret|]. apply leaves_bind; [apply Hb|intros _; exact IH]. Qed.
End leaves.

#[export] Hint Resolve leaves_ret leaves_get leaves_lift leaves_throw leaves_ub leaves_modify leaves_zoom leaves_bind leaves_catch leaves_mfor : leaves.

(** Follow the program: its calls, and its branches. *)
Ltac leaves_step :=
  match goal with
  | |- forall _, _ => intros ?
  | |- leaves _ (match ?x with _ => _ end) => destruct x
  | |- leaves _ (let '(_, _) := ?x in _) => destruct x
  | |- leaves _ _ => solve [auto with leaves nocore] || apply leaves_bind || apply leaves_catch || apply leaves_mfor || apply leaves_zoom || apply leaves_modify
  | |- _ = _ => reflexivity
  end.
Ltac leaves_run := cbv zeta; repeat leaves_step.

(** ** Lemmas: the operations *)

Section settings.
Context {F : Type} `{FileSys F} `{LZ4Lib}.
#[local] Abbreviation DB := (DB F).
#[local] Abbreviation leaves_db := (leaves (@db_settings F)).

Lemma leaves_on_pager {A} (m : M (Pager F) A) : leaves_db (on_pager m).
Proof. unfold on_pager, the_pager. leaves_run. Qed.
Lemma leaves_the_wal {A} (m : M (WAL F) A) : leaves_db (the_wal m).
Proof. unfold the_wal. leaves_run. Qed.
Lemma leaves_the_pager {A} (m : M (Pager F) A) : leaves_db (the_pager m).
Proof. unfold the_pager. leaves_run. Qed.
Lemma leaves_find id : leaves_db (db_find id).
Proof. unfold db_find. leaves_run. Qed.
#[local] Hint Resolve leaves_on_pager leaves_the_wal leaves_the_pager leaves_find : leaves.

Lemma leaves_update_indexes op row id : leaves_db (update_indexes op row id).
Proof. unfold update_indexes, index_field, on_tree. leaves_run. Qed.
Lemma leaves_writable row : leaves_db (get_or_create_writable_page row).
Proof. unfold get_or_create_writable_page. leaves_run. Qed.
#[local] Hint Resolve leaves_update_indexes leaves_writable : leaves.
Lemma leaves_insert row sync : leaves_db (insert_unlocked row sync).
Proof. unfold insert_unlocked. leaves_run. Qed.
Lemma leaves_repair pid : leaves_db (repair_slots_after_erase pid).
Proof. unfold repair_slots_after_erase. leaves_run. Qed.
#[local] Hint Resolve leaves_insert leaves_repair : leaves.
Lemma leaves_erase id : leaves_db (erase_unlocked id).
Proof. unfold erase_unlocked. leaves_run. Qed.
#[local] Hint Resolve leaves_erase : leaves.
Lemma leaves_erase_all ids n : leaves_db (erase_all ids n).
Proof. revert n. induction ids as [|id ids IH]; intros n; cbn [erase_all]; [apply leaves_ret|]. leaves_run. Qed.
Lemma leaves_get_unlocked id : leaves_db (get_unlocked id).
Proof. unfold get_unlocked. leaves_run. Qed.
#[local] Hint Resolve leaves_erase_all leaves_get_unlocked : leaves.

(** Calls with a local variable. *)
Lemma leaves_with_db {T A} (m : M DB A) : leaves_db m -> leaves (fun s : DB * T => db_settings s.1) (with_db m).
Proof. intros Hm [d t]. rewrite with_db_eq. exact (Hm d). Qed.
Lemma leaves_with_own {T A} (m : M T A) : leaves (fun s : DB * T => db_settings s.1) (with_own m).
Proof. intros [d t]. by rewrite with_own_eq. Qed.
Lemma leaves_with_local {T A} (t : T) (m : M (DB * T) A) : leaves (fun s => db_settings s.1) m -> leaves_db (with_local t m).
Proof. intros Hm d. specialize (Hm (d, t)). unfold with_local. by destruct (m (d, t)) as [o s]. Qed.
#[local] Hint Resolve leaves_with_db leaves_with_own : leaves.

Lemma leaves_each_slot {T} (body : Page -> Z -> M T unit) : leaves (fun s : DB * T => db_settings s.1) (each_slot body).
Proof. unfold each_slot. leaves_run. Qed.
#[local] Hint Resolve leaves_each_slot : leaves.
Lemma leaves_scan_unlocked {T} (visitor : Row -> M T unit) f : leaves (fun s : DB * T => db_settings s.1) (scan_unlocked visitor f).
Proof. unfold scan_unlocked. leaves_run. Qed.
Lemma leaves_fetch schema locs : leaves (fun s : DB * list Row => db_settings s.1) (fetch schema locs).
Proof. unfold fetch. leaves_run. Qed.
#[local] Hint Resolve leaves_scan_unlocked : leaves.
Lemma leaves_scan {T} (visitor : Row -> M T unit) f : leaves (fun s : DB * T => db_settings s.1) (scan visitor f).
Proof. unfold scan. leaves_run. Qed.
#[local] Hint Resolve leaves_scan leaves_fetch leaves_with_local : leaves.

(** No operation changes the settings. *)
Lemma db_run_settings o d : db_settings (db_run o d).2 = db_settings d.
Proof.
  revert d. change (leaves_db (db_run o)). destruct o; cbn [db_run].
  all: unfold insert, insert_batch, update, update_batch, erase, erase_batch, db_get, try_get, scan_all, create_index, drop_index, has_index, index_range_scan, checkpoint, db_stats, the_storage, when_open.
  all: leaves_run.
Qed.

(** Nor does opening. *)
Lemma leaves_replay : leaves_db replay_wal.
Proof. unfold replay_wal, replay_record, replay_insert, replay_delete. leaves_run. Qed.
#[local] Hint Resolve leaves_replay : leaves.
Lemma db_open_settings d : db_settings (db_open_ d).2 = db_settings d.
Proof. revert d. change (leaves_db db_open_). unfold db_open_, renew_storage, stored_schema, reject, the_storage. leaves_run. Qed.
End settings.
