(* ===== verification/DbRecovery.v ===== *)
(** Opening, closing and crash recovery of the database ([src/db.cpp]): replaying the
    log on the pages found in the file, from any state a crash may leave. *)
From S2P Require Import Prelude Types Serialise Page Std BPTree Index Posix Wal Compression Migrate Storage Cache Pager Filter Db DbSpec DbOps DbQuery DbSession.

(** ** Replaying, row by row *)

(** What a replayed step makes of the row with this id. *)
Definition row_replay (id : Z) (s : row_step) (v : option Row) : option Row :=
  match s with
  | SInsert r => if bool_decide (row_id r = id) then Some (default r v) else v
  | SErase i => if bool_decide (i = id) then None else v
  end.
Definition row_replays (id : Z) (ms : list row_step) (v : option Row) : option Row := foldl (fun v s => row_replay id s v) v ms.

Lemma replay_lookup s pages id :
  NoDup (row_ids pages) -> rows_map (replay_step s pages) !! id = row_replay id s (rows_map pages !! id).
Proof.
  intros Hnd. destruct s as [r|i]; cbn [replay_step row_replay].
  - destruct (decide (row_id r ∈ row_ids pages)) as [Hin|Hin].
    + rewrite bool_decide_eq_true_2 by done. case_bool_decide as Hid; [|done]. subst id.
      destruct (rows_map pages !! row_id r) as [q|] eqn:E; [done|]. by apply rows_map_None in E.
    + rewrite bool_decide_eq_false_2, rows_map_insert by done. case_bool_decide as Hid.
      * subst id. rewrite lookup_insert_eq. apply rows_map_None in Hin. by rewrite Hin.
      * by rewrite lookup_insert_ne.
  - rewrite rows_map_erase by done. case_bool_decide as Hid; [subst; apply lookup_delete_eq|by apply lookup_delete_ne].
Qed.

Lemma replays_lookup ms pages id :
  NoDup (row_ids pages) -> rows_map (replays ms pages) !! id = row_replays id ms (rows_map pages !! id).
Proof.
  revert pages. induction ms as [|s ms IH]; intros pages Hnd; [done|]. unfold replays, row_replays in *. cbn [foldl].
  rewrite IH by (by apply replay_NoDup). by rewrite replay_lookup.
Qed.

(** Replaying twice is replaying once. *)
Lemma row_replays_app id ms1 ms2 v : row_replays id (ms1 ++ ms2) v = row_replays id ms2 (row_replays id ms1 v).
Proof. apply foldl_app. Qed.

Lemma row_replays_keep id ms r : SErase id ∉ ms -> row_replays id ms (Some r) = Some r.
Proof.
  revert r. induction ms as [|s ms IH]; intros r Hni; [done|]. apply not_elem_of_cons in Hni as [Hne Hni].
  unfold row_replays in *. cbn [foldl]. destruct s as [q|i]; cbn [row_replay].
  - case_bool_decide; by apply IH.
  - rewrite bool_decide_eq_false_2 by congruence. by apply IH.
Qed.

Lemma row_replays_idem id ms v : row_replays id ms (row_replays id ms v) = row_replays id ms v.
Proof.
  destruct (decide (SErase id ∈ ms)) as [(ms1 & ms2 & ->)%list_elem_of_split|Hni].
  - assert (Hany : forall w, row_replays id (ms1 ++ SErase id :: ms2) w = row_replays id ms2 None).
    { intros w. rewrite row_replays_app. unfold row_replays at 1. cbn [foldl row_replay]. by rewrite bool_decide_eq_true_2. }
    by rewrite !Hany.
  - destruct (row_replays id ms v) as [r|] eqn:E; [by apply row_replays_keep|].
    destruct v as [r|]; [by rewrite row_replays_keep in E|done].
Qed.

(** Replaying everything on rows that have seen some of it. *)
Lemma row_replays_prefix id ms k v : row_replays id ms (row_replays id (take k ms) v) = row_replays id ms v.
Proof.
  rewrite <- (take_drop k ms) at 1. rewrite row_replays_app, row_replays_idem, <- row_replays_app. by rewrite take_drop.
Qed.

(** A file whose rows are each as they were at some moment since the checkpoint. *)
Definition mixed (ms : list row_step) (base disk : list (list Row)) : Prop :=
  forall id, exists k, rows_map disk !! id = rows_map (replays (take k ms) base) !! id.

Lemma replays_mixed ms base disk :
  NoDup (row_ids base) -> NoDup (row_ids disk) -> mixed ms base disk -> rows_map (replays ms disk) = rows_map (replays ms base).
Proof.
  intros Hb Hd Hm. apply map_eq. intros id. destruct (Hm id) as [k Hk].
  rewrite !replays_lookup by done. rewrite Hk, replays_lookup by done. apply row_replays_prefix.
Qed.

Lemma mixed_base ms base : mixed ms base base.
Proof. intros id. by exists O. Qed.

Lemma mixed_final ms base : mixed ms base (replays ms base).
Proof. intros id. exists (length ms). by rewrite firstn_all. Qed.

(** ** Replaying a record *)

Section replay.
Context {F : Type} `{FileLaws F} `{!FileReliable F} `{!PreadWhole F} `{LZ4Laws}.
Context (schema : Schema) (ct : CompressionType) (hdr : DBHeader) (sy : bytes).
#[local] Abbreviation pager_rep := (pager_rep schema ct hdr sy).
#[local] Abbreviation db_core := (db_core schema ct hdr sy).
#[local] Abbreviation storable := (storable schema ct).
Implicit Types (d : DB F) (pg : Pager F) (pages : list (list Row)).

(** A page made of the bytes of one row. *)
Lemma tmp_page_row r :
  row_ok schema r -> get_row (mkPage INVALID_PAGE_ID (encode_row r) 1 false (if bool_decide (encode_row r <> []) then [0] else [])) 0 schema = Ok r.
Proof.
  intros Hr. rewrite bool_decide_eq_true_2 by done. apply (get_row_rep schema [r] _ 0 r); [|done].
  destruct Hr as (Hid & Hv & Hsz). unfold PAGE_SIZE in Hsz. split; cbn [p_data p_row_offsets p_row_count].
  - rewrite encode_rows_cons. change (encode_rows []) with (@nil byte). by rewrite app_nil_r.
  - done.
  - done.
  - by apply Forall_singleton.
  - lia.
Qed.

(** What replaying leaves alone. *)
Definition replayed d d' : Prop := db_frame d d' /\ db_wal d' = db_wal d /\ db_indexes d' = ∅.

Lemma replayed_refl d : db_indexes d = ∅ -> replayed d d.
Proof. done. Qed.

Lemma replay_insert_run pages d r rec :
  db_core pages d -> db_indexes d = ∅ -> logs (SInsert r) rec -> replay_ok schema ct (SInsert r) pages ->
  exists d', replay_insert rec d = (Ok tt, d') /\ db_core (replay_step (SInsert r) pages) d' /\ replayed d d'.
Proof.
  intros Hcore Hix (_ & Hid & Hdata) ((Hr & Hlt) & Hst). pose proof Hcore as [Hlive Hsch Hrep Hidx Hids Htr].
  unfold replay_insert. rewrite (M_bind_ok _ _ _ _ _ (db_find_run schema ct hdr sy pages d _ Hcore)), Hid, Hdata. cbn [replay_step] in *.
  pose proof (entry_ids pages _ (row_id r) Hidx) as Hin.
  destruct (idx_map (pg_index (db_pager d)) !! row_id r) as [e|] eqn:He.
  { exists d. rewrite bool_decide_eq_true_2 by (apply Hin; by exists e). split_and!; [done|done|by apply replayed_refl]. }
  assert (Hni : row_id r ∉ row_ids pages) by (rewrite <- Hin; by intros [? ?]).
  rewrite (bool_decide_eq_false_2 (row_id r ∈ row_ids pages)) in Hst |- * by done.
  destruct (target r pages) as [init rows] eqn:Ht. assert (Hpages : pages_insert r pages = init ++ [rows ++ [r]]) by (unfold pages_insert; by rewrite Ht).
  rewrite Hpages in Hst. pose proof Hst as [_ [Hstn _]%Forall_cons]%Forall_app.
  destruct (writable_page_run schema ct hdr sy pages d r init rows Hcore Hr Hlt Ht) as (l & pg1 & Hrun1 & Href1 & Hi1).
  destruct (append_run schema ct hdr sy init rows pg1 l r Href1 Hr Hstn) as (p & p' & pg2 & Hp & Hpc & Hm & _ & _ & Hpid & _ & Href2 & Hi2).
  unfold catch. rewrite (M_bind_ok get _ _ _ _ eq_refl). cbv zeta. rewrite Hsch.
  rewrite (M_bind_ok (lift _) _ d r d) by (unfold lift; by rewrite tmp_page_row). rewrite (M_bind_ok _ _ _ _ _ Hrun1).
  rewrite (M_bind_ok (on_pager (page_at l)) _ (db_set_pager pg1 d) p (db_set_pager pg1 d)) by (by apply on_pager_read).
  rewrite Hpc. rewrite (M_bind_ok _ _ _ _ _ (on_pager_ok _ (db_set_pager pg1 d) _ pg2 Hlive Hm)).
  set (d2 := db_set_pager pg2 d). change (db_set_pager pg2 (db_set_pager pg1 d)) with d2.
  rewrite (M_bind_ok (on_pager _) _ d2 (page_offset pg2 (p_id p)) d2) by (by apply on_pager_read).
  assert (Hidx2 : index_rep (init ++ [rows]) (pg_index pg2) /\ (row_id r ∉ row_ids (init ++ [rows]))).
  { rewrite Hi2, Hi1. apply target_split in Ht as [(-> & -> & _)|(-> & _)]; [|by split].
    split; [by apply index_rep_empty_page|]. rewrite row_ids_app, row_ids_one. cbn. by rewrite app_nil_r. }
  destruct Hidx2 as [Hidx2 Hni2].
  destruct (index_add init rows r (page_offset pg2 (p_id p)) (pg_index pg2) Hidx2 Hni2) as (i' & Hins & Hidx').
  rewrite Hpid in Hins |- *. rewrite (M_bind_ok _ _ _ _ _ (on_pager_ok _ d2 _ _ Hlive (on_index_ok _ _ _ _ Hins))).
  set (d3 := db_set_pager (pg_set_index i' pg2) d2).
  assert (Hui : update_indexes bpt_insert r (row_id r) d3 = (Ok tt, d3)).
  { unfold update_indexes. rewrite (M_bind_ok get _ _ _ _ eq_refl). cbn. by rewrite Hix, map_to_list_empty. }
  rewrite Hui. exists d3. split_and!; [done| |by split_and!]. rewrite Hpages. split; try done.
  - apply pager_ref_rep in Href2. exact Href2.
  - rewrite <- Hpages. by apply NoDup_insert.
  - cbn. rewrite Hix. apply map_Forall_empty.
Qed.

Lemma replay_delete_run pages d id rec :
  db_core pages d -> db_indexes d = ∅ -> logs (SErase id) rec -> replay_ok schema ct (SErase id) pages ->
  exists d', replay_delete rec d = (Ok tt, d') /\ db_core (replay_step (SErase id) pages) d' /\ replayed d d'.
Proof.
  intros Hcore Hix (_ & Hid & _) (_ & Hst). pose proof Hcore as [Hlive Hsch Hrep Hidx Hids Htr].
  unfold replay_delete. rewrite (M_bind_ok _ _ _ _ _ (db_find_run schema ct hdr sy pages d _ Hcore)), Hid. cbn [replay_step] in *.
  clear Hid. destruct (idx_map (pg_index (db_pager d)) !! id) as [e|] eqn:He.
  2: { exists d. rewrite erase_absent; [split_and!; [done|done|by apply replayed_refl]|]. rewrite <- (entry_ids pages _ id Hidx), He. by intros [??]. }
  destruct (entry_row pages _ id e Hidx He) as (rows & n & r & Hp & Hslot & Hn & Hrid). subst id.
  destruct (get_mutable_page_run schema ct hdr sy pages (db_pager d) _ rows Hrep Hp) as (l & pg1 & Hrun1 & Href1 & Hi1).
  destruct (page_at_run schema ct hdr sy pages pg1 l _ rows Href1 Hp) as (p & Hpa & Hprep & _).
  destruct (erase_page_run schema ct hdr sy pages pg1 l _ rows n r Href1 Hids Hp Hn Hst) as (pg2 & Hrun2 & Href2 & Hi2).
  assert (Hp2 : page_rows (pages_erase (row_id r) pages) (page_id e) = Some (delete n rows)).
  { pose proof (page_rows_range _ _ _ Hp). by rewrite (pages_erase_insert pages (page_id e) rows n r), page_rows_insert, bool_decide_eq_true_2. }
  assert (Hst2 : storable (delete n rows)) by (apply (proj1 (Forall_forall _ _) Hst), (page_rows_elem _ _ _ Hp2)).
  destruct (mutate_page_run schema ct hdr sy (modify (set_dirty true)) _ pg2 l _ _ (delete n rows) tt Href2 Hp2 Hst2)
    as (pg3 & Hrun3 & Href3 & Hi3).
  { intros q Hq Hqid. eexists. split; [reflexivity|]. destruct Hq as [? ? ? ? ?]. split_and!; [by split|done|done]. }
  rewrite list_insert_id in Href3 by (unfold page_rows in Hp2; by case_bool_decide).
  destruct (idx_remove_run (row_id r) (pg_index pg3)) as (i' & Hrem & Hwf' & Hmap'); [rewrite Hi3, Hi2, Hi1; apply Hidx|].
  unfold catch. rewrite Hslot. rewrite (M_bind_ok _ _ _ _ _ (on_pager_ok _ _ _ _ Hlive Hrun1)). set (d1 := db_set_pager pg1 d).
  rewrite (M_bind_ok (on_pager (page_at l)) _ d1 p d1) by (by apply on_pager_read).
  rewrite (M_bind_ok (lift _) _ d1 (Z.of_nat n) d1) by (unfold lift; by rewrite (locate_slot_run schema _ _ _ _ Hprep Hn)).
  rewrite bool_decide_eq_true_2 by lia. set (d3 := db_set_pager pg3 d).
  rewrite (M_bind_ok (_ ≫= _) _ d1 tt d3).
  2: { rewrite (M_bind_ok _ _ _ _ _ (on_pager_ok _ d1 _ _ Hlive Hrun2)). exact (on_pager_ok _ (db_set_pager pg2 d1) _ _ Hlive Hrun3). }
  rewrite (M_bind_ok _ _ _ _ _ (on_pager_ok _ d3 _ _ Hlive (on_index_ok _ _ _ _ Hrem))). set (d4 := db_set_pager _ d3).
  destruct (repair_run schema ct hdr sy pages d4 (page_id e) rows n r (pg_index (db_pager d))) as (pg5 & Hrepair & Hrep5 & Hidx5); try done.
  { apply pager_ref_rep in Href3. exact Href3. }
  { cbn [d4 db_pager db_set_pager pg_index pg_set_index]. by rewrite Hmap', Hi3, Hi2, Hi1. }
  rewrite Hrepair. eexists. split; [reflexivity|]. split; [|by split_and!]. split; try done; [by apply NoDup_erase|].
  cbn. rewrite Hix. apply map_Forall_empty.
Qed.

Lemma replay_record_run pages d s rec :
  db_core pages d -> db_indexes d = ∅ -> logs s rec -> replay_ok schema ct s pages ->
  exists d', replay_record rec d = (Ok tt, d') /\ db_core (replay_step s pages) d' /\ replayed d d'.
Proof.
  intros Hc Hix Hl Hok. unfold replay_record. destruct s as [r|id]; pose proof Hl as (-> & _).
  - rewrite bool_decide_eq_false_2 by (by intros [?|?]). rewrite bool_decide_eq_true_2 by done. by apply replay_insert_run.
  - rewrite bool_decide_eq_false_2 by (by intros [?|?]). rewrite bool_decide_eq_false_2, bool_decide_eq_true_2 by done. by apply replay_delete_run.
Qed.

(** The records of the log, one after the other. *)
Lemma replay_records_run pages d ms recs :
  db_core pages d -> db_indexes d = ∅ -> Forall2 logs ms recs -> replays_ok schema ct ms pages ->
  exists d', mfor replay_record recs d = (Ok tt, d') /\ db_core (replays ms pages) d' /\ replayed d d'.
Proof.
  intros Hc Hix Hl. revert pages d Hc Hix. induction Hl as [|s rec ms recs Hs Hl IH]; intros pages d Hc Hix Hok; [exists d; split_and!; [done|done|by apply replayed_refl]|].
  destruct Hok as [Hok Hoks]. destruct (replay_record_run pages d s rec Hc Hix Hs Hok) as (d1 & Hr1 & Hc1 & Hf1 & Hw1 & Hi1).
  destruct (IH _ d1 Hc1 Hi1 Hoks) as (d2 & Hr2 & Hc2 & Hf2 & Hw2 & Hi2). exists d2. cbn [mfor]. rewrite (M_bind_ok _ _ _ _ _ Hr1).
  split_and!; [done|done|]. split_and!; [by etrans|congruence|done].
Qed.
End replay.

(** ** Opening *)

(** The log file: no bytes yet, or the header, whole records and perhaps a torn one. *)
Definition log_file (content : bytes) (recs : list WALRecord) (tl : bytes) : Prop :=
  (content = [] /\ recs = [] /\ tl = []) \/
  (content = wal_header ++ encode_records recs ++ tl /\ Forall record_ok recs /\ ~ valid_start tl).

(** A database object that is not open. *)
Record closed {F} `{FileSys F} (d : DB F) : Prop := {
  cl_open : db_open d = false;
  cl_storage : st_open (pg_storage (db_pager d)) = false;
  cl_wal : w_open (db_wal d) = false;
  cl_indexes : db_indexes d = ∅;
  cl_cap : 0 <= db_cache_cap d;
}.
Definition data_file {F} (d : DB F) : F := st_file (pg_storage (db_pager d)).
Definition wal_file {F} (d : DB F) : F := w_file (db_wal d).

(** The schema it was given, if any, is the one of the file. *)
Definition schema_agrees {F} (schema : Schema) (d : DB F) : Prop :=
  db_explicit d = true -> schemas_match schema (db_schema d) = true.

Section opening.
Context {F : Type} `{FileLaws F} `{!FileReliable F} `{!PreadWhole F} `{LZ4Laws}.
Implicit Types (d : DB F) (s : Storage F).

Lemma reopen_log (wf : F) recs tl :
  log_file (f_content wf) recs tl ->
  exists w w', wal_open (new_WAL wf) = (Ok tt, w) /\ replay w = (Ok recs, w') /\
    (tl = [] -> f_content wf = [] \/ f_synced wf = f_content wf -> wal_durable w' recs).
Proof.
  intros Hlog. set (c := wal_header ++ encode_records recs ++ tl).
  assert (Hopen : exists w, wal_open (new_WAL wf) = (Ok tt, w) /\ w_open w = true /\ w_fd w = true /\ write_buf_ w = [] /\
    f_content (w_file w) = c /\ f_exists (w_file w) = true /\ current_offset_ w = zlen c /\
    (f_content wf = [] \/ f_synced wf = f_content wf -> f_synced (w_file w) = c) /\ Forall record_ok recs /\ ~ valid_start tl).
  { destruct Hlog as [(Hc & -> & ->)|(Hc & Hok & Hv)].
    - destruct (open_new_run wf Hc) as (w & Hr & [? ? ? Hcw ? ? Hb ? ? ?] & Hs). exists w.
      unfold c. change (encode_records []) with (@nil byte) in *. rewrite !app_nil_r in *.
      split_and!; try done; try congruence. apply valid_start_nil.
    - destruct (open_existing_run wf) as (w & Hr & Hcw & Hs & He & Hp & Ho & Hfd & Hb & Hd & Hof).
      { rewrite Hc. intros Hn%(f_equal length). pose proof length_wal_header. rewrite length_app in Hn. cbn [length] in Hn. lia. }
      exists w. unfold c. rewrite <- Hc. split_and!; try done; try congruence.
      intros [Hn|?]; [|congruence]. apply (f_equal length) in Hn. pose proof length_wal_header. rewrite Hc, length_app in Hn. cbn [length] in Hn. lia. }
  destruct Hopen as (w & Hr & Ho & Hfd & Hb & Hc & He & Hof & Hs & Hok & Hv). pose proof length_wal_header as Hh.
  destruct (replay_file w Ho Hfd Hb) as (w' & Hr' & Hc' & Ho' & Hfd' & Hb' & Hof' & He' & Hp' & Hs' & Hd').
  { rewrite Hc. unfold c. rewrite length_app. lia. }
  exists w, w'. split_and!; [done| |].
  - rewrite Hr'. f_equal. rewrite Hc. unfold c. rewrite drop_app_length' by lia. by apply parse_log_run.
  - intros -> Hsy. assert (Hsy' : f_synced (w_file w') = f_content (w_file w')).
    { destruct Hs' as [?|[-> _]]; [done|]. rewrite Hc', Hc. auto. }
    split; [|done]. assert (Hcc : c = wal_header ++ encode_records recs) by (unfold c; by rewrite app_nil_r).
    assert (Hcw : f_content (w_file w') = c) by congruence. clearbody c.
    split.
    + exact Ho'.
    + by rewrite Hfd'.
    + by rewrite He'.
    + by rewrite Hcw.
    + by rewrite Hp', Hc, Hcw.
    + by rewrite Hof', Hof, Hcw.
    + exact Hb'.
    + by rewrite app_nil_r.
    + rewrite Hb'. by vm_compute.
    + by intros _.
Qed.

(** The first lines of [open], up to the storage. *)
Lemma renew_run d :
  closed d -> renew_storage d = (Ok tt, db_set_storage (new_Storage (data_file d) (db_compression d)) (db_set_live false d)).
Proof.
  intros [_ Hs _ _ _]. unfold renew_storage.
  rewrite (M_bind_ok (the_storage _) _ d tt d).
  2: { apply the_storage_read. unfold storage_close. rewrite (M_bind_ok get _ _ _ _ eq_refl), Hs. done. }
  by rewrite (M_bind_ok (modify _) _ _ _ _ eq_refl).
Qed.

(** The schema of a file that has one. *)
Lemma stored_schema_run d hdr schema :
  storage_up (pg_storage (db_pager d)) -> db_layout (f_content (data_file d)) hdr schema ->
  stored_schema d = (Ok (Some schema), d).
Proof.
  intros Hup Hlay. unfold stored_schema.
  rewrite (M_bind_ok (the_storage _) _ d _ d) by (by apply the_storage_read, storage_file_size_run).
  pose proof (lay_schema _ _ _ Hlay) as (_ & _ & Hlen & _)%load_lookup.
  assert (8 <= zlen (serialise_schema schema)) by (unfold serialise_schema; rewrite !length_app; cbn [append_u32 length]; lia).
  rewrite bool_decide_eq_true_2 by (unfold data_file, DBHEADER_SIZE in *; lia). unfold catch.
  rewrite (M_bind_ok (the_storage _) _ d schema d) by (by eapply the_storage_read, read_schema_run). done.
Qed.

(** The rest of [open], the storage being ready: the log, the pages, the replay. *)
Lemma open_rest_run d schema ct hdr sy pages recs ms tl :
  storage_up (pg_storage (db_pager d)) -> st_compression (pg_storage (db_pager d)) = ct -> f_synced (data_file d) = sy ->
  db_schema d = schema -> w_open (db_wal d) = false -> db_indexes d = ∅ -> 0 <= db_cache_cap d ->
  on_disk schema hdr pages (f_content (data_file d)) -> zlen pages < 2 ^ 32 ->
  Forall (storable schema ct) pages -> NoDup (row_ids pages) ->
  log_file (f_content (wal_file d)) recs tl -> Forall2 logs ms recs -> replays_ok schema ct ms pages ->
  exists d',
    (the_pager (modify (pg_set_index new_IndexManager)) ;; the_wal wal_close ;;
     modify (fun d => db_set_wal (new_WAL (w_file (db_wal d))) d) ;; the_wal wal_open ;;
     modify (fun d => db_set_pager (new_Pager (pg_storage (db_pager d)) (pg_index (db_pager d)) (db_cache_cap d)) d) ;;
     modify (db_set_live true) ;; d ← get; on_pager (recover (db_schema d)) ;; replay_wal ;; modify (db_set_open true)) d
    = (Ok tt, d') /\
    db_core schema ct hdr sy (replays ms pages) d' /\ db_open d' = true /\ db_indexes d' = ∅ /\
    (tl = [] -> f_content (wal_file d) = [] \/ f_synced (wal_file d) = f_content (wal_file d) -> wal_durable (db_wal d') recs).
Proof.
  intros Hup Hct Hsy Hsch Hw Hix Hcap Hdisk Hlt Hst Hnd Hlog Hl Hok.
  destruct (reopen_log (wal_file d) recs tl Hlog) as (w & w' & Hwo & Hwr & Hwd).
  destruct (recover_run schema ct hdr sy (pg_storage (db_pager d)) (db_cache_cap d) pages Hup Hct Hdisk Hsy Hlt Hcap Hst Hnd)
    as (pg & Hrec & Hpg & Hidx & Hps).
  set (d1 := db_set_pager (pg_set_index new_IndexManager (db_pager d)) d).
  rewrite (M_bind_ok (the_pager _) _ d tt d1) by done.
  rewrite (M_bind_ok (the_wal wal_close) _ d1 tt d1).
  2: { rewrite (the_wal_ok wal_close d1 tt (db_wal d1)); [by rewrite db_set_wal_id|]. unfold wal_close.
       rewrite (M_bind_ok get _ _ _ _ eq_refl). cbn [d1 db_wal db_set_pager]. by rewrite Hw. }
  rewrite (M_bind_ok (modify _) _ _ _ _ eq_refl). set (d2 := db_set_wal _ d1).
  rewrite (M_bind_ok (the_wal wal_open) _ d2 tt (db_set_wal w d2)) by (by apply the_wal_ok).
  do 2 rewrite (M_bind_ok (modify _) _ _ _ _ eq_refl). rewrite (M_bind_ok get _ _ _ _ eq_refl). set (d3 := db_set_live true _).
  rewrite (M_bind_ok (on_pager _) _ d3 tt (db_set_pager pg d3)).
  2: { apply on_pager_ok; [done|]. change (db_schema d3) with (db_schema d). rewrite Hsch. exact Hrec. }
  set (d4 := db_set_pager pg d3). set (d5 := db_set_wal w' d4).
  assert (Hcore5 : db_core schema ct hdr sy pages d5).
  { split; try done. cbn. rewrite Hix. apply map_Forall_empty. }
  destruct (replay_records_run schema ct hdr sy pages d5 ms recs Hcore5 Hix Hl Hok) as (d6 & Hr6 & Hc6 & Hf6 & Hw6 & Hi6).
  rewrite (M_bind_ok replay_wal _ d4 tt d6).
  2: { unfold replay_wal. rewrite (M_bind_ok (the_wal replay) _ d4 recs d5) by (by apply the_wal_ok). exact Hr6. }
  eexists. split; [reflexivity|]. split_and!; try done.
  - destruct Hc6. by split.
  - intros -> Hsyn. cbn. rewrite Hw6. by apply Hwd.
Qed.

(** [open] on an existing file. *)
Lemma open_run d schema hdr pages recs ms tl :
  closed d -> schema_agrees schema d -> f_exists (data_file d) = true ->
  on_disk schema hdr pages (f_content (data_file d)) -> zlen pages < 2 ^ 32 ->
  Forall (storable schema (db_compression d)) pages -> NoDup (row_ids pages) ->
  log_file (f_content (wal_file d)) recs tl -> Forall2 logs ms recs -> replays_ok schema (db_compression d) ms pages ->
  exists d', db_open_ d = (Ok tt, d') /\
    db_core schema (db_compression d) hdr (f_synced (data_file d)) (replays ms pages) d' /\ db_open d' = true /\ db_indexes d' = ∅ /\
    (tl = [] -> f_content (wal_file d) = [] \/ f_synced (wal_file d) = f_content (wal_file d) -> wal_durable (db_wal d') recs).
Proof.
  intros Hcl Hag Hex Hdisk Hlt Hst Hnd Hlog Hl Hok. pose proof Hcl as [Hop Hs Hw Hix Hcap]. pose proof (od_layout _ _ _ _ Hdisk) as Hlay.
  unfold db_open_. rewrite (M_bind_ok get _ _ _ _ eq_refl), Hop. rewrite (M_bind_ok _ _ _ _ _ (renew_run d Hcl)). set (d0 := db_set_storage _ _).
  destruct (storage_open_existing (data_file d) (db_compression d) Hex) as (s1 & Hr1 & Hup1 & Hct1 & Hc1 & Hsy1).
  rewrite (M_bind_ok (the_storage storage_open) _ d0 tt (db_set_storage s1 d0)) by (by apply the_storage_ok). set (d1 := db_set_storage s1 d0).
  assert (Hlay1 : db_layout (f_content (st_file s1)) hdr schema) by (by rewrite Hc1).
  rewrite (M_bind_ok (the_storage read_db_header) _ d1 hdr d1).
  2: { apply the_storage_read, read_db_header_run; [done|apply Hlay|apply Hlay1]. }
  rewrite (M_bind_ok _ _ _ _ _ (stored_schema_run d1 hdr schema Hup1 Hlay1)). set (d2 := db_set_schema schema d1).
  match goal with |- exists d', (?m ≫= ?k) d1 = _ /\ _ => rewrite (M_bind_ok m k d1 tt d2) end.
  2: { change (db_explicit d1) with (db_explicit d). change (db_schema d1) with (db_schema d).
       destruct (db_explicit d) eqn:Ee; [by rewrite (Hag Ee)|done]. }
  destruct (open_rest_run d2 schema (db_compression d) hdr (f_synced (data_file d)) pages recs ms tl) as (d' & Hr & Hc & Ho & Hi & Hd); try done.
  { change (on_disk schema hdr pages (f_content (st_file s1))). by rewrite Hc1. }
  exists d'. by split_and!.
Qed.

(** [open] where there is no file yet: it is created. *)
Lemma open_new_file_run d schema :
  closed d -> db_schema d = schema -> f_exists (data_file d) = false -> f_content (wal_file d) = [] ->
  schema_wire_ok schema -> zlen (serialise_schema schema) <= 65536 -> NoDup (fd_name <$> fields schema) ->
  exists d' sy, db_open_ d = (Ok tt, d') /\
    db_rep schema (db_compression d) (mkHistory (fresh_header (db_compression d)) sy [] [] []) [] d' /\ db_indexes d' = ∅.
Proof.
  intros Hcl Hsch Hex Hwf Hwire Hsm Hnm. pose proof Hcl as [Hop Hs Hw Hix Hcap]. set (ct := db_compression d).
  unfold db_open_. rewrite (M_bind_ok get _ _ _ _ eq_refl), Hop. rewrite (M_bind_ok _ _ _ _ _ (renew_run d Hcl)). set (d0 := db_set_storage _ _).
  destruct (storage_open_fresh (data_file d) ct Hex) as (s1 & Hr1 & Hup1 & Hct1 & Hc1 & Hsy1).
  rewrite (M_bind_ok (the_storage storage_open) _ d0 tt (db_set_storage s1 d0)) by (by apply the_storage_ok). set (d1 := db_set_storage s1 d0).
  assert (Hl1 : load (f_content (st_file s1)) 0 DBHEADER_SIZE = Ok (encode_DBHeader (fresh_header ct)))
    by (rewrite Hc1; exact (load_all (encode_DBHeader (fresh_header ct)))).
  rewrite (M_bind_ok (the_storage read_db_header) _ d1 (fresh_header ct) d1).
  2: { apply the_storage_read, read_db_header_run; [done|apply fresh_header_ok|done]. }
  rewrite (M_bind_ok stored_schema _ d1 None d1).
  2: { unfold stored_schema. rewrite (M_bind_ok (the_storage _) _ d1 _ d1) by (by apply the_storage_read, storage_file_size_run).
       rewrite bool_decide_eq_false_2; [done|]. cbn [d1 db_pager db_set_storage db_set_pager pg_storage pg_set_storage]. rewrite Hc1.
       rewrite length_encode_DBHeader by done. unfold DBHEADER_SIZE. lia. }
  rewrite bool_decide_eq_false_2 by (cbn; lia).
  destruct (write_schema_run s1 (fresh_header ct) schema Hup1 (fresh_header_ok ct) Hl1 Hwire Hsm) as (s2 & Hr2 & Hup2 & Hct2 & Hlay2 & Hlen2).
  rewrite (M_bind_ok (the_storage _) _ d1 tt (db_set_storage s2 d1)).
  2: { apply the_storage_ok. change (db_schema d1) with (db_schema d). by rewrite Hsch. }
  set (d2 := db_set_storage s2 d1).
  assert (Hsize : zlen (f_content (st_file s2)) <= slot schema (2 ^ 32)).
  { rewrite Hlen2, Hc1, length_encode_DBHeader by done. unfold slot, data_start, PAGE_SLOT_SIZE, PAGEHEADER_SIZE, PAGE_SIZE, DBHEADER_SIZE. lia. }
  destruct (open_rest_run d2 schema ct (fresh_header ct) (f_synced (st_file s2)) [] [] [] []) as (d' & Hr & Hc & Ho & Hi & Hd); try done.
  - by change (st_compression s2 = ct); rewrite Hct2.
  - split; [done|done|done|]. intros pid rows Hp. apply page_rows_range in Hp. cbn in Hp. lia.
  - constructor.
  - by left.
  - exists d', (f_synced (st_file s2)). split_and!; [done| |done]. split; cbn [g_hdr g_sy g_base g_steps g_recs]; try done.
    + apply fresh_header_ok.
    + apply Hd; [done|]. by left.
    + constructor.
Qed.
End opening.

(** ** Closing *)

Lemma schemas_match_refl s : schemas_match s s = true.
Proof.
  unfold schemas_match. rewrite bool_decide_eq_true_2 by done. cbn [andb]. induction (fields s) as [|f fs IH]; [done|].
  cbn [fields_match]. by rewrite !bool_decide_eq_true_2.
Qed.

Section closing.
Context {F : Type} `{FileLaws F} `{!FileReliable F} `{!PreadWhole F} `{LZ4Laws}.
Implicit Types (d : DB F).

(** What [close] leaves on the disk. *)
Record closed_files (schema : Schema) (hdr : DBHeader) (pages : list (list Row)) (d : DB F) : Prop := {
  cf_exists : f_exists (data_file d) = true;
  cf_disk : on_disk schema hdr pages (f_content (data_file d));
  cf_synced : f_synced (data_file d) = f_content (data_file d);
  cf_log : log_file (f_content (wal_file d)) [] [];
  cf_log_synced : f_synced (wal_file d) = f_content (wal_file d);
}.

Lemma close_db_run schema ct g pages d :
  db_rep schema ct g pages d -> log_size wal_header (g_recs g) < 2 ^ 63 ->
  exists d', db_close d = (Ok tt, d') /\ (0 <= db_cache_cap d -> closed d') /\ closed_files schema (header_count (zlen pages) (g_hdr g)) pages d' /\
    db_schema d' = schema /\ db_explicit d' = db_explicit d /\ db_compression d' = db_compression d.
Proof.
  intros Hrep Hsz. pose proof Hrep as [Hc Hop Hh Hwl Hlg Hp Hst Hb Hbo Hn]. pose proof Hc as [Hl Hs Hpg Hi Hids Ht].
  destruct (flush_all_run schema ct (g_hdr g) (g_sy g) pages (db_pager d) Hpg (proj1 Hi) Hh)
    as (pg1 & Hr1 & Hpg1 & Hdisk & Hsy & _ & _).
  destruct (clear_run (db_wal d) (g_recs g) [] (proj1 Hwl)) as (w2 & Hr2 & Hw2 & Hsy2); [by rewrite app_nil_r|].
  destruct (close_run w2 [] [] Hw2) as (w3 & Hr3 & Ho3 & _ & _ & Hc3 & _ & Hsy3); [by vm_compute|].
  destruct (storage_close_run (pg_storage pg1) (pager_up _ _ _ _ _ _ Hpg1)) as (s4 & Hr4 & Ho4 & _ & He4 & Hc4 & Hsy4).
  unfold db_close. rewrite (M_bind_ok get _ _ _ _ eq_refl), Hop. cbn [negb].
  rewrite (M_bind_ok _ _ _ _ _ (on_pager_ok _ _ _ _ Hl Hr1)). set (d1 := db_set_pager pg1 d).
  rewrite (M_bind_ok _ _ _ _ _ (the_wal_ok wal_clear d1 _ _ Hr2)). set (d2 := db_set_wal w2 d1).
  rewrite (M_bind_ok _ _ _ _ _ (the_wal_ok wal_close d2 _ _ Hr3)). set (d3 := db_set_wal w3 d2).
  rewrite (M_bind_ok _ _ _ _ _ (the_storage_ok storage_close d3 _ _ Hr4)).
  rewrite (M_bind_ok (modify _) _ _ _ _ eq_refl). eexists. split; [reflexivity|].
  change (encode_records ([] ++ [])) with (@nil byte) in Hc3. rewrite app_nil_r in Hc3.
  pose proof (rep_content _ _ _ _ Hw2) as Hcw2. change (encode_records []) with (@nil byte) in Hcw2. rewrite app_nil_r in Hcw2.
  split_and!; try done.
  split; unfold data_file, wal_file; cbn; try done; try congruence.
  right. split_and!; [|constructor|apply valid_start_nil]. change (encode_records []) with (@nil byte). by rewrite !app_nil_r.
Qed.
End closing.

(** ** Crashes *)

Section crashes.
Context {F : Type} `{FileLaws F} `{!FileReliable F} `{!PreadWhole F} `{LZ4Laws}.
Implicit Types (d : DB F).

(** What a crash leaves of the files of [d]: the bytes that were synced, and perhaps
    the start of a record that was being written. *)
Record crashed d (tl : bytes) d0 : Prop := {
  cr_closed : closed d0;
  cr_exists : f_exists (data_file d0) = true;
  cr_data : f_content (data_file d0) = f_synced (data_file d);
  cr_data_synced : f_synced (data_file d0) = f_content (data_file d0);
  cr_log : f_content (wal_file d0) = f_synced (wal_file d) ++ tl;
  cr_log_synced : f_synced (wal_file d0) = f_content (wal_file d0);
  cr_torn : ~ valid_start tl;
}.

Lemma crashed_log d d0 recs tl :
  wal_durable (db_wal d) recs -> crashed d tl d0 -> log_file (f_content (wal_file d0)) recs tl.
Proof.
  intros [Hw Hs] [_ _ _ _ Hl _ Ht]. right. split_and!; [|by pose proof (rep_ok _ _ _ _ Hw) as Hok; rewrite app_nil_r in Hok|done].
  rewrite Hl. unfold wal_file. rewrite Hs, (rep_content _ _ _ _ Hw). by rewrite <- app_assoc.
Qed.

Lemma core_synced schema ct hdr sy pages d : db_core schema ct hdr sy pages d -> f_synced (data_file d) = sy.
Proof. intros Hc. destruct (dc_pager _ _ _ _ _ _ Hc) as (_ & ps & D & _ & Hpool). exact (er_synced _ _ _ _ _ _ (po_env _ _ _ _ _ _ _ _ Hpool)). Qed.

(** Opening after a crash, from a history whose checkpoint is safe. *)
Lemma reopen_run schema ct g pages d tl d0 :
  db_rep schema ct g pages d -> saved schema g ->
  crashed d tl d0 -> schema_agrees schema d0 -> db_compression d0 = ct ->
  exists d1, db_open_ d0 = (Ok tt, d1) /\ db_core schema ct (g_hdr g) (g_sy g) pages d1 /\ db_open d1 = true /\ db_indexes d1 = ∅ /\
    (tl = [] -> db_rep schema ct g pages d1).
Proof.
  intros Hrep Hsv Hcr Hag Hct. pose proof Hrep as [Hc Hop Hh Hwl Hlg Hp Hrs Hb [Hst Hlt] Hn].
  pose proof (core_synced _ _ _ _ _ _ Hc) as Hsy. pose proof Hcr as [Hcl Hex Hdata Hds _ Hls _]. subst ct.
  destruct (open_run d0 schema (g_hdr g) (g_base g) (g_recs g) (g_steps g) tl) as (d1 & Hr & Hc1 & Ho & Hi & Hw); try done.
  { rewrite Hdata, Hsy. exact Hsv. }
  { by apply (crashed_log d). }
  rewrite Hds, Hdata, Hsy, <- Hp in Hc1. exists d1. split_and!; [done..|]. intros ->. split; try done. apply Hw; [done|]. by right.
Qed.
End crashes.
