(* ===== verification/DbProperties.v ===== *)
(** What the database promises ([src/db.cpp], [include/xdl/db.h]): sessions, scans,
    range scans, types and bounds, closing, crashes, and one crash it does not
    survive unharmed. *)
From S2P Require Import Prelude Types Serialise Page Std BPTree Index Posix Wal Compression Migrate Storage Cache Pager Filter Db DbSpec DbOps DbQuery DbSession DbRecovery.

(** ** Definitions *)

(** Only rows of the schema come out, and nothing is undefined. *)
Definition result_ok (schema : Schema) (x : outcome db_result) : Prop :=
  match x with
  | Ok (RRow r) | Ok (RMaybe (Some r)) => row_ok schema r
  | Ok (RRows l) => Forall (row_ok schema) l
  | UB => False
  | _ => True
  end.

(** The bounds of a range scan have the field's type. *)
Definition bound_ok (ft : FieldType) (o : option FieldValue) (k : option bytes) : Prop := encode_bound o ft = Ok k.

(** *** A database in memory *)

Definition demo_schema : Schema := schema_of [mkFieldDef (str "age") UINT32; mkFieldDef (str "name") STRING].
Definition demo_file (bs : option bytes) : MemFile 8 true :=
  match bs with Some bs => mkMemFile true bs bs 0 | None => mkMemFile false [] [] 0 end.
Definition demo_new (f wf : option bytes) : DB (MemFile 8 true) :=
  mkDB demo_schema true CNone 2 (mkSchemaMigrate 1 1 []) (new_Pager (new_Storage (demo_file f) CNone) new_IndexManager 2)
    (new_WAL (demo_file wf)) false ∅ false.
Definition demo_db : DB (MemFile 8 true) := (db_open_ (demo_new None None)).2.
Definition demo_row (id age : Z) (name : bytes) : Row := mkRow id [VUint32 age; VString name].

(** The process dies, the files stay as the system has them. *)
Definition demo_kill (d : DB (MemFile 8 true)) : DB (MemFile 8 true) :=
  demo_new (Some (f_content (data_file d))) (Some (f_content (wal_file d))).
(** The power fails: what was synced stays. *)
Definition demo_crash (d : DB (MemFile 8 true)) : DB (MemFile 8 true) :=
  demo_new (Some (f_synced (data_file d))) (Some (f_synced (wal_file d))).

Definition demo_ops : list db_op :=
  [DInsert (demo_row 1 41 (str "ada")); DInsertBatch [demo_row 2 30 (str "bob"); demo_row 3 25 (str "cy")];
   DInsert (demo_row 2 9 (str "dup")); DCreateIndex (str "age"); DUpdate (demo_row 1 42 (str "ada"));
   DErase 2; DGet 2; DGet 1; DScanAll []; DHasIndex (str "age");
   DRangeScan (str "age") (Some (VUint32 26)) true None true; DRangeScan (str "zip") None true None true; DStats; DCheckpoint; DInsert (demo_row 7 77 (str "gus"))].

(** ** Lemmas *)

Lemma demo_new_closed f wf : closed (demo_new f wf).
Proof. split; vm_decide. Qed.

Definition demo_history : history := mkHistory (fresh_header CNone) (f_synced (data_file demo_db)) [] [] [].

Lemma demo_rep : db_rep demo_schema CNone demo_history [] demo_db.
Proof.
  destruct (open_new_file_run (demo_new None None) demo_schema (demo_new_closed None None)) as (d' & sy & Hr & Hrep & _); [done|done|done|vm_decide|vm_decide|vm_decide|].
  assert (demo_db = d') as Hd by (unfold demo_db; by rewrite Hr). rewrite <- Hd in Hrep.
  pose proof (core_synced _ _ _ _ _ _ (rp_core _ _ _ _ _ Hrep)) as Hs. cbn [g_sy] in Hs. unfold demo_history. by rewrite Hs.
Qed.

Lemma demo_indexes : db_indexes demo_db = ∅.
Proof.
  destruct (open_new_file_run (demo_new None None) demo_schema (demo_new_closed None None)) as (d' & sy & Hr & _ & Hi); [done|done|done|vm_decide|vm_decide|vm_decide|].
  unfold demo_db. by rewrite Hr.
Qed.

(** Rows stay typed. *)
Lemma op_value_ok schema o rows names : Forall (row_ok schema) rows -> result_ok schema (Ok (op_value schema o rows names)).
Proof.
  intros Hr. assert (Hf : forall (P : Row -> Prop) `{!forall r, Decision (P r)}, Forall (row_ok schema) (filter P rows)).
  { intros P HP. apply Forall_forall. intros q [_ Hq]%list_elem_of_filter. by apply (proj1 (Forall_forall _ _) Hr). }
  assert (Hid : forall id r, find_id id rows = Some r -> row_ok schema r).
  { intros id r. unfold find_id. specialize (Hf (fun r => row_id r = id) _). destruct (filter _ rows); intros [= <-]. by apply Forall_cons in Hf as [? _]. }
  destruct o; cbn [op_value result_ok]; [done..| | | |done|done|done| |done|done].
  - destruct (find_id id rows) eqn:E; [by eapply Hid|done].
  - destruct (find_id id rows) eqn:E; [by eapply Hid|done].
  - apply Hf.
  - apply Forall_forall. intros q Hq%range_rows_subset. by apply (proj1 (Forall_forall _ _) Hr).
Qed.

(** Without compression a page always fits its slot. *)
Lemma uncompressed_steps `{LZ4Lib} schema ms pages X :
  steps_legal schema ms X -> (forall x, x ∈ X <-> x ∈ row_ids pages) ->
  Forall (storable schema CNone) pages -> zlen pages + zlen ms < 2 ^ 32 -> steps_room CNone ms pages.
Proof.
  revert pages X. induction ms as [|s ms IH]; intros pages X Hl HX Hst Hlt; [done|]. destruct Hl as [Hs Hl]. cbn [length] in Hlt.
  pose proof (step_sizes schema CNone s pages X Hs Hst) as Hsz.
  assert (Hc : Forall (compressible CNone) (step_pages s pages)) by (eapply Forall_impl; [exact Hsz|]; intros rows [_ Hle]; exact Hle).
  assert (Hlt1 : zlen pages + 1 < 2 ^ 32) by lia. pose proof (step_ok_room schema CNone s pages X HX Hs Hst Hlt1 Hc) as [_ Hst'].
  cbn [steps_room]. split_and!; [done|done|]. eapply IH; [done|by apply ids_step|done|].
  assert (zlen (step_pages s pages) <= zlen pages + 1); [|lia]. destruct s as [r|id]; cbn [step_pages].
  - unfold pages_insert. destruct (target r pages) as [init rows] eqn:Ht. rewrite length_app. cbn [length].
    apply target_split in Ht as [(-> & -> & _)|(-> & _)]; [lia|rewrite length_app; cbn [length]; lia].
  - unfold pages_erase. rewrite length_fmap. lia.
Qed.

(** ** Properties *)

Section properties.
Context {F : Type} `{FileLaws F} `{!FileReliable F} `{!PreadWhole F} `{LZ4Laws}.
Implicit Types (d : DB F) (schema : Schema).

(** C1: the database is an ordered list of rows with distinct ids.  Any sequence of
    insertions, updates and deletions, single or in batches, point lookups, scans
    with a filter, range scans, statistics, index creations and removals and checkpoints returns, call by
    call, what the same operations on a list return: an insertion puts its row at the
    end, an update moves it there, and an operation that throws ([DuplicateKeyError],
    [NotFoundError], [XDLError] for a row that does not fit the schema or a page)
    changes nothing, a batch with one bad row included.  The buffer pool, the pages
    and the log do not show; an index shows in the order of a range scan, which is
    that of the keys, rows with equal keys staying in the order of the list. *)
Theorem db_session_refines schema ct g ops pages d :
  db_rep schema ct g pages d -> ops_room schema ct ops pages (log_size wal_header (g_recs g)) ->
  exists d' g', trace db_run ops d = (spec_results schema ops (concat pages, dom (db_indexes d)), d') /\
    db_rep schema ct g' (foldl (fun ps o => op_pages schema o ps) pages ops) d'.
Proof.
  intros Hrep Hroom. destruct (ops_correct schema ct ops g pages d Hrep Hroom) as (d' & g' & Hr & Hrep' & _). by exists d', g'.
Qed.

(** What the database returns is typed.  Every row that a lookup or a scan of a
    session returns has values of the types the schema declares, a 32-bit id and an
    encoding that fits a page, and no call is undefined behaviour. *)
Theorem db_results_typed schema ct g ops pages d :
  db_rep schema ct g pages d -> ops_room schema ct ops pages (log_size wal_header (g_recs g)) ->
  Forall (result_ok schema) (trace db_run ops d).1.
Proof.
  intros Hrep Hroom. revert g pages d Hrep Hroom. induction ops as [|o ops IH]; intros g pages d Hrep Hroom; [constructor|].
  destruct Hroom as [Ho Hroom]. destruct (op_correct schema ct g pages d Hrep o Ho) as (d1 & Hr & g1 & Hrep1 & Hi1 & Hlog & _).
  rewrite <- Hlog in Hroom. specialize (IH g1 _ d1 Hrep1 Hroom). cbn [trace]. rewrite Hr.
  destruct (trace db_run ops d1) as [rs d2]. cbn [fst] in *. constructor; [|done]. unfold answer, op_spec. cbn [fst snd].
  destruct (op_error schema (row_id <$> concat pages) o); [done|]. apply op_value_ok.
  eapply pages_rows_ok, (rp_core _ _ _ _ _ Hrep).
Qed.

(** C9: a scan visits the rows that match.  The visitor is called on the rows that
    pass the filter, in storage order, up to the first exception it throws, which
    [scan] passes on; the filter reads the bytes of the pages, and a row that does
    not pass is not decoded. *)
Theorem scan_visits {T} schema ct g pages d f (visitor : Row -> M T unit) (t : T) :
  db_rep schema ct g pages d -> NoDup f.*1 ->
  let res := mfor visitor (filter (selected f schema) (concat pages)) t in
  exists d', scan visitor f (d, t) = (res.1, (d', res.2)) /\ db_rep schema ct g pages d'.
Proof.
  intros Hrep Hf res. destruct (scan_unlocked_run schema ct _ _ pages d t f visitor (rp_core _ _ _ _ _ Hrep) (rp_names _ _ _ _ _ Hrep) Hf)
    as (d' & Hr & Hreads).
  exists d'. split; [|by eapply rep_reads]. unfold scan. rewrite (M_bind_ok _ _ (d, t) d (d, t)) by (by apply with_db_ok).
  by rewrite (rp_open _ _ _ _ _ Hrep).
Qed.

(** C8: a range scan finds the same rows with and without an index.  For bounds of
    the field's type, each absent, inclusive or exclusive, it returns each row with
    a key between the bounds once: in storage order without an index; with one, in
    the order of the keys and, for equal keys, in storage order.  The API reference
    promises the order of the keys for both. *)
Theorem index_range_scan_correct schema ct g pages d name fi fd lo li hi hii lk hk :
  db_rep schema ct g pages d -> field_index schema name = Z.of_nat fi -> fields schema !! fi = Some fd ->
  bound_ok (fd_type fd) lo lk -> bound_ok (fd_type fd) hi hk ->
  exists d' res, index_range_scan name lo li hi hii d = (Ok res, d') /\ db_rep schema ct g pages d' /\
    res ≡ₚ filter (key_in_range fd fi lk li hk hii) (concat pages) /\
    match db_indexes d !! name with
    | None => res = filter (key_in_range fd fi lk li hk hii) (concat pages)
    | Some _ => key_ordered fd fi lk li hk hii (concat pages) res
    end.
Proof.
  intros Hrep Hfi Hfd Hlo Hhi. pose proof (rp_core _ _ _ _ _ Hrep) as Hc. destruct (db_indexes d !! name) as [t|] eqn:Et.
  - destruct (range_scan_indexed schema ct _ _ pages d name fi fd lo li hi hii lk hk Hc Hfi Hfd) as (d' & res & Hr & Hreads & Ho); [by eexists|done..|].
    exists d', res. split_and!; [done|by eapply rep_reads|by apply Ho|done].
  - destruct (range_scan_unindexed schema ct _ _ pages d name fi fd lo li hi hii lk hk Hc (rp_names _ _ _ _ _ Hrep) Hfi Hfd Et) as (d' & Hr & Hreads); [done..|].
    eexists d', _. split_and!; [exact Hr|by eapply rep_reads|done|done].
Qed.

(** What fits.  In a database without compression, an operation on well-formed
    values that passes its checks always has room, as long as there are page numbers
    left and the log stays below the limit of file offsets. *)
Theorem uncompressed_room schema o pages n :
  op_wf o -> op_typed schema o -> Forall (storable schema CNone) pages -> zlen pages + zlen (op_steps o) < 2 ^ 32 ->
  n + steps_size (op_steps o) < 2 ^ 63 -> op_room schema CNone o pages n.
Proof.
  intros Hw Hty Hst Hlt Hn. split; [done|]. destruct (op_error schema (row_ids pages) o) eqn:He; [done|]. split_and!; [done| |done].
  apply (uncompressed_steps schema _ _ (list_to_set (row_ids pages))); [|by intros; rewrite elem_of_list_to_set|done|done].
  eapply op_legal; [exact He|]. intros. by rewrite elem_of_list_to_set.
Qed.




(** C10: [close] and [open] are inverse.  Closing a session makes everything durable
    and leaves an empty log; opening the files again gives a session with the same
    rows in the same order, every page being checkpointed. *)
Theorem close_open_roundtrip schema ct g pages d :
  db_rep schema ct g pages d -> log_size wal_header (g_recs g) < 2 ^ 63 -> 0 <= db_cache_cap d -> db_compression d = ct ->
  exists d1 d2 g', db_close d = (Ok tt, d1) /\ closed_files schema (g_hdr g') pages d1 /\ db_open_ d1 = (Ok tt, d2) /\
    db_rep schema ct g' pages d2 /\ saved schema g' /\ db_indexes d2 = ∅.
Proof.
  intros Hrep Hsz Hcap Hct. destruct (close_db_run schema ct g pages d Hrep Hsz) as (d1 & Hr1 & Hcl & Hcf & Hs1 & He1 & Hc1). specialize (Hcl Hcap).
  pose proof Hrep as [Hc Hop Hh Hwl Hlg Hp Hst Hb Hbo Hn]. pose proof (pager_storable schema ct _ _ pages _ (dc_pager _ _ _ _ _ _ Hc)) as [Hst1 Hlt1].
  pose proof Hcf as [Hex Hdisk Hsy Hlog Hlsy]. rewrite Hct in Hc1.
  destruct (open_run d1 schema (header_count (zlen pages) (g_hdr g)) pages [] [] []) as (d2 & Hr2 & Hc2 & Ho2 & Hi2 & Hw2); try done.
  { intros _. rewrite Hs1. apply schemas_match_refl. }
  { by rewrite Hc1. }
  { apply (dc_ids _ _ _ _ _ _ Hc). }
  exists d1, d2, (mkHistory (header_count (zlen pages) (g_hdr g)) (f_synced (data_file d1)) pages [] []).
  rewrite Hc1 in Hc2. split_and!; [done|done|done| | |done].
  - split; cbn [g_hdr g_sy g_base g_steps g_recs]; try done.
    + apply header_count_ok; [lia|done].
    + apply Hw2; [done|]. by right.
    + apply (dc_ids _ _ _ _ _ _ Hc).
  - unfold saved. cbn. by rewrite Hsy.
Qed.

(** C17: a file of another schema is not opened.  When the caller gives a schema and the
    file holds another one, [open] throws [MigrationError]; the object stays closed,
    the file keeps its bytes and the log is not touched. *)
Theorem open_rejects_schema d hdr stored :
  closed d -> f_exists (data_file d) = true -> db_layout (f_content (data_file d)) hdr stored ->
  db_explicit d = true -> schemas_match stored (db_schema d) = false ->
  exists d', db_open_ d = (Throw MigrationError, d') /\ closed d' /\ f_content (data_file d') = f_content (data_file d) /\
    db_schema d' = db_schema d /\ wal_file d' = wal_file d.
Proof.
  intros Hcl Hex Hlay He Hm. pose proof Hcl as [Hop Hs Hw Hix Hcap].
  unfold db_open_. rewrite (M_bind_ok get _ _ _ _ eq_refl), Hop. rewrite (M_bind_ok _ _ _ _ _ (renew_run d Hcl)). set (d0 := db_set_storage _ _).
  destruct (storage_open_existing (data_file d) (db_compression d) Hex) as (s1 & Hr1 & Hup1 & Hct1 & Hc1 & Hsy1).
  rewrite (M_bind_ok (the_storage storage_open) _ d0 tt (db_set_storage s1 d0)) by (by apply the_storage_ok). set (d1 := db_set_storage s1 d0).
  assert (Hlay1 : db_layout (f_content (st_file s1)) hdr stored) by (by rewrite Hc1).
  rewrite (M_bind_ok (the_storage read_db_header) _ d1 hdr d1).
  2: { apply the_storage_read, read_db_header_run; [done|apply Hlay|apply Hlay1]. }
  rewrite (M_bind_ok _ _ _ _ _ (stored_schema_run d1 hdr stored Hup1 Hlay1)).
  change (db_explicit d1) with (db_explicit d). change (db_schema d1) with (db_schema d). rewrite He, Hm. cbn [andb negb].
  destruct (storage_close_run s1 Hup1) as (s2 & Hr2 & Ho2 & _ & _ & Hc2 & _).
  exists (db_set_storage s2 d1). split_and!; [| | |done|done].
  - apply M_bind_throw. unfold reject. by rewrite (M_bind_ok (the_storage storage_close) _ d1 tt (db_set_storage s2 d1)) by (by apply the_storage_ok).
  - by split.
  - change (f_content (st_file s2) = f_content (data_file d)). congruence.
Qed.
End properties.

(** *** Witnesses *)

Lemma db_session_refines_witness :
  exists d' g', trace db_run demo_ops demo_db = (spec_results demo_schema demo_ops ([], dom (db_indexes demo_db)), d') /\
    db_rep demo_schema CNone g' [[demo_row 3 25 (str "cy"); demo_row 1 42 (str "ada"); demo_row 7 77 (str "gus")]] d'.
Proof. apply (db_session_refines demo_schema CNone demo_history demo_ops [] demo_db demo_rep). vm_decide. Defined.

Lemma db_results_typed_witness : Forall (result_ok demo_schema) (trace db_run demo_ops demo_db).1.
Proof. apply (db_results_typed demo_schema CNone demo_history demo_ops [] demo_db demo_rep). vm_decide. Defined.

(** The session of the witnesses below. *)
Definition demo_pages : list (list Row) := foldl (fun ps o => op_pages demo_schema o ps) [] demo_ops.
Definition demo_later : DB (MemFile 8 true) := (trace db_run demo_ops demo_db).2.

Lemma demo_checkpoint : DCheckpoint ∈ demo_ops.
Proof. apply list_elem_of_lookup. by exists 13%nat. Qed.

Lemma demo_later_rep : exists g, db_rep demo_schema CNone g demo_pages demo_later /\ saved demo_schema g.
Proof.
  destruct (ops_correct demo_schema CNone demo_ops demo_history [] demo_db demo_rep) as (d' & g' & Hr & Hrep & Hsv); [vm_decide|].
  exists g'. assert (demo_later = d') as -> by (unfold demo_later; by rewrite Hr). split; [done|]. apply Hsv. right. apply demo_checkpoint.
Qed.

(** A visitor that gives up at the second row. *)
Definition demo_visitor (r : Row) : M (list Z) unit :=
  l ← get; if bool_decide (length l = 1%nat) then throw NotFoundError else put (row_id r :: l).

Lemma scan_visits_witness :
  exists g, db_rep demo_schema CNone g demo_pages demo_later /\
    exists d', scan demo_visitor (filter_min_uint (str "age") 30 []) (demo_later, []) = (Throw NotFoundError, (d', [1])) /\
      db_rep demo_schema CNone g demo_pages d'.
Proof.
  destruct demo_later_rep as (g & Hrep & _). exists g. split; [done|].
  apply (scan_visits demo_schema CNone g demo_pages demo_later (filter_min_uint (str "age") 30 []) demo_visitor [] Hrep). vm_decide.
Defined.

Lemma index_range_scan_correct_witness :
  exists g, db_rep demo_schema CNone g demo_pages demo_later /\
    exists d' res, index_range_scan (str "age") (Some (VUint32 30)) true None true demo_later = (Ok res, d') /\
      db_rep demo_schema CNone g demo_pages d' /\
      res ≡ₚ filter (key_in_range (mkFieldDef (str "age") UINT32) 0 (Some (be_bytes 4 30)) true None true) (concat demo_pages) /\
      match db_indexes demo_later !! str "age" with
      | None => res = filter (key_in_range (mkFieldDef (str "age") UINT32) 0 (Some (be_bytes 4 30)) true None true) (concat demo_pages)
      | Some _ => key_ordered (mkFieldDef (str "age") UINT32) 0 (Some (be_bytes 4 30)) true None true (concat demo_pages) res
      end.
Proof.
  destruct demo_later_rep as (g & Hrep & _). exists g. split; [done|].
  apply (index_range_scan_correct demo_schema CNone g demo_pages demo_later (str "age") 0 (mkFieldDef (str "age") UINT32)
    (Some (VUint32 30)) true None true (Some (be_bytes 4 30)) None Hrep); vm_compute; reflexivity.
Defined.

Lemma uncompressed_room_witness : op_room demo_schema CNone (DInsertBatch [demo_row 2 30 (str "bob"); demo_row 3 25 (str "cy")]) demo_pages 100.
Proof. apply (uncompressed_room demo_schema); vm_decide. Defined.

(** Two bytes of a record that was not written out. *)
Definition demo_torn : bytes := [x07; x07].
Definition demo_crashed : DB (MemFile 8 true) :=
  demo_new (Some (f_synced (data_file demo_later))) (Some (f_synced (wal_file demo_later) ++ demo_torn)).

Lemma demo_torn_invalid : ~ valid_start demo_torn.
Proof. intros (r & tl & _ & Ht). apply (f_equal length) in Ht. rewrite length_app in Ht. pose proof (length_encode_record r). cbn [demo_torn length] in Ht. lia. Qed.


(** One row inserted after the checkpoint, and its page already in the file. *)
Lemma demo_steps : exists d g, db_run (DInsert (demo_row 5 50 (str "eve"))) demo_db = (Ok RUnit, d) /\
  db_rep demo_schema CNone g [[demo_row 5 50 (str "eve")]] d /\ g_base g = [] /\ g_steps g = [SInsert (demo_row 5 50 (str "eve"))].
Proof.
  destruct (op_correct demo_schema CNone demo_history [] demo_db demo_rep (DInsert (demo_row 5 50 (str "eve")))) as (d & Hr & g & Hrep & _ & _ & _ & Hst);
    [vm_decide|]. exists d, g. split_and!; [exact Hr|exact Hrep|by apply Hst|by apply Hst].
Qed.



Lemma close_open_roundtrip_witness :
  exists g d1 d2 g', db_rep demo_schema CNone g [] demo_db /\ db_close demo_db = (Ok tt, d1) /\ closed_files demo_schema (g_hdr g') [] d1 /\
    db_open_ d1 = (Ok tt, d2) /\ db_rep demo_schema CNone g' [] d2 /\ saved demo_schema g' /\ db_indexes d2 = ∅.
Proof.
  destruct (close_open_roundtrip demo_schema CNone demo_history [] demo_db demo_rep) as (d1 & d2 & g' & Hx); [vm_decide..|].
  exists demo_history, d1, d2, g'. split; [apply demo_rep|exact Hx].
Defined.

(** A file of another schema. *)
Definition demo_other : DB (MemFile 8 true) :=
  demo_new (Some (f_content (data_file (db_open_ (db_set_schema (schema_of [mkFieldDef (str "id") INT64]) (demo_new None None))).2))) None.

Lemma open_rejects_schema_witness :
  exists d', db_open_ demo_other = (Throw MigrationError, d') /\ closed d' /\ f_content (data_file d') = f_content (data_file demo_other) /\
    db_schema d' = db_schema demo_other /\ wal_file d' = wal_file demo_other.
Proof.
  apply (open_rejects_schema demo_other (fresh_header CNone) (schema_of [mkFieldDef (str "id") INT64])).
  - apply demo_new_closed.
  - reflexivity.
  - split; [vm_compute; reflexivity|apply fresh_header_ok|vm_compute; reflexivity|vm_compute; reflexivity|vm_decide|vm_decide].
  - reflexivity.
  - vm_compute. reflexivity.
Defined.

(** *** A crash that is not repaired *)

Definition demo_moves : list db_op :=
  [DInsertBatch ((fun id => demo_row id 1 []) <$> seqZ 1 129); DCheckpoint; DUpdate (demo_row 4 40 []); DGet 1; DGet 65].
Definition demo_moved : DB (MemFile 8 true) := (trace db_run demo_moves demo_db).2.

(** The ids that a scan of everything visits. *)
Definition scan_ids (d : DB (MemFile 8 true)) : list Z :=
  match (scan_all [] d).1 with Ok l => row_id <$> l | _ => [] end.

(** The condition of [recovery_mixed] that no id is in two places can fail.  Row 4 is updated: it leaves
    page 0 and its new version goes to the last page, 2.  A buffer pool of two pages
    then evicts page 2, which is written, while the changed page 0 stays in memory.
    The process dies.  The data file has the old row on page 0 and the new one on
    page 2; [recover] indexes the first and ignores the second, and the replay deletes
    the first and inserts the new row again.  [open] succeeds, and from then on a scan
    visits row 4 twice: the stray copy is not in the index, so no [erase] removes it. *)
Theorem crash_duplicates_row :
  scan_ids demo_moved = seqZ 1 3 ++ seqZ 5 125 ++ [4] /\
  let d := (db_open_ (demo_kill demo_moved)).2 in
  (db_open_ (demo_kill demo_moved)).1 = Ok tt /\ scan_ids d = seqZ 1 3 ++ seqZ 5 125 ++ [4; 4] /\
  scan_ids (erase 4 d).2 = seqZ 1 3 ++ seqZ 5 125 ++ [4] /\ (db_get 4 (erase 4 d).2).1 = Throw NotFoundError.
Proof. vm_compute. split_and!; reflexivity. Qed.
