(* ===== verification/Lock.v ===== *)
(** The reader-writer lock ([RWLock], [ReadLock], [WriteLock] of
    [include/xdl/types.h]) and threads that work under it.

    A call takes the lock in its mode, runs its body, and releases the lock, whether
    the body returns or throws (the RAII wrappers).  A body is a sequence of
    atomic steps on the shared state; between two steps any other thread may move.
    The scheduler is a function of the chosen thread, so runs can be evaluated; a
    thread that must wait cannot be chosen.  A client may name the steps that are data
    races: an execution that takes one is undefined. *)
From Stdlib Require Import Wellfounded.
From S2P Require Import Prelude.

(** ** Definitions *)

(** [std::shared_mutex] *)
Record RWLock := mkRWLock { lk_readers : nat; lk_writer : bool }.
Definition new_RWLock : RWLock := mkRWLock 0 false.

(** The blocking calls: [None] is to wait. *)
Definition rw_lock (l : RWLock) : option RWLock :=
  if lk_writer l || negb (bool_decide (lk_readers l = 0%nat)) then None else Some (mkRWLock 0 true).
Definition rw_lock_shared (l : RWLock) : option RWLock :=
  if lk_writer l then None else Some (mkRWLock (S (lk_readers l)) false).

(** To release a lock that is not held is undefined. *)
Definition rw_unlock (l : RWLock) : outcome RWLock := if lk_writer l then Ok (mkRWLock (lk_readers l) false) else UB.
Definition rw_unlock_shared (l : RWLock) : outcome RWLock :=
  match lk_readers l with O => UB | S n => Ok (mkRWLock n (lk_writer l)) end.

(** The standard lets the try functions fail for no reason. *)
Definition rw_try_lock (spurious : bool) (l : RWLock) : bool * RWLock :=
  match rw_lock l with Some l' => if spurious then (false, l) else (true, l') | None => (false, l) end.
Definition rw_try_lock_shared (spurious : bool) (l : RWLock) : bool * RWLock :=
  match rw_lock_shared l with Some l' => if spurious then (false, l) else (true, l') | None => (false, l) end.

(** What a scope that holds a [ReadLock] or a [WriteLock] does at its two ends. *)
Inductive mode := Shared | Exclusive.
Definition same_mode (m n : mode) : bool := match m, n with Shared, Shared | Exclusive, Exclusive => true | _, _ => false end.
Definition acquire (m : mode) : RWLock -> option RWLock := match m with Shared => rw_lock_shared | Exclusive => rw_lock end.
Definition release (m : mode) : RWLock -> outcome RWLock := match m with Shared => rw_unlock_shared | Exclusive => rw_unlock end.

(** *** Bodies: atomic steps, labelled with what they touch *)

Inductive prog (L S A : Type) : Type :=
| Ret (o : outcome A)
| Step {B : Type} (lbl : L) (m : M S B) (k : B -> prog L S A).
Arguments Ret {L S A} o. Arguments Step {L S A B} lbl m k.

Section prog.
Context {L S : Type}.

Definition atomic {A} (lbl : L) (m : M S A) : prog L S A := Step lbl m (fun a => Ret (Ok a)).

Fixpoint pbind {A B} (p : prog L S A) (k : A -> prog L S B) : prog L S B :=
  match p with
  | Ret (Ok a) => k a
  | Ret (Throw e) => Ret (Throw e)
  | Ret UB => Ret UB
  | Step lbl m q => Step lbl m (fun b => pbind (q b) k)
  end.

(** [try ... catch]: an exception of a step goes to the handler. *)
Definition attempt {A} (m : M S A) : M S (A + exn) := fun s =>
  match m s with
  | (Ok a, s') => (Ok (inl a), s')
  | (Throw e, s') => (Ok (inr e), s')
  | (UB, s') => (UB, s')
  end.
Fixpoint pcatch {A} (p : prog L S A) (h : exn -> prog L S A) : prog L S A :=
  match p with
  | Ret (Throw e) => h e
  | Ret o => Ret o
  | Step lbl m q => Step lbl (attempt m) (fun x => match x with inl b => pcatch (q b) h | inr e => h e end)
  end.

(** The body alone, from start to end. *)
Fixpoint exec {A} (p : prog L S A) : M S A :=
  match p with
  | Ret o => fun s => (o, s)
  | Step _ m k => b ← m; exec (k b)
  end.

(** One step of it. *)
Definition prog_step {A B} (m : M S B) (k : B -> prog L S A) (s : S) : prog L S A * S :=
  match m s with
  | (Ok b, s') => (k b, s')
  | (Throw e, s') => (Ret (Throw e), s')
  | (UB, s') => (Ret UB, s')
  end.
End prog.

(** *** Threads *)

(** The operations a client calls, on a shared state. *)
Class Client (O L S R : Type) := {
  call_mode : O -> mode;
  call_body : O -> prog L S R;
}.

Section threads.
Context {O L S R : Type} `{!Client O L S R}.

(** The calls to come, the one that runs, the results so far. *)
Record thread := mkThread { t_calls : list O; t_now : option (O * prog L S R); t_done : list (outcome R) }.

(** [c_order]: the calls in the order in which they took the lock. *)
Record config := mkConfig { c_lock : RWLock; c_state : S; c_threads : list thread; c_order : list (nat * O) }.

Definition start (calls : list (list O)) (s : S) : config :=
  mkConfig new_RWLock s ((fun os => mkThread os None []) <$> calls) [].

(** Thread [i] moves. *)
Definition step_thread (i : nat) (c : config) : option config :=
  th ← c_threads c !! i;
  match t_now th with
  | None =>
      match t_calls th with
      | [] => None
      | o :: os =>
          l ← acquire (call_mode o) (c_lock c);
          Some (mkConfig l (c_state c) (<[i := mkThread os (Some (o, call_body o)) (t_done th)]> (c_threads c))
                  (c_order c ++ [(i, o)]))
      end
  | Some (o, Step _ m k) =>
      let '(p, s) := prog_step m k (c_state c) in
      Some (mkConfig (c_lock c) s (<[i := mkThread (t_calls th) (Some (o, p)) (t_done th)]> (c_threads c)) (c_order c))
  | Some (o, Ret r) =>
      match release (call_mode o) (c_lock c) with
      | Ok l => Some (mkConfig l (c_state c) (<[i := mkThread (t_calls th) None (t_done th ++ [r])]> (c_threads c)) (c_order c))
      | _ => None
      end
  end.

Definition steps_to (c c' : config) : Prop := exists i, step_thread i c = Some c'.
Definition reaches : config -> config -> Prop := rtc steps_to.

(** A whole schedule; choices that are not possible are skipped. *)
Fixpoint run_schedule (choices : list nat) (c : config) : config :=
  match choices with
  | [] => c
  | i :: choices => run_schedule choices (default c (step_thread i c))
  end.

(** *** Executions with data races

    [races i c]: thread [i]'s next step and what another thread does are a data race.
    The behaviour of the program is then undefined, whatever comes next; [None] stands
    for that. *)
Inductive executes (races : nat -> config -> bool) (c0 : config) : option config -> Prop :=
| executes_start : executes races c0 (Some c0)
| executes_step c c' i : executes races c0 (Some c) -> step_thread i c = Some c' -> races i c = false -> executes races c0 (Some c')
| executes_race c c' i : executes races c0 (Some c) -> step_thread i c = Some c' -> races i c = true -> executes races c0 None.

(** A whole schedule, up to a race; choices that are not possible are skipped. *)
Fixpoint run_racing (races : nat -> config -> bool) (choices : list nat) (c : config) : option config :=
  match choices with
  | [] => Some c
  | i :: choices =>
      match step_thread i c with
      | None => run_racing races choices c
      | Some c' => if races i c then None else run_racing races choices c'
      end
  end.

(** Every call has returned. *)
Definition all_done (c : config) : Prop := Forall (fun th => t_calls th = [] /\ t_now th = None) (c_threads c).

(** The thread is in a call of this mode. *)
Definition inside (m : mode) (th : thread) : bool :=
  match t_now th with Some (o, _) => same_mode (call_mode o) m | None => false end.
Definition holders (m : mode) (ths : list thread) : nat := length (filter (fun th => inside m th = true) ths).

(** The lock counts the threads inside. *)
Definition lock_ok (c : config) : Prop :=
  lk_readers (c_lock c) = holders Shared (c_threads c) /\
  holders Exclusive (c_threads c) = (if lk_writer (c_lock c) then 1%nat else 0%nat) /\
  (lk_writer (c_lock c) = true -> holders Shared (c_threads c) = 0%nat).
End threads.
Arguments thread : clear implicits. Arguments config : clear implicits.

(** *** What the client promises *)

(** A specification on abstract states.  [rely a s s'] is what happens to the shared
    state while readers are at work and the abstract state is [a]. *)
Class Spec (O L S R : Type) `{!Client O L S R} (A : Type) := {
  spec : O -> A -> outcome R * A;
  allowed : O -> A -> Prop;
  rep : A -> S -> Prop;
  rely : A -> S -> S -> Prop;
}.

Section safe.
Context {O L S R A : Type} `{!Client O L S R, !Spec O L S R A}.

(** Whatever other readers do between its steps, the body does what it may and
    ends with [Q]. *)
Fixpoint safe {B} (a : A) (p : prog L S B) (s : S) (Q : outcome B -> S -> Prop) : Prop :=
  match p with
  | Ret o => Q o s
  | Step _ m k => forall s1, rely a s s1 ->
      match m s1 with
      | (Ok b, s2) => rely a s1 s2 /\ safe a (k b) s2 Q
      | (Throw e, s2) => rely a s1 s2 /\ Q (Throw e) s2
      | (UB, _) => False
      end
  end.

(** ... and returns [r]. *)
Definition returns {B} (a : A) (p : prog L S B) (s : S) (r : outcome B) : Prop := safe a p s (fun o _ => o = r).
End safe.

Class Lawful (O L S R A : Type) `{!Client O L S R, !Spec O L S R A} := {
  rely_refl a s : rep a s -> rely a s s;
  rely_trans a s1 s2 s3 : rely a s1 s2 -> rely a s2 s3 -> rely a s1 s3;
  rely_rep a s s' : rely a s s' -> rep a s';
  exclusive_ok o a s : call_mode o = Exclusive -> allowed o a -> rep a s ->
    exists s', exec (call_body o) s = ((spec o a).1, s') /\ rep (spec o a).2 s';
  shared_ok o a s : call_mode o = Shared -> allowed o a -> rep a s ->
    (spec o a).2 = a /\ returns a (call_body o) s (spec o a).1;
}.

(** The calls one after the other on the abstract state. *)
Section order.
Context {O L S R A : Type} `{!Client O L S R, !Spec O L S R A}.

Fixpoint spec_run (order : list (nat * O)) (a : A) : list (nat * outcome R) * A :=
  match order with
  | [] => ([], a)
  | (i, o) :: order => let '(rs, a') := spec_run order (spec o a).2 in ((i, (spec o a).1) :: rs, a')
  end.
Fixpoint allowed_run (order : list (nat * O)) (a : A) : Prop :=
  match order with
  | [] => True
  | (i, o) :: order => allowed o a /\ allowed_run order (spec o a).2
  end.
End order.

(** What belongs to one thread. *)
Definition of_thread {X} (i : nat) (l : list (nat * X)) : list X := (filter (fun x => x.1 = i) l).*2.

(** ** Lemmas *)

(** *** Rules for [safe] *)

Section safe_rules.
Context {O L S R A : Type} `{!Client O L S R, !Spec O L S R A}.

Lemma safe_atomic {B B'} a lbl (m : M S B) (k : B -> prog L S B') s Q :
  (forall s1, rely a s s1 -> exists b s2, m s1 = (Ok b, s2) /\ rely a s1 s2 /\ safe a (k b) s2 Q) -> safe a (Step lbl m k) s Q.
Proof. intros Hs s1 Hr. destruct (Hs s1 Hr) as (b & s2 & -> & ?). done. Qed.

Lemma safe_bind {B B'} a (p : prog L S B) (k : B -> prog L S B') s Q :
  safe a p s (fun o s' => match o with Ok b => safe a (k b) s' Q | Throw e => Q (Throw e) s' | UB => Q UB s' end) ->
  safe a (pbind p k) s Q.
Proof.
  revert s. induction p as [[b|e|]|B1 lbl m q IH]; intros s Hs; cbn [pbind]; try done.
  intros s1 Hr. specialize (Hs s1 Hr). destruct (m s1) as [[b|e|] s2]; [|done|done]. destruct Hs as [? Hs]. split; [done|]. by apply IH.
Qed.

(** A body that ends in a step. *)
Lemma safe_bind_ret {B} a (p : prog L S B) s Q : safe a (pbind p (fun b => Ret (Ok b))) s Q -> safe a p s Q.
Proof.
  revert s. induction p as [[b|e|]|B1 lbl m q IH]; intros s Hs; [done..|]. intros s1 Hr. specialize (Hs s1 Hr).
  destruct (m s1) as [[b|e|] s2]; [|done|done]. destruct Hs as [? Hs]. split; [done|]. by apply IH.
Qed.

Lemma safe_mono {B} a (p : prog L S B) s (Q Q' : outcome B -> S -> Prop) :
  (forall o s', Q o s' -> Q' o s') -> safe a p s Q -> safe a p s Q'.
Proof.
  intros HQ. revert s. induction p as [o|B1 lbl m q IH]; intros s Hs; [by apply HQ|]. intros s1 Hr. specialize (Hs s1 Hr).
  destruct (m s1) as [[b|e|] s2]; [|naive_solver|done]. destruct Hs as [? Hs]. split; [done|]. by apply IH.
Qed.

Lemma safe_catch {B} a (p : prog L S B) (h : exn -> prog L S B) s Q :
  safe a p s (fun o s' => match o with Throw e => safe a (h e) s' Q | o => Q o s' end) -> safe a (pcatch p h) s Q.
Proof.
  revert s. induction p as [[b|e|]|B1 lbl m q IH]; intros s Hs; cbn [pcatch]; try done.
  intros s1 Hr. specialize (Hs s1 Hr). unfold attempt. destruct (m s1) as [[b|e|] s2]; [|done|done].
  destruct Hs as [? Hs]. split; [done|]. by apply IH.
Qed.

(** A reader that is left alone returns the same. *)
Lemma safe_exec {B} a (p : prog L S B) s (Q : outcome B -> S -> Prop) :
  (forall s s', rely a s s' -> rely a s' s') -> rely a s s -> safe a p s Q -> Q (exec p s).1 (exec p s).2.
Proof.
  intros Hrefl. revert s. induction p as [o|B1 lbl m q IH]; intros s Hr Hs; [done|]. specialize (Hs s Hr). cbn [exec].
  unfold mbind, M_bind. destruct (m s) as [[b|e|] s2]; [|apply Hs|done]. destruct Hs as [Hr2 Hs]. apply IH; [by eapply Hrefl|done].
Qed.

(** The body alone. *)
Lemma exec_bind {B B'} (p : prog L S B) (k : B -> prog L S B') s :
  exec (pbind p k) s = (b ← exec p; exec (k b)) s.
Proof.
  revert s. induction p as [[b|e|]|B1 lbl m q IH]; intros s; cbn [pbind exec]; try done.
  unfold mbind, M_bind in *. destruct (m s) as [[b|e|] s1]; [apply IH|done|done].
Qed.

Lemma exec_catch {B} (p : prog L S B) (h : exn -> prog L S B) s :
  exec (pcatch p h) s = catch (exec p) (fun e => exec (h e)) s.
Proof.
  revert s. induction p as [[b|e|]|B1 lbl m q IH]; intros s; cbn [pcatch exec]; try done.
  unfold catch, mbind, M_bind, attempt in *. destruct (m s) as [[b|e|] s1]; [apply IH|done|done].
Qed.
End safe_rules.

Section lock_lemmas.
Context {O L S R : Type} `{!Client O L S R}.
Implicit Types (c : config O L S R) (th : thread O L S R).

Lemma holders_insert m ths i th th' :
  ths !! i = Some th ->
  (holders m (<[i := th']> ths) + (if inside m th then 1 else 0) = holders m ths + (if inside m th' then 1 else 0))%nat.
Proof.
  intros Hi. unfold holders. rewrite <- (take_drop_middle ths i th Hi) at 2.
  rewrite insert_take_drop by (by eapply lookup_lt_Some). rewrite !filter_app, !filter_cons, !length_app.
  destruct (inside m th), (inside m th'); repeat (case_decide; try done); cbn [length]; lia.
Qed.

(** *** Executions *)

Lemma executes_reaches races c0 c : executes races c0 (Some c) -> reaches c0 c.
Proof.
  remember (Some c) as x eqn:Hx. intros He. revert c Hx. induction He as [|c1 c2 i _ IH Hs _|c1 c2 i _ _ _ _]; intros c' Hx; [|injection Hx as <-|done].
  - by injection Hx as <-.
  - eapply rtc_r; [by apply IH|by exists i].
Qed.

(** What is evaluated is an execution, one that meets a race included. *)
Lemma run_racing_executes races choices c0 c : executes races c0 (Some c) -> executes races c0 (run_racing races choices c).
Proof.
  revert c. induction choices as [|i choices IH]; intros c He; [done|]. cbn [run_racing].
  destruct (step_thread i c) as [c'|] eqn:Hs; [|by apply IH]. destruct (races i c) eqn:Hr; [by eapply executes_race|].
  apply IH. by eapply executes_step.
Qed.

Lemma run_racing_default races choices c0 :
  match run_racing races choices c0 with Some _ => true | None => false end = true -> executes races c0 (Some (default c0 (run_racing races choices c0))).
Proof.
  intros Hr. pose proof (run_racing_executes races choices c0 c0 (executes_start _ _)) as He. by destruct (run_racing races choices c0).
Qed.

(** Where no reachable step races, no execution is undefined. *)
Lemma executes_defined races c0 :
  (forall c i, reaches c0 c -> races i c = false) -> ~ executes races c0 None.
Proof.
  intros Hn He. inversion He as [| |c c' i Hc Hs Hr]; subst. apply executes_reaches in Hc. by rewrite (Hn c i Hc) in Hr.
Qed.

(** *** Steps by kind *)

Inductive step_kind i c c' : Prop :=
| KAcquire th o os l :
    c_threads c !! i = Some th -> t_now th = None -> t_calls th = o :: os -> acquire (call_mode o) (c_lock c) = Some l ->
    c' = mkConfig l (c_state c) (<[i := mkThread os (Some (o, call_body o)) (t_done th)]> (c_threads c)) (c_order c ++ [(i, o)]) ->
    step_kind i c c'
| KStep th o B lbl (m : M S B) k p s :
    c_threads c !! i = Some th -> t_now th = Some (o, Step lbl m k) -> prog_step m k (c_state c) = (p, s) ->
    c' = mkConfig (c_lock c) s (<[i := mkThread (t_calls th) (Some (o, p)) (t_done th)]> (c_threads c)) (c_order c) ->
    step_kind i c c'
| KRelease th o r l :
    c_threads c !! i = Some th -> t_now th = Some (o, Ret r) -> release (call_mode o) (c_lock c) = Ok l ->
    c' = mkConfig l (c_state c) (<[i := mkThread (t_calls th) None (t_done th ++ [r])]> (c_threads c)) (c_order c) ->
    step_kind i c c'.

Lemma step_thread_kind i c c' : step_thread i c = Some c' -> step_kind i c c'.
Proof.
  unfold step_thread. intros (th & Hi & Hs)%bind_Some. destruct (t_now th) as [[o [r|B lbl m k]]|] eqn:En.
  - destruct (release _ _) as [l| |] eqn:El; [|done..]. injection Hs as <-. by eapply KRelease.
  - destruct (prog_step m k (c_state c)) as [p s] eqn:Ep. injection Hs as <-. by eapply KStep.
  - destruct (t_calls th) as [|o os] eqn:Ec; [done|]. apply bind_Some in Hs as (l & Hl & [= <-]). by eapply KAcquire.
Qed.

(** *** The lock counts *)

Lemma lock_ok_start calls s : lock_ok (start calls s : config O L S R).
Proof.
  assert (Hz : forall m, holders m (c_threads (start calls s : config O L S R)) = 0%nat).
  { intros m. unfold holders. cbn [start c_threads]. induction calls as [|os calls IH]; [done|]. cbn [fmap list_fmap].
    rewrite filter_cons. by case_decide. }
  split_and!; by rewrite ?Hz.
Qed.

Lemma lock_ok_step i c c' : lock_ok c -> step_thread i c = Some c' -> lock_ok c'.
Proof.
  intros (Hr & Hw & Hx) [th o os l Hi Hn _ Hl ->|th o B lbl m k p s Hi Hn _ ->|th o r l Hi Hn Hl ->]%step_thread_kind;
    unfold lock_ok; cbn [c_lock c_threads];
    match goal with |- context [<[i := ?th']> _] =>
      pose proof (holders_insert Shared _ i th th' Hi) as HS; pose proof (holders_insert Exclusive _ i th th' Hi) as HX end;
    unfold inside in HS, HX; cbn [t_now] in HS, HX; rewrite Hn in HS, HX.
  - destruct (c_lock c) as [n w]; cbn [lk_readers lk_writer] in *.
    destruct (call_mode o); cbn [acquire] in Hl; unfold rw_lock, rw_lock_shared in Hl; cbn [lk_readers lk_writer] in Hl;
      destruct w; cbn [orb] in Hl; try done; try (destruct (decide (n = 0%nat)) as [Hn0|Hn0];
        [rewrite bool_decide_eq_true_2 in Hl by done|by rewrite bool_decide_eq_false_2 in Hl]); injection Hl as <-;
      cbn in HS, HX, Hw |- *; split_and!; try done; intros; lia.
  - destruct (call_mode o); cbn in HS, HX; destruct (lk_writer (c_lock c)); split_and!; intros; try lia; specialize (Hx eq_refl); lia.
  - destruct (c_lock c) as [n w]; cbn [lk_readers lk_writer] in *.
    destruct (call_mode o); cbn [release] in Hl; unfold rw_unlock, rw_unlock_shared in Hl; cbn [lk_readers lk_writer] in Hl.
    + destruct n as [|n]; [done|]. injection Hl as <-. cbn [lk_readers lk_writer]. cbn in HS, HX.
      split_and!; [lia|lia|]. intros ->. specialize (Hx eq_refl). lia.
    + destruct w; [|done]. injection Hl as <-. cbn [lk_readers lk_writer]. cbn in HS, HX. split_and!; [lia|lia|done].
Qed.

Lemma lock_ok_reaches c c' : lock_ok c -> reaches c c' -> lock_ok c'.
Proof. intros Hok Hr. induction Hr as [|c c1 c' [i Hs] Hr IH]; [done|]. apply IH. by eapply lock_ok_step. Qed.

(** A thread inside is counted. *)
Lemma holders_pos m ths i th : ths !! i = Some th -> inside m th = true -> (0 < holders m ths)%nat.
Proof.
  intros Hi Hm. unfold holders. assert (Hin : th ∈ filter (fun th => inside m th = true) ths).
  { apply list_elem_of_filter. split; [done|by eapply list_elem_of_lookup_2]. }
  destruct (filter _ ths); [by apply not_elem_of_nil in Hin|cbn; lia].
Qed.

Lemma holders_two m ths i j th th' :
  i <> j -> ths !! i = Some th -> ths !! j = Some th' -> inside m th = true -> inside m th' = true -> (2 <= holders m ths)%nat.
Proof.
  intros Hne Hi Hj Hm Hm'. pose proof (holders_insert m ths i th (mkThread [] None []) Hi) as Hc. rewrite Hm in Hc. cbn in Hc.
  pose proof (holders_pos m (<[i := mkThread [] None []]> ths) j th') as Hp. rewrite list_lookup_insert_ne in Hp by done.
  specialize (Hp Hj Hm'). lia.
Qed.

(** While a thread is in an exclusive call, no other is in any call. *)
Lemma exclusive_alone c i j th th' :
  lock_ok c -> i <> j -> c_threads c !! i = Some th -> c_threads c !! j = Some th' -> inside Exclusive th = true -> t_now th' = None.
Proof.
  intros (Hr & Hw & Hx) Hne Hi Hj Hin. pose proof (holders_pos _ _ _ _ Hi Hin) as Hp.
  destruct (lk_writer (c_lock c)); [|lia]. specialize (Hx eq_refl).
  destruct (t_now th') as [[o p]|] eqn:En; [exfalso|done]. destruct (call_mode o) eqn:Em.
  - pose proof (holders_pos Shared _ _ _ Hj) as Hq. unfold inside in Hq. rewrite En, Em in Hq. specialize (Hq eq_refl). lia.
  - pose proof (holders_two Exclusive _ _ _ _ _ Hne Hi Hj Hin) as Hq. unfold inside in Hq at 1. rewrite En, Em in Hq. specialize (Hq eq_refl). lia.
Qed.
End lock_lemmas.

(** *** Progress and termination *)

Section progress.
Context {O L S R : Type} `{!Client O L S R}.
Implicit Types (c : config O L S R) (th : thread O L S R).

Lemma acquire_free m : exists l, acquire m new_RWLock = Some l.
Proof. destruct m; by eexists. Qed.

Lemma release_held c i th o p :
  lock_ok c -> c_threads c !! i = Some th -> t_now th = Some (o, p) -> exists l, release (call_mode o) (c_lock c) = Ok l.
Proof.
  intros (Hr & Hw & Hx) Hi Hn. assert (Hin : inside (call_mode o) th = true) by (unfold inside; rewrite Hn; by destruct (call_mode o)).
  pose proof (holders_pos _ _ _ _ Hi Hin) as Hp. destruct (call_mode o); cbn [release]; unfold rw_unlock, rw_unlock_shared.
  - destruct (lk_readers (c_lock c)); [lia|by eexists].
  - destruct (lk_writer (c_lock c)); [by eexists|lia].
Qed.

(** A thread inside a call can always move. *)
Lemma inside_moves c i th o p :
  lock_ok c -> c_threads c !! i = Some th -> t_now th = Some (o, p) -> exists c', step_thread i c = Some c'.
Proof.
  intros Hok Hi Hn. unfold step_thread. rewrite Hi. cbn [mbind option_bind]. rewrite Hn. destruct p as [r|B lbl m k].
  - destruct (release_held c i th o (Ret r) Hok Hi Hn) as [l ->]. by eexists.
  - destruct (prog_step m k (c_state c)) as [p s]. by eexists.
Qed.

Lemma stuck_done c : lock_ok c -> (forall i, step_thread i c = None) -> all_done c.
Proof.
  intros Hok Hst. assert (Hidle : forall i th, c_threads c !! i = Some th -> t_now th = None).
  { intros i th Hi. destruct (t_now th) as [[o p]|] eqn:En; [|done].
    destruct (inside_moves c i th o p Hok Hi En) as [c' Hc]. by rewrite Hst in Hc. }
  assert (Hz : forall m, holders m (c_threads c) = 0%nat).
  { intros m. unfold holders. rewrite filter_none; [done|]. apply Forall_lookup. intros i th Hi. unfold inside. by rewrite (Hidle i th Hi). }
  destruct Hok as (Hr & Hw & _). rewrite !Hz in *. assert (Hl : c_lock c = new_RWLock).
  { destruct (c_lock c) as [n []]; cbn in *; [done|]. by subst. }
  apply Forall_lookup. intros i th Hi. split; [|by eapply Hidle]. destruct (t_calls th) as [|o os] eqn:Ec; [done|].
  specialize (Hst i). unfold step_thread in Hst. rewrite Hi in Hst. cbn [mbind option_bind] in Hst. rewrite (Hidle i th Hi), Ec, Hl in Hst.
  destruct (acquire_free (call_mode o)) as [l Ha]. by rewrite Ha in Hst.
Qed.

(** When all is done the lock is free. *)
Lemma done_free c : lock_ok c -> all_done c -> c_lock c = new_RWLock.
Proof.
  intros (Hr & Hw & _) Hd. assert (Hz : forall m, holders m (c_threads c) = 0%nat).
  { intros m. unfold holders. rewrite filter_none; [done|]. eapply Forall_impl; [exact Hd|]. intros th [_ Hn]. unfold inside. by rewrite Hn. }
  rewrite !Hz in *. destruct (c_lock c) as [n []]; cbn in *; [done|]. by subst.
Qed.

Lemma run_reaches choices c : reaches c (run_schedule choices c).
Proof.
  revert c. induction choices as [|i choices IH]; intros c; [apply rtc_refl|]. cbn [run_schedule].
  destruct (step_thread i c) as [c'|] eqn:Es; cbn [default]; [|apply IH]. eapply rtc_l; [by exists i|apply IH].
Qed.

(** *** Every run ends *)

Definition smaller {A} (q p : prog L S A) : Prop :=
  match p with
  | Ret _ => False
  | Step _ m k => (exists b, q = k b) \/ (exists o, q = Ret o)
  end.

Lemma smaller_acc {A} (p : prog L S A) : Acc smaller p.
Proof.
  induction p as [o|B lbl m k IH]; constructor; intros q; [done|]. intros [[b ->]|[o ->]]; [done|]. by constructor.
Qed.

Lemma prog_step_smaller {A B} lbl (m : M S B) (k : B -> prog L S A) s p s' : prog_step m k s = (p, s') -> smaller p (Step lbl m k).
Proof. unfold prog_step. destruct (m s) as [[b|e|] s1]; intros [= <- <-]; cbn; eauto. Qed.

(** A thread after a move. *)
Definition thread_less (th' th : thread O L S R) : Prop :=
  match t_now th with
  | None => exists o p, t_calls th = o :: t_calls th' /\ t_now th' = Some (o, p)
  | Some (o, p) => t_calls th' = t_calls th /\ (t_now th' = None \/ exists q, t_now th' = Some (o, q) /\ smaller q p)
  end.

Lemma thread_acc th : Acc thread_less th.
Proof.
  destruct th as [os now rs]. revert now rs. induction os as [|o os IH]; intros now rs.
  - assert (Hidle : forall rs, Acc thread_less (mkThread [] None rs)) by (intros rs'; constructor; intros th' (o & p & ? & _); done).
    destruct now as [[o p]|]; [|done]. revert rs. induction (smaller_acc p) as [p _ IHp]. intros rs. constructor.
    intros [os' now' rs'] [Hos [Hn|(q & Hn & Hq)]]; cbn in *; subst; [done|by apply IHp].
  - assert (Hidle : forall rs, Acc thread_less (mkThread (o :: os) None rs)).
    { intros rs'. constructor. intros [os' now' rs2] (o' & p & Hos & Hn). cbn in *. injection Hos as -> ->. apply IH. }
    destruct now as [[o' p]|]; [|done]. revert rs. induction (smaller_acc p) as [p _ IHp]. intros rs. constructor.
    intros [os' now' rs'] [Hos [Hn|(q & Hn & Hq)]]; cbn in *; subst; [done|by apply IHp].
Qed.

(** One element of a list moves. *)
Definition one_less {X} (R' : X -> X -> Prop) (l' l : list X) : Prop :=
  exists i x x', l !! i = Some x /\ R' x' x /\ l' = <[i := x']> l.

Lemma one_less_acc {X} (R' : X -> X -> Prop) l : Forall (Acc R') l -> Acc (one_less R') l.
Proof.
  induction l as [|x l IH]; intros Hl; [constructor; intros l' (i & x & x' & Hi & _); done|].
  apply Forall_cons in Hl as [Hx Hl]. specialize (IH Hl). clear Hl. revert l IH.
  induction Hx as [x _ IHx]. intros l Hl. induction Hl as [l Hl' IHl]. constructor. intros l' ([|i] & y & y' & Hi & Hy & ->).
  - cbn in Hi. injection Hi as ->. apply IHx; [done|]. by constructor.
  - apply IHl. by exists i, y, y'.
Qed.

Lemma step_less c c' : steps_to c c' -> one_less thread_less (c_threads c') (c_threads c).
Proof.
  intros [i [th o os l Hi Hn Hc _ ->|th o B lbl m k p s Hi Hn Hp ->|th o r l Hi Hn _ ->]%step_thread_kind]; exists i, th; eexists;
    (split; [done|split; [|reflexivity]]); unfold thread_less; rewrite Hn; cbn [t_calls t_now].
  - by exists o, (call_body o).
  - split; [done|]. right. exists p. split; [done|]. by eapply prog_step_smaller.
  - split; [done|by left].
Qed.

Lemma steps_acc c : Acc (fun c' c => steps_to c c') c.
Proof.
  assert (Hl : Acc (one_less thread_less) (c_threads c)) by (apply one_less_acc, Forall_forall; intros; apply thread_acc).
  remember (c_threads c) as l eqn:El. revert c El. induction Hl as [l _ IH]. intros c ->. constructor. intros c' Hs.
  eapply IH; [by apply step_less|done].
Qed.
End progress.

(** *** Calls take effect one at a time *)

Section linear.
Context {O L S R A : Type} `{!Client O L S R, !Spec O L S R A, !Lawful O L S R A}.
Implicit Types (c : config O L S R) (th : thread O L S R) (a : A).

Lemma spec_run_snoc order i o a :
  spec_run (order ++ [(i, o)]) a =
  ((spec_run order a).1 ++ [(i, (spec o (spec_run order a).2).1)], (spec o (spec_run order a).2).2).
Proof.
  revert a. induction order as [|[j o'] order IH]; intros a; [done|]. cbn [app spec_run]. rewrite IH.
  by destruct (spec_run order (spec o' a).2).
Qed.

Lemma allowed_run_snoc order i o a :
  allowed_run (order ++ [(i, o)]) a -> allowed_run order a /\ allowed o (spec_run order a).2.
Proof.
  revert a. induction order as [|[j o'] order IH]; intros a; cbn [app allowed_run]; [intros [? _]; done|].
  intros [Ha Hr]. destruct (IH _ Hr) as [H1' H2']. split; [done|]. cbn [spec_run]. by destruct (spec_run order (spec o' a).2).
Qed.

Lemma of_thread_snoc {X} i j (x : X) l : of_thread i (l ++ [(j, x)]) = of_thread i l ++ (if decide (j = i) then [x] else []).
Proof. unfold of_thread. rewrite filter_app, fmap_app, filter_cons. cbn [fst]. by destruct (decide (j = i)). Qed.

Lemma returns_rely {B} a (p : prog L S B) s s' r : rely a s s' -> returns a p s r -> returns a p s' r.
Proof. intros Hr. destruct p as [o|B' lbl m k]; [done|]. intros Hs s1 Hr1. apply Hs. by eapply rely_trans. Qed.

(** What a thread is at, when the calls that have started leave [a] and owe it the
    results [rs]. *)
Definition thread_ok a (s : S) (rs : list (outcome R)) (th : thread O L S R) : Prop :=
  match t_now th with
  | None => rs = t_done th
  | Some (o, p) => exists r, rs = t_done th ++ [r] /\
      match call_mode o with
      | Shared => returns a p s r
      | Exclusive => exists s', exec p s = (r, s') /\ rep a s'
      end
  end.

Record linear a0 (calls : list (list O)) c : Prop := {
  ln_lock : lock_ok c;
  ln_calls : forall i th, c_threads c !! i = Some th ->
    calls !! i = Some (of_thread i (c_order c) ++ t_calls th);
  ln_length : length (c_threads c) = length calls;
  ln_threads : forall i th, c_threads c !! i = Some th ->
    thread_ok (spec_run (c_order c) a0).2 (c_state c) (of_thread i (spec_run (c_order c) a0).1) th;
  ln_rep : lk_writer (c_lock c) = false -> rep (spec_run (c_order c) a0).2 (c_state c);
}.

(** An idle thread does not care. *)
Lemma thread_ok_idle a a' s s' rs th : t_now th = None -> thread_ok a s rs th -> thread_ok a' s' rs th.
Proof. unfold thread_ok. by intros ->. Qed.

(** A reader does not care about what other readers do. *)
Lemma thread_ok_rely a s s' rs th : rely a s s' -> inside Exclusive th = false -> thread_ok a s rs th -> thread_ok a s' rs th.
Proof.
  unfold thread_ok, inside. intros Hr. destruct (t_now th) as [[o p]|]; [|done]. destruct (call_mode o); [|done].
  intros _ (r & -> & Hs). exists r. split; [done|]. by eapply returns_rely.
Qed.

(** The threads other than [i] stay as they are. *)
Lemma calls_insert a0 calls c i th th' order :
  linear a0 calls c -> c_threads c !! i = Some th ->
  (forall j, j <> i -> of_thread j order = of_thread j (c_order c)) ->
  of_thread i order ++ t_calls th' = of_thread i (c_order c) ++ t_calls th ->
  forall j th2, <[i := th']> (c_threads c) !! j = Some th2 -> calls !! j = Some (of_thread j order ++ t_calls th2).
Proof.
  intros Hl Hi Hne Heq j th2 Hj. destruct (decide (j = i)) as [->|Hji].
  - rewrite list_lookup_insert_eq in Hj by (by eapply lookup_lt_Some). injection Hj as <-. rewrite Heq. by apply (ln_calls _ _ _ Hl).
  - rewrite list_lookup_insert_ne in Hj by done. rewrite Hne by done. by apply (ln_calls _ _ _ Hl).
Qed.

Lemma threads_insert a0 calls c i th th' a s rs :
  linear a0 calls c -> c_threads c !! i = Some th -> thread_ok a s (of_thread i rs) th' ->
  (forall j th2, j <> i -> c_threads c !! j = Some th2 -> thread_ok a s (of_thread j rs) th2) ->
  forall j th2, <[i := th']> (c_threads c) !! j = Some th2 -> thread_ok a s (of_thread j rs) th2.
Proof.
  intros Hl Hi Hok Hne j th2 Hj. destruct (decide (j = i)) as [->|Hji].
  - rewrite list_lookup_insert_eq in Hj by (by eapply lookup_lt_Some). by injection Hj as <-.
  - rewrite list_lookup_insert_ne in Hj by done. by apply Hne.
Qed.

Lemma free_idle c j th : lock_ok c -> acquire Exclusive (c_lock c) <> None -> c_threads c !! j = Some th -> t_now th = None.
Proof.
  intros (Hr & Hw & _) Ha Hj. cbn [acquire] in Ha. unfold rw_lock in Ha. destruct (lk_writer (c_lock c)); [done|]. cbn [orb] in Ha.
  destruct (decide (lk_readers (c_lock c) = 0%nat)) as [Hn|Hn]; [|by rewrite bool_decide_eq_false_2 in Ha].
  destruct (t_now th) as [[o p]|] eqn:En; [exfalso|done].
  pose proof (holders_pos (call_mode o) _ _ _ Hj) as Hp. unfold inside in Hp. rewrite En in Hp.
  destruct (call_mode o); specialize (Hp eq_refl); lia.
Qed.

Lemma shared_no_writer c l : rw_lock_shared (c_lock c) = Some l -> lk_writer (c_lock c) = false.
Proof. unfold rw_lock_shared. by destruct (lk_writer _). Qed.

Lemma linear_acquire a0 calls c i th o os l :
  linear a0 calls c -> c_threads c !! i = Some th -> t_now th = None -> t_calls th = o :: os ->
  acquire (call_mode o) (c_lock c) = Some l -> allowed_run (c_order c ++ [(i, o)]) a0 ->
  lock_ok (mkConfig l (c_state c) (<[i := mkThread os (Some (o, call_body o)) (t_done th)]> (c_threads c)) (c_order c ++ [(i, o)])) ->
  linear a0 calls (mkConfig l (c_state c) (<[i := mkThread os (Some (o, call_body o)) (t_done th)]> (c_threads c)) (c_order c ++ [(i, o)])).
Proof.
  intros Hl Hi Hn Hc Ha Hal Hok. apply allowed_run_snoc in Hal as [Hal Ho]. pose proof (ln_threads _ _ _ Hl i th Hi) as Hth.
  unfold thread_ok in Hth. rewrite Hn in Hth.
  assert (Hrep : rep (spec_run (c_order c) a0).2 (c_state c)).
  { apply (ln_rep _ _ _ Hl). destruct (call_mode o); [by eapply shared_no_writer|]. cbn [acquire] in Ha. unfold rw_lock in Ha. by destruct (lk_writer _). }
  split; [done| |by cbn; rewrite length_insert, (ln_length _ _ _ Hl)| |]; cbn [c_order c_state c_threads c_lock].
  - eapply calls_insert; [done|exact Hi| |]; [intros j Hj|]; rewrite of_thread_snoc.
    + rewrite decide_False by congruence. by rewrite app_nil_r.
    + rewrite decide_True by done. cbn [t_calls]. by rewrite Hc, <- app_assoc.
  - rewrite spec_run_snoc. cbn [fst snd]. eapply threads_insert; [done|exact Hi| |].
    + rewrite of_thread_snoc, decide_True by done. unfold thread_ok. cbn [t_now t_done]. rewrite Hth. eexists. split; [done|].
      destruct (call_mode o) eqn:Em; [|by apply exclusive_ok]. destruct (shared_ok o _ _ Em Ho Hrep) as [-> Hs]. exact Hs.
    + intros j th2 Hj Hj2. rewrite of_thread_snoc, decide_False, app_nil_r by congruence. pose proof (ln_threads _ _ _ Hl j th2 Hj2) as Hth2.
      destruct (call_mode o) eqn:Em; [by rewrite (proj1 (shared_ok o _ _ Em Ho Hrep))|].
      eapply thread_ok_idle; [|exact Hth2]. eapply free_idle; [apply Hl|by rewrite Ha|exact Hj2].
  - rewrite spec_run_snoc. cbn [fst snd]. destruct (call_mode o) eqn:Em; [intros _; by rewrite (proj1 (shared_ok o _ _ Em Ho Hrep))|].
    cbn [acquire] in Ha. unfold rw_lock in Ha. destruct (_ || _); [done|]. by injection Ha as <-.
Qed.

Lemma shared_inside c i th : lock_ok c -> c_threads c !! i = Some th -> inside Shared th = true -> lk_writer (c_lock c) = false.
Proof.
  intros (_ & _ & Hx) Hi Hin. pose proof (holders_pos _ _ _ _ Hi Hin). destruct (lk_writer (c_lock c)); [|done].
  specialize (Hx eq_refl). lia.
Qed.

(** One step of a reader. *)
Lemma returns_step {A' B} a lbl (m : M S B) (k : B -> prog L S A') s p s' r :
  rep a s -> returns a (Step lbl m k) s r -> prog_step m k s = (p, s') -> rely a s s' /\ returns a p s' r.
Proof.
  intros Hrep Hs Hp. specialize (Hs s (rely_refl a s Hrep)). unfold prog_step in Hp.
  destruct (m s) as [[b|e|] s1]; [| |done]; destruct Hs as [Hr Hs]; injection Hp as <- <-; by split.
Qed.

Lemma exec_step {A' B} lbl (m : M S B) (k : B -> prog L S A') s p s' : prog_step m k s = (p, s') -> exec p s' = exec (Step lbl m k) s.
Proof. unfold prog_step. cbn [exec]. unfold mbind, M_bind. destruct (m s) as [[b|e|] s1]; by intros [= <- <-]. Qed.

Lemma linear_move a0 calls c i th o B lbl (m : M S B) k p s :
  linear a0 calls c -> c_threads c !! i = Some th -> t_now th = Some (o, Step lbl m k) -> prog_step m k (c_state c) = (p, s) ->
  lock_ok (mkConfig (c_lock c) s (<[i := mkThread (t_calls th) (Some (o, p)) (t_done th)]> (c_threads c)) (c_order c)) ->
  linear a0 calls (mkConfig (c_lock c) s (<[i := mkThread (t_calls th) (Some (o, p)) (t_done th)]> (c_threads c)) (c_order c)).
Proof.
  intros Hl Hi Hn Hp Hok. pose proof (ln_threads _ _ _ Hl i th Hi) as Hth. unfold thread_ok in Hth. rewrite Hn in Hth.
  destruct Hth as (r & Hrs & Hth). pose proof (ln_lock _ _ _ Hl) as Hlk.
  assert (Hcalls : forall j th2, <[i := mkThread (t_calls th) (Some (o, p)) (t_done th)]> (c_threads c) !! j = Some th2 ->
    calls !! j = Some (of_thread j (c_order c) ++ t_calls th2)) by (by eapply calls_insert).
  destruct (call_mode o) eqn:Em.
  - assert (Hin : inside Shared th = true) by (unfold inside; by rewrite Hn, Em).
    assert (Hw : lk_writer (c_lock c) = false) by (by eapply shared_inside).
    destruct (returns_step _ _ _ _ _ _ _ _ (ln_rep _ _ _ Hl Hw) Hth Hp) as [Hr Hs].
    split; [done|exact Hcalls|by cbn; rewrite length_insert, (ln_length _ _ _ Hl)| |intros _; by eapply rely_rep].
    cbn [c_order c_state c_threads]. eapply threads_insert; [done|exact Hi| |].
    + unfold thread_ok. cbn [t_now t_done]. rewrite Em. by exists r.
    + intros j th2 Hj Hj2. eapply thread_ok_rely; [exact Hr| |by apply (ln_threads _ _ _ Hl)].
      destruct (inside Exclusive th2) eqn:Ex; [|done]. by rewrite (exclusive_alone c j i th2 th Hlk Hj Hj2 Hi Ex) in Hn.
  - assert (Hin : inside Exclusive th = true) by (unfold inside; by rewrite Hn, Em).
    split; [done|exact Hcalls|by cbn; rewrite length_insert, (ln_length _ _ _ Hl)| |]; cbn [c_order c_state c_threads c_lock].
    + eapply threads_insert; [done|exact Hi| |].
      * unfold thread_ok. cbn [t_now t_done]. rewrite Em. exists r. split; [done|]. by rewrite (exec_step lbl m k _ _ _ Hp).
      * intros j th2 Hj Hj2. eapply thread_ok_idle; [|by apply (ln_threads _ _ _ Hl)]. by eapply (exclusive_alone c i j).
    + intros Hw. destruct Hlk as (_ & Hx & _). rewrite Hw in Hx. pose proof (holders_pos _ _ _ _ Hi Hin). lia.
Qed.

Lemma linear_release a0 calls c i th o r l :
  linear a0 calls c -> c_threads c !! i = Some th -> t_now th = Some (o, Ret r) -> release (call_mode o) (c_lock c) = Ok l ->
  lock_ok (mkConfig l (c_state c) (<[i := mkThread (t_calls th) None (t_done th ++ [r])]> (c_threads c)) (c_order c)) ->
  linear a0 calls (mkConfig l (c_state c) (<[i := mkThread (t_calls th) None (t_done th ++ [r])]> (c_threads c)) (c_order c)).
Proof.
  intros Hl Hi Hn Hrl Hok. pose proof (ln_threads _ _ _ Hl i th Hi) as Hth. unfold thread_ok in Hth. rewrite Hn in Hth.
  destruct Hth as (r' & Hrs & Hth). pose proof (ln_lock _ _ _ Hl) as Hlk.
  assert (Hrep : rep (spec_run (c_order c) a0).2 (c_state c) /\ r' = r).
  { destruct (call_mode o) eqn:Em.
    - split; [|done]. apply (ln_rep _ _ _ Hl). eapply shared_inside; [done|exact Hi|]. unfold inside. by rewrite Hn, Em.
    - destruct Hth as (s' & [= <- <-] & Hrep). done. }
  destruct Hrep as [Hrep ->].
  split; [done| |by cbn; rewrite length_insert, (ln_length _ _ _ Hl)| |intros _; exact Hrep]; cbn [c_order c_state c_threads c_lock].
  - by eapply calls_insert.
  - eapply threads_insert; [done|exact Hi|done|]. intros. by apply (ln_threads _ _ _ Hl).
Qed.

Lemma linear_step a0 calls i c c' :
  linear a0 calls c -> step_thread i c = Some c' -> allowed_run (c_order c') a0 -> linear a0 calls c'.
Proof.
  intros Hl Hs Ha. pose proof (lock_ok_step i c c' (ln_lock _ _ _ Hl) Hs) as Hok.
  apply step_thread_kind in Hs as [th o os l Hi Hn Hc Hac ->|th o B lbl m k p s Hi Hn Hp ->|th o r l Hi Hn Hr ->].
  - by eapply linear_acquire.
  - by eapply linear_move.
  - by eapply linear_release.
Qed.

Lemma linear_start a0 calls s : rep a0 s -> linear a0 calls (start calls s).
Proof.
  intros Hrep. split; [apply lock_ok_start| |by cbn; rewrite length_fmap| |done].
  - intros i th Hi. cbn in Hi. rewrite list_lookup_fmap in Hi. destruct (calls !! i); [|done]. by injection Hi as <-.
  - intros i th Hi. cbn in Hi. rewrite list_lookup_fmap in Hi. destruct (calls !! i); [|done]. by injection Hi as <-.
Qed.

(** The order only grows. *)
Lemma order_grows c c' : reaches c c' -> exists order, c_order c' = c_order c ++ order.
Proof.
  intros Hr. induction Hr as [c|c c1 c' [i Hs] Hr [order Ho]]; [exists []; by rewrite app_nil_r|].
  apply step_thread_kind in Hs as [th o os l _ _ _ _ ->|th o B lbl m k p s _ _ _ ->|th o r l _ _ _ ->]; cbn [c_order] in Ho.
  - exists ((i, o) :: order). by rewrite Ho, <- app_assoc.
  - by exists order.
  - by exists order.
Qed.

Lemma allowed_run_app o1 o2 a : allowed_run (o1 ++ o2) a -> allowed_run o1 a.
Proof. revert a. induction o1 as [|[i o] o1 IH]; intros a; [done|]. intros [? ?]. split; [done|]. by apply IH. Qed.

Lemma linear_reaches a0 calls c c' : linear a0 calls c -> reaches c c' -> allowed_run (c_order c') a0 -> linear a0 calls c'.
Proof.
  intros Hl Hr. induction Hr as [|c c1 c' [i Hs] Hr IH]; [done|]. intros Ha. apply IH; [|done].
  eapply linear_step; [done|exact Hs|]. destruct (order_grows _ _ Hr) as [order Ho]. rewrite Ho in Ha. by eapply allowed_run_app.
Qed.

Lemma all_done_lookup c i th : all_done c -> c_threads c !! i = Some th -> t_calls th = [] /\ t_now th = None.
Proof. intros Hd Hi. exact (proj1 (Forall_lookup _ _) Hd i th Hi). Qed.

(** At the end every thread has the results the order gives it. *)
Lemma linear_done a0 calls c :
  linear a0 calls c -> all_done c ->
  (forall i os, calls !! i = Some os -> of_thread i (c_order c) = os) /\
  (forall i th, c_threads c !! i = Some th -> t_done th = of_thread i (spec_run (c_order c) a0).1) /\
  rep (spec_run (c_order c) a0).2 (c_state c).
Proof.
  intros Hl Hd. split_and!.
  - intros i os Ho. destruct (lookup_lt_is_Some_2 (c_threads c) i) as [th Hi].
    { rewrite (ln_length _ _ _ Hl). by eapply lookup_lt_Some. }
    pose proof (ln_calls _ _ _ Hl i th Hi) as Hc. rewrite Ho in Hc. injection Hc as ->.
    destruct (all_done_lookup c i th Hd Hi) as [-> _]. by rewrite app_nil_r.
  - intros i th Hi. pose proof (ln_threads _ _ _ Hl i th Hi) as Hth. destruct (all_done_lookup c i th Hd Hi) as [_ Hn].
    unfold thread_ok in Hth. by rewrite Hn in Hth.
  - apply (ln_rep _ _ _ Hl). destruct (ln_lock _ _ _ Hl) as (_ & Hw & _). destruct (lk_writer (c_lock c)); [|done].
    exfalso. assert (Hz : holders Exclusive (c_threads c) = 0%nat); [|lia]. unfold holders. rewrite filter_none; [done|].
    eapply Forall_impl; [exact Hd|]. intros th [_ Hn]. unfold inside. by rewrite Hn.
Qed.
End linear.

(** ** Properties *)

(** *** A counter, read under the shared lock and increased under the exclusive one *)

#[local] Instance counter_client : Client bool unit nat nat := Build_Client bool unit nat nat
  (fun b => if b then Exclusive else Shared)
  (fun b => if b then Step tt get (fun n => Step tt (put (S n)) (fun _ => Ret (Ok n))) else atomic tt get).

(** C13: the lock keeps its promise.  However threads are scheduled, its reader count and its
    writer flag say how many threads are inside a shared and an exclusive call, and
    while one is inside an exclusive call no other thread is inside any call. *)
Theorem rwlock_excludes {O L S R : Type} `{!Client O L S R} (calls : list (list O)) (s : S) (c : config O L S R) :
  reaches (start calls s) c ->
  lk_readers (c_lock c) = holders Shared (c_threads c) /\
  (lk_writer (c_lock c) = true <-> holders Exclusive (c_threads c) = 1%nat) /\
  forall i j th th', i <> j -> c_threads c !! i = Some th -> c_threads c !! j = Some th' ->
    inside Exclusive th = true -> t_now th' = None.
Proof.
  intros Hr. pose proof (lock_ok_reaches _ _ (lock_ok_start calls s) Hr) as Hok. split_and!.
  - apply Hok.
  - destruct Hok as (_ & -> & _). by destruct (lk_writer (c_lock c)).
  - intros i j th th'. by apply exclusive_alone.
Qed.

(** C12: no deadlock, no endless run.  Threads that take the lock once per call cannot
    block each other for good: whatever has been scheduled so far, when no thread can
    move every call has returned and the lock is free, and no schedule goes on
    for ever. *)
Theorem threads_finish {O L S R : Type} `{!Client O L S R} (calls : list (list O)) (s : S) (c : config O L S R) :
  reaches (start calls s) c ->
  Acc (fun c' c => steps_to c c') c /\ ((forall i, step_thread i c = None) -> all_done c /\ c_lock c = new_RWLock).
Proof.
  intros Hr. pose proof (lock_ok_reaches _ _ (lock_ok_start calls s) Hr) as Hok. split; [apply steps_acc|].
  intros Hst. pose proof (stuck_done c Hok Hst) as Hd. split; [done|]. by apply done_free.
Qed.

(** *** Witnesses *)

(** Two readers inside, a writer that waits. *)
Definition demo_threads : config bool unit nat nat :=
  run_schedule [0; 1; 2; 0; 2]%nat (start [[false]; [false; true]; [true]] 5%nat).

Lemma demo_threads_reached : reaches (start [[false]; [false; true]; [true]] 5%nat) demo_threads.
Proof. apply run_reaches. Qed.

Lemma rwlock_excludes_witness :
  lk_readers (c_lock demo_threads) = 2%nat /\ lk_writer (c_lock demo_threads) = false /\
  lk_readers (c_lock demo_threads) = holders Shared (c_threads demo_threads).
Proof.
  split; [reflexivity|]. split; [reflexivity|].
  exact (proj1 (rwlock_excludes _ _ _ demo_threads_reached)).
Defined.

Lemma threads_finish_witness : step_thread 2%nat demo_threads = None /\ Acc (fun c' c => steps_to c c') demo_threads.
Proof. split; [reflexivity|]. exact (proj1 (threads_finish _ _ _ demo_threads_reached)). Defined.
