(* ===== verification/Concurrent.v ===== *)
(** Threads that share a database ([src/db.cpp], [src/pager.cpp], [src/cache.cpp]).

    Every public operation holds [rwlock_] from its first line to its last:
    insertions, updates, deletions, index changes and checkpoints a [WriteLock],
    lookups and scans a [ReadLock].  A writer is alone, so its body is one step.  A
    reader is not: its body is split where the buffer pool's mutex is taken and
    released, so that two readers may both miss a page, load it twice, and evict
    each other's pages. *)
From S2P Require Import Prelude Types Serialise Page Std BPTree Index Posix Wal Compression Migrate Storage Cache Pager Filter Db DbSpec DbOps DbQuery DbSession DbRecovery DbProperties Lock.

(** ** Definitions *)

(** What a step of a reader is.  It works on the buffer pool under its mutex and, when it
    evicts, on [page_offsets_] and the file ([UnderMutex]); it searches [page_offsets_]
    without the mutex ([OffsetTable]); it is one of those that follow the search, up to
    the one that takes the mutex again ([Searched]); it asks the file in one system call
    ([FileOnly]); it looks at what no reader changes ([ReadOnly]).  A writer is [Alone]. *)
Inductive access := UnderMutex | OffsetTable | Searched | FileOnly | ReadOnly | Alone.

(** What a thread calls: an operation, or [scan] with a visitor that works on a [T] of the
    caller. *)
Inductive db_call (T : Type) :=
| Doing (o : db_op)
| Visiting (f : ScanFilter) (visitor : Row -> M T unit) (t : T).
Arguments Doing {T} o. Arguments Visiting {T} f visitor t.

Section bodies.
Context {F : Type} `{FileSys F} `{LZ4Lib}.
#[local] Abbreviation prog := (prog access (DB F)).

(** [Pager::get_page]: the pool is locked for the lookup, and again to put the loaded
    page in.  In between, [load_from_disk] searches the offset table and reads the
    slot it found. *)
Definition get_page_prog (pid : Z) : prog Z :=
  pbind (atomic UnderMutex (on_pager (on_cache (get_shared pid)))) (fun cached =>
  match cached with
  | Some l => Ret (Ok l)
  | None =>
      pbind (atomic OffsetTable (on_pager (find_offset pid))) (fun offset =>
      pbind (atomic Searched (on_pager (read_slot pid offset))) (fun page =>
      pbind (atomic Searched (on_pager (on_cache (make_shared page)))) (fun l =>
      atomic Searched (on_pager (on_cache (put_shared (Some on_cache_evict) l))))))
  end).

(** The page behind the pointer. *)
Definition read_page (pid : Z) : prog Page :=
  pbind (get_page_prog pid) (fun l => atomic ReadOnly (on_pager (page_at l))).

(** [if (!open_) throw ...] *)
Definition when_open_prog {A} (p : prog A) : prog A :=
  pbind (atomic ReadOnly get) (fun d => if negb (db_open d) then Ret (Throw XDLError) else p).

(** [DB::get_unlocked] *)
Definition get_unlocked_prog (id : Z) : prog Row :=
  pbind (atomic ReadOnly get) (fun d =>
  match idx_find (pg_index (db_pager d)) id with
  | None => Ret (Throw NotFoundError)
  | Some entry =>
      pbind (read_page (page_id entry)) (fun page => Ret (get_row page (row_slot entry) (db_schema d)))
  end).

(** [DB::get], [DB::try_get] *)
Definition get_prog (id : Z) : prog Row := when_open_prog (get_unlocked_prog id).
Definition try_get_prog (id : Z) : prog (option Row) :=
  when_open_prog (pcatch (pbind (get_unlocked_prog id) (fun r => Ret (Ok (Some r))))
    (fun e => if bool_decide (e = NotFoundError) then Ret (Ok None) else Ret (Throw e))).

(** The loops over pages of the readers: for each id, load the page and run the body
    on it, which works on a local variable. *)
Fixpoint pages_prog {T} (jobs : list (Z * (Page -> M T unit))) (t : T) : prog T :=
  match jobs with
  | [] => Ret (Ok t)
  | j :: jobs =>
      pbind (read_page j.1) (fun page =>
      let '(o, t) := j.2 page t in
      match o with Ok _ => pages_prog jobs t | Throw e => Ret (Throw e) | UB => Ret UB end)
  end.

(** [DB::scan_unlocked] and [DB::scan] with a visitor that works on [t], [DB::scan_all] *)
Definition scan_jobs {T} (schema : Schema) (f : ScanFilter) (visitor : Row -> M T unit) (pids : list Z) : list (Z * (Page -> M T unit)) :=
  (fun pid => (pid, fun page => mfor (visit_slot schema f visitor page) (zseq (p_row_count page)))) <$> pids.
Definition scan_unlocked_prog {T} (visitor : Row -> M T unit) (f : ScanFilter) (t : T) : prog T :=
  pbind (atomic ReadOnly get) (fun d =>
  pbind (atomic ReadOnly (on_pager (p ← get; mret (page_count p)))) (fun n =>
  pages_prog (scan_jobs (db_schema d) f visitor (zseq n)) t)).
Definition scan_prog {T} (visitor : Row -> M T unit) (f : ScanFilter) (t : T) : prog T := when_open_prog (scan_unlocked_prog visitor f t).
Definition scan_all_prog (f : ScanFilter) : prog (list Row) := scan_prog push_back f [].

(** The last loop of [DB::index_range_scan]: each page is loaded once, and its rows are
    put in their places. *)
Definition fetch_jobs (schema : Schema) (locs : list (Z * Z)) : list (Z * (Page -> M (list Row) unit)) :=
  (fun pi => (pi.1, fun page => mfor (fun os => r ← lift (get_row page os.2 schema); modify (<[os.1 := r]>)) pi.2)) <$>
    map_to_list (by_page locs).

(** [DB::index_range_scan] *)
Definition index_range_scan_prog (field : bytes) (lo : option FieldValue) (lo_inclusive : bool)
    (hi : option FieldValue) (hi_inclusive : bool) : prog (list Row) :=
  pbind (atomic ReadOnly get) (fun d =>
  let fi := field_index (db_schema d) field in
  if bool_decide (fi < 0) then Ret (Throw XDLError) else
  pbind (Ret (index_ (fields (db_schema d)) fi)) (fun fd =>
  let ft := fd_type fd in
  match db_indexes d !! field with
  | None => scan_unlocked_prog (bounds_visitor fi ft lo lo_inclusive hi hi_inclusive) [] []
  | Some tree =>
      pbind (Ret (range_scan tree lo ft lo_inclusive hi ft hi_inclusive)) (fun entries =>
      let locs := locations d entries in
      pages_prog (fetch_jobs (db_schema d) locs) (replicate (length locs) (mkRow 0 [])))
  end)).

(** [DB::stats]: the pool is locked for its size, the file is asked for its own. *)
Definition stats_prog : prog Stats :=
  pbind (atomic ReadOnly get) (fun d =>
  if negb (db_open d) then Ret (Ok (mkStats 0 0 0 0 0 0 false 0)) else
  pbind (atomic UnderMutex (the_pager (p ← get; mret (pager_cache_size p)))) (fun cache_size =>
  pbind (atomic FileOnly (the_storage storage_file_size)) (fun file_size =>
  Ret (Ok (mkStats (idx_size (pg_index (db_pager d))) (page_count (db_pager d)) cache_size (db_cache_cap d) file_size
    (ver (db_schema d)) (w_open (db_wal d)) (Z.of_nat (size (db_indexes d)))))))).

(** The public operations as threads run them. *)
Definition db_mode (o : db_op) : mode :=
  match o with DGet _ | DTryGet _ | DScanAll _ | DHasIndex _ | DRangeScan _ _ _ _ _ | DStats => Shared | _ => Exclusive end.

Definition returning {A B} (f : A -> B) (p : prog A) : prog B := pbind p (fun a => Ret (Ok (f a))).
Definition db_body (o : db_op) : prog db_result :=
  match o with
  | DGet id => returning RRow (get_prog id)
  | DTryGet id => returning RMaybe (try_get_prog id)
  | DScanAll f => returning RRows (scan_all_prog f)
  | DHasIndex name => returning RBool (atomic ReadOnly (has_index name))
  | DRangeScan field lo li hi hii => returning RRows (index_range_scan_prog field lo li hi hii)
  | DStats => returning (fun s => RStats (s_row_count s) (s_index_count s) (s_schema_version s)) stats_prog
  | _ => atomic Alone (db_run o)
  end.

#[export] Instance db_client : Client db_op access (DB F) db_result := { call_mode := db_mode; call_body := db_body }.

(** A call, alone and step by step. *)
Definition call_run {T} (c : db_call T) : M (DB F) (db_result + T) :=
  match c with
  | Doing o => r ← db_run o; mret (inl r)
  | Visiting f visitor t => t ← with_local t (scan visitor f); mret (inr t)
  end.
Definition call_prog {T} (c : db_call T) : prog (db_result + T) :=
  match c with
  | Doing o => returning inl (db_body o)
  | Visiting f visitor t => returning inr (scan_prog visitor f t)
  end.
Definition db_call_mode {T} (c : db_call T) : mode := match c with Doing o => db_mode o | Visiting _ _ _ => Shared end.

#[export] Instance db_caller {T} : Client (db_call T) access (DB F) (db_result + T) := { call_mode := db_call_mode; call_body := call_prog }.
End bodies.

(** *** What readers leave each other *)

Section rely.
Context {F : Type} `{FileSys F} `{LZ4Lib} (schema : Schema) (ct : CompressionType).

(** The slot of the page is up to date. *)
Definition fresh (pages : list (list Row)) (e : Storage F * gmap Z Z) (pid : Z) : Prop :=
  exists rows, page_rows pages pid = Some rows /\ e.2 !! pid = Some (slot schema pid) /\
    disk_image schema (f_content (st_file e.1)) pid rows.

(** Slots that are up to date stay so. *)
Definition slots_grow (pages : list (list Row)) (e e' : Storage F * gmap Z Z) : Prop :=
  forall pid, fresh pages e pid -> fresh pages e' pid.

(** Pages that someone points to keep their bytes, and no page gets dirty. *)
Definition pager_grows (pages : list (list Row)) (pg pg' : Pager F) : Prop :=
  heap_kept (pg_cache pg) (pg_cache pg') /\ slots_grow pages (env_of pg) (env_of pg') /\
  dirty_pages (pg_cache pg') ⊆ dirty_pages (pg_cache pg).

(** The pointer leads to page [pid], with these rows. *)
Definition points_to (pg : Pager F) (l pid : Z) (rows : list Row) : Prop :=
  exists p, heap (pg_cache pg) !! l = Some p /\ p_id p = pid /\ page_rep schema rows p.

(** ... and that page is clean. *)
Definition points_to_clean (pg : Pager F) (l pid : Z) (rows : list Row) : Prop :=
  exists p, heap (pg_cache pg) !! l = Some p /\ p_id p = pid /\ page_rep schema rows p /\ p_dirty p = false.

(** The abstract database: its pages, the size of its log, the names of its indexes. *)
Definition db_state : Type := list (list Row) * Z * gset bytes.

Definition state_rep (a : db_state) (d : DB F) : Prop :=
  exists g, db_rep schema ct g a.1.1 d /\ log_size wal_header (g_recs g) = a.1.2 /\ dom (db_indexes d) = a.2.

Definition state_spec (o : db_op) (a : db_state) : outcome db_result * db_state :=
  let r := op_spec schema o (concat a.1.1, a.2) in
  (r.1, (op_pages schema o a.1.1, op_log schema o a.1.1 a.1.2, r.2.2)).

(** The visitor sees the matching rows in their order. *)
Definition visit_result {T} (f : ScanFilter) (visitor : Row -> M T unit) (t : T) (rows : list Row) : outcome T :=
  let r := visit_selected f schema visitor rows t in _ ← r.1; Ok r.2.

Definition call_spec {T} (c : db_call T) (a : db_state) : outcome (db_result + T) * db_state :=
  match c with
  | Doing o => let r := state_spec o a in (x ← r.1; Ok (inl x), r.2)
  | Visiting f visitor t => (t ← visit_result f visitor t (concat a.1.1); Ok (inr t), a)
  end.
Definition call_room {T} (c : db_call T) (a : db_state) : Prop :=
  match c with Doing o => op_room schema ct o a.1.1 a.1.2 | Visiting f _ _ => NoDup f.*1 end.

(** The calls of some order, on the rows and the names of the indexes ... *)
Fixpoint call_results {T} (cs : list (db_call T)) (st : list Row * gset bytes) : list (outcome (db_result + T)) :=
  match cs with
  | [] => []
  | Doing o :: cs => let r := op_spec schema o st in (x ← r.1; Ok (inl x)) :: call_results cs r.2
  | Visiting f visitor t :: cs => (t ← visit_result f visitor t st.1; Ok (inr t)) :: call_results cs st
  end.
(** ... and the operations among them. *)
Definition call_ops {T} (cs : list (db_call T)) : list db_op := omap (fun c => match c with Doing o => Some o | Visiting _ _ _ => None end) cs.
Definition visits_ok {T} (cs : list (db_call T)) : Prop := Forall (fun c => match c with Doing _ => True | Visiting f _ _ => NoDup f.*1 end) cs.

Definition reader_rely (a : db_state) (d d' : DB F) : Prop :=
  state_rep a d' /\
  exists pg', d' = db_set_pager pg' d /\ pg_index pg' = pg_index (db_pager d) /\ pager_grows a.1.1 (db_pager d) pg'.

#[export] Instance db_spec : Spec db_op access (DB F) db_result db_state := {
  spec := state_spec;
  allowed o a := op_room schema ct o a.1.1 a.1.2;
  rep := state_rep;
  rely := reader_rely;
}.
#[export] Instance db_call_spec {T} : Spec (db_call T) access (DB F) (db_result + T) db_state := {
  spec := call_spec;
  allowed := call_room;
  rep := state_rep;
  rely := reader_rely;
}.
End rely.

(** Pages that hold the same rows; their ids and dirty flags may differ. *)
Definition same_rows (p p' : Page) : Prop :=
  p_data p = p_data p' /\ p_row_offsets p = p_row_offsets p' /\ p_row_count p = p_row_count p'.

(** *** Data races

    What readers share is read only, under the pool's mutex, in system calls of its own
    ([pread], [pwrite], [fstat]), or [page_offsets_].  [write_page_to_disk], called for
    a dirty page that leaves the pool, assigns to [page_offsets_] under the pool's mutex;
    [load_from_disk] searches it without.  The search of a thread comes after the section
    of the mutex in which it looked for the page and before the one in which it
    puts the page in the pool, and nothing else orders it: it is unordered with
    exactly the assignments whose section lies between these two.  An assignment through
    [operator[]] modifies the map, so this is a data race, whether the entry is new or
    not. *)

Section race.
Context {F O R : Type} `{FileSys F} `{LZ4Lib} `{!Client O access (DB F) R}.
#[local] Abbreviation config := (config O access (DB F) R).

(** What the thread does next. *)
Definition next_access (i : nat) (c : config) : option access :=
  th ← c_threads c !! i; match t_now th with Some (_, Step lbl _ _) => Some lbl | _ => None end.

(** Its next step assigns to the offset table: a dirty page leaves the pool. *)
Definition assigns_offset (i : nat) (c : config) : bool :=
  match step_thread i c with
  | Some c' =>
      let before := dirty_pages (pg_cache (db_pager (c_state c))) in
      let after := dirty_pages (pg_cache (db_pager (c_state c'))) in
      existsb (fun pid => negb (bool_decide (pid ∈ after))) before
  | None => false
  end.

(** It searches the offset table, or has searched it, and does not take the mutex before. *)
Definition searching (i : nat) (c : config) : bool :=
  match next_access i c with Some OffsetTable | Some Searched => true | _ => false end.

(** Thread [i] is about to assign to [page_offsets_] in a section of the mutex that is
    unordered with the search of thread [j]. *)
Definition offset_race (i j : nat) (c : config) : bool := negb (bool_decide (i = j)) && assigns_offset i c && searching j c.
Definition races (i : nat) (c : config) : bool := existsb (fun j => offset_race i j c) (seq 0 (length (c_threads c))).
End race.

(** ** Lemmas *)

(** *** The bodies are the operations *)

Section sequential.
Context {F : Type} `{FileSys F} `{LZ4Lib}.
Implicit Types (d : DB F).

#[local] Abbreviation prog := (prog access (DB F)).

Lemma exec_atomic {A} lbl (m : M (DB F) A) d : exec (atomic lbl m : prog A) d = m d.
Proof. unfold atomic. cbn [exec]. unfold mbind, M_bind. by destruct (m d) as [[] ?]. Qed.

Lemma exec_atomic_bind {A B} lbl (m : M (DB F) A) (k : A -> prog B) d :
  exec (pbind (atomic lbl m) k) d = (a ← m; exec (k a)) d.
Proof. done. Qed.

(** A sequence of calls on the Pager is a call on the Pager. *)
Lemma on_pager_bind {A B} (m : M (Pager F) A) (k : A -> M (Pager F) B) d :
  on_pager (m ≫= k) d = (a ← on_pager m; on_pager (k a)) d.
Proof.
  unfold on_pager, the_pager, zoom, mbind, M_bind, get. destruct (db_live d) eqn:El; [|done].
  destruct (m (db_pager d)) as [[a|e|] pg]; [|done|done].
  change (db_live (db_set_pager pg d)) with (db_live d). rewrite El. change (db_pager (db_set_pager pg d)) with pg.
  by destruct (k a pg) as [[b|e|] pg'].
Qed.

Lemma on_pager_live {A} (m : M (Pager F) A) d a d' : on_pager m d = (Ok a, d') -> db_live d' = true.
Proof.
  unfold on_pager, the_pager, zoom, mbind, M_bind, get. destruct (db_live d) eqn:El; [|done].
  destruct (m (db_pager d)) as [o pg]. by intros [= _ <-].
Qed.

Lemma on_pager_ret {A} (a : A) d : db_live d = true -> on_pager (mret a) d = (Ok a, d).
Proof. intros El. by apply on_pager_read. Qed.

Lemma exec_get_page pid d : exec (get_page_prog pid) d = on_pager (get_page pid) d.
Proof.
  unfold get_page_prog, get_page. rewrite exec_atomic_bind, on_pager_bind. apply bind_pointwise; [done|].
  intros [l|] d1 Hd1; cbn [exec pbind].
  - by rewrite on_pager_ret by (by eapply on_pager_live).
  - unfold load_shared, load_from_disk. rewrite on_pager_bind, (bind_pointwise _ _ _ _ _ (on_pager_bind _ _ _) (fun _ _ _ => eq_refl)), M_bind_assoc.
    apply bind_pointwise; [done|]. intros offset d2 Hd2. apply bind_pointwise; [done|]. intros page d3 Hd3.
    rewrite on_pager_bind. apply bind_pointwise; [done|]. intros l d4 Hd4. apply exec_atomic.
Qed.

Lemma exec_read_page pid d : exec (read_page pid) d = (l ← on_pager (get_page pid); on_pager (page_at l)) d.
Proof.
  unfold read_page. rewrite exec_bind. apply bind_pointwise; [apply exec_get_page|]. intros. apply exec_atomic.
Qed.

Lemma exec_when_open {A} (p : prog A) m d : exec p d = m d -> exec (when_open_prog p) d = when_open m d.
Proof.
  intros Hp. unfold when_open_prog, when_open. rewrite exec_atomic_bind. apply bind_pointwise; [done|].
  intros d0 d' [= -> ->]. by destruct (db_open d').
Qed.

Lemma exec_get_unlocked id d : exec (get_unlocked_prog id) d = get_unlocked id d.
Proof.
  unfold get_unlocked_prog, get_unlocked. rewrite exec_atomic_bind. apply bind_pointwise; [done|]. intros d0 d' [= -> ->].
  rewrite (M_bind_ok (db_find id) _ d' (idx_find (pg_index (db_pager d')) id) d') by done.
  destruct (idx_find _ id) as [entry|]; [|done]. rewrite exec_bind.
  rewrite (bind_pointwise _ _ _ (fun page => lift (get_row page (row_slot entry) (db_schema d'))) _ (exec_read_page _ _)); [by rewrite M_bind_assoc|done].
Qed.

(** A call with a local variable, step by step. *)
Lemma local_db {T A B} (m : M (DB F) A) (k : A -> M (DB F * T) B) t d :
  with_local t (with_db m ≫= k) d = (a ← m; with_local t (k a)) d.
Proof. unfold with_local, mbind, M_bind. rewrite with_db_eq. by destruct (m d) as [[a|e|] d']. Qed.

Lemma local_own {T A B} (m : M T A) (k : A -> M (DB F * T) B) t d :
  with_local t (with_own m ≫= k) d =
  match m t with (Ok a, t') => with_local t' (k a) d | (Throw e, _) => (Throw e, d) | (UB, _) => (UB, d) end.
Proof. unfold with_local, mbind, M_bind. rewrite with_own_eq. by destruct (m t) as [[a|e|] t']. Qed.

Lemma local_ext {T B} (m m' : M (DB F * T) B) t d : m (d, t) = m' (d, t) -> with_local t m d = with_local t m' d.
Proof. unfold with_local. by intros ->. Qed.

Lemma exec_pages {T} (jobs : list (Z * (Page -> M T unit))) t d :
  exec (pages_prog jobs t) d =
  with_local t (mfor (fun j => l ← with_db (on_pager (get_page j.1)); page ← with_db (on_pager (page_at l)); with_own (j.2 page)) jobs) d.
Proof.
  revert t d. induction jobs as [|j jobs IH]; intros t d; [done|]. cbn [pages_prog mfor]. rewrite exec_bind.
  rewrite (local_ext _ _ _ _ (M_bind_assoc _ _ _ _)), local_db.
  rewrite (bind_pointwise _ _ _ _ _ (exec_read_page _ _) (fun a d' _ => eq_refl)), M_bind_assoc.
  apply bind_pointwise; [done|]. intros l d1 _. rewrite (local_ext _ _ _ _ (M_bind_assoc _ _ _ _)), local_db.
  apply bind_pointwise; [done|]. intros page d2 _. rewrite local_own.
  destruct (j.2 page t) as [[[]|e|] t']; [apply IH|done|done].
Qed.

(** The loop over the ids is the loop over the jobs. *)
Lemma mfor_fmap {S A B} (f : A -> B) (body : B -> M S unit) (l : list A) s : mfor body (f <$> l) s = mfor (fun x => body (f x)) l s.
Proof. revert s. induction l as [|x l IH]; intros s; [done|]. rewrite fmap_cons. cbn [mfor]. unfold mbind, M_bind. destruct (body (f x) s) as [[]]; [apply IH|done..]. Qed.

Lemma exec_scan_unlocked {T} (visitor : Row -> M T unit) f t d :
  exec (scan_unlocked_prog visitor f t) d = with_local t (scan_unlocked visitor f) d.
Proof.
  unfold scan_unlocked_prog, scan_unlocked, each_slot. rewrite exec_atomic_bind, local_db. apply bind_pointwise; [done|].
  intros d0 d1 [= -> ->]. rewrite exec_atomic_bind, local_db. apply bind_pointwise; [done|]. intros n d2 _.
  rewrite exec_pages. apply local_ext. unfold scan_jobs. by rewrite mfor_fmap.
Qed.

Lemma exec_scan {T} (visitor : Row -> M T unit) f t d : exec (scan_prog visitor f t) d = with_local t (scan visitor f) d.
Proof.
  unfold scan_prog, scan, when_open_prog. rewrite exec_atomic_bind, local_db. apply bind_pointwise; [done|]. intros d0 d' [= -> ->].
  destruct (db_open d'); [|done]. cbn [negb]. apply exec_scan_unlocked.
Qed.

Lemma with_own_mfor {T A B} (x : A -> outcome B) (m : A -> B -> M T unit) (l : list A) d (t : T) :
  mfor (fun a => b ← lift (x a); with_own (m a b)) l (d, t) = with_own (mfor (fun a => b ← lift (x a); m a b) l) (d, t).
Proof.
  rewrite with_own_eq. revert t. induction l as [|a l IH]; intros t; [done|]. cbn [mfor]. unfold mbind, M_bind, lift in *.
  destruct (x a) as [b|e|]; [|done..]. rewrite with_own_eq. destruct (m a b t) as [[[]|e|] t']; cbn [fst snd]; [apply IH|done..].
Qed.

Lemma exec_fetch schema locs t d : exec (pages_prog (fetch_jobs schema locs) t) d = with_local t (fetch schema locs) d.
Proof.
  rewrite exec_pages. apply local_ext. unfold fetch_jobs, fetch. rewrite mfor_fmap. apply mfor_ext, Forall_Forall2_diag, Forall_forall.
  intros pi _ [d1 t1]. cbn [fst snd]. unfold mbind, M_bind. destruct (with_db _ (d1, t1)) as [[l|e|] [d2 t2]]; [|done..].
  destruct (with_db _ (d2, t2)) as [[page|e|] [d3 t3]]; [|done..]. symmetry. apply (with_own_mfor _ (fun os r => modify (<[os.1 := r]>))).
Qed.

Lemma exec_range_scan field lo li hi hii d : exec (index_range_scan_prog field lo li hi hii) d = index_range_scan field lo li hi hii d.
Proof.
  unfold index_range_scan_prog, index_range_scan. rewrite exec_atomic_bind. apply bind_pointwise; [done|]. intros d0 d1 [= -> ->]. cbv zeta.
  case_bool_decide; [done|]. unfold lift at 1. unfold mbind at 1, M_bind at 1. destruct (index_ _ _) as [fd|e|]; [|done..]. cbn [pbind].
  destruct (db_indexes d1 !! field) as [tree|]; [|apply exec_scan_unlocked].
  unfold lift, mbind, M_bind. destruct (range_scan _ _ _ _ _ _ _) as [es|e|]; [|done..]. apply exec_fetch.
Qed.

Lemma cache_size_run d : the_pager (p ← get; mret (pager_cache_size p)) d = (Ok (pager_cache_size (db_pager d)), d).
Proof. by destruct d. Qed.

Lemma exec_stats d : exec stats_prog d = db_stats d.
Proof.
  unfold stats_prog, db_stats. rewrite exec_atomic_bind. apply bind_pointwise; [done|]. intros d0 d1 [= -> ->].
  destruct (db_open d1); [|done]. cbn [negb]. rewrite exec_atomic_bind.
  rewrite (M_bind_ok (the_pager _) _ d1 (pager_cache_size (db_pager d1)) d1) by apply cache_size_run.
  rewrite exec_atomic_bind. by apply bind_pointwise.
Qed.

(** A body run without interruption is the operation. *)
Lemma exec_returning {A B} (f : A -> B) (p : prog A) (m : M (DB F) A) d : (forall d, exec p d = m d) -> exec (returning f p) d = (a ← m; mret (f a)) d.
Proof. intros Hp. unfold returning. rewrite exec_bind. by apply bind_pointwise. Qed.

Lemma exec_body o d : exec (db_body o) d = db_run o d.
Proof.
  destruct o; cbn [db_body db_run]; try (by apply exec_atomic); apply exec_returning; intros d'.
  - apply exec_when_open, exec_get_unlocked.
  - apply exec_when_open. rewrite exec_catch. unfold catch. rewrite exec_bind.
    rewrite (bind_pointwise _ _ _ (fun r => mret (Some r)) _ (exec_get_unlocked _ _)); [|done].
    unfold mbind, M_bind. destruct (get_unlocked id d') as [[r|e|] d1]; [done| |done]. by case_bool_decide.
  - apply exec_scan.
  - apply exec_atomic.
  - apply exec_range_scan.
  - apply exec_stats.
Qed.
End sequential.

(** *** The Pager under readers *)

Section pager_readers.
Context {F : Type} `{FileLaws F} `{!FileReliable F} `{!PreadWhole F} `{LZ4Laws}.
Context (schema : Schema) (ct : CompressionType) (hdr : DBHeader) (sy : bytes) (pages : list (list Row)).
#[local] Abbreviation env_rep := (env_rep schema ct hdr sy).
#[local] Abbreviation pool_rep := (pool_rep schema ct hdr sy pages).
#[local] Abbreviation pager_rep := (pager_rep schema ct hdr sy pages).
#[local] Abbreviation fresh := (fresh schema pages).
#[local] Abbreviation slots_grow := (slots_grow schema pages).
#[local] Abbreviation pager_grows := (pager_grows schema pages).
#[local] Abbreviation points_to := (points_to schema).
#[local] Abbreviation points_to_clean := (points_to_clean schema).
Implicit Types (e : Storage F * gmap Z Z) (pg : Pager F).

(** A slot that is up to date may be counted among those on disk. *)
Lemma pool_fresh ps e D pid rows :
  pool_rep ps e D -> page_rows pages pid = Some rows -> fresh e pid -> pool_rep ps e (<[pid := rows]> D).
Proof.
  intros Hpool Hr (rows' & Hr' & Ho & Him). assert (rows' = rows) as -> by congruence. eapply (pool_write schema ct hdr sy pages ps e D) with (p := new_Page pid); [done|done|].
  pose proof (po_env _ _ _ _ _ _ _ _ Hpool) as [Hup Hct Hlay Hsy Hfs Hims]. split; try done. cbn [p_id new_Page].
  intros q rows2 Hq. destruct (decide (q = pid)) as [->|Hne]; [|rewrite lookup_insert_ne in Hq by done; by apply Hims].
  rewrite lookup_insert_eq in Hq. injection Hq as <-. pose proof (page_rows_range _ _ _ Hr). pose proof (po_count _ _ _ _ _ _ _ _ Hpool).
  pose proof (proj1 (Forall_forall _ _) (po_rows _ _ _ _ _ _ _ _ Hpool) rows (page_rows_elem _ _ _ Hr)) as (? & ? & _).
  split_and!; [lia|lia|done..].
Qed.

Lemma env_fresh e D pid rows : env_rep e D -> page_rows pages pid = Some rows -> D !! pid = Some rows -> fresh e pid.
Proof. intros He Hr HD. destruct (er_images _ _ _ _ _ _ He pid rows HD) as (_ & Him & Ho & _). by exists rows. Qed.

Lemma slots_grow_refl e : slots_grow e e.
Proof. by intros pid. Qed.

Lemma slots_grow_trans e1 e2 e3 : slots_grow e1 e2 -> slots_grow e2 e3 -> slots_grow e1 e3.
Proof. intros H12 H23 pid Hf. by apply H23, H12. Qed.

(** A page that leaves the pool leaves other slots as they were. *)
Lemma release_fresh ps e D p p' e' :
  pool_rep ps e D -> p ∈ ps -> spec_release (Some on_cache_evict) p e = (Ok p', e') -> slots_grow e e'.
Proof.
  intros Hpool Hp Hr. unfold spec_release, on_cache_evict in Hr. destruct (p_dirty p); [|injection Hr as <- <-; apply slots_grow_refl].
  intros pid Hf. pose proof Hf as (rows & Hrows & _). pose proof (pool_fresh ps e D pid rows Hpool Hrows Hf) as Hpool1.
  destruct (pool_page schema ct hdr sy pages ps e _ p Hpool1 Hp) as (prows & Hpr & Hrep & Hst & Hid & _).
  destruct (write_page_run schema ct hdr sy e _ p prows (po_env _ _ _ _ _ _ _ _ Hpool1) Hrep Hid Hst) as (e1 & Hw & He1 & _).
  rewrite (M_bind_ok _ _ _ _ _ Hw) in Hr. injection Hr as _ <-. eapply env_fresh; [exact He1|exact Hrows|].
  destruct (decide (pid = p_id p)) as [->|Hne]; [rewrite lookup_insert_eq; congruence|].
  rewrite lookup_insert_ne by done. by rewrite lookup_insert_eq.
Qed.

Lemma room_fresh ps e D k ps' e' :
  pool_rep ps e D -> spec_room (Some on_cache_evict) k (ps, e) = (Ok tt, (ps', e')) -> slots_grow e e'.
Proof.
  intros Hpool Hr. unfold spec_room in Hr. case_bool_decide; [|injection Hr as <- <-; apply slots_grow_refl].
  destruct (last ps) as [p|] eqn:El; [|injection Hr as <- <-; apply slots_grow_refl]. unfold release_into in Hr.
  destruct (spec_release (Some on_cache_evict) p e) as [[p'|x|] e1] eqn:Er; [|done|done]. injection Hr as _ <-.
  eapply release_fresh; [exact Hpool| |exact Er]. apply last_Some in El as [l ->]. set_solver.
Qed.

(** To make room removes pages. *)
Lemma room_subset (k : Z) ps e ps' e' : spec_room (Some (@on_cache_evict F _ _)) k (ps, e) = (Ok tt, (ps', e')) -> ps' ⊆ ps.
Proof.
  intros Hr. unfold spec_room in Hr. case_bool_decide; [|by injection Hr as <- <-].
  destruct (last ps) as [p|] eqn:El; [|by injection Hr as <- <-]. unfold release_into in Hr.
  destruct (spec_release (Some on_cache_evict) p e) as [[p'|x|] e1]; [|done|done]. injection Hr as <- _.
  apply last_Some in El as [l ->]. rewrite removelast_last. set_solver.
Qed.

(** Reading through a pointer. *)
Lemma points_to_read pg l pid rows : points_to pg l pid rows -> exists p, page_at l pg = (Ok p, pg) /\ page_rep schema rows p.
Proof.
  intros (p & Hh & _ & Hrep). exists p. split; [|done]. unfold page_at. erewrite on_cache_ok; [by rewrite with_pool_id|]. by apply deref_page_run.
Qed.

Lemma page_rep_kept p q rows : page_kept p q -> page_rep schema rows p -> p_id q = p_id p /\ page_rep schema rows q.
Proof. intros [Hs _] Hrep. unfold same_content in Hs. rewrite <- Hs in Hrep |- *. split; [done|]. destruct Hrep. by split. Qed.

Lemma points_to_grows pg pg' l pid rows : pager_grows pg pg' -> points_to pg l pid rows -> points_to pg' l pid rows.
Proof.
  intros [Hk _] (p & Hh & Hid & Hrep). destruct (Hk l p Hh) as (p' & Hh' & Hs). exists p'. split; [done|].
  destruct (page_rep_kept _ _ _ Hs Hrep). split; [congruence|done].
Qed.

Lemma points_to_clean_grows pg pg' l pid rows : pager_grows pg pg' -> points_to_clean pg l pid rows -> points_to_clean pg' l pid rows.
Proof.
  intros [Hk _] (p & Hh & Hid & Hrep & Hd). destruct (Hk l p Hh) as (p' & Hh' & Hs). exists p'. split; [done|].
  destruct (page_rep_kept _ _ _ Hs Hrep). split_and!; [congruence|done|]. destruct Hs as [_ Hs]. destruct (p_dirty p'); [|done]. by rewrite Hs in Hd.
Qed.

Lemma pager_grows_refl pg : pager_grows pg pg.
Proof. split_and!; [apply heap_kept_refl|apply slots_grow_refl|done]. Qed.

Lemma pager_grows_trans pg1 pg2 pg3 : pager_grows pg1 pg2 -> pager_grows pg2 pg3 -> pager_grows pg1 pg3.
Proof.
  intros (Hk1 & Hf1 & Hd1) (Hk2 & Hf2 & Hd2). split_and!; [|by eapply slots_grow_trans|by etrans]. intros l p Hp.
  destruct (Hk1 l p Hp) as (p1 & Hp1 & Hc1). destruct (Hk2 l p1 Hp1) as (p2 & Hp2 & Hc2). exists p2. split; [done|]. by eapply page_kept_trans.
Qed.

(** *** The steps of [get_page] *)

Lemma evict_content (cb : Page -> M (Storage F * gmap Z Z) Page) p e p' e' :
  Some (@on_cache_evict F _ _) = Some cb -> cb p e = (Ok p', e') -> same_content p p'.
Proof.
  intros [= <-]. unfold on_cache_evict. destruct (p_dirty p) eqn:Ed; [|intros [= <- _]; apply same_content_refl].
  unfold mbind, M_bind. destruct (write_page_to_disk p e) as [[o|x|] e1]; [|done..]. intros [= <- _].
  unfold same_content. rewrite Ed. destruct p. cbn in *. by subst.
Qed.

(** The heap after a call on the pool that makes no page dirty. *)
Lemma keeps_grows {A} (m : M (PageCache * (Storage F * gmap Z Z)) A) pg ps c' ps' e' (a : A) :
  keeps m -> cache_rep (pg_cache pg) ps -> m (pg_cache pg, env_of pg) = (Ok a, (c', e')) ->
  cache_rep c' ps' -> (forall p, p ∈ ps' -> p_dirty p = true -> p ∈ ps) ->
  slots_grow (env_of pg) e' -> pager_grows pg (with_pool c' e' pg).
Proof.
  intros Hm Hc Hr Hc' Hd Hf. destruct (Hm (pg_cache pg, env_of pg)) as [_ Hk]; [exact (rep_fresh _ _ Hc)|].
  rewrite Hr in Hk. split_and!; [exact Hk|by rewrite env_of_pool|exact (dirty_pages_subset _ _ _ _ Hc Hc' Hd)].
Qed.

Lemma touch_step pg pid rows :
  pager_rep pg -> page_rows pages pid = Some rows ->
  exists o pg', on_cache (get_shared pid) pg = (Ok o, pg') /\ pager_rep pg' /\ pg_index pg' = pg_index pg /\ pager_grows pg pg' /\
    match o with Some l => points_to pg' l pid rows | None => fresh (env_of pg') pid end.
Proof.
  intros (Hn & ps & D & Hc & Hpool) Hr. destruct (lru_find pid ps) as [p|] eqn:Hf.
  - destruct (touch_hit (pg_cache pg) (env_of pg) ps pid p Hc Hf) as (l & Hrun & Hh & Hc' & Hl).
    destruct (lru_find_elem pid ps p Hf (rep_ids _ _ Hc)) as (Hp & Hperm & Hid).
    destruct (pool_page schema ct hdr sy pages ps _ _ p Hpool Hp) as (rows' & Hr' & Hrep & _). rewrite Hid in Hr'.
    assert (rows' = rows) as -> by congruence.
    exists (Some l), (with_pool (splice_front l (pg_cache pg)) (env_of pg) pg). split_and!; [by apply on_cache_ok| |done| |by exists p].
    + split; [done|]. exists (p :: lru_without pid ps), D. split; [done|]. rewrite env_of_pool. eapply pool_perm; [by symmetry|exact Hpool].
    + eapply keeps_grows; [apply keeps_touch|exact Hc|exact Hrun|exact Hc'| |apply slots_grow_refl]. intros q Hq _. by rewrite <- Hperm.
  - exists None, pg. split_and!; [|by split; [|exists ps, D]|done|apply pager_grows_refl|].
    + unfold get_shared. rewrite (on_cache_ok _ pg None _ _ (touch_miss _ _ ps pid Hc Hf)). by rewrite with_pool_id.
    + eapply env_fresh; [apply Hpool|done|]. eapply po_rest; [exact Hpool|done|]. by apply lru_find_None.
Qed.

Lemma find_step pg pid rows :
  page_rows pages pid = Some rows -> fresh (env_of pg) pid -> find_offset pid pg = (Ok (slot schema pid), pg).
Proof. intros _ (rows' & _ & Ho & _). by apply find_offset_run. Qed.

Lemma read_step pg pid rows :
  pager_rep pg -> page_rows pages pid = Some rows -> fresh (env_of pg) pid ->
  exists p, read_slot pid (slot schema pid) pg = (Ok p, pg) /\ p_id p = pid /\ p_dirty p = false /\ page_rep schema rows p.
Proof.
  intros (_ & ps & D & _ & Hpool) Hr Hf. pose proof (pool_fresh ps _ D pid rows Hpool Hr Hf) as Hpool1.
  apply (read_slot_run schema ct hdr sy pg _ pid rows (po_env _ _ _ _ _ _ _ _ Hpool1)). by rewrite lookup_insert_eq.
Qed.

Lemma share_step pg p :
  pager_rep pg ->
  exists l pg', on_cache (make_shared p) pg = (Ok l, pg') /\ pager_rep pg' /\ pg_index pg' = pg_index pg /\ pager_grows pg pg' /\
    heap (pg_cache pg') !! l = Some p.
Proof.
  intros (Hn & ps & D & Hc & Hpool). set (l := next_loc (pg_cache pg)). set (c1 := (alloc_page p (pg_cache pg)).2).
  exists l, (with_pool c1 (env_of pg) pg). split_and!; [by apply on_cache_ok| |done| |cbn; by rewrite lookup_insert_eq].
  - split; [done|]. exists ps, D. split; [by apply alloc_rep|]. by rewrite env_of_pool.
  - eapply keeps_grows; [apply (keeps_alloc p)|exact Hc|apply make_shared_run|by apply alloc_rep|done|apply slots_grow_refl].
Qed.

(** To put a page whose id is resident is to look it up. *)
Lemma put_resident pg l p l' pg' :
  heap (pg_cache pg) !! l = Some p -> on_cache (get_shared (p_id p)) pg = (Ok (Some l'), pg') ->
  on_cache (put_shared (Some on_cache_evict) l) pg = (Ok l', pg').
Proof.
  intros Hh. unfold on_cache, zoom, get_shared, cache_touch, put_shared.
  rewrite (M_bind_ok _ _ _ _ _ (the_cache_run _ _)), (M_bind_ok _ _ _ _ _ (deref_page_run _ _ _ _ Hh)). cbv zeta.
  rewrite (M_bind_ok _ _ _ _ _ (the_cache_run _ _)). destruct (map_ (pg_cache pg) !! p_id p) as [l0|]; [|by intros [= _]].
  rewrite !(M_bind_ok (change _) _ _ _ _ eq_refl). cbn. by intros [= <- <-].
Qed.

Lemma put_step pg l pid rows :
  pager_rep pg -> page_rows pages pid = Some rows -> fresh (env_of pg) pid -> points_to_clean pg l pid rows ->
  exists l' pg', on_cache (put_shared (Some on_cache_evict) l) pg = (Ok l', pg') /\ pager_rep pg' /\ pg_index pg' = pg_index pg /\
    pager_grows pg pg' /\ points_to pg' l' pid rows.
Proof.
  intros Hpr Hr Hf (p & Hh & Hid & Hrep & Hcl). destruct (touch_step pg pid rows Hpr Hr) as ([l'|] & pg' & Hget & Hpr' & Hi & Hg & Ho).
  { exists l', pg'. split_and!; [|done..]. apply (put_resident pg l p); [done|by rewrite Hid]. }
  destruct Hpr as (Hn & ps & D & Hc & Hpool). pose proof (pool_fresh ps _ D pid rows Hpool Hr Hf) as Hpool1.
  destruct (lru_find (p_id p) ps) as [q|] eqn:Hq.
  - exfalso. destruct (touch_hit (pg_cache pg) (env_of pg) ps _ q Hc Hq) as (l' & Hrun' & _). rewrite Hid in Hrun'.
    unfold get_shared in Hget. by rewrite (on_cache_ok _ _ _ _ _ Hrun') in Hget.
  - assert (Hl : l ∉ lru_ (pg_cache pg)).
    { intros [k Hk]%list_elem_of_lookup. destruct (Forall2_lookup_l _ _ _ _ _ (rep_pages _ _ Hc) Hk) as (q & Hq' & Hhq).
      assert (q = p) as -> by congruence. apply lru_find_None in Hq. apply Hq, list_elem_of_fmap_2. by eapply list_elem_of_lookup_2. }
    pose proof (put_shared_run (Some on_cache_evict) evict_cb_id (pg_cache pg) (env_of pg) ps l p Hc Hh Hl) as Hput. rewrite Hq in Hput.
    destruct (room_pool schema ct hdr sy pages ps (env_of pg) _ (capacity_ (pg_cache pg)) Hpool1) as (ps' & e' & D' & Hroom & Hpool').
    rewrite Hroom in Hput. destruct Hput as (c' & Hrun & Hh' & Hc' & _).
    pose proof (room_fresh _ _ _ _ _ _ Hpool1 Hroom) as Hfr.
    exists l, (with_pool c' e' pg). split_and!; [by apply on_cache_ok| |done| |by exists p].
    + split; [done|]. pose proof (pool_fresh ps' e' D' pid rows Hpool' Hr (Hfr _ Hf)) as Hpool2.
      exists (p :: ps'), (<[pid := rows]> D'). split; [done|]. rewrite env_of_pool. eapply pool_push; [exact Hpool2|by rewrite Hid|done|].
      intros _. by rewrite Hid, lookup_insert_eq.
    + eapply keeps_grows; [|exact Hc|exact Hrun|exact Hc'| |done]; [apply keeps_put_shared; intros *; apply evict_content|].
      intros q [->|Hin]%elem_of_cons Hd; [congruence|]. by eapply room_subset.
Qed.
End pager_readers.

(** *** The database under readers *)

Section db_readers.
Context {F : Type} `{FileLaws F} `{!FileReliable F} `{!PreadWhole F} `{LZ4Laws}.
Context (schema : Schema) (ct : CompressionType) (a : db_state).
#[local] Existing Instance db_spec.
#[local] Abbreviation rely := (reader_rely schema ct).
#[local] Abbreviation rep := (state_rep schema ct).
#[local] Abbreviation pages := a.1.1.
#[local] Abbreviation prog := (prog access (DB F)).
#[local] Abbreviation safe := (@safe db_op access (DB F) db_result db_state db_client (db_spec schema ct) _).
#[local] Abbreviation returns := (@returns db_op access (DB F) db_result db_state db_client (db_spec schema ct) _).
Implicit Types (d : DB F) (pg : Pager F).

Lemma rely_refl' d : rep a d -> rely a d d.
Proof. intros Hr. split; [done|]. exists (db_pager d). split_and!; [by rewrite db_set_pager_id|done|apply pager_grows_refl]. Qed.

Lemma rely_trans' d1 d2 d3 : rely a d1 d2 -> rely a d2 d3 -> rely a d1 d3.
Proof.
  intros (_ & pg2 & -> & Hi2 & Hg2) (Hr & pg3 & -> & Hi3 & Hg3). split; [done|]. exists pg3.
  split_and!; [done|cbn in Hi3; congruence|]. by eapply pager_grows_trans.
Qed.

(** A step of a reader on the Pager. *)
Lemma pager_moves {X} (m : M (Pager F) X) (P : Pager F -> Prop) (R : X -> Pager F -> Prop) d :
  (forall hdr sy pg, pager_rep schema ct hdr sy pages pg -> P pg ->
     exists x pg', m pg = (Ok x, pg') /\ pager_rep schema ct hdr sy pages pg' /\ pg_index pg' = pg_index pg /\
       pager_grows schema pages pg pg' /\ R x pg') ->
  rep a d -> P (db_pager d) -> exists x d', on_pager m d = (Ok x, d') /\ rely a d d' /\ R x (db_pager d').
Proof.
  intros Hm (g & Hrep & Hlog & Hnm) HP. pose proof (rp_core _ _ _ _ _ Hrep) as Hc.
  destruct (Hm _ _ _ (dc_pager _ _ _ _ _ _ Hc) HP) as (x & pg' & Hrun & Hp & Hi & Hg & HR).
  exists x, (db_set_pager pg' d). split_and!; [by apply on_pager_ok; [apply Hc|]| |done]. split; [|by exists pg'].
  exists g. split_and!; [|done|done]. eapply rep_reads; [exact Hrep|]. by exists pg'.
Qed.

Lemma rely_points d d' l pid rows : rely a d d' -> points_to schema (db_pager d) l pid rows -> points_to schema (db_pager d') l pid rows.
Proof. intros (_ & pg' & -> & _ & Hg). by eapply points_to_grows. Qed.
Lemma rely_points_clean d d' l pid rows : rely a d d' -> points_to_clean schema (db_pager d) l pid rows -> points_to_clean schema (db_pager d') l pid rows.
Proof. intros (_ & pg' & -> & _ & Hg). by eapply points_to_clean_grows. Qed.
Lemma rely_fresh d d' pid : rely a d d' -> fresh schema pages (env_of (db_pager d)) pid -> fresh schema pages (env_of (db_pager d')) pid.
Proof. intros (_ & pg' & -> & _ & _ & Hf & _). exact (Hf pid). Qed.

(** A step on the Pager that needs [P], which no reader breaks. *)
Lemma pager_step_safe {X B} lbl (m : M (Pager F) X) (P : Pager F -> Prop) (R : X -> Pager F -> Prop) (k : X -> prog B) d Q :
  (forall hdr sy pg, pager_rep schema ct hdr sy pages pg -> P pg ->
     exists x pg', m pg = (Ok x, pg') /\ pager_rep schema ct hdr sy pages pg' /\ pg_index pg' = pg_index pg /\
       pager_grows schema pages pg pg' /\ R x pg') ->
  (forall d1 d2, rely a d1 d2 -> P (db_pager d1) -> P (db_pager d2)) -> P (db_pager d) ->
  (forall x d', rely a d d' -> P (db_pager d') -> R x (db_pager d') -> safe a (k x) d' Q) -> safe a (pbind (atomic lbl (on_pager m)) k) d Q.
Proof.
  intros Hm HP Hd Hk. apply safe_bind, safe_atomic. intros d1 Hd1. pose proof (HP _ _ Hd1 Hd) as HP1.
  destruct (pager_moves m P R d1 Hm (proj1 Hd1) HP1) as (x & d2 & Hrun & Hd2 & HR).
  exists x, d2. split_and!; [done|done|]. apply Hk; [exact (rely_trans' _ _ _ Hd1 Hd2)|exact (HP _ _ Hd2 HP1)|done].
Qed.

(** [get_page] hands out a pointer to the page, whoever else loads or evicts. *)
Lemma get_page_safe pid rows d Q :
  page_rows pages pid = Some rows ->
  (forall l d', rely a d d' -> points_to schema (db_pager d') l pid rows -> Q (Ok l) d') ->
  rep a d -> safe a (get_page_prog pid) d Q.
Proof.
  intros Hr HQ Hrep. set (P0 := fun _ : Pager F => True). set (P1 := fun pg => fresh schema pages (env_of pg) pid).
  assert (HP1 : forall d1 d2, rely a d1 d2 -> P1 (db_pager d1) -> P1 (db_pager d2)) by (intros d1 d2; apply rely_fresh).
  eapply (pager_step_safe _ _ P0); [intros hdr sy pg Hp _; exact (touch_step schema ct hdr sy pages pg pid rows Hp Hr)|done|done|].
  intros [l|] d1 Hd1 _ Ho; [by apply HQ|].
  eapply (pager_step_safe _ _ P1 (fun o _ => o = slot schema pid)); [|exact HP1|exact Ho|].
  { intros hdr sy pg Hp Hf. exists (slot schema pid), pg. split_and!; [by eapply find_step|done|done|apply pager_grows_refl|done]. }
  intros o d2 Hd2 Hf2 ->.
  eapply (pager_step_safe _ _ P1 (fun p _ => p_id p = pid /\ p_dirty p = false /\ page_rep schema rows p)); [|exact HP1|exact Hf2|].
  { intros hdr sy pg Hp Hf. destruct (read_step schema ct hdr sy pages pg pid rows Hp Hr Hf) as (p & Hrun & Hx). exists p, pg.
    split_and!; try done; try apply Hx. apply pager_grows_refl. }
  intros p d3 Hd3 Hf3 (Hid & Hcl & Hrepp).
  eapply (pager_step_safe _ _ P1 (fun l pg => points_to_clean schema pg l pid rows)); [|exact HP1|exact Hf3|].
  { intros hdr sy pg Hp _. destruct (share_step schema ct hdr sy pages pg p Hp) as (l & pg' & Hrun & ? & ? & ? & Hh). exists l, pg'.
    split_and!; try done. by exists p. }
  intros l d4 Hd4 Hf4 Hl4. apply safe_bind_ret.
  eapply (pager_step_safe _ _ (fun pg => P1 pg /\ points_to_clean schema pg l pid rows)); [| |done|].
  { intros hdr sy pg Hp [Hf Hl]. exact (put_step schema ct hdr sy pages pg l pid rows Hp Hr Hf Hl). }
  { intros d5 d6 Hd [Hf Hl]. split; [by eapply HP1|by eapply rely_points_clean]. }
  intros l' d5 Hd5 _ Hl'. apply HQ; [|exact Hl'].
  eapply rely_trans'; [|exact Hd5]. eapply rely_trans'; [|exact Hd4]. eapply rely_trans'; [|exact Hd3]. by eapply rely_trans'.
Qed.

(** Reading a page. *)
Lemma read_page_safe pid rows d Q :
  page_rows pages pid = Some rows ->
  (forall p d', rely a d d' -> page_rep schema rows p -> Q (Ok p) d') ->
  rep a d -> safe a (read_page pid) d Q.
Proof.
  intros Hr HQ Hrep. apply safe_bind, (get_page_safe pid rows); [done| |done]. intros l d1 Hd1 Hl. apply safe_atomic. intros d2 Hd2.
  pose proof (rely_points _ _ _ _ _ Hd2 Hl) as Hl2. destruct (points_to_read schema _ l pid rows Hl2) as (p & Hrun & Hp).
  pose proof (proj1 Hd2) as (g & Hg & _). pose proof (dc_live _ _ _ _ _ _ (rp_core _ _ _ _ _ Hg)) as Hlive.
  exists p, d2. split_and!; [by apply on_pager_read|by apply rely_refl', Hd2|]. apply HQ; [by eapply rely_trans'|done].
Qed.

(** Reading what no reader changes. *)
Lemma get_safe {B} d (k : DB F -> prog B) Q :
  (forall d', rely a d d' -> safe a (k d') d' Q) -> safe a (pbind (atomic ReadOnly get) k) d Q.
Proof. intros Hk. apply safe_atomic. intros d1 Hd1. exists d1, d1. split_and!; [done|by apply rely_refl', Hd1|by apply Hk]. Qed.

Lemma when_open_safe {B} d (p : prog B) Q : (forall d', rely a d d' -> safe a p d' Q) -> safe a (when_open_prog p) d Q.
Proof.
  intros Hp. apply get_safe. intros d1 Hd1. pose proof (proj1 Hd1) as (g & Hg & _). rewrite (rp_open _ _ _ _ _ Hg). by apply Hp.
Qed.

(** *** The readers *)

Lemma get_unlocked_safe id d (Q : outcome Row -> DB F -> Prop) :
  rep a d -> (forall o d', o = match rows_map pages !! id with Some r => Ok r | None => Throw NotFoundError end -> Q o d') ->
  safe a (get_unlocked_prog id) d Q.
Proof.
  intros Hrep HQ. apply get_safe. intros d1 Hd1. pose proof (proj1 Hd1) as (g & Hg & _). pose proof (rp_core _ _ _ _ _ Hg) as [Hl Hs _ Hi Hn _].
  destruct (idx_find (pg_index (db_pager d1)) id) as [e|] eqn:He; rewrite (idx_find_run _ _ (proj1 Hi)) in He.
  - destruct (entry_row pages _ id e Hi He) as (rows & n & r & Hp & Hslot & Hr & Hid).
    apply safe_bind, (read_page_safe _ rows); [done| |apply Hd1]. intros p d2 _ Hprep. apply HQ.
    rewrite Hslot, Hs, (get_row_rep _ _ _ _ _ Hprep Hr), (proj2 (rows_map_lookup pages id r Hn)); [done|]. split; [|done].
    apply elem_of_concat. exists rows. split; [by eapply list_elem_of_lookup_2|by eapply page_rows_elem].
  - apply HQ. assert (Hni : id ∉ row_ids pages) by (rewrite <- (entry_ids pages _ id Hi), He; by intros [??]).
    apply rows_map_None in Hni. by rewrite Hni.
Qed.

(** The number of pages. *)
Lemma page_count_safe {B} d (k : Z -> prog B) Q :
  (forall d', rely a d d' -> safe a (k (zlen pages)) d' Q) -> safe a (pbind (atomic ReadOnly (on_pager (p ← get; mret (page_count p)))) k) d Q.
Proof.
  intros Hk. apply safe_atomic. intros d1 Hd1. pose proof (proj1 Hd1) as (g & Hg & _). pose proof (rp_core _ _ _ _ _ Hg) as Hc.
  exists (zlen pages), d1. split_and!; [|by apply rely_refl', Hd1|by apply Hk].
  apply on_pager_read; [apply Hc|]. unfold page_count. rewrite (M_bind_ok get _ _ _ _ eq_refl). destruct (dc_pager _ _ _ _ _ _ Hc) as [Hn _]. by rewrite Hn.
Qed.

Lemma rely_schema d d' : rely a d d' -> db_schema d' = schema.
Proof. intros [(g & Hg & _) _]. exact (dc_schema _ _ _ _ _ _ (rp_core _ _ _ _ _ Hg)). Qed.

(** A job whose page exists and whose body looks at the rows only. *)
Definition job_ok {T} (j : Z * (Page -> M T unit)) : Prop :=
  is_Some (page_rows pages j.1) /\ forall p p', same_rows p p' -> j.2 p = j.2 p'.

Lemma pages_return {T} (jobs : list (Z * (Page -> M T unit))) t :
  Forall job_ok jobs -> exists r, forall d, rep a d -> returns a (pages_prog jobs t) d r.
Proof.
  intros Hj. revert t. induction Hj as [|j jobs [[rows Hr] Hsame] _ IH]; intros t; [by exists (Ok t)|].
  set (p0 := mkPage 0 (encode_rows rows) (zlen rows) false (offsets_from 0 rows)).
  assert (Hp0 : forall p, page_rep schema rows p -> j.2 p = j.2 p0) by (intros p [Hd Ho Hc _ _]; by apply Hsame).
  assert (Hr0 : exists r, forall d, rep a d ->
    returns a (let '(o, t) := j.2 p0 t in match o with Ok _ => pages_prog jobs t | Throw e => Ret (Throw e) | UB => Ret UB end) d r).
  { destruct (j.2 p0 t) as [[u|e|] t1]; [apply IH|by exists (Throw e)|by exists UB]. }
  destruct Hr0 as [r Hr0]. exists r. intros d Hd. cbn [pages_prog]. apply safe_bind, (read_page_safe _ rows); [done| |done].
  intros p d1 Hd1 Hp. rewrite (Hp0 p Hp). apply Hr0, Hd1.
Qed.

Lemma scan_jobs_ok {T} f (visitor : Row -> M T unit) : Forall job_ok (scan_jobs schema f visitor (zseq (zlen pages))).
Proof.
  apply Forall_fmap, Forall_forall. intros pid Hpid%elem_of_seqZ. split; cbn [compose fst snd].
  - apply page_rows_Some. lia.
  - intros [i bs n dirty os] [i' bs' n' dirty' os'] (Hd & Ho & Hc). cbn in Hd, Ho, Hc. by subst.
Qed.

Lemma scan_unlocked_returns {T} f (visitor : Row -> M T unit) t : exists r, forall d, rep a d -> returns a (scan_unlocked_prog visitor f t) d r.
Proof.
  destruct (pages_return _ t (scan_jobs_ok f visitor)) as [r Hr]. exists r. intros d Hd. apply get_safe. intros d1 Hd1.
  apply page_count_safe. intros d2 Hd2. rewrite (rely_schema _ _ Hd1). apply Hr, Hd2.
Qed.

Lemma scan_returns {T} f (visitor : Row -> M T unit) t d : rep a d -> exists r, returns a (scan_prog visitor f t) d r.
Proof. intros _. destruct (scan_unlocked_returns f visitor t) as [r Hr]. exists r. apply when_open_safe. intros d1 Hd1. apply Hr, Hd1. Qed.

Lemma fetch_jobs_ok d entries : rep a d -> Forall job_ok (fetch_jobs schema (locations d entries)).
Proof.
  intros (g & Hg & _). apply Forall_fmap, Forall_forall. intros [pid group] Hin%elem_of_map_to_list. split; cbn [compose fst snd].
  - destruct (by_page_page _ _ _ Hin) as [s Hs]. unfold locations in Hs. apply elem_of_concat in Hs as (l & Hs & Hl).
    apply list_elem_of_fmap in Hl as (e & -> & _). apply list_elem_of_omap in Hs as (id & _ & Hid).
    apply bind_Some in Hid as (en & Hen & [= <- <-]). pose proof (dc_index _ _ _ _ _ _ (rp_core _ _ _ _ _ Hg)) as Hi.
    rewrite (idx_find_run _ _ (proj1 Hi)) in Hen. destruct (entry_row pages _ _ _ Hi Hen) as (rows & n & r & Hp & _). by exists rows.
  - intros [i bs n dirty os] [i' bs' n' dirty' os'] (Hd & Ho & Hc). cbn in Hd, Ho, Hc. by subst.
Qed.

Lemma range_scan_returns field lo li hi hii d : rep a d -> exists r, returns a (index_range_scan_prog field lo li hi hii) d r.
Proof.
  intros Hd.
  assert (Hr : exists r, forall d', rely a d d' -> returns a (
    let fi := field_index schema field in
    if bool_decide (fi < 0) then Ret (Throw XDLError) else
    pbind (Ret (index_ (fields schema) fi)) (fun fd =>
    match db_indexes d !! field with
    | None => scan_unlocked_prog (bounds_visitor fi (fd_type fd) lo li hi hii) [] []
    | Some tree =>
        pbind (Ret (range_scan tree lo (fd_type fd) li hi (fd_type fd) hii)) (fun entries =>
        let locs := locations d entries in
        pages_prog (fetch_jobs schema locs) (replicate (length locs) (mkRow 0 [])))
    end)) d' r).
  { cbv zeta. case_bool_decide; [by exists (Throw XDLError)|]. destruct (index_ _ _) as [fd|e|]; [|by exists (Throw e)|by exists UB]. cbn [pbind].
    destruct (db_indexes d !! field) as [tree|].
    - destruct (range_scan _ _ _ _ _ _ _) as [es|e|]; [|by exists (Throw e)|by exists UB]. cbn [pbind].
      destruct (pages_return _ (replicate (length (locations d es)) (mkRow 0 [])) (fetch_jobs_ok d es Hd)) as [r Hr].
      exists r. intros d' Hd'. apply Hr, Hd'.
    - destruct (scan_unlocked_returns [] (bounds_visitor (field_index schema field) (fd_type fd) lo li hi hii) []) as [r Hr].
      exists r. intros d' Hd'. apply Hr, Hd'. }
  destruct Hr as [r Hr]. exists r. apply get_safe. intros d' Hd'. specialize (Hr d' Hd').
  rewrite (rely_schema _ _ Hd'). pose proof Hd' as (_ & pg' & -> & Hi & _). cbn [db_indexes db_set_pager].
  unfold locations in *. cbn [db_pager db_set_pager]. rewrite Hi. exact Hr.
Qed.

(** Statistics, of which the rows tell these. *)
Lemma stats_safe d (Q : outcome Stats -> DB F -> Prop) :
  rep a d -> (forall s d', s_row_count s = zlen (concat pages) -> s_index_count s = Z.of_nat (size a.2) -> s_schema_version s = ver schema -> Q (Ok s) d') ->
  safe a stats_prog d Q.
Proof.
  intros Hrep HQ. apply get_safe. intros d1 Hd1. pose proof (proj1 Hd1) as (g & Hg & _ & Hnm). rewrite (rp_open _ _ _ _ _ Hg). cbn [negb].
  pose proof (rp_core _ _ _ _ _ Hg) as Hc. apply safe_atomic. intros d2 Hd2. exists (pager_cache_size (db_pager d2)), d2.
  split_and!; [apply cache_size_run|by apply rely_refl', Hd2|].
  apply safe_atomic. intros d3 Hd3. pose proof (proj1 Hd3) as (g3 & Hg3 & _). pose proof (rp_core _ _ _ _ _ Hg3) as Hc3.
  exists (zlen (f_content (st_file (pg_storage (db_pager d3))))), d3. split_and!; [|by apply rely_refl', Hd3|].
  - apply the_storage_read, storage_file_size_run. eapply pager_up, (dc_pager _ _ _ _ _ _ Hc3).
  - apply HQ; cbn [s_row_count s_index_count s_schema_version].
    + apply index_size; [apply (dc_index _ _ _ _ _ _ Hc)|apply (dc_ids _ _ _ _ _ _ Hc)].
    + by rewrite <- Hnm, size_dom.
    + by rewrite (dc_schema _ _ _ _ _ _ Hc).
Qed.

(** A result put in its constructor. *)
Lemma returning_returns {A B} (f : A -> B) (p : prog A) r d : returns a p d r -> exists r', returns a (returning f p) d r'.
Proof.
  intros Hr. exists (match r with Ok x => Ok (f x) | Throw e => Throw e | UB => UB end). apply safe_bind. eapply safe_mono; [|exact Hr].
  intros o d' ->. by destruct r.
Qed.

(** Every reader returns something that does not depend on the others. *)
Lemma reader_returns o d : db_mode o = Shared -> rep a d -> exists r, returns a (db_body o) d r.
Proof.
  intros Hm Hrep. destruct o as [| | | | | |id|id|f| | |name|field lo li hi hii| |]; try done; cbn [db_body].
  - eexists. apply safe_bind, when_open_safe. intros d1 Hd1. apply (get_unlocked_safe id); [apply Hd1|]. intros o d' ->.
    instantiate (1 := match rows_map pages !! id with Some r => Ok (RRow r) | None => Throw NotFoundError end). by destruct (rows_map pages !! id).
  - eexists. apply safe_bind, when_open_safe. intros d1 Hd1. apply safe_catch, safe_bind, (get_unlocked_safe id); [apply Hd1|]. intros o d' ->.
    instantiate (1 := Ok (RMaybe (rows_map pages !! id))). by destruct (rows_map pages !! id).
  - destruct (scan_returns f push_back [] d Hrep) as [r Hr]. by apply (returning_returns _ _ r).
  - eexists. apply safe_bind, safe_atomic. intros d1 Hd1. pose proof (proj1 Hd1) as (g & _ & _ & Hnm).
    exists (bool_decide (name ∈ a.2)), d1. split_and!; [|by apply rely_refl', Hd1|done].
    unfold has_index. rewrite (M_bind_ok get _ _ _ _ eq_refl), <- Hnm. unfold mret, M_ret. do 2 f_equal. apply bool_decide_ext. by rewrite elem_of_dom.
  - destruct (range_scan_returns field lo li hi hii d Hrep) as [r Hr]. by apply (returning_returns _ _ r).
  - exists (Ok (RStats (zlen (concat pages)) (Z.of_nat (size a.2)) (ver schema))). apply safe_bind, stats_safe; [done|]. by intros s d' -> -> ->.
Qed.
End db_readers.

Section lawful.
Context {F : Type} `{FileLaws F} `{!FileReliable F} `{!PreadWhole F} `{LZ4Laws}.
Context (schema : Schema) (ct : CompressionType).
#[local] Existing Instance db_spec.

(** One call, uninterrupted. *)
Lemma body_correct o a (d : DB F) :
  op_room schema ct o a.1.1 a.1.2 -> state_rep schema ct a d ->
  exists d', exec (db_body o) d = ((state_spec schema o a).1, d') /\ state_rep schema ct (state_spec schema o a).2 d'.
Proof.
  destruct a as [[pages n] names]. cbn [fst snd]. intros Hroom (g & Hrep & Hl & Hd). cbn [fst snd] in *. subst n names.
  destruct (op_correct schema ct g pages d Hrep o Hroom) as (d' & Hr & g' & Hrep' & Hnm & Hlog & _).
  exists d'. rewrite exec_body, Hr. split; [done|]. exists g'. cbn [state_spec fst snd]. split_and!; [done|done|exact Hnm].
Qed.

Section calls.
Context {T : Type}.
#[local] Abbreviation spec_of := (db_call_spec (F := F) (T := T) schema ct).
Implicit Types (c : db_call T).

Lemma exec_call c (d : DB F) : exec (call_prog c) d = call_run c d.
Proof. destruct c; apply exec_returning; intros d'; [apply exec_body|apply exec_scan]. Qed.

Lemma call_returns c a (d : DB F) : db_call_mode c = Shared -> state_rep schema ct a d ->
  exists r, returns (Spec0 := spec_of) a (call_prog c) d r.
Proof.
  intros Hm Hd. destruct c as [o|f visitor t]; cbn [call_prog].
  - destruct (reader_returns schema ct a o d Hm Hd) as [r Hr]. exact (returning_returns schema ct a _ _ r d Hr).
  - destruct (scan_returns schema ct a f visitor t d Hd) as [r Hr]. exact (returning_returns schema ct a _ _ r d Hr).
Qed.

(** Under readers a call returns what it returns alone, on any database that the one before
    it came from. *)
Lemma call_alone c a (d : DB F) : db_call_mode c = Shared -> state_rep schema ct a d ->
  returns (Spec0 := spec_of) a (call_prog c) d (call_run c d).1.
Proof.
  intros Hm Hd. destruct (call_returns c a d Hm Hd) as [r Hr].
  assert (Hrefl : forall s s', reader_rely schema ct a s s' -> reader_rely schema ct a s' s') by (intros s s' [Hx _]; by apply rely_refl').
  pose proof (safe_exec (Spec0 := spec_of) a _ d _ Hrefl (rely_refl' schema ct a d Hd) Hr) as Hx. cbn beta in Hx.
  rewrite exec_call in Hx. by rewrite Hx.
Qed.

Lemma call_correct c a (d : DB F) :
  call_room schema ct c a -> state_rep schema ct a d ->
  exists d', exec (call_prog c) d = ((call_spec schema c a).1, d') /\ state_rep schema ct (call_spec schema c a).2 d'.
Proof.
  intros Hroom Hd. destruct c as [o|f visitor t]; cbn [call_prog call_spec call_room fst snd] in *.
  - destruct (body_correct o a d Hroom Hd) as (d' & Hr & Hd'). exists d'. split; [|exact Hd']. rewrite (exec_returning inl _ (exec (db_body o)) d (fun _ => eq_refl)).
    unfold mbind, M_bind. rewrite Hr. by destruct (state_spec schema o a).1.
  - rewrite (exec_returning inr _ _ d (exec_scan visitor f t)). destruct Hd as (g & Hg & Hl & Hn).
    destruct (scan_unlocked_run schema ct _ _ a.1.1 d t f visitor (rp_core _ _ _ _ _ Hg) (rp_names _ _ _ _ _ Hg) Hroom) as (d' & Hr & Hreads).
    exists d'. split.
    + unfold mbind, M_bind, with_local, scan. rewrite (M_bind_ok _ _ (d, t) d (d, t)) by (by apply with_db_ok). rewrite (rp_open _ _ _ _ _ Hg). cbn [negb].
      rewrite Hr. unfold visit_result. destruct (visit_selected f schema visitor (concat a.1.1) t) as [[[]|e|] t']; done.
    + exists g. destruct (reads_frame _ _ _ _ _ _ _ Hreads) as (_ & _ & Hi). rewrite Hi. split_and!; [by eapply rep_reads|done|done].
Qed.

Lemma call_reads c a : db_call_mode c = Shared -> (call_spec schema c a).2 = a.
Proof.
  intros Hm. destruct c as [o|f visitor t]; [|done]. destruct a as [[pages n] names].
  cbn [call_spec snd]. unfold state_spec, op_pages, op_log, op_spec. cbn [fst snd]. fold (row_ids pages).
  destruct o; try done; cbn; repeat case_bool_decide; cbn; do 2 f_equal; lia.
Qed.

#[export] Instance db_call_lawful : Lawful (db_call T) access (DB F) (db_result + T) db_state (Spec0 := spec_of).
Proof.
  split.
  - intros a d Hr. by apply rely_refl'.
  - intros a d1 d2 d3 H12 H23. exact (rely_trans' schema ct a d1 d2 d3 H12 H23).
  - by intros a d d' [Hr _].
  - intros c a d _ Ha Hr. by apply call_correct.
  - intros c a d Hm Ha Hr. split; [by apply call_reads|]. destruct (call_correct c a d Ha Hr) as (d' & He & _).
    pose proof (call_alone c a d Hm Hr) as Hs. rewrite <- exec_call, He in Hs. exact Hs.
Qed.

(** *** The calls in their order are a session *)

#[local] Abbreviation spec_run := (spec_run (Spec0 := spec_of)).
#[local] Abbreviation allowed_run := (allowed_run (Spec0 := spec_of)).
Implicit Types (order : list (nat * db_call T)).

Lemma state_rows o pages n names :
  (op_spec schema o (concat pages, names)).2 = (concat (op_pages schema o pages), (state_spec schema o (pages, n, names)).2.2).
Proof.
  unfold state_spec, op_spec, op_pages. cbn [fst snd]. fold (row_ids pages).
  destruct (op_error schema (row_ids pages) o); cbn [fst snd]; [done|]. by rewrite concat_steps.
Qed.

Lemma spec_run_session order pages n names :
  exists n' names', spec_run order (pages, n, names) =
    (zip order.*1 (call_results schema order.*2 (concat pages, names)), (foldl (fun ps o => op_pages schema o ps) pages (call_ops order.*2), n', names')).
Proof.
  revert pages n names. induction order as [|[i [o|f visitor t]] order IH]; intros pages n names; [by exists n, names| |].
  - cbn [Lock.spec_run fmap list_fmap call_results zip zip_with foldl fst snd call_ops omap list_omap]. rewrite (state_rows o pages n names).
    destruct (IH (op_pages schema o pages) (op_log schema o pages n) (state_spec schema o (pages, n, names)).2.2) as (n' & names' & Hr).
    exists n', names'. change (spec (Doing o) (pages, n, names)) with (call_spec (T := T) schema (Doing o) (pages, n, names)). cbn [call_spec fst snd].
    change (state_spec schema o (pages, n, names)).2 with (op_pages schema o pages, op_log schema o pages n, (state_spec schema o (pages, n, names)).2.2).
    by rewrite Hr.
  - destruct (IH pages n names) as (n' & names' & Hr). exists n', names'. cbn [Lock.spec_run fmap list_fmap call_results zip zip_with fst snd].
    change (spec (Visiting f visitor t) (pages, n, names)) with (call_spec schema (Visiting f visitor t) (pages, n, names)). cbn [call_spec fst snd]. by rewrite Hr.
Qed.

Lemma allowed_run_session order pages n names :
  visits_ok order.*2 -> ops_room schema ct (call_ops order.*2) pages n -> allowed_run order (pages, n, names).
Proof.
  revert pages n names. induction order as [|[i [o|f visitor t]] order IH]; intros pages n names; [done| |].
  - intros [_ Hv]%Forall_cons [Ho Hr]. split; [exact Ho|]. by apply IH.
  - intros [Hf Hv]%Forall_cons Hr. split; [exact Hf|]. by apply IH.
Qed.
End calls.
End lawful.

(** ** Properties *)

(** C5: threads that share a database see a sequential one.  Any number of threads call
    insertions, updates, deletions, lookups, scans (with visitors of their own, too), range
    scans, statistics, index changes and checkpoints, in any interleaving of their
    atomic steps that has not met a data race on the offset table (after one the program's
    behaviour is undefined); readers run at the same time and load, evict and write out
    pages under each other's feet.  Every call returns what it returns when the calls run one
    after the other on an ordered list of rows, in the order in which they took the
    lock; that order contains each thread's calls in program order, and a call that
    starts later than another one ends comes after it.  When all calls have returned,
    the database stores the rows of that sequential run. *)
Theorem db_linearizable {F} `{FileLaws F} `{!FileReliable F} `{!PreadWhole F} `{LZ4Laws} {T} schema ct g pages (d : DB F)
    (calls : list (list (db_call T))) c :
  db_rep schema ct g pages d -> executes races (start calls d) (Some c) ->
  visits_ok (c_order c).*2 -> ops_room schema ct (call_ops (c_order c).*2) pages (log_size wal_header (g_recs g)) ->
  let results := zip (c_order c).*1 (call_results schema (c_order c).*2 (concat pages, dom (db_indexes d))) in
  (forall i os th, calls !! i = Some os -> c_threads c !! i = Some th ->
     of_thread i (c_order c) ++ t_calls th = os /\
     exists owed, of_thread i results = t_done th ++ owed /\ (t_now th = None -> owed = [])) /\
  (forall c0, reaches c0 c -> c_order c0 `prefix_of` c_order c) /\
  (all_done c -> exists g', db_rep schema ct g' (foldl (fun ps o => op_pages schema o ps) pages (call_ops (c_order c).*2)) (c_state c)).
Proof.
  intros Hrep Hr%executes_reaches Hvis Hroom results. set (a0 := (pages, log_size wal_header (g_recs g), dom (db_indexes d)) : db_state).
  pose proof (linear_reaches (Spec0 := db_call_spec schema ct) a0 calls _ c (linear_start (Spec0 := db_call_spec schema ct) a0 calls d
    ltac:(by exists g)) Hr (allowed_run_session schema ct _ _ _ _ Hvis Hroom)) as Hl.
  destruct (spec_run_session (F := F) schema ct (c_order c) pages (log_size wal_header (g_recs g)) (dom (db_indexes d))) as (n' & names' & Hs).
  split_and!.
  - intros i os th Hos Hth. pose proof (ln_calls _ _ _ Hl i th Hth) as Hc. rewrite Hos in Hc. injection Hc as ->. split; [done|].
    pose proof (ln_threads _ _ _ Hl i th Hth) as Ht. unfold a0 in Ht. rewrite Hs in Ht. unfold thread_ok in Ht. cbn [fst snd] in Ht.
    destruct (t_now th) as [[o p]|]; [destruct Ht as (r & Ht & _); by exists [r]|]. exists []. by rewrite app_nil_r.
  - intros c0 Hc0. destruct (order_grows _ _ Hc0) as [order ->]. by apply prefix_app_r.
  - intros Hd. destruct (linear_done _ _ _ Hl Hd) as (_ & _ & g' & Hg & _). unfold a0 in Hg. rewrite Hs in Hg. by exists g'.
Qed.

(** *** Two threads on the database of a file in memory *)

Definition demo_calls : list (list (db_call (list Z))) :=
  [[Doing (DInsert (demo_row 1 41 (str "ada"))); Visiting [] demo_visitor []]; [Doing (DInsert (demo_row 2 30 (str "bob"))); Doing (DGet 1)]].
Definition demo_schedule : list nat := [1; 1; 1; 0; 0; 1; 0; 1; 0; 0; 1; 1; 0; 0; 1; 1; 1; 0; 0; 0; 1; 0; 1]%nat.
Definition demo_config := default (start demo_calls demo_db) (run_racing races demo_schedule (start demo_calls demo_db)).

Lemma db_linearizable_witness :
  all_done demo_config /\
  (c_order demo_config).*1 = [1; 0; 1; 0]%nat /\
  (forall th, c_threads demo_config !! 0%nat = Some th -> t_done th = [Ok (inl RUnit); Throw NotFoundError]) /\
  exists g', db_rep demo_schema CNone g' [[demo_row 2 30 (str "bob"); demo_row 1 41 (str "ada")]] (c_state demo_config).
Proof.
  assert (Hd : all_done demo_config) by (unfold all_done; vm_compute; repeat constructor).
  assert (He : executes races (start demo_calls demo_db) (Some demo_config)) by (apply run_racing_default; vm_compute; reflexivity).
  assert (Hv : visits_ok (c_order demo_config).*2) by (vm_compute; repeat constructor).
  assert (Ho : ops_room demo_schema CNone (call_ops (c_order demo_config).*2) [] (log_size wal_header (g_recs demo_history))) by vm_decide.
  destruct (db_linearizable demo_schema CNone demo_history [] demo_db demo_calls demo_config demo_rep He Hv Ho) as (Hres & _ & Hend).
  split; [exact Hd|]. split; [vm_compute; reflexivity|]. split; [|exact (Hend Hd)].
  intros th Hth. destruct (all_done_lookup _ _ _ Hd Hth) as [_ Hn]. destruct (proj2 (Hres 0%nat _ th eq_refl Hth)) as (owed & Heq & Hnone).
  rewrite (Hnone Hn), app_nil_r in Heq. rewrite <- Heq, (demo_indexes : db_indexes demo_db = ∅). vm_compute. reflexivity.
Defined.

(** *** Two readers of a page that is not resident *)

(** Three pages, the first one written out and the others not yet in the file. *)
Definition demo_three : DB (MemFile 8 true) := (db_run (DInsertBatch ((fun id => demo_row id 1 []) <$> seqZ 1 129)) demo_db).2.
Definition demo_racing : list nat := [0; 0; 0; 0; 0; 0; 0; 1; 1; 1; 1; 0]%nat.

(** Concurrent readers are not free of data races.  The first reader is about to put
    its page in the pool, which evicts a page that was never written; the second one
    has missed its page and has not searched the offset table yet. *)
Lemma offset_table_race : executes races (start [[DGet 1]; [DGet 2]] demo_three) None.
Proof.
  assert (Hr : run_racing races demo_racing (start [[DGet 1]; [DGet 2]] demo_three) = None) by (vm_compute; reflexivity).
  rewrite <- Hr. apply run_racing_executes, executes_start.
Qed.
