(* ===== verification/Readers.v ===== *)
(** Readers only ([src/db.cpp], the operations under a [ReadLock]): any number of
    threads look up, scan, query indexes and ask for statistics at the same time, and
    none of them notices the others, whatever they ask for: bounds of a wrong type and
    the exception they give are no exception here, and a visitor may do anything with
    a state of its own, an exception included.  It also shows when readers are free
    of the race on the offset table: while no page in the pool is dirty. *)
From S2P Require Import Prelude Types Serialise Page Std BPTree Index Posix Wal Compression Migrate Storage Cache Pager Filter Db DbSpec DbOps DbQuery DbSession DbRecovery DbProperties Lock Concurrent.

(** ** Definitions *)

Inductive read_call :=
| GetCall (id : Z)
| TryGetCall (id : Z)
| ScanAllCall (f : ScanFilter)
| HasIndexCall (name : bytes)
| RangeScanCall (field : bytes) (lo : option FieldValue) (lo_inclusive : bool) (hi : option FieldValue) (hi_inclusive : bool)
| StatsCall.

Definition read_op (c : read_call) : db_op :=
  match c with
  | GetCall id => DGet id
  | TryGetCall id => DTryGet id
  | ScanAllCall f => DScanAll f
  | HasIndexCall name => DHasIndex name
  | RangeScanCall field lo li hi hii => DRangeScan field lo li hi hii
  | StatsCall => DStats
  end.

(** These, and [scan] with a visitor of the caller. *)
Inductive reader_call (T : Type) :=
| Reading (c : read_call)
| Scanning (f : ScanFilter) (visitor : Row -> M T unit) (t : T).
Arguments Reading {T} c. Arguments Scanning {T} f visitor t.

Definition call_of {T} (c : reader_call T) : db_call T :=
  match c with Reading c => Doing (read_op c) | Scanning f visitor t => Visiting f visitor t end.

Section bodies.
Context {F : Type} `{FileSys F} `{LZ4Lib} {T : Type}.
#[local] Abbreviation prog := (prog access (DB F)).

(** A call, alone and step by step. *)
Definition read_run (c : reader_call T) : M (DB F) (db_result + T) := call_run (call_of c).
Definition read_body (c : reader_call T) : prog (db_result + T) := call_prog (call_of c).

#[export] Instance read_client : Client (reader_call T) access (DB F) (db_result + T) := { call_mode _ := Shared; call_body := read_body }.

(** What the calls promise: the result that the call has when it is alone on [d0],
    the database all of them started from. *)
Definition started (schema : Schema) (ct : CompressionType) (a : db_state) (d0 d : DB F) : Prop :=
  state_rep schema ct a d0 /\ reader_rely schema ct a d0 d.
Definition read_spec (schema : Schema) (ct : CompressionType) (d0 : DB F) : Spec (reader_call T) access (DB F) (db_result + T) db_state := {|
  spec c a := ((read_run c d0).1, a);
  allowed _ _ := True;
  rep a d := started schema ct a d0 d;
  rely a d d' := started schema ct a d0 d /\ reader_rely schema ct a d d';
|}.
End bodies.

(** ** Lemmas *)

(** *** Results that do not depend on other readers *)

Section readers.
Context {F : Type} `{FileLaws F} `{!FileReliable F} `{!PreadWhole F} `{LZ4Laws}.
Context {T : Type} (schema : Schema) (ct : CompressionType) (a : db_state).
#[local] Existing Instance db_call_spec.
#[local] Abbreviation rely := (reader_rely schema ct).
#[local] Abbreviation rep := (state_rep schema ct).
#[local] Abbreviation pages := a.1.1.
#[local] Abbreviation prog := (prog access (DB F)).
#[local] Abbreviation safe := (@safe (db_call T) access (DB F) (db_result + T) db_state db_caller (db_call_spec schema ct) _).
Implicit Types (d : DB F).

(** What is safe for the readers of Concurrent is safe for these. *)
Lemma safe_read {B} d0 (p : prog B) d Q :
  started schema ct a d0 d -> safe a p d Q -> Lock.safe (Client0 := read_client (T := T)) (Spec0 := read_spec schema ct d0) a p d Q.
Proof.
  revert d. induction p as [o|B' lbl m k IH]; intros d Hd Hs; [done|]. intros d1 [_ Hd1]. specialize (Hs d1 Hd1).
  assert (Hd01 : started schema ct a d0 d1) by (split; [apply Hd|]; eapply rely_trans'; [apply Hd|done]).
  destruct (m d1) as [[b|e|] d2]; [| |done]; destruct Hs as [Hd2 Hs]; (split; [by split|]); [|done].
  apply IH; [|done]. split; [apply Hd|]. eapply rely_trans'; [apply Hd01|done].
Qed.

(** Under readers a call returns what it returns alone on the first database. *)
Lemma read_alone (c : reader_call T) d0 d :
  started schema ct a d0 d -> Lock.returns (Client0 := read_client (T := T)) (Spec0 := read_spec schema ct d0) a (read_body c) d (read_run c d0).1.
Proof.
  intros Hst. pose proof Hst as [Hd0 Hd]. assert (Hm : db_call_mode (call_of c) = Shared) by (by destruct c as [[]|]).
  apply safe_read; [done|]. pose proof (call_alone schema ct (call_of c) a d0 Hm Hd0) as Hr. fold (read_body c) (read_run c) in Hr.
  destruct (read_body c) as [o|B lbl m k]; [exact Hr|]. intros d1 Hd1. apply Hr. by eapply rely_trans'.
Qed.
End readers.

Section lawful.
Context {F : Type} `{FileLaws F} `{!FileReliable F} `{!PreadWhole F} `{LZ4Laws}.
Context {T : Type} (schema : Schema) (ct : CompressionType).
Implicit Types (d : DB F).

#[export] Instance read_lawful d0 : Lawful (reader_call T) access (DB F) (db_result + T) db_state (Spec0 := read_spec schema ct d0).
Proof.
  split.
  - intros a d [Hd0 Hd]. split; [by split|]. apply rely_refl', Hd.
  - intros a d1 d2 d3 [Hd1 H12] [_ H23]. split; [done|]. by eapply rely_trans'.
  - intros a d d' [[Hd0 Hd] Hd']. split; [done|]. by eapply rely_trans'.
  - done.
  - intros c a d _ _ Hd. split; [done|]. by apply read_alone.
Qed.

(** The order of the calls does not matter. *)
Lemma spec_run_reads d0 (order : list (nat * reader_call T)) (a : db_state) :
  spec_run (Spec0 := read_spec schema ct d0) order a = ((fun x => (x.1, (read_run x.2 d0).1)) <$> order, a).
Proof. induction order as [|[i c] order IH]; [done|]. cbn [spec_run spec read_spec snd]. by rewrite IH. Qed.

Lemma of_thread_fmap {X Y} (f : X -> Y) i (l : list (nat * X)) : of_thread i ((fun x => (x.1, f x.2)) <$> l) = f <$> of_thread i l.
Proof.
  unfold of_thread. induction l as [|[j x] l IH]; [done|]. rewrite fmap_cons, !filter_cons. cbn [fst snd].
  destruct (decide (j = i)); [|done]. rewrite !fmap_cons. cbn [fst snd]. by rewrite IH.
Qed.

(** Nobody ever holds the lock alone. *)
Lemma readers_no_writer (c : config (reader_call T) access (DB F) (db_result + T)) : lock_ok c -> lk_writer (c_lock c) = false.
Proof.
  intros (_ & Hw & _). destruct (lk_writer (c_lock c)); [exfalso|done]. assert (Hz : holders Exclusive (c_threads c) = 0%nat); [|lia].
  unfold holders. rewrite filter_none; [done|]. apply Forall_forall. intros th _. unfold inside. by destruct (t_now th) as [[]|].
Qed.

Lemma readers_linear a0 d calls (c : config (reader_call T) access (DB F) (db_result + T)) :
  state_rep schema ct a0 d -> reaches (start calls d) c -> linear (Spec0 := read_spec schema ct d) a0 calls c.
Proof.
  intros Hd Hr. apply (linear_reaches (Spec0 := read_spec schema ct d) a0 calls (start calls d)); [apply linear_start|done|].
  - split; [done|by apply rely_refl'].
  - generalize a0. induction (c_order c) as [|[i o] order IH]; intros a; [done|]. split; [done|apply IH].
Qed.

(** *** No race while the pool is clean *)

Lemma checkpoint_clean g pages d :
  db_rep schema ct g pages d -> log_size wal_header (g_recs g) < 2 ^ 63 ->
  exists d' g', checkpoint d = (Ok tt, d') /\ db_rep schema ct g' pages d' /\ dirty_pages (pg_cache (db_pager d')) = [].
Proof.
  intros Hrep Hsz. destruct (checkpoint_run schema ct g pages d Hrep Hsz) as (d' & sy & Hr & Hrep' & _ & _ & _ & Hcl).
  by exists d', (fresh_history pages (header_count (zlen pages) (g_hdr g)) sy).
Qed.

(** Readers make no page dirty, so they have none to write out. *)
Lemma readers_assign_nothing a d0 (calls : list (list (reader_call T))) c i :
  dirty_pages (pg_cache (db_pager d0)) = [] -> linear (Spec0 := read_spec schema ct d0) a calls c -> assigns_offset i c = false.
Proof.
  intros Hcl Hl. unfold assigns_offset. destruct (step_thread i c) as [c'|]; [|done].
  pose proof (ln_rep _ _ _ Hl (readers_no_writer _ (ln_lock _ _ _ Hl))) as [_ (_ & pg' & Heq & _ & _ & _ & Hd)].
  rewrite Hcl in Hd. assert (Hn : dirty_pages (pg_cache (db_pager (c_state c))) = []); [|by rewrite Hn].
  rewrite Heq. cbn [db_pager db_set_pager]. destruct (dirty_pages (pg_cache pg')) as [|pid l]; [done|].
  exfalso. apply (not_elem_of_nil pid), Hd. by left.
Qed.

Lemma clean_race_free g pages d (calls : list (list (reader_call T))) c i j :
  db_rep schema ct g pages d -> dirty_pages (pg_cache (db_pager d)) = [] -> reaches (start calls d) c -> offset_race i j c = false.
Proof.
  intros Hrep Hcl Hr. set (a0 := (pages, log_size wal_header (g_recs g), dom (db_indexes d)) : db_state).
  assert (Hd : state_rep schema ct a0 d) by (by exists g).
  unfold offset_race. rewrite (readers_assign_nothing a0 d calls c i Hcl (readers_linear a0 d calls c Hd Hr)). by rewrite andb_false_r.
Qed.
End lawful.

(** *** Results *)

Section results.
Context {F : Type} `{FileLaws F} `{!FileReliable F} `{!PreadWhole F} `{LZ4Laws}.
Context {T : Type} (schema : Schema) (ct : CompressionType).

Lemma readers_results g pages (d : DB F) (calls : list (list (reader_call T))) c :
  db_rep schema ct g pages d -> reaches (start calls d) c ->
  (forall i os th, calls !! i = Some os -> c_threads c !! i = Some th ->
     let alone := (fun o => (read_run o d).1) <$> os in
     t_done th `prefix_of` alone /\ (t_calls th = [] -> t_now th = None -> t_done th = alone)) /\
  (exists g', db_rep schema ct g' pages (c_state c)) /\ db_indexes (c_state c) = db_indexes d.
Proof.
  intros Hrep Hr. set (a0 := (pages, log_size wal_header (g_recs g), dom (db_indexes d)) : db_state).
  assert (Hd : state_rep schema ct a0 d) by (by exists g).
  pose proof (readers_linear schema ct a0 d calls c Hd Hr) as Hl.
  split.
  - intros i os th Hos Hth alone. pose proof (ln_calls _ _ _ Hl i th Hth) as Hc. rewrite Hos in Hc. injection Hc as Hc.
    pose proof (ln_threads _ _ _ Hl i th Hth) as Ht. rewrite spec_run_reads in Ht. cbn [fst snd] in Ht. rewrite (of_thread_fmap (fun o => (read_run o d).1)) in Ht.
    unfold alone. rewrite Hc, fmap_app. unfold thread_ok in Ht. split.
    + destruct (t_now th) as [[o p]|]; [destruct Ht as (r & -> & _)|rewrite Ht; by apply prefix_app_r]. rewrite <- app_assoc. by apply prefix_app_r.
    + intros -> Hn. rewrite Hn in Ht. by rewrite Ht, app_nil_r.
  - pose proof (ln_rep _ _ _ Hl (readers_no_writer _ (ln_lock _ _ _ Hl))) as [_ [(g' & Hg' & _) (pg' & Heq & _)]].
    rewrite spec_run_reads in Hg'. cbn [snd] in Hg'. split; [by exists g'|by rewrite Heq].
Qed.
End results.

(** ** Properties *)

(** C6: readers do not notice each other.  Any number of threads look up rows, scan with
    visitors of their own, query indexes and ask for statistics at the same time, in any
    interleaving of their steps that has not met a data race on the offset table (after one
    the program's behaviour is undefined); they load and evict pages under each other's
    feet, and write dirty ones out.  Every call returns what it returns alone on the
    database they started from, errors included (of the statistics, what the rows tell),
    and the rows, their order and the indexes are afterwards what they were.  When no page
    in the pool is dirty to begin with, no interleaving meets a race. *)
Theorem readers_do_not_interfere {F} `{FileLaws F} `{!FileReliable F} `{!PreadWhole F} `{LZ4Laws} {T} schema ct g pages (d : DB F)
    (calls : list (list (reader_call T))) :
  db_rep schema ct g pages d ->
  (forall c, executes races (start calls d) (Some c) ->
     (forall i os th, calls !! i = Some os -> c_threads c !! i = Some th ->
        let alone := (fun o => (read_run o d).1) <$> os in
        t_done th `prefix_of` alone /\ (t_calls th = [] -> t_now th = None -> t_done th = alone)) /\
     (exists g', db_rep schema ct g' pages (c_state c)) /\ db_indexes (c_state c) = db_indexes d) /\
  (dirty_pages (pg_cache (db_pager d)) = [] -> ~ executes races (start calls d) None).
Proof.
  intros Hrep. split.
  2: { intros Hcl. apply executes_defined. intros c i Hr. apply not_true_is_false. intros (j & _ & Hj)%existsb_exists.
       by rewrite (clean_race_free schema ct g pages d calls c i j Hrep Hcl Hr) in Hj. }
  intros c Hr%executes_reaches. by eapply readers_results.
Qed.

(** C14: after a checkpoint, readers do not race on the offset table.  Once every page has
    been written, no page in the pool is dirty; readers make none dirty, so that none of
    them ever has a page to write out and to enter in [page_offsets_], and the searches
    without the pool's mutex have nothing to collide with, until the next write. *)
Theorem checkpointed_readers_race_free {F} `{FileLaws F} `{!FileReliable F} `{!PreadWhole F} `{LZ4Laws} schema ct g pages (d : DB F) :
  db_rep schema ct g pages d -> log_size wal_header (g_recs g) < 2 ^ 63 ->
  exists d1, checkpoint d = (Ok tt, d1) /\
    forall T (calls : list (list (reader_call T))) c i j, reaches (start calls d1) c -> offset_race i j c = false.
Proof.
  intros Hrep Hsz. destruct (checkpoint_clean schema ct g pages d Hrep Hsz) as (d1 & g1 & Hr & Hrep1 & Hcl).
  exists d1. split; [done|]. intros T calls c i j Hc. by eapply clean_race_free.
Qed.

(** *** Three readers of an indexed database *)

Definition demo_range : reader_call (list Z) := Reading (RangeScanCall (str "age") (Some (VUint32 30)) true None true).
Definition demo_reads : list (list (reader_call (list Z))) :=
  [[demo_range; Reading (GetCall 1)]; [Scanning [] demo_visitor []; Reading StatsCall]; [demo_range]].
Definition demo_turns : list nat := concat (replicate 12 [0; 1; 2; 2; 0; 1]%nat).
Definition demo_end := default (start demo_reads demo_later) (run_racing races demo_turns (start demo_reads demo_later)).

(** The database on which two readers race. *)
Lemma demo_three_rep : exists g pages, db_rep demo_schema CNone g pages demo_three /\ log_size wal_header (g_recs g) < 2 ^ 63.
Proof.
  set (o := DInsertBatch ((fun id => demo_row id 1 []) <$> seqZ 1 129)).
  destruct (op_correct demo_schema CNone demo_history [] demo_db demo_rep o) as (d' & Hr & g' & Hrep & _ & Hlog & _); [apply (uncompressed_room demo_schema); vm_decide|].
  assert (demo_three = d') as -> by (unfold demo_three; fold o; by rewrite Hr). eexists g', _. split; [exact Hrep|].
  rewrite Hlog. vm_compute. reflexivity.
Qed.

Lemma readers_do_not_interfere_witness :
  all_done demo_end /\ (c_order demo_end).*1 = [0; 1; 2; 0; 1]%nat /\
  (forall th, c_threads demo_end !! 1%nat = Some th -> t_done th = [Throw NotFoundError; Ok (inl (RStats (zlen (concat demo_pages)) 1 1))]) /\
  (forall th, c_threads demo_end !! 2%nat = Some th -> t_done th = [Ok (inl (RRows [demo_row 1 42 (str "ada"); demo_row 7 77 (str "gus")]))]) /\
  ((exists g', db_rep demo_schema CNone g' demo_pages (c_state demo_end)) /\ db_indexes (c_state demo_end) = db_indexes demo_later) /\
  exists d1, checkpoint demo_three = (Ok tt, d1) /\ ~ executes races (start demo_reads d1) None.
Proof.
  assert (Hd : all_done demo_end) by (unfold all_done; vm_compute; repeat constructor).
  destruct demo_later_rep as (g & Hrep & _).
  assert (He : executes races (start demo_reads demo_later) (Some demo_end)) by (apply run_racing_default; vm_compute; reflexivity).
  destruct (proj1 (readers_do_not_interfere demo_schema CNone g demo_pages demo_later demo_reads Hrep) demo_end He) as [Hres Hstate].
  split; [exact Hd|]. split; [vm_compute; reflexivity|]. split; [|split; [|split; [exact Hstate|]]].
  1, 2: intros th Hth; destruct (all_done_lookup _ _ _ Hd Hth) as [Hc Hn].
  - rewrite (proj2 (Hres 1%nat _ th eq_refl Hth) Hc Hn). vm_compute. reflexivity.
  - rewrite (proj2 (Hres 2%nat _ th eq_refl Hth) Hc Hn). vm_compute. reflexivity.
  - destruct demo_three_rep as (g3 & pages & Hrep3 & Hsz).
    destruct (checkpoint_clean demo_schema CNone g3 pages demo_three Hrep3 Hsz) as (d1 & g1 & Hr & Hrep1 & Hcl).
    exists d1. split; [done|]. exact (proj2 (readers_do_not_interfere demo_schema CNone g1 pages d1 demo_reads Hrep1) Hcl).
Defined.

Lemma checkpointed_readers_race_free_witness :
  exists d1, checkpoint demo_three = (Ok tt, d1) /\
    forall T (calls : list (list (reader_call T))) c i j, reaches (start calls d1) c -> offset_race i j c = false.
Proof.
  destruct demo_three_rep as (g & pages & Hrep & Hsz). exact (checkpointed_readers_race_free demo_schema CNone g pages demo_three Hrep Hsz).
Defined.
