(* ===== verification/Mmap.v ===== *)
(** [MmapFile] ([include/xdl/mmap.h], [src/mmap.cpp]), the POSIX half.

    The engine does not use the class; it is offered to applications.  The system
    calls are the interface [MmapSys]; a shared mapping of a file shows the file's
    own bytes, so memory accesses through [addr_] read and write the content. *)
From S2P Require Import Prelude Posix.

(** ** The interface *)

(** A file at a path.  [mm_synced]: what a crash cannot lose. *)
Class MmapSys (F : Type) := {
  mm_exists : F -> bool;
  mm_content : F -> bytes;
  mm_synced : F -> bytes;
  sys_page_size : Z;                           (* sysconf(_SC_PAGESIZE) *)
  sys_stat : F -> option Z;                    (* st_size *)
  sys_open_rdwr : bool -> F -> bool * F;       (* with O_CREAT | O_TRUNC or not *)
  sys_ftruncate : Z -> F -> bool * F;
  sys_mmap : Z -> F -> bool;                   (* a shared mapping of that length can be made *)
  sys_store : Z -> bytes -> F -> F;            (* a write to the mapping *)
  sys_msync : Z -> Z -> F -> F;                (* start and length, relative to the mapping *)
}.

Arguments sys_page_size F {_}.

Class MmapLaws (F : Type) `{MmapSys F} := {
  page_size_law : exists k, 0 <= k < 32 /\ sys_page_size F = 2 ^ k;
  stat_law f n : sys_stat f = Some n -> mm_exists f = true /\ n = zlen (mm_content f);
  open_rdwr_law creat f ok f' :
    sys_open_rdwr creat f = (ok, f') ->
    if ok then mm_exists f' = true /\ mm_content f' = (if creat then [] else mm_content f) else f' = f;
  ftruncate_law n f ok f' :
    sys_ftruncate n f = (ok, f') ->
    if ok then 0 <= n /\ mm_exists f' = mm_exists f /\ mm_content f' = resize n (mm_content f) else f' = f;
  store_law off bs f :
    0 <= off -> off + zlen bs <= zlen (mm_content f) ->
    mm_content (sys_store off bs f) = splice (Z.to_nat off) bs (mm_content f) /\ mm_exists (sys_store off bs f) = mm_exists f;
  msync_law start len f :
    mm_content (sys_msync start len f) = mm_content f /\ mm_exists (sys_msync start len f) = mm_exists f;
}.

(** The calls succeed for files of ordinary size. *)
Class MmapReliable (F : Type) `{MmapSys F} := {
  ftruncate_ok n f : 0 <= n < 2 ^ 63 -> mm_exists f = true -> (sys_ftruncate n f).1 = true;
  mmap_ok n f : 0 < n < 2 ^ 63 -> n <= zlen (mm_content f) -> sys_mmap n f = true;
  open_rdwr_ok creat f : creat = true \/ mm_exists f = true -> (sys_open_rdwr creat f).1 = true;
  stat_ok f : mm_exists f = true -> is_Some (sys_stat f);
  (* what is written back survives *)
  msync_ok start len f :
    0 <= start -> start `mod` (sys_page_size F) = 0 -> 0 <= len -> start + len <= zlen (mm_content f) ->
    forall k, start <= k < start + len -> mm_synced (sys_msync start len f) !! Z.to_nat k = mm_content f !! Z.to_nat k;
}.

(** ** Definitions *)

Record MmapFile (F : Type) := mkMmapFile {
  m_file : F;
  m_fd : bool;          (* fd_ >= 0 *)
  m_addr : bool;        (* addr_ != nullptr *)
  m_size : Z;           (* size_ *)
}.
Arguments mkMmapFile {F}. Arguments m_file {F}. Arguments m_fd {F}. Arguments m_addr {F}. Arguments m_size {F}.

(** [while (new_size < min_size) new_size *= 2;] in [size_t]; [None]: not done after
    that many rounds. *)
Fixpoint double_until (fuel : nat) (min_size new_size : Z) : option Z :=
  if bool_decide (new_size < min_size) then
    match fuel with O => None | S fuel => double_until fuel min_size (u64 (new_size * 2)) end
  else Some new_size.

(** Sixty-four rounds shift every bit out, see [double_forever]. *)
Definition DOUBLINGS : nat := 64.

Section mmap.
Context {F : Type} `{MmapSys F}.
#[local] Abbreviation MmapFile := (MmapFile F).

Definition new_MmapFile (f : F) : MmapFile := mkMmapFile f false false 0.

Definition m_set_file (f : F) (m : MmapFile) : MmapFile := mkMmapFile f (m_fd m) (m_addr m) (m_size m).
Definition m_set_map (addr : bool) (size : Z) (m : MmapFile) : MmapFile := mkMmapFile (m_file m) (m_fd m) addr size.
Definition m_set_fd (fd : bool) (m : MmapFile) : MmapFile := mkMmapFile (m_file m) fd (m_addr m) (m_size m).
Definition on_file {A} (c : F -> A * F) : M MmapFile A := fun m => let '(a, f) := c (m_file m) in (Ok a, m_set_file f m).

Definition m_is_open (m : MmapFile) : bool := m_addr m.

(** [remap]; [off_t] is a signed 64-bit integer. *)
Definition remap (new_size : Z) : M MmapFile unit :=
  m ← get;
  (if m_addr m && bool_decide (m_size m > 0) then modify (m_set_map false 0) else mret tt) ;;
  ok ← (if m_fd m then on_file (sys_ftruncate (i64_of_u64 new_size)) else mret false);
  if negb ok then throw IOError else
  if bool_decide (new_size = 0) then modify (m_set_map false 0) else
  m ← get;
  if negb (sys_mmap new_size (m_file m)) then throw IOError else
  modify (m_set_map true new_size).

(** [MmapFile::open] *)
Definition mmap_open (creat : bool) (initial_size : Z) : M MmapFile unit :=
  if creat then
    ok ← on_file (sys_open_rdwr true);
    modify (m_set_fd ok) ;;
    if negb ok then throw IOError else
    if bool_decide (initial_size > 0) then
      ok ← on_file (sys_ftruncate (i64_of_u64 initial_size));
      if negb ok then throw IOError else remap initial_size
    else remap 1
  else
    m ← get;
    match sys_stat (m_file m) with
    | None => throw IOError
    | Some st_size =>
        ok ← on_file (sys_open_rdwr false);
        modify (m_set_fd ok) ;;
        if negb ok then throw IOError else
        if bool_decide (st_size > 0) then remap st_size else modify (m_set_map false 0)
    end.

(** [MmapFile::close] *)
Definition mmap_close : M MmapFile unit :=
  m ← get;
  if negb (m_is_open m) then mret tt else
  modify (m_set_map false 0) ;;
  modify (m_set_fd false).

(** [MmapFile::read]: [memcpy] out of the mapping, [offset + len] in 64 bits. *)
Definition mmap_read (offset len : Z) : M MmapFile bytes :=
  m ← get;
  if bool_decide (u64 (offset + len) > m_size m) then throw IOError else
  if negb (m_addr m) then ub else
  lift (load (take (Z.to_nat (m_size m)) (mm_content (m_file m))) offset len).

(** [MmapFile::ensure_size] *)
Definition ensure_size (min_size : Z) : M MmapFile unit :=
  m ← get;
  if bool_decide (min_size <= m_size m) then mret tt else
  match double_until DOUBLINGS min_size (if bool_decide (m_size m = 0) then 1 else m_size m) with
  | None => ub                         (* the loop does not end *)
  | Some n => remap (u64 (u64 (n + sys_page_size F - 1) / (sys_page_size F) * (sys_page_size F)))
  end.

(** [MmapFile::write]: the pages that were written are flushed; the mapping starts on
    a page boundary. *)
Definition mmap_write (offset : Z) (src : bytes) : M MmapFile unit :=
  m ← get;
  (if bool_decide (u64 (offset + zlen src) > m_size m) then ensure_size (u64 (offset + zlen src)) else mret tt) ;;
  m ← get;
  if negb (m_addr m && bool_decide (offset + zlen src <= m_size m)) then ub else
  on_file (fun f => (tt, sys_store offset src f)) ;;
  let start := Z.land offset (Z.lnot (sys_page_size F - 1)) in
  on_file (fun f => (tt, sys_msync start (offset + zlen src - start) f)).

(** [MmapFile::flush] *)
Definition mmap_flush : M MmapFile unit :=
  m ← get;
  if m_addr m && bool_decide (m_size m > 0) then on_file (fun f => (tt, sys_msync 0 (m_size m) f)) else mret tt.

(** [MmapFile::~MmapFile] *)
Definition mmap_destroy : M MmapFile unit := m ← get; if m_is_open m then mmap_close else mret tt.
End mmap.

(** An instance: a file in memory with pages of 4096 bytes. *)
Record MapMem := mkMapMem { mp_exists : bool; mp_content : bytes; mp_synced : bytes }.

#[export] Instance MapMem_sys : MmapSys MapMem := {
  mm_exists := mp_exists; mm_content := mp_content; mm_synced := mp_synced;
  sys_page_size := 4096;
  sys_stat f := if mp_exists f then Some (zlen (mp_content f)) else None;
  sys_open_rdwr creat f :=
    if creat then (true, mkMapMem true [] (mp_synced f)) else if mp_exists f then (true, f) else (false, f);
  sys_ftruncate n f :=
    if bool_decide (0 <= n) && mp_exists f then (true, mkMapMem true (resize n (mp_content f)) (mp_synced f)) else (false, f);
  sys_mmap n f := true;
  sys_store off bs f := mkMapMem (mp_exists f) (splice (Z.to_nat off) bs (mp_content f)) (mp_synced f);
  sys_msync start len f := mkMapMem (mp_exists f) (mp_content f) (mp_content f);
}.

(** ** Lemmas *)

#[export] Instance MapMem_laws : MmapLaws MapMem.
Proof.
  split.
  - by exists 12.
  - intros [[] c s] n; [|done]. by intros [= <-].
  - intros [] [[] c s] ok f' [= <- <-]; done.
  - intros n [[] c s] ok f'; cbn; case_bool_decide; intros [= <- <-]; done.
  - done.
  - done.
Qed.

#[export] Instance MapMem_reliable : MmapReliable MapMem.
Proof.
  split.
  - intros n [[] c s] Hn; [|done]. cbn. by rewrite bool_decide_eq_true_2 by lia.
  - done.
  - intros [] [[] c s] [|]; done.
  - intros [[] c s] He; [|done]. by eexists.
  - done.
Qed.

(** *** Doubling *)

Lemma u64_small z : 0 <= z < 2 ^ 64 -> u64 z = z.
Proof. intros. unfold u64. by apply Z.mod_small. Qed.

(** Below 2 ^ 63 the loop ends when the number has been doubled often enough. *)
Lemma double_until_some fuel min_size n :
  1 <= n < 2 ^ 64 -> min_size <= 2 ^ 63 -> min_size <= n * 2 ^ Z.of_nat fuel ->
  exists k r, double_until fuel min_size n = Some r /\ 0 <= k /\ r = n * 2 ^ k /\ min_size <= r /\ (r = n \/ r < 2 * min_size).
Proof.
  revert n. induction fuel as [|fuel IH]; intros n Hn Hm Hf; cbn [double_until].
  - rewrite bool_decide_eq_false_2 by lia. exists 0, n. split_and!; lia || auto.
  - destruct (decide (n < min_size)) as [Hlt|Hge].
    + rewrite bool_decide_eq_true_2, u64_small by lia.
      destruct (IH (n * 2)) as (k & r & Hr & Hk & -> & Hmin & Hub); [lia|lia| |].
      { rewrite Nat2Z.inj_succ, Z.pow_succ_r in Hf by lia. lia. }
      exists (k + 1), (n * 2 * 2 ^ k). rewrite Z.pow_add_r by lia. split_and!; [done|lia|lia|lia|]. right. lia.
    + rewrite bool_decide_eq_false_2 by lia. exists 0, n. split_and!; lia || auto.
Qed.

Lemma double_until_more fuel fuel' min_size n r :
  double_until fuel min_size n = Some r -> double_until (fuel + fuel') min_size n = Some r.
Proof.
  revert n. induction fuel as [|fuel IH]; intros n; cbn [double_until Nat.add].
  - destruct fuel'; cbn [double_until]; case_bool_decide; done.
  - case_bool_decide; [apply IH|done].
Qed.

Lemma double_until_split fuel fuel' min_size n :
  0 <= n < 2 ^ 64 -> double_until fuel min_size n = None ->
  double_until (fuel + fuel') min_size n = double_until fuel' min_size (u64 (n * 2 ^ Z.of_nat fuel)).
Proof.
  revert n. induction fuel as [|fuel IH]; intros n Hn Hd; cbn [double_until Nat.add] in *.
  - by rewrite Z.mul_1_r, u64_small.
  - case_bool_decide; [|done]. rewrite IH; [|unfold u64; by apply Z.mod_pos_bound|done]. f_equal. unfold u64.
    rewrite Zmult_mod_idemp_l, Nat2Z.inj_succ, Z.pow_succ_r by lia. f_equal. lia.
Qed.

(** A number that is still too small after 64 rounds has become zero and stays so. *)
Lemma double_until_zero fuel min_size : 0 < min_size -> double_until fuel min_size 0 = None.
Proof.
  intros Hm. induction fuel as [|fuel IH]; cbn [double_until]; rewrite bool_decide_eq_true_2 by lia; [done|]. by rewrite u64_small.
Qed.

Lemma double_forever min_size n fuel :
  0 <= n < 2 ^ 64 -> double_until DOUBLINGS min_size n = None -> double_until fuel min_size n = None.
Proof.
  intros Hn Hd. assert (Hlt : n < min_size).
  { destruct (decide (n < min_size)) as [|Hge]; [done|]. unfold DOUBLINGS in Hd. cbn [double_until] in Hd.
    by rewrite bool_decide_eq_false_2 in Hd. }
  destruct (double_until fuel min_size n) as [r|] eqn:Er; [exfalso|done].
  apply (double_until_more _ DOUBLINGS) in Er. rewrite Nat.add_comm in Er.
  rewrite double_until_split in Er by done. unfold DOUBLINGS in Er. change (2 ^ Z.of_nat 64) with (2 ^ 64) in Er.
  assert (Hz : u64 (n * 2 ^ 64) = 0) by (unfold u64; by apply Z_mod_mult). rewrite Hz, double_until_zero in Er; [done|lia].
Qed.

(** *** A mapped file *)

Section mapped.
Context {F : Type} `{MmapLaws F} `{!MmapReliable F}.
Implicit Types (m : MmapFile F) (f : F).

(** The whole file is mapped. *)
Record mapped m : Prop := {
  mp_fd : m_fd m = true;
  mp_addr : m_addr m = true;
  mp_there : mm_exists (m_file m) = true;
  mp_size : m_size m = zlen (mm_content (m_file m));
  mp_pos : 0 < m_size m;
}.

Lemma on_file_run {A} (c : F -> A * F) m a f : c (m_file m) = (a, f) -> on_file c m = (Ok a, m_set_file f m).
Proof. intros Hc. unfold on_file. by rewrite Hc. Qed.

(** The sizes of 64-bit arithmetic that come up are below 2 ^ 63. *)
Lemma i64_small n : 0 <= n < 2 ^ 63 -> i64_of_u64 n = n.
Proof. intros. unfold i64_of_u64. by rewrite bool_decide_eq_true_2 by lia. Qed.

Lemma remap_run n m :
  m_fd m = true -> mm_exists (m_file m) = true -> 0 < n < 2 ^ 63 ->
  exists m', remap n m = (Ok tt, m') /\ mapped m' /\ m_size m' = n /\ mm_content (m_file m') = resize n (mm_content (m_file m)).
Proof.
  intros Hfd He Hn. unfold remap. rewrite (M_bind_ok get _ _ _ _ eq_refl).
  set (m1 := if m_addr m && bool_decide (m_size m > 0) then m_set_map false 0 m else m).
  rewrite (M_bind_ok _ _ m tt m1) by (unfold m1; by destruct (_ && _)).
  assert (Hm1 : m_file m1 = m_file m /\ m_fd m1 = true) by (unfold m1; by destruct (_ && _)). destruct Hm1 as [Hf1 Hfd1].
  rewrite Hfd, i64_small by lia. destruct (sys_ftruncate n (m_file m1)) as [ok f'] eqn:Et.
  pose proof (ftruncate_ok n (m_file m) ltac:(lia) He) as Hok. rewrite <- Hf1, Et in Hok. cbn in Hok. subst ok.
  pose proof (ftruncate_law _ _ _ _ Et) as (_ & He' & Hc'). rewrite Hf1 in He', Hc'.
  rewrite (M_bind_ok _ _ _ _ _ (on_file_run _ _ _ _ Et)). cbn [negb]. rewrite bool_decide_eq_false_2 by lia.
  rewrite (M_bind_ok get _ _ _ _ eq_refl). cbn [m_file m_set_file]. rewrite mmap_ok; [|lia|rewrite Hc', length_resize; lia]. cbn [negb].
  eexists. split; [reflexivity|]. cbn. split_and!; [|done|done]. split; cbn; [done|done|congruence|rewrite Hc', length_resize; lia|lia].
Qed.

(** [x & ~(2^k - 1)] *)
Lemma page_start x k : 0 <= k -> Z.land x (Z.lnot (2 ^ k - 1)) = x - x `mod` 2 ^ k.
Proof.
  intros Hk. replace (2 ^ k - 1) with (Z.ones k) by (rewrite Z.ones_equiv; lia). rewrite <- Z.ldiff_land, Z.ldiff_ones_r by done.
  rewrite Z.shiftr_div_pow2, Z.shiftl_mul_pow2 by done. pose proof (Z.div_mod x (2 ^ k) ltac:(lia)). lia.
Qed.

(** Rounding up to a multiple of the page size. *)
Lemma round_up n p : 0 <= n -> 1 <= p -> n <= (n + p - 1) / p * p < n + p /\ ((n + p - 1) / p * p) `mod` p = 0.
Proof.
  intros Hn Hp. pose proof (Z.div_mod (n + p - 1) p ltac:(lia)). pose proof (Z.mod_pos_bound (n + p - 1) p ltac:(lia)).
  split; [lia|]. apply Z.mod_mul. lia.
Qed.

Lemma ensure_size_run min_size m :
  mapped m -> m_size m < min_size <= 2 ^ 61 ->
  exists m', ensure_size min_size m = (Ok tt, m') /\ mapped m' /\ min_size <= m_size m' < 2 * min_size + sys_page_size F /\
    m_size m' `mod` (sys_page_size F) = 0 /\ mm_content (m_file m') = resize (m_size m') (mm_content (m_file m)).
Proof.
  intros [Hfd Ha He Hs Hp] Hm. destruct page_size_law as (k & Hk & Hpg).
  assert (Hps : 1 <= sys_page_size F < 2 ^ 32).
  { rewrite Hpg. split; [pose proof (Z.pow_pos_nonneg 2 k); lia|apply Z.pow_lt_mono_r; lia]. }
  unfold ensure_size. rewrite (M_bind_ok get _ _ _ _ eq_refl). rewrite (bool_decide_eq_false_2 (min_size <= _)), (bool_decide_eq_false_2 (_ = 0)) by lia.
  destruct (double_until_some DOUBLINGS min_size (m_size m)) as (j & r & -> & _ & _ & Hmin & Hub); [lia|lia|unfold DOUBLINGS; lia|].
  assert (Hr : min_size <= r < 2 * min_size) by lia. rewrite (u64_small (r + _ - 1)) by lia.
  destruct (round_up r (sys_page_size F) ltac:(lia) (proj1 Hps)) as [Hround Hmod].
  set (n := (r + sys_page_size F - 1) / (sys_page_size F) * (sys_page_size F)) in *. rewrite u64_small by lia.
  destruct (remap_run n m Hfd He) as (m' & Hrun & Hmap & Hsz & Hc); [lia|].
  exists m'. rewrite Hsz. split_and!; [done|done|lia|lia|done|]. by rewrite Hc.
Qed.

(** [memcpy] and [msync] *)
Lemma store_run off src m :
  mapped m -> 0 <= off -> off + zlen src <= m_size m ->
  let start := Z.land off (Z.lnot (sys_page_size F - 1)) in
  exists m', (on_file (fun f => (tt, sys_store off src f)) ;; on_file (fun f => (tt, sys_msync start (off + zlen src - start) f))) m = (Ok tt, m') /\
    mapped m' /\ m_size m' = m_size m /\ mm_content (m_file m') = splice (Z.to_nat off) src (mm_content (m_file m)) /\
    forall i, (i < length src)%nat -> mm_synced (m_file m') !! (Z.to_nat off + i)%nat = src !! i.
Proof.
  intros [Hfd Ha He Hs Hp] Ho Hl start. destruct (store_law off src (m_file m)) as [Hc1 He1]; [lia|lia|].
  set (f1 := sys_store off src (m_file m)) in *. destruct (msync_law start (off + zlen src - start) f1) as [Hc2 He2].
  assert (Hlen : zlen (mm_content f1) = m_size m) by (rewrite Hc1, length_splice; lia).
  eexists. split; [reflexivity|]. cbn. fold f1. split_and!; [|done|congruence|].
  - split; cbn; [done|done|congruence|congruence|done].
  - intros i Hi. destruct page_size_law as (k & Hk & Hpg). unfold start. rewrite Hpg, page_start by lia.
    pose proof (Z.mod_pos_bound off (2 ^ k) ltac:(lia)). pose proof (Z.mod_le off (2 ^ k) Ho ltac:(lia)).
    replace (Z.to_nat off + i)%nat with (Z.to_nat (off + Z.of_nat i)) by lia. rewrite msync_ok.
    + rewrite Hc1. unfold splice. replace (Z.to_nat (off + Z.of_nat i)) with (length (take (Z.to_nat off) (mm_content (m_file m))) + i)%nat by (rewrite length_take; lia).
      rewrite lookup_app_r by lia. rewrite lookup_app_l by lia. f_equal. lia.
    + lia.
    + rewrite Hpg, Zminus_mod_idemp_r, Z.sub_diag. done.
    + lia.
    + rewrite Hlen. lia.
    + lia.
Qed.

Lemma read_run off n m :
  mapped m -> 0 <= off -> 0 <= n -> off + n <= m_size m -> off + n < 2 ^ 64 ->
  mmap_read off n m = (Ok (take (Z.to_nat n) (drop (Z.to_nat off) (mm_content (m_file m)))), m).
Proof.
  intros [Hfd Ha He Hs Hp] Ho Hn Hl Hlt. unfold mmap_read. rewrite (M_bind_ok get _ _ _ _ eq_refl), u64_small by lia.
  rewrite bool_decide_eq_false_2, Ha by lia. cbn [negb]. unfold lift, load. rewrite take_ge by lia. by rewrite bool_decide_eq_true_2 by lia.
Qed.
End mapped.

(** ** Properties *)

(** C16: the growing loop of [ensure_size].  Up to 2 ^ 63 bytes it ends within 64 rounds,
    with the size doubled as often as needed: at least what was asked for and less
    than twice that.  Where the 64 rounds of the model are not enough, no number of
    rounds is: the 64-bit size has wrapped round to zero and the loop never ends. *)
Theorem doubling_ends min_size size :
  1 <= size < min_size -> min_size < 2 ^ 64 ->
  (min_size <= 2 ^ 63 ->
     exists k r, double_until DOUBLINGS min_size size = Some r /\ 0 <= k /\ r = size * 2 ^ k /\ min_size <= r < 2 * min_size) /\
  (double_until DOUBLINGS min_size size = None -> forall fuel, double_until fuel min_size size = None).
Proof.
  intros Hs Hm. split.
  - intros Hle. destruct (double_until_some DOUBLINGS min_size size) as (k & r & Hr & Hk & -> & Hmin & Hub); [lia|done|unfold DOUBLINGS; lia|].
    exists k, (size * 2 ^ k). split_and!; [done|done|done|done|]. lia.
  - intros Hd fuel. apply double_forever; [lia|done].
Qed.

Lemma doubling_ends_witness :
  (exists k r, double_until DOUBLINGS 5000 4096 = Some r /\ 0 <= k /\ r = 4096 * 2 ^ k /\ 5000 <= r < 2 * 5000) /\
  (forall fuel, double_until fuel (2 ^ 63 + 1) 4096 = None).
Proof.
  split; [apply (doubling_ends 5000 4096); lia|]. apply (doubling_ends (2 ^ 63 + 1) 4096); [lia|lia|]. vm_compute. reflexivity.
Defined.

(** C15: what is written to a mapped file is there.  [write] grows the file when it must, to
    a whole number of pages and less than twice the bytes needed and a page; it
    changes the bytes it was given and no others, new ones being zero; [read]
    returns them; and they survive a crash. *)
Theorem mmap_write_read {F} `{MmapLaws F} `{!MmapReliable F} (m : MmapFile F) off src :
  mapped m -> 0 <= off -> off + zlen src <= 2 ^ 61 ->
  exists m', mmap_write off src m = (Ok tt, m') /\ mapped m' /\ Z.max (m_size m) (off + zlen src) <= m_size m' /\
    (m_size m' <> m_size m -> m_size m' < 2 * (off + zlen src) + sys_page_size F /\ m_size m' `mod` (sys_page_size F) = 0) /\
    mm_content (m_file m') = splice (Z.to_nat off) src (resize (m_size m') (mm_content (m_file m))) /\
    mmap_read off (zlen src) m' = (Ok src, m') /\
    forall i, (i < length src)%nat -> mm_synced (m_file m') !! (Z.to_nat off + i)%nat = src !! i.
Proof.
  intros Hm Ho Hl. pose proof Hm as [_ _ _ Hs _].
  assert (Hgrow : exists m1, (if bool_decide (u64 (off + zlen src) > m_size m) then ensure_size (u64 (off + zlen src)) else mret tt) m = (Ok tt, m1) /\
    mapped m1 /\ Z.max (m_size m) (off + zlen src) <= m_size m1 /\
    (m_size m1 <> m_size m -> m_size m1 < 2 * (off + zlen src) + sys_page_size F /\ m_size m1 `mod` (sys_page_size F) = 0) /\
    mm_content (m_file m1) = resize (m_size m1) (mm_content (m_file m))).
  { rewrite u64_small by lia. destruct (decide (off + zlen src > m_size m)) as [Hgt|Hle].
    - rewrite bool_decide_eq_true_2 by done. destruct (ensure_size_run (off + zlen src) m Hm) as (m1 & Hr & Hm1 & Hsz & Hmod & Hc); [lia|].
      exists m1. split_and!; [done|done|lia|intros _; split; [lia|done]|done].
    - rewrite bool_decide_eq_false_2 by done. exists m. split_and!; [done|done|lia|done|]. rewrite resize_grow by lia.
      replace (Z.to_nat (m_size m) - length (mm_content (m_file m)))%nat with 0%nat by lia. by rewrite app_nil_r. }
  destruct Hgrow as (m1 & Hr1 & Hm1 & Hsz & Hmod & Hc1). pose proof Hm1 as [_ Ha1 _ Hs1 _].
  destruct (store_run off src m1 Hm1 Ho ltac:(lia)) as (m2 & Hr2 & Hm2 & Hsz2 & Hc2 & Hsy).
  exists m2. rewrite Hsz2. split_and!; [|done|done|done|by rewrite Hc2, Hc1| |done].
  - unfold mmap_write. rewrite (M_bind_ok get _ _ _ _ eq_refl), (M_bind_ok _ _ _ _ _ Hr1), (M_bind_ok get _ _ _ _ eq_refl).
    rewrite Ha1, bool_decide_eq_true_2 by lia. exact Hr2.
  - rewrite read_run by (try lia; done). do 2 f_equal. rewrite Hc2. unfold splice.
    rewrite drop_app_length' by (rewrite length_take; lia). by rewrite Nat2Z.id, take_app_length.
Qed.

(** A new file of one byte. *)
Definition demo_map : MmapFile MapMem := (mmap_open true 0 (new_MmapFile (mkMapMem false [] []))).2.

Lemma mmap_write_read_witness :
  exists m', mmap_write 4095 [x41; x42] demo_map = (Ok tt, m') /\ mmap_read 4095 2 m' = (Ok [x41; x42], m') /\ m_size m' = 8192.
Proof.
  destruct (mmap_write_read demo_map 4095 [x41; x42]) as (m' & Hw & _ & _ & _ & _ & Hr & _); [by split|lia|done|].
  exists m'. split; [exact Hw|]. split; [exact Hr|]. injection Hw as <-. reflexivity.
Defined.

(** The range check of [read] is in 64 bits and can wrap: the comment in mmap.h leaves
    the check to the caller, the code makes it, and it lets this read through. *)
Lemma mmap_read_wraps : mmap_read (2 ^ 64 - 1) 2 demo_map = (UB, demo_map).
Proof. reflexivity. Qed.
