(* ===== verification/Windows.v ===== *)
(** The Windows halves of the sources: [MmapFile] ([src/mmap.cpp]) and the positioned
    reads and writes that [src/storage.cpp] makes out of [_lseek], [_read] and [_write].

    [long] has 32 bits on Windows and both files cast 64-bit sizes and offsets to it.
    The calls of the Windows API are the interface [WinSys]; the C run-time calls on a
    descriptor are those of Posix.v. *)
From S2P Require Import Prelude Posix Mmap.

(** ** The interface *)

(** A file at a path. *)
Class WinSys (F : Type) := {
  wn_exists : F -> bool;
  wn_content : F -> bytes;
  sys_granularity : Z;                      (* dwAllocationGranularity *)
  wn_stat : F -> option Z;                  (* _stat, st_size *)
  sys_create_file : bool -> F -> bool * F;  (* CreateFileA, CREATE_ALWAYS or OPEN_EXISTING *)
  sys_open_osfhandle : F -> bool;           (* a descriptor was given *)
  sys_chsize : Z -> F -> bool * F;          (* _chsize *)
  sys_file_mapping : F -> bool;             (* CreateFileMapping of the whole file *)
  sys_map_view : Z -> F -> bool;            (* MapViewOfFile of that many bytes *)
  sys_view_store : Z -> bytes -> F -> F;    (* a write to the view *)
  sys_flush_view : Z -> F -> F;             (* FlushViewOfFile *)
}.
Arguments sys_granularity F {_}.

Class WinLaws (F : Type) `{WinSys F} := {
  granularity_law : exists k, 0 <= k < 30 /\ sys_granularity F = 2 ^ k;
  chsize_law n f ok f' :
    sys_chsize n f = (ok, f') ->
    if ok then 0 <= n /\ wn_exists f' = wn_exists f /\ wn_content f' = resize n (wn_content f) else f' = f;
  chsize_ok n f : 0 <= n < 2 ^ 31 -> wn_exists f = true -> (sys_chsize n f).1 = true;
  (* a file of no bytes cannot be mapped *)
  empty_mapping_law f : wn_content f = [] -> sys_file_mapping f = false;
  file_mapping_ok f : wn_content f <> [] -> sys_file_mapping f = true;
  map_view_ok n f : 0 < n <= zlen (wn_content f) -> sys_map_view n f = true;
  view_store_law off bs f :
    0 <= off -> off + zlen bs <= zlen (wn_content f) ->
    wn_content (sys_view_store off bs f) = splice (Z.to_nat off) bs (wn_content f) /\ wn_exists (sys_view_store off bs f) = wn_exists f;
  flush_view_law n f : wn_content (sys_flush_view n f) = wn_content f /\ wn_exists (sys_flush_view n f) = wn_exists f;
}.

(** ** Definitions *)

(** [static_cast<long>(n)] *)
Definition long_of (n : Z) : Z := let u := u32 n in if bool_decide (u < 2 ^ 31) then u else u - 2 ^ 32.

Section mmap.
Context {F : Type} `{WinSys F}.
#[local] Abbreviation MmapFile := (MmapFile F).

(** [remap] *)
Definition win_remap (new_size : Z) : M MmapFile unit :=
  m ← get;
  (if m_addr m && bool_decide (m_size m > 0) then modify (m_set_map false 0) else mret tt) ;;
  ok ← (if m_fd m then on_file (sys_chsize (long_of new_size)) else mret false);
  if negb ok then throw IOError else
  if bool_decide (new_size = 0) then modify (m_set_map false 0) else
  m ← get;
  if negb (sys_file_mapping (m_file m)) then throw IOError else
  if negb (sys_map_view new_size (m_file m)) then throw IOError else
  modify (m_set_map true new_size).

(** [CreateFileA] and [_open_osfhandle] *)
Definition win_open_fd (creat : bool) : M MmapFile unit :=
  ok ← on_file (sys_create_file creat);
  if negb ok then throw IOError else
  m ← get;
  modify (m_set_fd (sys_open_osfhandle (m_file m))) ;;
  if negb (sys_open_osfhandle (m_file m)) then throw IOError else mret tt.

(** [MmapFile::open] *)
Definition win_open (creat : bool) (initial_size : Z) : M MmapFile unit :=
  if creat then
    win_open_fd true ;;
    if bool_decide (initial_size > 0) then
      ok ← on_file (sys_chsize (long_of initial_size));
      if negb ok then throw IOError else win_remap initial_size
    else win_remap 1
  else
    m ← get;
    match wn_stat (m_file m) with
    | None => throw IOError
    | Some st_size =>
        win_open_fd false ;;
        if bool_decide (u64 st_size > 0) then win_remap (u64 st_size) else modify (m_set_map false 0)
    end.

(** [MmapFile::close] *)
Definition win_close : M MmapFile unit :=
  m ← get;
  if negb (m_is_open m) then mret tt else
  modify (m_set_map false 0) ;;
  modify (m_set_fd false).

(** [MmapFile::read] *)
Definition win_read (offset len : Z) : M MmapFile bytes :=
  m ← get;
  if bool_decide (u64 (offset + len) > m_size m) then throw IOError else
  if negb (m_addr m) then ub else
  lift (load (take (Z.to_nat (m_size m)) (wn_content (m_file m))) offset len).

(** [MmapFile::ensure_size] *)
Definition win_ensure_size (min_size : Z) : M MmapFile unit :=
  m ← get;
  if bool_decide (min_size <= m_size m) then mret tt else
  match double_until DOUBLINGS min_size (if bool_decide (m_size m = 0) then 1 else m_size m) with
  | None => ub
  | Some n => win_remap (u64 (u64 (n + sys_granularity F - 1) / (sys_granularity F) * (sys_granularity F)))
  end.

(** [MmapFile::write]: the whole view is flushed. *)
Definition win_write (offset : Z) (src : bytes) : M MmapFile unit :=
  m ← get;
  (if bool_decide (u64 (offset + zlen src) > m_size m) then win_ensure_size (u64 (offset + zlen src)) else mret tt) ;;
  m ← get;
  if negb (m_addr m && bool_decide (offset + zlen src <= m_size m)) then ub else
  on_file (fun f => (tt, sys_view_store offset src f)) ;;
  on_file (fun f => (tt, sys_flush_view (m_size m) f)).

(** [MmapFile::flush] *)
Definition win_flush : M MmapFile unit :=
  m ← get;
  if m_addr m && bool_decide (m_size m > 0) then on_file (fun f => (tt, sys_flush_view (m_size m) f)) else mret tt.
End mmap.

(** *** Positioned reads and writes *)

Section compat.
Context {F : Type} `{FileSys F}.

(** [_lseek] before the start of the file fails and leaves the position. *)
Definition crt_lseek (offset : Z) (f : F) : F := if bool_decide (0 <= offset) then sys_lseek offset f else f.

(** [xdl_pread_compat] and [xdl_pwrite_compat], under their mutex: one step. *)
Definition xdl_pread_compat (count offset : Z) (f : F) : bytes * F := sys_read (u32 count) (crt_lseek (long_of offset) f).
Definition xdl_pwrite_compat (buf : bytes) (offset : Z) (f : F) : Z * F :=
  sys_write (take (Z.to_nat (u32 (zlen buf))) buf) (crt_lseek (long_of offset) f).
End compat.

(** ** An instance: a file in memory with a granularity of 65536 bytes. *)
Record WinMem := mkWinMem { wm_exists : bool; wm_content : bytes }.

#[export] Instance WinMem_sys : WinSys WinMem := {
  wn_exists := wm_exists; wn_content := wm_content;
  sys_granularity := 65536;
  wn_stat f := if wm_exists f then Some (zlen (wm_content f)) else None;
  sys_create_file creat f := if creat then (true, mkWinMem true []) else if wm_exists f then (true, f) else (false, f);
  sys_open_osfhandle f := true;
  sys_chsize n f := if bool_decide (0 <= n) && wm_exists f then (true, mkWinMem true (resize n (wm_content f))) else (false, f);
  sys_file_mapping f := bool_decide (wm_content f <> []);
  sys_map_view n f := true;
  sys_view_store off bs f := mkWinMem (wm_exists f) (splice (Z.to_nat off) bs (wm_content f));
  sys_flush_view n f := f;
}.

(** ** Lemmas *)

#[export] Instance WinMem_laws : WinLaws WinMem.
Proof.
  split.
  - by exists 16.
  - intros n [[] c] ok f'; cbn; case_bool_decide; intros [= <- <-]; done.
  - intros n [[] c] Hn; [|done]. cbn. by rewrite bool_decide_eq_true_2 by lia.
  - intros [e c]; cbn. intros ->. done.
  - intros [e c]; cbn. intros Hc. by rewrite bool_decide_eq_true_2.
  - done.
  - done.
  - done.
Qed.

Lemma long_of_small n : 0 <= n < 2 ^ 31 -> long_of n = n.
Proof. intros Hn. unfold long_of, u32. rewrite Z.mod_small by lia. by rewrite bool_decide_eq_true_2 by lia. Qed.

Lemma long_of_shift n k : long_of (n + k * 2 ^ 32) = long_of n.
Proof. unfold long_of, u32. by rewrite Z_mod_plus_full. Qed.

Section mapped.
Context {F : Type} `{WinLaws F}.
Implicit Types (m : MmapFile F).

(** The whole file is mapped. *)
Record win_mapped m : Prop := {
  wp_fd : m_fd m = true;
  wp_addr : m_addr m = true;
  wp_there : wn_exists (m_file m) = true;
  wp_size : m_size m = zlen (wn_content (m_file m));
  wp_pos : 0 < m_size m;
}.

(** [remap] up to the truncation: the view is gone, the file has the size of the cast. *)
Lemma win_remap_chsize n m :
  m_fd m = true -> wn_exists (m_file m) = true -> 0 <= long_of n -> n <> 0 ->
  exists m1, win_remap n m = (m ← get;
      if negb (sys_file_mapping (m_file m)) then throw IOError else
      if negb (sys_map_view n (m_file m)) then throw IOError else
      modify (m_set_map true n)) m1 /\
    m_fd m1 = true /\ (m_addr m = true -> 0 < m_size m -> m_addr m1 = false /\ m_size m1 = 0) /\ wn_exists (m_file m1) = true /\
    wn_content (m_file m1) = resize (long_of n) (wn_content (m_file m)).
Proof.
  intros Hfd He Hl Hn. unfold win_remap. rewrite (M_bind_ok get _ _ _ _ eq_refl).
  set (m1 := if m_addr m && bool_decide (m_size m > 0) then m_set_map false 0 m else m).
  rewrite (M_bind_ok _ _ m tt m1) by (unfold m1; by destruct (_ && _)).
  assert (Hm1 : m_file m1 = m_file m /\ m_fd m1 = true) by (unfold m1; by destruct (_ && _)). destruct Hm1 as [Hf1 Hfd1].
  assert (Hgone : m_addr m = true -> 0 < m_size m -> m_addr m1 = false /\ m_size m1 = 0).
  { intros Ha Hp. unfold m1. by rewrite Ha, bool_decide_eq_true_2 by lia. }
  rewrite Hfd. destruct (sys_chsize (long_of n) (m_file m1)) as [ok f'] eqn:Et.
  assert (Hlt : long_of n < 2 ^ 31).
  { unfold long_of, u32. cbv zeta. pose proof (Z.mod_pos_bound n (2 ^ 32) ltac:(lia)). case_bool_decide; lia. }
  pose proof (chsize_ok (long_of n) (m_file m) ltac:(lia) He) as Hok. rewrite <- Hf1, Et in Hok. cbn in Hok. subst ok.
  pose proof (chsize_law _ _ _ _ Et) as (_ & He' & Hc'). rewrite Hf1 in He', Hc'.
  rewrite (M_bind_ok _ _ _ _ _ (on_file_run _ _ _ _ Et)). cbn [negb]. rewrite bool_decide_eq_false_2 by lia.
  eexists. split; [reflexivity|]. cbn. split_and!; [done|done|congruence|done].
Qed.

Lemma win_remap_run n m :
  m_fd m = true -> wn_exists (m_file m) = true -> 0 < n < 2 ^ 31 ->
  exists m', win_remap n m = (Ok tt, m') /\ win_mapped m' /\ m_size m' = n /\ wn_content (m_file m') = resize n (wn_content (m_file m)).
Proof.
  intros Hfd He Hn. destruct (win_remap_chsize n m Hfd He) as (m1 & -> & Hfd1 & _ & He1 & Hc1); [rewrite long_of_small by lia; lia|lia|].
  rewrite long_of_small in Hc1 by lia. assert (Hlen : zlen (wn_content (m_file m1)) = n) by (rewrite Hc1, length_resize; lia).
  rewrite (M_bind_ok get _ _ _ _ eq_refl), file_mapping_ok, map_view_ok; [|lia|intros Hz; rewrite Hz in Hlen; cbn in Hlen; lia].
  cbn [negb]. eexists. split; [reflexivity|]. cbn. split_and!; [by split; cbn; try done; lia|done|done].
Qed.

(** A multiple of 2 ^ 32 is cast to zero. *)
Lemma win_remap_zero n m :
  m_fd m = true -> wn_exists (m_file m) = true -> m_addr m = true -> 0 < m_size m -> n <> 0 -> long_of n = 0 ->
  exists m', win_remap n m = (Throw IOError, m') /\ wn_content (m_file m') = [] /\ m_addr m' = false /\ m_size m' = 0.
Proof.
  intros Hfd He Ha Hp Hn Hz. destruct (win_remap_chsize n m Hfd He) as (m1 & -> & _ & Hgone & _ & Hc1); [lia|done|].
  destruct (Hgone Ha Hp) as [Ha1 Hs1]. rewrite Hz in Hc1. assert (Hc : wn_content (m_file m1) = []) by (by rewrite Hc1).
  exists m1. rewrite (M_bind_ok get _ _ _ _ eq_refl), empty_mapping_law by done. by split_and!.
Qed.

(** The size that [ensure_size] asks for: doubled, then rounded up. *)
Lemma win_ensure_size_remap min_size m :
  win_mapped m -> m_size m < min_size <= 2 ^ 62 ->
  exists n, win_ensure_size min_size m = win_remap n m /\ min_size <= n < 2 * min_size + sys_granularity F /\
    exists k, 0 <= k /\ n = (m_size m * 2 ^ k + sys_granularity F - 1) / sys_granularity F * sys_granularity F /\ min_size <= m_size m * 2 ^ k < 2 * min_size.
Proof.
  intros [Hfd Ha He Hs Hp] Hm. destruct granularity_law as (k & Hk & Hg).
  assert (Hgs : 1 <= sys_granularity F < 2 ^ 30).
  { rewrite Hg. split; [pose proof (Z.pow_pos_nonneg 2 k); lia|apply Z.pow_lt_mono_r; lia]. }
  unfold win_ensure_size. rewrite (M_bind_ok get _ _ _ _ eq_refl), (bool_decide_eq_false_2 (min_size <= _)), (bool_decide_eq_false_2 (_ = 0)) by lia.
  destruct (double_until_some DOUBLINGS min_size (m_size m)) as (j & r & -> & Hj & Hr & Hmin & Hub); [lia|lia|unfold DOUBLINGS; lia|].
  assert (Hrr : min_size <= r < 2 * min_size) by lia. rewrite (u64_small (r + _ - 1)) by lia.
  destruct (round_up r (sys_granularity F) ltac:(lia) (proj1 Hgs)) as [Hround _].
  rewrite u64_small by lia. eexists. split; [reflexivity|]. split; [lia|]. exists j. rewrite <- Hr. split_and!; [done|done|lia|lia].
Qed.
End mapped.

(** ** Properties *)

(** On Windows, small files.  While what is asked for stays below 2 ^ 29 bytes, [write]
    and [read] of a mapped file do on Windows what they do elsewhere: the file grows
    when it must, the given bytes change and no others, and they are read back. *)
Theorem win_write_read {F} `{WinLaws F} (m : MmapFile F) off src :
  win_mapped m -> 0 <= off -> off + zlen src <= 2 ^ 29 ->
  exists m', win_write off src m = (Ok tt, m') /\ win_mapped m' /\ Z.max (m_size m) (off + zlen src) <= m_size m' /\
    wn_content (m_file m') = splice (Z.to_nat off) src (resize (m_size m') (wn_content (m_file m))) /\
    win_read off (zlen src) m' = (Ok src, m').
Proof.
  intros Hm Ho Hl. pose proof Hm as [Hfd _ He Hs _].
  assert (Hgrow : exists m1, (if bool_decide (u64 (off + zlen src) > m_size m) then win_ensure_size (u64 (off + zlen src)) else mret tt) m = (Ok tt, m1) /\
    win_mapped m1 /\ Z.max (m_size m) (off + zlen src) <= m_size m1 /\ wn_content (m_file m1) = resize (m_size m1) (wn_content (m_file m))).
  { rewrite u64_small by lia. destruct (decide (off + zlen src > m_size m)) as [Hgt|Hle].
    - rewrite bool_decide_eq_true_2 by done. destruct (win_ensure_size_remap (off + zlen src) m Hm) as (n & -> & Hn & _); [lia|].
      destruct granularity_law as (k & Hk & Hg). assert (sys_granularity F < 2 ^ 30) by (rewrite Hg; apply Z.pow_lt_mono_r; lia).
      destruct (win_remap_run n m Hfd He) as (m1 & Hr & Hm1 & Hsz & Hc); [lia|]. exists m1. rewrite Hsz. split_and!; [done|done|lia|done].
    - rewrite bool_decide_eq_false_2 by done. exists m. split_and!; [done|done|lia|]. rewrite resize_grow by lia.
      replace (Z.to_nat (m_size m) - length (wn_content (m_file m)))%nat with 0%nat by lia. by rewrite app_nil_r. }
  destruct Hgrow as (m1 & Hr1 & Hm1 & Hsz & Hc1). pose proof Hm1 as [Hfd1 Ha1 He1 Hs1 Hp1].
  destruct (view_store_law off src (m_file m1)) as [Hc2 He2]; [done|lia|]. set (f2 := sys_view_store off src (m_file m1)) in *.
  destruct (flush_view_law (m_size m1) f2) as [Hc3 He3].
  assert (Hlen : zlen (wn_content (sys_flush_view (m_size m1) f2)) = m_size m1) by (rewrite Hc3, Hc2, length_splice; lia).
  exists (m_set_file (sys_flush_view (m_size m1) f2) m1). cbn [m_size m_set_file m_file]. split_and!; [| |done|by rewrite Hc3, Hc2, Hc1|].
  - unfold win_write. rewrite (M_bind_ok get _ _ _ _ eq_refl), (M_bind_ok _ _ _ _ _ Hr1), (M_bind_ok get _ _ _ _ eq_refl).
    by rewrite Ha1, bool_decide_eq_true_2 by lia.
  - split; cbn; try done; congruence.
  - unfold win_read. rewrite (M_bind_ok get _ _ _ _ eq_refl), u64_small by lia. cbn [m_size m_set_file m_addr m_file].
    rewrite bool_decide_eq_false_2, Ha1 by lia. cbn [negb]. unfold lift, load. rewrite take_ge by lia. rewrite bool_decide_eq_true_2 by lia.
    do 2 f_equal. rewrite Hc3, Hc2. unfold splice. rewrite drop_app_length' by (rewrite length_take; lia). by rewrite Nat2Z.id, take_app_length.
Qed.

(** C26: on Windows, growing past 2 ^ 31 bytes.  When the mapped size is a power of two, a
    write that ends between 2 ^ 31 and 2 ^ 32 makes the new size 2 ^ 32, which the cast
    to a 32-bit [long] turns into zero: the file is cut to nothing, every byte that it
    held is lost, the view is gone, and only then is [IOError] thrown. *)
Theorem win_growth_destroys {F} `{WinLaws F} (m : MmapFile F) off src k :
  win_mapped m -> m_size m = 2 ^ k -> 0 <= k < 32 -> 0 <= off -> m_size m < off + zlen src -> 2 ^ 31 < off + zlen src <= 2 ^ 32 ->
  exists m', win_write off src m = (Throw IOError, m') /\ wn_content (m_file m') = [] /\ m_addr m' = false /\ m_size m' = 0.
Proof.
  intros Hm Hk Hk32 Ho Hgt Hrange. pose proof Hm as [Hfd Ha He Hs Hp].
  destruct (win_ensure_size_remap (off + zlen src) m Hm) as (n & Hens & _ & j & Hj & Hn & Hr); [lia|].
  assert (Hpow : m_size m * 2 ^ j = 2 ^ 32).
  { rewrite Hk, <- Z.pow_add_r in Hr |- * by lia. f_equal.
    assert (31 < k + j) by (apply (Z.pow_lt_mono_r_iff 2); lia). assert (k + j < 33) by (apply (Z.pow_lt_mono_r_iff 2); lia). lia. }
  destruct granularity_law as (g & Hg & Hgr). assert (Hn32 : n = 2 ^ 32).
  { rewrite Hn, Hpow, Hgr. replace (2 ^ 32) with (2 ^ (32 - g) * 2 ^ g) by (rewrite <- Z.pow_add_r by lia; f_equal; lia).
    pose proof (Z.pow_pos_nonneg 2 g ltac:(lia) ltac:(lia)). replace (2 ^ (32 - g) * 2 ^ g + 2 ^ g - 1) with (2 ^ (32 - g) * 2 ^ g + (2 ^ g - 1)) by lia.
    rewrite Z.div_add_l, (Z.div_small (2 ^ g - 1)) by lia. lia. }
  destruct (win_remap_zero n m Hfd He Ha Hp) as (m' & Hrm & Hx); [lia|by rewrite Hn32|].
  exists m'. split; [|done]. unfold win_write. rewrite (M_bind_ok get _ _ _ _ eq_refl), u64_small, bool_decide_eq_true_2 by lia.
  apply M_bind_throw. by rewrite Hens.
Qed.

(** C27: on Windows, positioned reads and writes.  Below 2 ^ 31 the replacements of [pread]
    and [pwrite] transfer what the originals may transfer at that offset.  The offset is
    cast to a 32-bit [long]: adding a multiple of 2 ^ 32 to it changes nothing, so a page
    4 GB into the file is written over the header, and an offset between 2 ^ 31 and 2 ^ 32
    is not looked at at all, the transfer happens wherever the last one ended. *)
Theorem win_offsets {F} `{FileLaws F} (f : F) count offset buf :
  0 <= offset < 2 ^ 31 -> 0 <= count < 2 ^ 32 -> zlen buf < 2 ^ 32 ->
  (let bs := (xdl_pread_compat count offset f).1 in
    (exists k, bs = take k (drop (Z.to_nat offset) (f_content f))) /\ zlen bs <= count) /\
  (let '(n, f') := xdl_pwrite_compat buf offset f in
    n <= zlen buf /\ f_content f' = if bool_decide (0 < n) then file_write offset (take (Z.to_nat n) buf) (f_content f) else f_content f) /\
  (forall k, xdl_pread_compat count (offset + k * 2 ^ 32) f = xdl_pread_compat count offset f /\
     xdl_pwrite_compat buf (offset + k * 2 ^ 32) f = xdl_pwrite_compat buf offset f) /\
  xdl_pwrite_compat buf (2 ^ 31 + offset) f = sys_write buf f.
Proof.
  intros Ho Hc Hb. assert (Hall : take (Z.to_nat (u32 (zlen buf))) buf = buf) by (unfold u32; rewrite Z.mod_small by lia; apply take_ge; lia).
  unfold xdl_pread_compat, xdl_pwrite_compat. rewrite !Hall. setoid_rewrite long_of_shift. rewrite long_of_small by lia.
  unfold crt_lseek. rewrite (bool_decide_eq_true_2 (0 <= offset)) by lia. destruct (lseek_law offset f) as (Hp & Hct & _). split; [|split; [|split]].
  - destruct (sys_read (u32 count) (sys_lseek offset f)) as [bs f'] eqn:E. pose proof (read_law _ _ _ _ E) as (Hk & Hl & _). cbn [fst].
    rewrite Hp, Hct in Hk. split; [done|]. unfold u32 in Hl. rewrite Z.mod_small in Hl by lia. lia.
  - destruct (sys_write buf (sys_lseek offset f)) as [n f'] eqn:E. pose proof (write_law _ _ _ _ E) as (Hn & _ & _ & Hcont & _). by rewrite Hp, Hct in Hcont.
  - done.
  - rewrite bool_decide_eq_false_2; [done|]. unfold long_of, u32. rewrite Z.mod_small by lia. rewrite bool_decide_eq_false_2 by lia. lia.
Qed.

(** *** Witnesses *)

Definition demo_win : MmapFile WinMem := (win_open true 0 (new_MmapFile (mkWinMem false []))).2.

Lemma demo_win_mapped : win_mapped demo_win.
Proof. by split. Qed.

Lemma win_write_read_witness : exists m', win_write 10 [x41; x42] demo_win = (Ok tt, m') /\ win_read 10 2 m' = (Ok [x41; x42], m').
Proof.
  destruct (win_write_read demo_win 10 [x41; x42] demo_win_mapped) as (m' & Hw & _ & _ & _ & Hr); [lia|cbn; lia|]. by exists m'.
Defined.

(** A byte at offset 3 GB. *)
Lemma win_growth_destroys_witness :
  exists m', win_write (3 * 2 ^ 30) [x41] demo_win = (Throw IOError, m') /\ wn_content (m_file m') = [] /\ m_addr m' = false /\ m_size m' = 0.
Proof. apply (win_growth_destroys demo_win (3 * 2 ^ 30) [x41] 0 demo_win_mapped); [reflexivity|lia|lia|vm_compute; reflexivity|cbn [length]; lia]. Defined.

Lemma win_offsets_witness :
  let f : MemFile 8 true := mkMemFile true [x30; x31; x32; x33] [] 0 in
  xdl_pwrite_compat [x41; x42] 1 f = (2, mkMemFile true [x30; x41; x42; x33] [] 3) /\
  xdl_pwrite_compat [x41; x42] (1 + 1 * 2 ^ 32) f = xdl_pwrite_compat [x41; x42] 1 f.
Proof.
  split; [vm_compute; reflexivity|]. apply (win_offsets (mkMemFile true [x30; x31; x32; x33] [] 0 : MemFile 8 true) 2 1 [x41; x42]); cbn; lia.
Defined.
