(* ===== verification/Text.v ===== *)
(** The parts of the C++ library that the command line uses on text: white space and
    tokens ([operator>>]), [getline], numbers from text ([operator>>], [stoul],
    [stoll], [stof]) and text from numbers ([operator<<] with [setw], [fixed] and
    [setprecision(2)]), in the C locale. *)
From Stdlib Require Import SpecFloat.
From S2P Require Import Prelude Types Float.

(** ** Definitions *)

(** *** Characters *)

Definition is_space (b : byte) : bool := bool_decide (byte_Z b = 32 \/ 9 <= byte_Z b <= 13).

(** The value of a digit in a base up to 16. *)
Definition digit_value (base : Z) (b : byte) : option Z :=
  let c := byte_Z b in
  let v := if bool_decide (48 <= c <= 57) then c - 48
           else if bool_decide (97 <= c <= 102) then c - 87
           else if bool_decide (65 <= c <= 70) then c - 55 else base in
  if bool_decide (v < base) then Some v else None.

Definition digit_char (d : Z) : byte := Z_byte (48 + d).

(** Case does not matter in [strtof]. *)
Definition lower (b : byte) : byte := if bool_decide (65 <= byte_Z b <= 90) then Z_byte (byte_Z b + 32) else b.

(** The longest prefix of characters that pass a test, and the rest. *)
Fixpoint span (p : byte -> bool) (s : bytes) : bytes * bytes :=
  match s with
  | [] => ([], [])
  | b :: s' => if p b then let '(x, y) := span p s' in (b :: x, y) else ([], s)
  end.

Definition skip_ws (s : bytes) : bytes := (span is_space s).2.

(** [ss >> tok]: [None] when nothing is left. *)
Definition extract_string (s : bytes) : option (bytes * bytes) :=
  let s := skip_ws s in
  if bool_decide (s = []) then None else Some (span (fun b => negb (is_space b)) s).

(** [getline(ss, token, delim)] until it fails. *)
Fixpoint getlines_from (delim : byte) (cur : bytes) (s : bytes) : list bytes :=
  match s with
  | [] => [cur]
  | b :: s =>
      if bool_decide (b = delim) then cur :: (if bool_decide (s = []) then [] else getlines_from delim [] s)
      else getlines_from delim (cur ++ [b]) s
  end.
Definition getlines (delim : byte) (s : bytes) : list bytes := if bool_decide (s = []) then [] else getlines_from delim [] s.

(** [s.find(c)] *)
Fixpoint find_char (c : byte) (s : bytes) : option nat :=
  match s with
  | [] => None
  | b :: s => if bool_decide (b = c) then Some 0%nat else S <$> find_char c s
  end.

(** *** Integers from text *)

(** The longest run of digits, most significant first. *)
Fixpoint span_digits (base : Z) (s : bytes) : list Z * bytes :=
  match s with
  | [] => ([], [])
  | b :: s' => match digit_value base b with Some d => let '(x, y) := span_digits base s' in (d :: x, y) | None => ([], s) end
  end.
Definition digits_val (base : Z) (ds : list Z) : Z := foldl (fun n d => base * n + d) 0 ds.

(** An optional sign; [true] is minus. *)
Definition take_sign (s : bytes) : bool * bytes :=
  match s with
  | x2d :: s => (true, s)
  | x2b :: s => (false, s)
  | _ => (false, s)
  end.

(** Sign and magnitude of the decimal number at the start of the text. *)
Definition parse_int (s : bytes) : option (bool * Z * bytes) :=
  let '(neg, s) := take_sign (skip_ws s) in
  let '(ds, rest) := span_digits 10 s in
  if bool_decide (ds = []) then None else Some (neg, digits_val 10 ds, rest).

(** [std::stoul] ([unsigned long] of 64 bits) and [std::stoll] *)
Definition stoul (s : bytes) : outcome Z :=
  match parse_int s with
  | None => Throw InvalidArgument
  | Some (neg, n, _) => if bool_decide (n > UINT64_MAX) then Throw OutOfRange else Ok (if neg then u64 (- n) else n)
  end.
Definition stoll (s : bytes) : outcome Z :=
  match parse_int s with
  | None => Throw InvalidArgument
  | Some (neg, n, _) =>
      let v := if neg : bool then - n else n in
      if bool_decide (- 2 ^ 63 <= v < 2 ^ 63) then Ok v else Throw OutOfRange
  end.

(** [ss >> id] for [uint32_t]: [None] when the stream fails.  As in libstdc++, a
    minus sign negates in 32 bits. *)
Definition extract_uint32 (s : bytes) : option (Z * bytes) :=
  match parse_int s with
  | Some (neg, n, rest) => if bool_decide (n > UINT32_MAX) then None else Some (if neg : bool then u32 (- n) else n, rest)
  | None => None
  end.

(** *** [float] from text *)

(** The positive rational [num / den] rounded to the nearest [float], ties to even:
    mantissa and exponent of the result, before the range is looked at. *)
Definition round_ratio (num den : Z) : Z * Z :=
  let l := Z.log2 num - Z.log2 den in
  let l := if bool_decide (den * 2 ^ Z.max 0 l <= num * 2 ^ Z.max 0 (- l)) then l else l - 1 in
  let e := Z.max (l - 23) (-149) in
  let n := num * 2 ^ Z.max 0 (- e) in
  let d := den * 2 ^ Z.max 0 e in
  let q := n / d in
  let r := 2 * (n mod d) in
  let m := if bool_decide (r < d \/ r = d /\ Z.even q = true) then q else q + 1 in
  if bool_decide (m = 2 ^ 24) then (2 ^ 23, e + 1) else (m, e).

Definition f32_bits (neg : bool) (mag : Z) : Z := if neg then mag + 2 ^ 31 else mag.

(** The [float] nearest to [num / den]; [ERANGE] when it is too large, or too small to
    be exact. *)
Definition f32_of_ratio (neg : bool) (num den : Z) : outcome Z :=
  if bool_decide (num = 0) then Ok (f32_bits neg 0) else
  let '(m, e) := round_ratio num den in
  let exact := bool_decide (num * 2 ^ Z.max 0 (- e) = m * den * 2 ^ Z.max 0 e) in
  let tiny := bool_decide (num * 2 ^ 151 < den * (2 ^ 25 - 1)) in
  if bool_decide (e > 104) || (tiny && negb exact) then Throw OutOfRange
  else if bool_decide (m < 2 ^ 23) then Ok (f32_bits neg m)
  else Ok (f32_bits neg ((e + 150) * 2 ^ 23 + (m - 2 ^ 23))).

(** The exponent after the letter [c], if there is one. *)
Definition take_exponent (c : byte) (s : bytes) : Z :=
  match s with
  | b :: s =>
      if bool_decide (lower b = c) then
        let '(neg, s) := take_sign s in
        let '(ds, _) := span_digits 10 s in
        if neg : bool then - digits_val 10 ds else digits_val 10 ds
      else 0
  | [] => 0
  end.

(** Digits with an optional point: their value without the point, and how many came
    after it; [None] without a digit. *)
Definition take_mantissa (base : Z) (s : bytes) : option (Z * Z * bytes) :=
  let '(ds1, s1) := span_digits base s in
  let '(ds2, s2) := match s1 with x2e :: s' => span_digits base s' | _ => ([], s1) end in
  if bool_decide (ds1 ++ ds2 = []) then None else Some (digits_val base (ds1 ++ ds2), zlen ds2, s2).

(** [m * b ^ x] *)
Definition scaled (neg : bool) (m b x : Z) : outcome Z :=
  f32_of_ratio neg (m * b ^ Z.max 0 x) (b ^ Z.max 0 (- x)).

Definition starts_with (p s : bytes) : bool := bool_decide (lower <$> take (length p) s = p).

(** [std::stof] *)
Definition stof (s : bytes) : outcome Z :=
  let '(neg, s) := take_sign (skip_ws s) in
  if starts_with (str "inf") s then Ok (f32_bits neg (255 * 2 ^ 23))
  else if starts_with (str "nan") s then Ok (f32_bits neg (255 * 2 ^ 23 + 2 ^ 22))
  else
    let hex := if starts_with (str "0x") s then take_mantissa 16 (drop 2 s) else None in
    match hex with
    | Some (m, frac, rest) => scaled neg m 2 (take_exponent x70 rest - 4 * frac)
    | None =>
        match take_mantissa 10 s with
        | Some (m, frac, rest) => scaled neg m 10 (take_exponent x65 rest - frac)
        | None => Throw InvalidArgument
        end
    end.

(** *** Text from numbers *)

(** Decimal digits, least significant first; twenty are enough for 64 bits, and a
    [float] has at most thirty-nine before the point. *)
Fixpoint digits_of (fuel : nat) (n : Z) : list Z :=
  match fuel with
  | O => []
  | S fuel => if bool_decide (n < 10) then [n] else n mod 10 :: digits_of fuel (n / 10)
  end.
Definition show_nat (n : Z) : bytes := digit_char <$> reverse (digits_of 48 n).
Definition show_int (n : Z) : bytes := if bool_decide (n < 0) then x2d :: show_nat (- n) else show_nat n.

(** [setw(n)], right- and left-adjusted *)
Definition pad_left (n : nat) (s : bytes) : bytes := replicate (n - length s) x20 ++ s.
Definition pad_right (n : nat) (s : bytes) : bytes := s ++ replicate (n - length s) x20.

(** [fixed << setprecision(2)]: hundredths, rounded to even. *)
Definition hundredths (m e : Z) : Z :=
  let n := 100 * m * 2 ^ Z.max 0 e in
  let d := 2 ^ Z.max 0 (- e) in
  let q := n / d in
  let r := 2 * (n mod d) in
  if bool_decide (r < d \/ r = d /\ Z.even q = true) then q else q + 1.
Definition show_f32 (b : Z) : bytes :=
  (if f32_neg b then [x2d] else []) ++
  match f32_of_bits b with
  | S754_nan => str "nan"
  | S754_infinity _ => str "inf"
  | S754_zero _ => str "0.00"
  | S754_finite _ m e =>
      let h := hundredths (Zpos m) e in
      show_nat (h / 100) ++ [x2e; digit_char (h mod 100 / 10); digit_char (h mod 10)]
  end.

(** *** Words *)

(** The words of a text: what repeated [ss >> tok] reads. *)
Fixpoint words_from (cur : bytes) (s : bytes) : list bytes :=
  match s with
  | [] => if bool_decide (cur = []) then [] else [cur]
  | b :: s =>
      if is_space b then (if bool_decide (cur = []) then words_from [] s else cur :: words_from [] s)
      else words_from (cur ++ [b]) s
  end.
Definition words (s : bytes) : list bytes := words_from [] s.

(** A word: not empty, without white space. *)
Definition is_word (w : bytes) : Prop := w <> [] /\ Forall (fun b => is_space b = false) w.

(** Texts with a separator between them. *)
Fixpoint join (sep : byte) (l : list bytes) : bytes :=
  match l with
  | [] => []
  | [w] => w
  | w :: l => w ++ sep :: join sep l
  end.

(** ** Lemmas *)

(** *** Words *)

Lemma span_app p s t b :
  Forall (fun c => p c = true) s -> p b = false -> span p (s ++ b :: t) = (s, b :: t).
Proof. induction 1 as [|c s Hc _ IH]; intros Hb; cbn; [by rewrite Hb|]. by rewrite Hc, IH. Qed.

Lemma span_all p s : Forall (fun c => p c = true) s -> span p s = (s, []).
Proof. induction 1 as [|c s Hc _ IH]; cbn; [done|]. by rewrite Hc, IH. Qed.

Lemma span_eq p s : (span p s).1 ++ (span p s).2 = s.
Proof. induction s as [|b s IH]; cbn; [done|]. destruct (p b); [|done]. destruct (span p s). cbn in *. by rewrite IH. Qed.

Lemma length_span p s : (length (span p s).2 <= length s)%nat.
Proof. pose proof (f_equal length (span_eq p s)) as H. rewrite length_app in H. lia. Qed.

Lemma words_from_span cur s :
  words_from cur s =
    let '(w, rest) := span (fun b => negb (is_space b)) s in
    match rest with
    | [] => if bool_decide (cur ++ w = []) then [] else [cur ++ w]
    | _ :: rest => if bool_decide (cur ++ w = []) then words rest else (cur ++ w) :: words rest
    end.
Proof.
  revert cur. induction s as [|b s IH]; intros cur; cbn [words_from span]; [by rewrite app_nil_r|].
  destruct (is_space b) eqn:Eb; cbn [negb]; [by rewrite app_nil_r|]. rewrite IH. destruct (span _ s) as [w rest]. by rewrite <- app_assoc.
Qed.

Lemma words_skip s : words (skip_ws s) = words s.
Proof.
  unfold skip_ws, words. induction s as [|b s IH]; [done|]. cbn [span]. destruct (is_space b) eqn:Eb; [|done].
  destruct (span is_space s) eqn:Es. cbn [snd] in *. rewrite IH. cbn [words_from]. by rewrite Eb.
Qed.

Lemma skip_ws_head s b t : skip_ws s = b :: t -> is_space b = false.
Proof.
  unfold skip_ws. induction s as [|c s IH]; [done|]. cbn [span]. destruct (is_space c) eqn:Ec; [|cbn; congruence].
  destruct (span is_space s). exact IH.
Qed.

Lemma span_stop p s w b t : span p s = (w, b :: t) -> p b = false.
Proof.
  revert w. induction s as [|c s IH]; intros w; cbn [span]; [done|]. destruct (p c) eqn:Ec; [|congruence].
  destruct (span p s) as [x y]. intros [= <- ->]. by eapply IH.
Qed.

(** [ss >> tok] takes the first word. *)
Lemma extract_string_words s :
  match extract_string s with
  | None => words s = []
  | Some (w, rest) => words s = w :: words rest /\ (length rest < length s)%nat
  end.
Proof.
  unfold extract_string. rewrite <- (words_skip s). pose proof (length_span is_space s) as Hlen. fold (skip_ws s) in Hlen.
  destruct (skip_ws s) as [|b t] eqn:Es; [done|]. rewrite bool_decide_eq_false_2 by done.
  pose proof (skip_ws_head _ _ _ Es) as Hb. cbn [span]. rewrite Hb. cbn [negb].
  pose proof (length_span (fun c => negb (is_space c)) t) as Hlt. cbn [length] in Hlen.
  unfold words. cbn [words_from]. rewrite Hb, words_from_span. destruct (span _ t) as [w rest] eqn:Et. cbn [snd app] in *.
  split; [|lia]. destruct rest as [|c rest]; [done|]. apply span_stop, negb_false_iff in Et. cbn [words_from]. by rewrite Et.
Qed.

Lemma extract_string_word w b rest : is_word w -> is_space b = true -> extract_string (w ++ b :: rest) = Some (w, b :: rest).
Proof.
  intros [Hne Hw] Hb. unfold extract_string. destruct w as [|c w]; [done|]. pose proof (Forall_inv Hw) as Hc. cbn beta in Hc.
  assert (skip_ws ((c :: w) ++ b :: rest) = (c :: w) ++ b :: rest) as -> by (unfold skip_ws; cbn; by rewrite Hc).
  rewrite bool_decide_eq_false_2 by done. f_equal. apply span_app; [|by rewrite Hb].
  eapply Forall_impl; [exact Hw|]. intros d Hd. cbn beta in *. by rewrite Hd.
Qed.

Lemma extract_string_last w : is_word w -> extract_string w = Some (w, []).
Proof.
  intros [Hne Hw]. unfold extract_string. destruct w as [|c w]; [done|]. pose proof (Forall_inv Hw) as Hc. cbn beta in Hc.
  assert (skip_ws (c :: w) = c :: w) as -> by (unfold skip_ws; cbn; by rewrite Hc).
  rewrite bool_decide_eq_false_2 by done. f_equal. apply span_all.
  eapply Forall_impl; [exact Hw|]. intros d Hd. cbn beta in *. by rewrite Hd.
Qed.

Lemma extract_uint32_space b s : is_space b = true -> extract_uint32 (b :: s) = extract_uint32 s.
Proof. intros Hb. unfold extract_uint32, parse_int, skip_ws. cbn [span]. rewrite Hb. by destruct (span is_space s). Qed.

(** *** [getline] *)

Lemma getlines_from_word delim cur w s :
  delim ∉ w -> getlines_from delim cur (w ++ s) = getlines_from delim (cur ++ w) s.
Proof.
  revert cur. induction w as [|b w IH]; intros cur Hw; cbn [app getlines_from]; [by rewrite app_nil_r|].
  apply not_elem_of_cons in Hw as [Hb Hw]. rewrite bool_decide_eq_false_2, IH by done. by rewrite <- app_assoc.
Qed.

(** Splitting undoes joining. *)
Lemma getlines_join delim l : Forall (fun w => w <> [] /\ delim ∉ w) l -> getlines delim (join delim l) = l.
Proof.
  unfold getlines. induction 1 as [|w l [Hne Hw] Hl IH]; [done|]. destruct l as [|v l].
  { cbn [join]. rewrite bool_decide_eq_false_2 by done. pose proof (getlines_from_word delim [] w [] Hw) as Hg. by rewrite app_nil_r in Hg. }
  assert (Hj : join delim (v :: l) <> []).
  { apply Forall_cons in Hl as [[Hv _] _]. destruct l; [done|]. cbn [join]. by destruct v. }
  cbn [join] in *. rewrite bool_decide_eq_false_2 in IH by done. rewrite bool_decide_eq_false_2 by (by destruct w).
  rewrite getlines_from_word by done. cbn [app getlines_from]. rewrite bool_decide_eq_true_2, bool_decide_eq_false_2 by done. by rewrite IH.
Qed.

(** *** Decimal numbers *)

Lemma digit_cases d : 0 <= d < 10 -> d ∈ seqZ 0 10.
Proof. intros. apply elem_of_seqZ. lia. Qed.

Ltac by_digit H := apply digit_cases in H; repeat (apply elem_of_cons in H as [->|H]; [vm_compute; reflexivity|]); by apply elem_of_nil in H.

Lemma digit_value_char d : 0 <= d < 10 -> digit_value 10 (digit_char d) = Some d.
Proof. intros H. by_digit H. Qed.

Lemma digit_not_space d : 0 <= d < 10 -> is_space (digit_char d) = false.
Proof. intros H. by_digit H. Qed.

Lemma take_sign_digit d s : 0 <= d < 10 -> take_sign (digit_char d :: s) = (false, digit_char d :: s).
Proof. intros H. by_digit H. Qed.

Lemma digit_value_range base b d : 0 <= base -> digit_value base b = Some d -> 0 <= d < base.
Proof. intros Hb. unfold digit_value. repeat case_bool_decide; intros [= <-]; lia. Qed.

(** The text does not go on with a digit. *)
Definition no_digit (s : bytes) : Prop := match s with [] => True | b :: _ => digit_value 10 b = None end.

Lemma span_digits_show ds rest :
  Forall (fun d => 0 <= d < 10) ds -> no_digit rest -> span_digits 10 ((digit_char <$> ds) ++ rest) = (ds, rest).
Proof.
  intros Hds Hr. induction Hds as [|d ds Hd _ IH]; cbn.
  - destruct rest as [|b rest]; [done|]. cbn. cbn in Hr. by rewrite Hr.
  - rewrite digit_value_char by done. by rewrite IH.
Qed.

Lemma digits_val_snoc base ds d : digits_val base (ds ++ [d]) = base * digits_val base ds + d.
Proof. unfold digits_val. by rewrite foldl_app. Qed.

Lemma digits_of_spec fuel n :
  0 <= n < 10 ^ Z.of_nat (S fuel) ->
  Forall (fun d => 0 <= d < 10) (digits_of (S fuel) n) /\ digits_val 10 (reverse (digits_of (S fuel) n)) = n /\ digits_of (S fuel) n <> [].
Proof.
  revert n. induction fuel as [|fuel IH]; intros n Hn; cbn [digits_of] in *; case_bool_decide as Hlt.
  - split_and!; [apply Forall_singleton; lia|done|done].
  - change (10 ^ Z.of_nat 1) with 10 in Hn. lia.
  - split_and!; [apply Forall_singleton; lia|done|done].
  - pose proof (Z.div_mod n 10 ltac:(lia)) as Hdm. pose proof (Z.mod_pos_bound n 10 ltac:(lia)) as Hm.
    destruct (IH (n / 10)) as (Hf & Hv & _).
    { split; [apply Z.div_pos; lia|]. apply Z.div_lt_upper_bound; [lia|]. rewrite <- Z.pow_succ_r by lia.
      replace (Z.succ (Z.of_nat (S fuel))) with (Z.of_nat (S (S fuel))) by lia. lia. }
    split_and!; [by constructor| |done]. rewrite reverse_cons, digits_val_snoc, Hv. lia.
Qed.

Lemma show_nat_digits n : 0 <= n < 10 ^ 48 ->
  exists ds, show_nat n = digit_char <$> ds /\ Forall (fun d => 0 <= d < 10) ds /\ digits_val 10 ds = n /\ ds <> [].
Proof.
  intros Hn. destruct (digits_of_spec 47 n Hn) as (Hf & Hv & Hne). exists (reverse (digits_of 48 n)).
  split_and!; [done|by apply Forall_reverse|done|]. intros Hr%(f_equal reverse). by rewrite reverse_involutive in Hr.
Qed.

(** What is printed is read back. *)
Lemma parse_show_nat n rest : 0 <= n < 10 ^ 48 -> no_digit rest -> parse_int (show_nat n ++ rest) = Some (false, n, rest).
Proof.
  intros Hn Hr. destruct (show_nat_digits n Hn) as (ds & -> & Hds & <- & Hne). unfold parse_int, skip_ws.
  destruct ds as [|d ds]; [done|]. pose proof (Forall_inv Hds) as Hd. cbn beta in Hd. cbn [fmap list_fmap app span].
  rewrite digit_not_space by done. cbn [snd]. rewrite take_sign_digit by done.
  pose proof (span_digits_show (d :: ds) rest Hds Hr) as Hs. cbn [fmap list_fmap app] in Hs. rewrite Hs. by rewrite bool_decide_eq_false_2.
Qed.

Lemma parse_show_int n rest : - 10 ^ 48 < n < 10 ^ 48 -> no_digit rest ->
  parse_int (show_int n ++ rest) = Some (bool_decide (n < 0), Z.abs n, rest).
Proof.
  intros Hn Hr. unfold show_int. case_bool_decide; [|rewrite Z.abs_eq by lia; apply parse_show_nat; [lia|done]].
  destruct (show_nat_digits (- n)) as (ds & Hs & Hds & Hv & Hne); [lia|]. rewrite Hs. unfold parse_int. cbn [app]. change (skip_ws (x2d :: ?s)) with (x2d :: s).
  cbn [take_sign]. rewrite (span_digits_show ds rest Hds Hr), bool_decide_eq_false_2 by done. rewrite Hv. by rewrite Z.abs_neq by lia.
Qed.

Lemma show_nat_word n : 0 <= n < 10 ^ 48 -> is_word (show_nat n).
Proof.
  intros Hn. destruct (show_nat_digits n Hn) as (ds & -> & Hds & _ & Hne). split; [by destruct ds|].
  apply Forall_fmap. eapply Forall_impl; [exact Hds|]. intros d Hd. by apply digit_not_space.
Qed.

Lemma show_int_word n : - 10 ^ 48 < n < 10 ^ 48 -> is_word (show_int n).
Proof.
  intros Hn. unfold show_int. case_bool_decide; [|apply show_nat_word; lia].
  destruct (show_nat_word (- n)) as [_ Hw]; [lia|]. split; [done|]. by constructor.
Qed.

Lemma stoul_show n : 0 <= n < 2 ^ 64 -> stoul (show_nat n) = Ok n.
Proof.
  intros Hn. unfold stoul. rewrite <- (app_nil_r (show_nat n)), parse_show_nat by (done || lia).
  unfold UINT64_MAX. by rewrite bool_decide_eq_false_2 by lia.
Qed.

Lemma stoll_show n : - 2 ^ 63 <= n < 2 ^ 63 -> stoll (show_int n) = Ok n.
Proof.
  intros Hn. unfold stoll. rewrite <- (app_nil_r (show_int n)), parse_show_int by (done || lia).
  cbv zeta. destruct (decide (n < 0)) as [Hneg|Hneg];
    [rewrite (bool_decide_eq_true_2 _ Hneg)|rewrite (bool_decide_eq_false_2 _ Hneg)]; rewrite bool_decide_eq_true_2 by lia; f_equal; lia.
Qed.

Lemma extract_uint32_show n rest : 0 <= n < 2 ^ 32 -> no_digit rest -> extract_uint32 (show_nat n ++ rest) = Some (n, rest).
Proof.
  intros Hn Hr. unfold extract_uint32. rewrite parse_show_nat by (done || lia). unfold UINT32_MAX. by rewrite bool_decide_eq_false_2 by lia.
Qed.

Lemma span_digits_range base s : 0 <= base -> Forall (fun d => 0 <= d < base) (span_digits base s).1.
Proof.
  intros Hb. induction s as [|b s IH]; cbn; [constructor|]. destruct (digit_value base b) as [d|] eqn:Ed; [|constructor].
  destruct (span_digits base s). constructor; [by eapply digit_value_range|done].
Qed.

Lemma digits_val_nonneg base ds : 0 <= base -> Forall (fun d => 0 <= d < base) ds -> 0 <= digits_val base ds.
Proof.
  intros Hb. induction ds as [|d ds IH] using rev_ind; [done|]. intros [Hds Hd]%Forall_app. apply Forall_inv in Hd.
  rewrite digits_val_snoc. specialize (IH Hds). cbn beta in Hd. apply Z.add_nonneg_nonneg; [by apply Z.mul_nonneg_nonneg|]. lia.
Qed.

Lemma parse_int_nonneg s neg n rest : parse_int s = Some (neg, n, rest) -> 0 <= n.
Proof.
  unfold parse_int. destruct (take_sign _) as [neg' s']. pose proof (span_digits_range 10 s' ltac:(lia)) as Hr.
  destruct (span_digits 10 s') as [ds r]. case_bool_decide; [done|]. intros [= <- <- <-]. apply digits_val_nonneg; [lia|done].
Qed.

Lemma extract_uint32_range s n rest : extract_uint32 s = Some (n, rest) -> 0 <= n < 2 ^ 32.
Proof.
  unfold extract_uint32. destruct (parse_int s) as [[[neg k] r]|] eqn:E; [|done]. apply parse_int_nonneg in E.
  unfold UINT32_MAX. case_bool_decide; [done|]. intros [= <- _]. destruct neg; [apply Z.mod_pos_bound|]; lia.
Qed.

Lemma stoll_range s n : stoll s = Ok n -> - 2 ^ 63 <= n < 2 ^ 63.
Proof. unfold stoll. destruct (parse_int s) as [[[neg k] r]|]; [|done]. cbv zeta. case_bool_decide; [|done]. by intros [= <-]. Qed.

(** *** Floats *)

Lemma pow2_pos n : 0 <= n -> 0 < 2 ^ n.
Proof. apply Z.pow_pos_nonneg. lia. Qed.

(** Comparing with a power of two, at any scale. *)
Lemma scale_lt x y a b a' b' :
  0 <= a -> 0 <= b -> 0 <= a' -> 0 <= b' -> 0 < y -> b - a <= b' - a' -> x * 2 ^ a < y * 2 ^ b -> x * 2 ^ a' < y * 2 ^ b'.
Proof.
  intros Ha Hb Ha' Hb' Hy Hle Hlt. apply (Z.mul_lt_mono_pos_r (2 ^ a)); [by apply pow2_pos|].
  apply Z.lt_le_trans with (y * 2 ^ b * 2 ^ a').
  - replace (x * 2 ^ a' * 2 ^ a) with (x * 2 ^ a * 2 ^ a') by ring. apply Z.mul_lt_mono_pos_r; [by apply pow2_pos|done].
  - rewrite <- !Z.mul_assoc, <- !Z.pow_add_r by lia. apply Z.mul_le_mono_nonneg_l; [lia|]. apply Z.pow_le_mono_r; lia.
Qed.

Lemma round_ratio_range num den m e : 0 < num -> 0 < den -> round_ratio num den = (m, e) -> 0 <= m < 2 ^ 24 /\ -149 <= e.
Proof.
  intros Hn Hd. unfold round_ratio. set (l0 := Z.log2 num - Z.log2 den).
  set (l := if bool_decide (den * 2 ^ Z.max 0 l0 <= num * 2 ^ Z.max 0 (- l0)) then l0 else l0 - 1).
  assert (Hl : exists a b, 0 <= a /\ 0 <= b /\ b - a = l + 1 /\ num * 2 ^ a < den * 2 ^ b).
  { pose proof (Z.log2_nonneg num). pose proof (Z.log2_nonneg den). unfold l. case_bool_decide as Hc.
    - exists (Z.log2 den), (Z.log2 num + 1). split_and!; [lia..|].
      destruct (Z.log2_spec num Hn) as [_ H1]. destruct (Z.log2_spec den Hd) as [H2 _]. unfold Z.succ in H1.
      pose proof (pow2_pos (Z.log2 den) ltac:(lia)). nia.
    - exists (Z.max 0 (- l0)), (Z.max 0 l0). split_and!; lia. }
  destruct Hl as (a & b & Ha & Hb & Hab & Hlt0). clearbody l.
  set (e0 := Z.max (l - 23) (-149)). set (n := num * 2 ^ Z.max 0 (- e0)). set (d := den * 2 ^ Z.max 0 e0).
  assert (Hd0 : 0 < d) by (apply Z.mul_pos_pos; [done|apply pow2_pos; lia]).
  assert (Hn0 : 0 <= n) by (pose proof (pow2_pos (Z.max 0 (- e0)) ltac:(lia)); unfold n; nia).
  assert (Hlt : n < d * 2 ^ 24).
  { unfold n, d. rewrite <- Z.mul_assoc, <- Z.pow_add_r by lia. apply (scale_lt num den a b); lia. }
  assert (Hq : 0 <= n / d < 2 ^ 24) by (split; [by apply Z.div_pos|by apply Z.div_lt_upper_bound]).
  case_bool_decide; case_bool_decide; intros [= <- <-]; unfold e0; lia.
Qed.

Lemma f32_bits_range neg mag : 0 <= mag < 2 ^ 31 -> 0 <= f32_bits neg mag < 2 ^ 32.
Proof. unfold f32_bits. destruct neg; lia. Qed.

Lemma f32_of_ratio_range neg num den b : 0 <= num -> 0 < den -> f32_of_ratio neg num den = Ok b -> 0 <= b < 2 ^ 32.
Proof.
  intros Hn Hd. unfold f32_of_ratio. case_bool_decide; [intros [= <-]; by apply f32_bits_range|].
  destruct (round_ratio num den) as [m e] eqn:Er. apply round_ratio_range in Er as [Hm He]; [|lia..].
  cbv zeta. destruct (bool_decide (e > 104) || _) eqn:Ec; [done|]. apply orb_false_iff in Ec as [He'%bool_decide_eq_false _].
  case_bool_decide; intros [= <-]; apply f32_bits_range; lia.
Qed.

Lemma take_mantissa_nonneg base s m k rest : 0 <= base -> take_mantissa base s = Some (m, k, rest) -> 0 <= m.
Proof.
  intros Hb. unfold take_mantissa. pose proof (span_digits_range base s Hb) as H1. destruct (span_digits base s) as [ds1 s1]. cbn [fst] in H1.
  assert (H2 : Forall (fun d => 0 <= d < base) (match s1 with x2e :: s' => span_digits base s' | _ => ([], s1) end).1).
  { destruct s1 as [|c s1]; [constructor|]. destruct c; try constructor. by apply span_digits_range. }
  destruct (match s1 with x2e :: s' => span_digits base s' | _ => ([], s1) end) as [ds2 s2]. cbn [fst] in H2.
  case_bool_decide; [done|]. intros [= <- <- <-]. apply digits_val_nonneg; [done|]. by apply Forall_app.
Qed.

Lemma scaled_range neg m b x r : 0 <= m -> 0 < b -> scaled neg m b x = Ok r -> 0 <= r < 2 ^ 32.
Proof.
  intros Hm Hb. apply f32_of_ratio_range; [|apply Z.pow_pos_nonneg; lia].
  apply Z.mul_nonneg_nonneg; [done|]. apply Z.pow_nonneg. lia.
Qed.

Lemma stof_range s b : stof s = Ok b -> 0 <= b < 2 ^ 32.
Proof.
  unfold stof. destruct (take_sign _) as [neg t].
  destruct (starts_with (str "inf") t); [intros [= <-]; by apply f32_bits_range|].
  destruct (starts_with (str "nan") t); [intros [= <-]; by apply f32_bits_range|].
  destruct (if starts_with (str "0x") t then take_mantissa 16 (drop 2 t) else None) as [[[m k] rest]|] eqn:Eh.
  - destruct (starts_with (str "0x") t); [|done]. apply take_mantissa_nonneg in Eh; [|lia]. apply scaled_range; lia.
  - destruct (take_mantissa 10 t) as [[[m k] rest]|] eqn:Ed; [|done]. apply take_mantissa_nonneg in Ed; [|lia]. apply scaled_range; lia.
Qed.
