(* ===== verification/Main.v ===== *)
(** The command line ([src/main.cpp]): schemas, values and commands from text, rows
    and reports to text, the loop over the lines, and [main].

    [std::cout] is the text written so far with the stream's width and adjustment;
    [std::cerr] is a list of pieces, because the texts of exceptions are not modelled.
    The two files, whether the input is a terminal, and the input are arguments of
    [xdl_main].  What a command reads from its [istringstream] is a function of the
    text that is left. *)
From S2P Require Import Prelude Types Serialise Page Float Std BPTree Index Posix Wal Compression Migrate Storage Cache Pager Filter Db DbSpec DbOps DbQuery DbSession DbRecovery DbProperties Text.

(** ** Definitions *)

(** *** Output *)

(** A piece of an error message: text, or [e.what()]. *)
Inductive piece := Txt (s : bytes) | What (e : exn).
#[export] Instance piece_eq_decision : EqDecision piece.
Proof. solve_decision. Defined.

Record Io := mkIo {
  io_out : bytes;
  io_err : list piece;
  io_width : nat;        (* [setw] *)
  io_left : bool;        (* [left] is set *)
}.
#[export] Instance Io_eq_decision : EqDecision Io.
Proof. solve_decision. Defined.

(** [std::cout << s], which uses the width up. *)
Definition cout (s : bytes) : M Io unit := modify (fun io =>
  mkIo (io_out io ++ (if io_left io then pad_right else pad_left) (io_width io) s) (io_err io) 0 (io_left io)).
Definition setw (n : nat) : M Io unit := modify (fun io => mkIo (io_out io) (io_err io) n (io_left io)).
Definition set_left (b : bool) : M Io unit := modify (fun io => mkIo (io_out io) (io_err io) (io_width io) b).
Definition couts (l : list bytes) : M Io unit := mfor cout l.
Definition cerr (l : list piece) : M Io unit := modify (fun io => mkIo (io_out io) (io_err io ++ l) (io_width io) (io_left io)).

Definition nl : bytes := [x0a].
Definition quoted (s : bytes) : bytes := [x27] ++ s ++ [x27].

(** *** Schemas *)

(** One turn of the loop of [parse_schema]. *)
Definition parse_schema_token (token : bytes) : outcome FieldDef :=
  match find_char x3a token with
  | None => Throw InvalidArgument
  | Some colon =>
      match parse_field_type (drop (colon + 1) token) with
      | Ok t => Ok (mkFieldDef (take colon token) t)
      | Throw _ => Throw InvalidArgument
      | UB => UB
      end
  end.

Fixpoint parse_schema_tokens (tokens : list bytes) (schema : Schema) : outcome Schema :=
  match tokens with
  | [] => Ok schema
  | token :: tokens =>
      fd ← parse_schema_token token;
      parse_schema_tokens tokens (mkSchema (fields schema ++ [fd]) (ver schema))
  end.

(** [parse_schema] *)
Definition parse_schema (spec : bytes) : outcome Schema := parse_schema_tokens (getlines x2c spec) (mkSchema [] 1).

(** *** Rows and schemas to text *)

(** The body of the loop of [print_row]. *)
Definition print_field (row : Row) (ifd : nat * FieldDef) : M Io unit :=
  let '(n, fd) := ifd in
  let i := Z.of_nat n in
  couts [str "  "; fd_name fd; str "="] ;;
  if bool_decide (i >= zlen (row_fields row)) then cout (str "NULL") else
  match fd_type fd with
  | UINT32 => setw 6 ;; v ← lift (get_uint32 row i); cout (show_nat v)
  | STRING => set_left true ;; setw 12 ;; v ← lift (get_string row i); cout v ;; set_left false
  | FLOAT32 => setw 8 ;; v ← lift (get_float32 row i); cout (show_f32 v)
  | BOOL => setw 6 ;; v ← lift (get_bool row i); cout (if v : bool then str "true" else str "false")
  | INT64 => setw 10 ;; v ← lift (get_int64 row i); cout (show_int v)
  | UnknownType _ => mret tt
  end.

(** [print_row] *)
Definition print_row (row : Row) (schema : Schema) : M Io unit :=
  cout (str "id=") ;; setw 6 ;; cout (show_nat (row_id row)) ;;
  mfor (print_field row) (imap pair (fields schema)) ;;
  cout nl.

(** [print_schema] *)
Definition print_schema (schema : Schema) : M Io unit :=
  couts [str "Schema v"; show_nat (ver schema); str " ("; show_nat (zlen (fields schema)); str " field(s)):"; nl] ;;
  mfor (fun f => couts [str "  "; fd_name f; str " : "; field_type_name (fd_type f); nl]) (fields schema).

Definition help_lines : list bytes := [
  str "Commands:";
  str "  insert <id> <v1> [<v2> ...]      Insert a row (values in schema order)";
  str "  update <id> <v1> [<v2> ...]      Replace an existing row";
  str "  delete <id>                       Delete a row by id";
  str "  get    <id>                       Retrieve row by id";
  str "  scan   [--<field> <val>]";
  str "         [--min-<field> N]";
  str "         [--max-<field> N]";
  str "         [--prefix-<field> STR]     Scan rows with optional field filters";
  str "  index  <field_name>               Create a secondary index on a field";
  str "  schema                            Display current schema";
  str "  stats                             Show database statistics";
  str "  checkpoint                        Flush dirty pages to disk";
  str "  help                              Show this help";
  str "  quit | exit                       Close and exit";
  []].

(** [print_help] *)
Definition print_help (schema : Schema) : M Io unit :=
  cout (concat ((fun l => l ++ nl) <$> help_lines)) ;; print_schema schema.

(** [handle_stats]'s report *)
Definition print_stats (s : Stats) : M Io unit :=
  couts [str "rows          : "; show_nat (s_row_count s); nl;
         str "pages         : "; show_nat (s_page_count s); nl;
         str "cache capacity: "; show_nat (s_cache_capacity s); str " pages" ++ nl;
         str "file size     : "; show_nat (s_file_size s); str " bytes" ++ nl;
         str "schema version: "; show_nat (s_schema_version s); nl;
         str "WAL active    : "; if s_wal_active s then str "yes" else str "no"; nl;
         str "indexes       : "; show_nat (s_index_count s); nl].

(** *** Values from text *)

(** [parse_value] *)
Definition parse_value (tok : bytes) (type : FieldType) : outcome FieldValue :=
  match type with
  | UINT32 => n ← stoul tok; Ok (VUint32 (u32 n))
  | INT64 => n ← stoll tok; Ok (VInt64 n)
  | FLOAT32 => b ← stof tok; Ok (VFloat b)
  | BOOL => Ok (VBool (bool_decide (tok = str "true" \/ tok = str "1" \/ tok = str "yes")))
  | STRING => Ok (VString tok)
  | UnknownType _ => Throw InvalidArgument
  end.

(** The loop over the fields in [handle_insert] and [handle_update]; [None] when it
    returns from the handler. *)
Fixpoint read_values (fds : list FieldDef) (ss : bytes) (fv : list FieldValue) : M Io (option (list FieldValue)) :=
  match fds with
  | [] => mret (Some fv)
  | fd :: fds =>
      match extract_string ss with
      | None => cerr [Txt (str "Missing value for field " ++ quoted (fd_name fd) ++ nl)] ;; mret None
      | Some (tok, ss) =>
          match parse_value tok (fd_type fd) with
          | Ok v => read_values fds ss (fv ++ [v])
          | Throw _ =>
              cerr [Txt (str "Field " ++ quoted (fd_name fd) ++ str " expects " ++ field_type_name (fd_type fd) ++
                         str "; got: " ++ tok ++ nl)] ;;
              mret None
          | UB => ub
          end
      end
  end.

(** [ss >> tok] where failure is not looked at: the text stays empty. *)
Definition take_word (ss : bytes) : bytes * bytes := default ([], []) (extract_string ss).

(** *** Scan options *)

(** [f.min(field, std::get<T>(v))] for the type of the field, and the two others. *)
Definition set_min (field : bytes) (ft : FieldType) (v : FieldValue) (f : ScanFilter) : outcome ScanFilter :=
  match ft with
  | UINT32 => n ← get_u32 v; Ok (filter_min_uint field n f)
  | INT64 => n ← get_i64 v; Ok (filter_min_int64 field n f)
  | FLOAT32 => b ← get_f32 v; Ok (filter_min_float field b f)
  | _ => Ok f
  end.
Definition set_max (field : bytes) (ft : FieldType) (v : FieldValue) (f : ScanFilter) : outcome ScanFilter :=
  match ft with
  | UINT32 => n ← get_u32 v; Ok (filter_max_uint field n f)
  | INT64 => n ← get_i64 v; Ok (filter_max_int64 field n f)
  | FLOAT32 => b ← get_f32 v; Ok (filter_max_float field b f)
  | _ => Ok f
  end.
Definition set_eq (field : bytes) (ft : FieldType) (v : FieldValue) (f : ScanFilter) : outcome ScanFilter :=
  match ft with
  | UINT32 => n ← get_u32 v; Ok (filter_eq_uint field n f)
  | INT64 => n ← get_i64 v; Ok (filter_eq_int64 field n f)
  | FLOAT32 => b ← get_f32 v; Ok (filter_eq_float field b f)
  | BOOL => b ← get_b v; Ok (filter_eq_bool field b f)
  | _ => s ← get_str v; Ok (filter_eq_str field s f)
  end.

(** The field [field] is known: read its value and set the constraint.  [unknown]
    says what is reported when it is not. *)
Definition scan_constraint (schema : Schema) (field : bytes) (unknown : list piece)
    (set : bytes -> FieldType -> FieldValue -> ScanFilter -> outcome ScanFilter) (ss : bytes) (f : ScanFilter)
    : M Io (bytes * ScanFilter) :=
  let idx := field_index schema field in
  let '(vstr, rest) := take_word ss in
  if bool_decide (idx < 0) then cerr unknown ;; mret (rest, f) else
  fd ← lift (index_ (fields schema) idx);
  v ← lift (parse_value vstr (fd_type fd));
  f ← lift (set field (fd_type fd) v f);
  mret (rest, f).

(** The body of the loop over the tokens; the new rest of the text and filter. *)
Definition scan_option (schema : Schema) (tok ss : bytes) (f : ScanFilter) : M Io (bytes * ScanFilter) :=
  if bool_decide (take 2 tok <> str "--") then
    cerr [Txt (str "Unknown scan token: " ++ tok ++ nl)] ;; mret (ss, f)
  else
    let opt := drop 2 tok in
    if bool_decide (take 4 opt = str "min-") then scan_constraint schema (drop 4 opt) [] set_min ss f
    else if bool_decide (take 4 opt = str "max-") then scan_constraint schema (drop 4 opt) [] set_max ss f
    else if bool_decide (take 7 opt = str "prefix-") then
      let '(v, rest) := take_word ss in mret (rest, filter_starts (drop 7 opt) v f)
    else scan_constraint schema opt [Txt (str "Unknown field: " ++ opt ++ nl)] set_eq ss f.

(** [while (ss >> tok)]; the fuel is more than the length of the text. *)
Fixpoint scan_options (fuel : nat) (schema : Schema) (ss : bytes) (f : ScanFilter) : M Io ScanFilter :=
  match fuel with
  | O => ub
  | S fuel =>
      match extract_string ss with
      | None => mret f
      | Some (tok, ss) => sf ← scan_option schema tok ss f; scan_options fuel schema sf.1 sf.2
      end
  end.

(** *** Commands *)

Section commands.
Context {F : Type} `{FileSys F} `{LZ4Lib}.
#[local] Abbreviation CLI := (M (DB F * Io)).

Definition on_db {A} (m : M (DB F) A) : CLI A := with_db m.
Definition on_io {A} (m : M Io A) : CLI A := with_own m.

(** [db.schema()] *)
Definition the_schema : CLI Schema := d ← on_db get; mret (db_schema d).

(** [handle_insert] *)
Definition handle_insert (ss : bytes) : CLI unit :=
  schema ← the_schema;
  match extract_uint32 ss with
  | None => on_io (cerr [Txt (str "Usage: insert <id> <field_values...>" ++ nl)])
  | Some (id, ss) =>
      fv ← on_io (read_values (fields schema) ss []);
      match fv with
      | None => mret tt
      | Some fv => on_db (insert (mkRow id fv)) ;; on_io (couts [str "Inserted id="; show_nat id; nl])
      end
  end.

(** [handle_get] *)
Definition handle_get (ss : bytes) : CLI unit :=
  match extract_uint32 ss with
  | None => on_io (cerr [Txt (str "Usage: get <id>" ++ nl)])
  | Some (id, _) =>
      found ← on_db (try_get id);
      match found with
      | Some row => schema ← the_schema; on_io (print_row row schema)
      | None => on_io (cerr [Txt (str "Not found: " ++ show_nat id ++ nl)])
      end
  end.

(** [handle_delete] *)
Definition handle_delete (ss : bytes) : CLI unit :=
  match extract_uint32 ss with
  | None => on_io (cerr [Txt (str "Usage: delete <id>" ++ nl)])
  | Some (id, _) => on_db (erase id) ;; on_io (couts [str "Deleted id="; show_nat id; nl])
  end.

(** [handle_update] *)
Definition handle_update (ss : bytes) : CLI unit :=
  schema ← the_schema;
  match extract_uint32 ss with
  | None => on_io (cerr [Txt (str "Usage: update <id> <field_values...>" ++ nl)])
  | Some (id, ss) =>
      fv ← on_io (read_values (fields schema) ss []);
      match fv with
      | None => mret tt
      | Some fv => on_db (update (mkRow id fv)) ;; on_io (couts [str "Updated id="; show_nat id; nl])
      end
  end.

(** The lambda of [handle_scan]: it prints and counts. *)
Definition count_row (schema : Schema) (r : Row) : M (Io * Z) unit :=
  (fun s => let '(o, io) := print_row r schema s.1 in (o, (io, s.2))) ;;
  modify (fun s => (s.1, u64 (s.2 + 1))).

(** Run a call that works on the output and on a local counter. *)
Definition counting (m : M (DB F * (Io * Z)) unit) : CLI Z := fun s =>
  let '(o, (d, (io, n))) := m (s.1, (s.2, 0)) in
  (match o with Ok _ => Ok n | Throw e => Throw e | UB => UB end, (d, io)).

(** [handle_scan] *)
Definition handle_scan (ss : bytes) : CLI unit :=
  schema ← the_schema;
  f ← on_io (scan_options (S (length ss)) schema ss []);
  count ← counting (scan (count_row schema) f);
  on_io (couts [show_nat count; str " row(s)" ++ nl]).

(** [handle_stats] *)
Definition handle_stats : CLI unit := s ← on_db db_stats; on_io (print_stats s).

(** The commands by name; [true] is [break]. *)
Definition dispatch (cmd ss : bytes) : CLI bool :=
  if bool_decide (cmd = str "insert") then handle_insert ss ;; mret false
  else if bool_decide (cmd = str "update") then handle_update ss ;; mret false
  else if bool_decide (cmd = str "delete" \/ cmd = str "erase") then handle_delete ss ;; mret false
  else if bool_decide (cmd = str "get") then handle_get ss ;; mret false
  else if bool_decide (cmd = str "scan") then handle_scan ss ;; mret false
  else if bool_decide (cmd = str "index") then
    let field := (take_word ss).1 in
    on_db (create_index field) ;; on_io (couts [str "Index created on '"; field; str "'" ++ nl]) ;; mret false
  else if bool_decide (cmd = str "schema") then schema ← the_schema; on_io (print_schema schema) ;; mret false
  else if bool_decide (cmd = str "stats") then handle_stats ;; mret false
  else if bool_decide (cmd = str "checkpoint") then on_db checkpoint ;; on_io (cout (str "Checkpoint done" ++ nl)) ;; mret false
  else if bool_decide (cmd = str "help") then schema ← the_schema; on_io (print_help schema) ;; mret false
  else if bool_decide (cmd = str "quit" \/ cmd = str "exit") then mret true
  else on_io (cerr [Txt (str "Unknown command: " ++ cmd ++ str "  (try 'help')" ++ nl)]) ;; mret false.

(** One line of the loop of [main], after [getline]. *)
Definition run_line (line : bytes) : CLI bool :=
  match (span (fun b => bool_decide (b = x20 \/ b = x09)) line).2 with
  | [] => mret false
  | b :: line =>
      if bool_decide (b = x23) then mret false else
      let '(cmd, ss) := take_word (b :: line) in
      catch (dispatch cmd ss) (fun e => on_io (cerr [Txt (str "Error: "); What e; Txt nl]) ;; mret false)
  end.

(** The loop, on the lines of the input. *)
Fixpoint main_loop (interactive : bool) (lines : list bytes) : CLI unit :=
  (if interactive then on_io (cout (str "xdl> ")) else mret tt) ;;
  match lines with
  | [] => mret tt
  | line :: lines => stop ← run_line line; if stop : bool then mret tt else main_loop interactive lines
  end.

(** *** [main] *)

(** The loop over [argv] from 2 on. *)
Fixpoint parse_args (args : list bytes) (schema : Schema) : outcome Schema :=
  match args with
  | [] => Ok schema
  | arg :: args =>
      match args with
      | spec :: rest =>
          if bool_decide (arg = str "--schema") then schema ← parse_schema spec; parse_args rest schema
          else parse_args args schema
      | [] => Ok schema
      end
  end.

(** From [db.open()] to the end of [main], where [db] is destroyed: the exit code. *)
Definition session (path : bytes) (interactive : bool) (lines : list bytes) : CLI Z :=
  opened ← catch (on_db db_open_ ;; mret true)
    (fun e => on_io (cerr [Txt (str "Failed to open database: "); What e; Txt nl]) ;; mret false);
  if negb opened then on_db db_destroy ;; mret 1 else
  (if interactive then
     on_io (couts [str "XDL v1  " ++ [xe2; x80; x94] ++ str " "; path; nl]) ;;
     schema ← the_schema; on_io (print_schema schema) ;;
     on_io (cout (str "Type 'help' for commands." ++ nl))
   else mret tt) ;;
  main_loop interactive lines ;;
  catch (on_db db_close) (fun _ => mret tt) ;;
  on_db db_destroy ;;
  mret 0.

Definition usage : bytes :=
  str "Usage: xdl <database_file> [--schema " ++ [x22] ++ str "field:type,..." ++ [x22] ++ str "]" ++ nl ++
  str "  Example: xdl mydb.xdl --schema " ++ [x22] ++ str "id:uint32,score:uint32,tag:string" ++ [x22] ++ nl ++
  str "  Default schema: age:uint32,name:string" ++ nl.

Definition DEFAULT_CACHE_SIZE : Z := 256.

(** What [main] leaves: the exit code or the exception nobody catches, the output, and
    the database if it was made. *)
Definition xdl_main (argv : list bytes) (f wf : F) (interactive : bool) (input : bytes) : outcome Z * Io * option (DB F) :=
  let fresh := mkIo [] [] 0 false in
  match argv with
  | _ :: path :: args =>
      match parse_args args (mkSchema [] 1) with
      | Ok schema =>
          match new_DB f wf schema CLZ4 DEFAULT_CACHE_SIZE (mkSchemaMigrate 0 0 []) with
          | Ok d => let '(o, (d, io)) := session path interactive (getlines x0a input) (d, fresh) in (o, io, Some d)
          | Throw e => (Throw e, fresh, None)
          | UB => (UB, fresh, None)
          end
      | Throw e => (Ok 1, mkIo [] [Txt (str "Schema error: "); What e; Txt nl] 0 false, None)
      | UB => (UB, fresh, None)
      end
  | _ => (Ok 1, mkIo [] [Txt usage] 0 false, None)
  end.
End commands.
