(* ===== verification/MainSpec.v ===== *)
(** What the command line does ([src/main.cpp]): a line is a command, a command is at
    most one operation of the database and a reply.  The program is proved to print,
    line by line, the replies that the specification of the database gives. *)
From S2P Require Import Prelude Types Serialise Page Float Std BPTree Index Posix Wal Lz4 Compression Migrate Storage Cache Pager Filter Db DbSpec DbOps DbQuery DbSession DbSettings DbRecovery DbProperties Text Main.

(** ** Definitions *)

(** *** Rows and schemas as text *)

Definition show_value (v : FieldValue) : bytes :=
  match v with
  | VUint32 n => pad_left 6 (show_nat n)
  | VString s => pad_right 12 s
  | VFloat b => pad_left 8 (show_f32 b)
  | VBool b => pad_left 6 (if b then str "true" else str "false")
  | VInt64 n => pad_left 10 (show_int n)
  end.
Definition show_field (fd : FieldDef) (v : FieldValue) : bytes := str "  " ++ fd_name fd ++ str "=" ++ show_value v.
Definition show_row (schema : Schema) (r : Row) : bytes :=
  str "id=" ++ pad_left 6 (show_nat (row_id r)) ++ concat (zip_with show_field (fields schema) (row_fields r)) ++ nl.
Definition show_schema (schema : Schema) : bytes :=
  str "Schema v" ++ show_nat (ver schema) ++ str " (" ++ show_nat (zlen (fields schema)) ++ str " field(s)):" ++ nl ++
  concat ((fun f => str "  " ++ fd_name f ++ str " : " ++ field_type_name (fd_type f) ++ nl) <$> fields schema).
Definition show_help (schema : Schema) : bytes := concat ((fun l => l ++ nl) <$> help_lines) ++ show_schema schema.

(** *** Commands *)

Inductive command :=
| CIgnore                                    (* nothing to do *)
| CReport (msg : list piece)                 (* something to report, and nothing else *)
| CFail (msg : list piece) (e : exn)         (* an exception before anything is done *)
| CInsert (r : Row)
| CUpdate (r : Row)
| CDelete (id : Z)
| CGet (id : Z)
| CScan (msg : list piece) (f : ScanFilter)  (* with the reports about its options *)
| CIndex (field : bytes)
| CSchema
| CStats
| CCheckpoint
| CHelp
| CQuit.

(** The values of the fields from the words of the line, or what is wrong. *)
Fixpoint parse_values (fds : list FieldDef) (ws : list bytes) : list piece + list FieldValue :=
  match fds, ws with
  | [], _ => inr []
  | fd :: _, [] => inl [Txt (str "Missing value for field " ++ quoted (fd_name fd) ++ nl)]
  | fd :: fds, w :: ws =>
      match parse_value w (fd_type fd) with
      | Ok v => match parse_values fds ws with inr vs => inr (v :: vs) | inl msg => inl msg end
      | _ => inl [Txt (str "Field " ++ quoted (fd_name fd) ++ str " expects " ++ field_type_name (fd_type fd) ++
                       str "; got: " ++ w ++ nl)]
      end
  end.

Definition parse_row (schema : Schema) (name : bytes) (mk : Row -> command) (ss : bytes) : command :=
  match extract_uint32 ss with
  | None => CReport [Txt (str "Usage: " ++ name ++ str " <id> <field_values...>" ++ nl)]
  | Some (id, ss) =>
      match parse_values (fields schema) (words ss) with
      | inl msg => CReport msg
      | inr vs => mk (mkRow id vs)
      end
  end.

Definition parse_id (name : bytes) (mk : Z -> command) (ss : bytes) : command :=
  match extract_uint32 ss with
  | None => CReport [Txt (str "Usage: " ++ name ++ str " <id>" ++ nl)]
  | Some (id, _) => mk id
  end.

(** The options of [scan]. *)
Inductive scan_opt := OMin (field : bytes) | OMax (field : bytes) | OPrefix (field : bytes) | OEq (field : bytes).

Definition parse_option (tok : bytes) : option scan_opt :=
  if bool_decide (take 2 tok = str "--") then
    let opt := drop 2 tok in
    Some (if bool_decide (take 4 opt = str "min-") then OMin (drop 4 opt)
          else if bool_decide (take 4 opt = str "max-") then OMax (drop 4 opt)
          else if bool_decide (take 7 opt = str "prefix-") then OPrefix (drop 7 opt)
          else OEq opt)
  else None.

(** The constraint a value puts on a field. *)
Definition at_least (field : bytes) (v : FieldValue) (f : ScanFilter) : ScanFilter :=
  match v with
  | VUint32 n => filter_min_uint field n f
  | VInt64 n => filter_min_int64 field n f
  | VFloat b => filter_min_float field b f
  | VString _ | VBool _ => f
  end.
Definition at_most (field : bytes) (v : FieldValue) (f : ScanFilter) : ScanFilter :=
  match v with
  | VUint32 n => filter_max_uint field n f
  | VInt64 n => filter_max_int64 field n f
  | VFloat b => filter_max_float field b f
  | VString _ | VBool _ => f
  end.
Definition equal_to (field : bytes) (v : FieldValue) (f : ScanFilter) : ScanFilter :=
  match v with
  | VUint32 n => filter_eq_uint field n f
  | VInt64 n => filter_eq_int64 field n f
  | VFloat b => filter_eq_float field b f
  | VBool b => filter_eq_bool field b f
  | VString s => filter_eq_str field s f
  end.

Definition constrain (schema : Schema) (field : bytes) (unknown : list piece)
    (put : bytes -> FieldValue -> ScanFilter -> ScanFilter) (v : bytes) (f : ScanFilter) : list piece * outcome ScanFilter :=
  match list_find (fun fd => fd_name fd = field) (fields schema) with
  | None => (unknown, Ok f)
  | Some (_, fd) => ([], v ← parse_value v (fd_type fd); Ok (put field v f))
  end.

Definition apply_option (schema : Schema) (o : scan_opt) (v : bytes) (f : ScanFilter) : list piece * outcome ScanFilter :=
  match o with
  | OMin field => constrain schema field [] at_least v f
  | OMax field => constrain schema field [] at_most v f
  | OPrefix field => ([], Ok (filter_starts field v f))
  | OEq field => constrain schema field [Txt (str "Unknown field: " ++ field ++ nl)] equal_to v f
  end.

(** More reports after some, unless something was thrown. *)
Definition andthen (x : list piece * outcome ScanFilter) (k : ScanFilter -> list piece * outcome ScanFilter)
    : list piece * outcome ScanFilter :=
  match x.2 with Ok f => let '(m, o) := k f in (x.1 ++ m, o) | _ => x end.

(** An option takes the next word as its value, or nothing at the end. *)
Fixpoint parse_scan (schema : Schema) (ws : list bytes) (f : ScanFilter) : list piece * outcome ScanFilter :=
  match ws with
  | [] => ([], Ok f)
  | tok :: ws =>
      match parse_option tok with
      | None => andthen ([Txt (str "Unknown scan token: " ++ tok ++ nl)], Ok f) (parse_scan schema ws)
      | Some o =>
          match ws with
          | [] => apply_option schema o [] f
          | v :: ws => andthen (apply_option schema o v f) (parse_scan schema ws)
          end
      end
  end.

Definition parse_scan_command (schema : Schema) (ss : bytes) : command :=
  match parse_scan schema (words ss) [] with
  | (msg, Ok f) => CScan msg f
  | (msg, Throw e) => CFail msg e
  | (msg, UB) => CReport msg
  end.

Definition command_table (schema : Schema) : list (bytes * (bytes -> command)) := [
  (str "insert", parse_row schema (str "insert") CInsert);
  (str "update", parse_row schema (str "update") CUpdate);
  (str "delete", parse_id (str "delete") CDelete);
  (str "erase", parse_id (str "delete") CDelete);
  (str "get", parse_id (str "get") CGet);
  (str "scan", parse_scan_command schema);
  (str "index", fun ss => CIndex (default [] (head (words ss))));
  (str "schema", fun _ => CSchema);
  (str "stats", fun _ => CStats);
  (str "checkpoint", fun _ => CCheckpoint);
  (str "help", fun _ => CHelp);
  (str "quit", fun _ => CQuit);
  (str "exit", fun _ => CQuit)].

(** The line without the blanks it starts with. *)
Definition strip (line : bytes) : bytes := (span (fun b => bool_decide (b = x20 \/ b = x09)) line).2.

Definition find_command (schema : Schema) (cmd ss : bytes) : command :=
  match list_find (fun e => e.1 = cmd) (command_table schema) with
  | Some (_, (_, parse)) => parse ss
  | None => CReport [Txt (str "Unknown command: " ++ cmd ++ str "  (try 'help')" ++ nl)]
  end.

(** Blank lines and comments are ignored. *)
Definition parse_command (schema : Schema) (line : bytes) : command :=
  match strip line with
  | [] => CIgnore
  | b :: line => if bool_decide (b = x23) then CIgnore else let w := take_word (b :: line) in find_command schema w.1 w.2
  end.

(** *** Replies *)

(** The operation of a command. *)
Definition command_op (c : command) : option db_op :=
  match c with
  | CInsert r => Some (DInsert r)
  | CUpdate r => Some (DUpdate r)
  | CDelete id => Some (DErase id)
  | CGet id => Some (DTryGet id)
  | CScan _ f => Some (DScanAll f)
  | CIndex field => Some (DCreateIndex field)
  | CCheckpoint => Some DCheckpoint
  | _ => None
  end.

(** What was reported before the operation. *)
Definition warnings (c : command) : list piece := match c with CReport msg | CFail msg _ | CScan msg _ => msg | _ => [] end.
Definition error_report (e : exn) : list piece := [Txt (str "Error: "); What e; Txt nl].

Definition result_text (schema : Schema) (c : command) (res : db_result) : bytes * list piece :=
  match c, res with
  | CInsert r, _ => (str "Inserted id=" ++ show_nat (row_id r) ++ nl, [])
  | CUpdate r, _ => (str "Updated id=" ++ show_nat (row_id r) ++ nl, [])
  | CDelete id, _ => (str "Deleted id=" ++ show_nat id ++ nl, [])
  | CGet _, RMaybe (Some r) => (show_row schema r, [])
  | CGet id, _ => ([], [Txt (str "Not found: " ++ show_nat id ++ nl)])
  | CScan msg _, RRows rows => (concat (show_row schema <$> rows) ++ show_nat (zlen rows) ++ str " row(s)" ++ nl, msg)
  | CIndex field, _ => (str "Index created on '" ++ field ++ str "'" ++ nl, [])
  | CCheckpoint, _ => (str "Checkpoint done" ++ nl, [])
  | _, _ => ([], [])
  end.

(** The reply to a command that has an operation, from what the operation returned ... *)
Definition op_reply (schema : Schema) (c : command) (a : outcome db_result) : bytes * list piece :=
  match a with
  | Ok res => result_text schema c res
  | Throw e => ([], warnings c ++ error_report e)
  | UB => ([], [])
  end.

(** ... and to one that has none. *)
Definition plain_reply (schema : Schema) (c : command) : bytes * list piece :=
  match c with
  | CFail msg e => ([], msg ++ error_report e)
  | CSchema => (show_schema schema, [])
  | CHelp => (show_help schema, [])
  | _ => ([], warnings c)
  end.

(** *** Sessions *)

(** A command on the abstract database: the reply and the database afterwards. *)
Definition command_spec (schema : Schema) (c : command) (st : list Row * gset bytes) : (bytes * list piece) * (list Row * gset bytes) :=
  match command_op c with
  | Some o => let '(a, st) := op_spec schema o st in (op_reply schema c a, st)
  | None => (plain_reply schema c, st)
  end.

Definition is_quit (c : command) : bool := match c with CQuit => true | _ => false end.
Definition prompt (interactive : bool) : bytes := if interactive then str "xdl> " else [].

(** What [stats] prints.  The capacity of the pool and the size of the data file are not
    in the rows. *)
Definition stats_text (schema : Schema) (cap file_size : Z) (st : list (list Row) * gset bytes) : bytes :=
  str "rows          : " ++ show_nat (zlen (concat st.1)) ++ nl ++ str "pages         : " ++ show_nat (zlen st.1) ++ nl ++
  str "cache capacity: " ++ show_nat cap ++ str " pages" ++ nl ++ str "file size     : " ++ show_nat file_size ++ str " bytes" ++ nl ++
  str "schema version: " ++ show_nat (ver schema) ++ nl ++ str "WAL active    : yes" ++ nl ++
  str "indexes       : " ++ show_nat (Z.of_nat (size st.2)) ++ nl.

(** A line on the pages of rows and the names of the indexes: the reply, and what there
    is afterwards. *)
Definition reply (schema : Schema) (cap file_size : Z) (c : command) (st : list (list Row) * gset bytes) : bytes * list piece :=
  match c with
  | CStats => (stats_text schema cap file_size st, [])
  | _ => (command_spec schema c (concat st.1, st.2)).1
  end.
Definition next_state (schema : Schema) (c : command) (st : list (list Row) * gset bytes) : list (list Row) * gset bytes :=
  (foldl (fun ps o => op_pages schema o ps) st.1 (option_list (command_op c)), (command_spec schema c (concat st.1, st.2)).2.2).

(** What the lines of a session print, on both outputs, with the size of the data file at
    each line. *)
Fixpoint session_text (schema : Schema) (cap : Z) (interactive : bool) (lines : list bytes) (sizes : list Z)
    (st : list (list Row) * gset bytes) : bytes * list piece :=
  match lines with
  | [] => (prompt interactive, [])
  | line :: lines =>
      let c := parse_command schema line in
      let x := reply schema cap (default 0 (head sizes)) c st in
      let y := if is_quit c then ([], []) else session_text schema cap interactive lines (tail sizes) (next_state schema c st) in
      (prompt interactive ++ x.1 ++ y.1, x.2 ++ y.2)
  end.

(** The operations of a session. *)
Fixpoint session_ops (schema : Schema) (lines : list bytes) : list db_op :=
  match lines with
  | [] => []
  | line :: lines =>
      let c := parse_command schema line in
      if is_quit c then [] else option_list (command_op c) ++ session_ops schema lines
  end.

(** A stream between two lines: no width, adjusted to the right. *)
Definition plain (out : bytes) (err : list piece) : Io := mkIo out err 0 false.

(** ** Lemmas: output *)

Lemma cout_plain s out err : cout s (plain out err) = (Ok tt, plain (out ++ s) err).
Proof. done. Qed.

Lemma couts_plain l out err : couts l (plain out err) = (Ok tt, plain (out ++ concat l) err).
Proof.
  unfold couts. revert out. induction l as [|s l IH]; intros out; cbn [mfor concat]; [by rewrite app_nil_r|].
  rewrite (M_bind_ok _ _ _ _ _ (cout_plain s out err)), IH. by rewrite <- app_assoc.
Qed.

Lemma cerr_plain l out err : cerr l (plain out err) = (Ok tt, plain out (err ++ l)).
Proof. done. Qed.

(** A loop whose body prints. *)
Lemma mfor_print {A} (body : A -> M Io unit) (show : A -> bytes) (l : list A) out err :
  (forall x out, x ∈ l -> body x (plain out err) = (Ok tt, plain (out ++ show x) err)) ->
  mfor body l (plain out err) = (Ok tt, plain (out ++ concat (show <$> l)) err).
Proof.
  revert out. induction l as [|x l IH]; intros out Hb; cbn [mfor fmap list_fmap concat]; [by rewrite app_nil_r|].
  rewrite (M_bind_ok _ _ _ _ _ (Hb x out ltac:(left))), IH, <- app_assoc; [done|]. intros y out' Hy. apply Hb. by right.
Qed.

Lemma print_schema_plain schema out err : print_schema schema (plain out err) = (Ok tt, plain (out ++ show_schema schema) err).
Proof.
  unfold print_schema. rewrite (M_bind_ok _ _ _ _ _ (couts_plain _ out err)).
  rewrite (mfor_print _ (fun f => str "  " ++ fd_name f ++ str " : " ++ field_type_name (fd_type f) ++ nl)).
  - unfold show_schema. cbn [concat]. by rewrite <- !app_assoc.
  - intros f out' _. rewrite couts_plain. cbn [concat]. by rewrite app_nil_r.
Qed.

Lemma print_help_plain schema out err : print_help schema (plain out err) = (Ok tt, plain (out ++ show_help schema) err).
Proof.
  unfold print_help, show_help. rewrite (M_bind_ok _ _ _ _ _ (cout_plain _ out err)), print_schema_plain. by rewrite <- app_assoc.
Qed.

Lemma get_typed {A} (get : FieldValue -> outcome A) row (k : nat) v a (io : Io) :
  row_fields row !! k = Some v -> get v = Ok a -> lift (at_ (row_fields row) (Z.of_nat k) ≫= get) io = (Ok a, io).
Proof. intros Hv Hg. unfold lift. rewrite (at_index _ _ _ Hv). cbn [mbind outcome_bind]. by rewrite Hg. Qed.

(** A value in a column. *)
Lemma setw_cout n s out err : (setw n ;; cout s) (plain out err) = (Ok tt, plain (out ++ pad_left n s) err).
Proof. done. Qed.

Lemma print_field_plain row (k : nat) fd v out err :
  row_fields row !! k = Some v -> value_has_type (fd_type fd) v ->
  print_field row (k, fd) (plain out err) = (Ok tt, plain (out ++ show_field fd v) err).
Proof.
  intros Hv Ht. pose proof (lookup_lt_Some _ _ _ Hv). unfold print_field. rewrite (M_bind_ok _ _ _ _ _ (couts_plain _ out err)).
  rewrite bool_decide_eq_false_2 by lia. unfold show_field. cbn [concat]. rewrite app_nil_r.
  rewrite !app_assoc, <- (app_assoc out), <- (app_assoc out). set (pre := out ++ _).
  destruct (fd_type fd), v; try done; cbn [show_value]; rewrite ?(M_bind_ok (set_left true) _ _ _ _ eq_refl);
    rewrite (M_bind_ok (setw _) _ _ _ _ eq_refl); erewrite (M_bind_ok (lift _)) by (unfold get_uint32, get_string, get_float32, get_bool, get_int64; by eapply get_typed); done.
Qed.

Lemma print_fields_plain row fds (k : nat) vs out err :
  (forall i, row_fields row !! (k + i)%nat = vs !! i) -> Forall2 value_ok fds vs ->
  mfor (print_field row) (imap (fun i fd => ((k + i)%nat, fd)) fds) (plain out err)
  = (Ok tt, plain (out ++ concat (zip_with show_field fds vs)) err).
Proof.
  intros Hv Hok. revert k out Hv. induction Hok as [|fd v fds vs [Ht _] Hok IH]; intros k out Hv; [cbn; by rewrite app_nil_r|].
  rewrite imap_cons. cbn [mfor zip_with concat].
  assert (Hk : row_fields row !! (k + 0)%nat = Some v) by (by rewrite Hv).
  rewrite (M_bind_ok _ _ _ _ _ (print_field_plain row (k + 0) fd v out err Hk Ht)).
  rewrite (imap_ext _ (fun i fd => ((S k + i)%nat, fd))) by (intros; unfold compose; f_equal; lia).
  rewrite IH; [by rewrite <- app_assoc|]. intros i. replace (S k + i)%nat with (k + S i)%nat by lia. exact (Hv (S i)).
Qed.

(** [print_row] on a row of the schema. *)
Lemma print_row_plain schema r out err :
  row_ok schema r -> print_row r schema (plain out err) = (Ok tt, plain (out ++ show_row schema r) err).
Proof.
  intros (_ & Hv & _). unfold print_row. rewrite (M_bind_ok _ _ _ _ _ (cout_plain _ out err)).
  rewrite (M_bind_ok (setw 6) _ _ _ _ eq_refl).
  erewrite (M_bind_ok (cout (show_nat _)) _ _ tt (plain ((out ++ str "id=") ++ pad_left 6 (show_nat (row_id r))) err)) by reflexivity.
  pose proof (print_fields_plain r (fields schema) 0 (row_fields r) ((out ++ str "id=") ++ pad_left 6 (show_nat (row_id r))) err
    ltac:(done) Hv) as Hf.
  rewrite (M_bind_ok _ _ _ _ _ Hf), cout_plain. unfold show_row. by rewrite <- !app_assoc.
Qed.

(** The rows a scan prints and counts. *)
Lemma count_rows_plain schema rows out err n :
  Forall (row_ok schema) rows -> 0 <= n -> n + zlen rows < 2 ^ 64 ->
  mfor (count_row schema) rows (plain out err, n) = (Ok tt, (plain (out ++ concat (show_row schema <$> rows)) err, n + zlen rows)).
Proof.
  intros Hok. revert out n. induction Hok as [|r rows Hr Hok IH]; intros out n Hn Hlt.
  { cbn [mfor fmap list_fmap concat length]. by rewrite app_nil_r, Z.add_0_r. }
  cbn [mfor fmap list_fmap concat length] in *.
  rewrite (M_bind_ok (count_row schema r) _ _ tt (plain (out ++ show_row schema r) err, n + 1)).
  2: { unfold count_row. rewrite (M_bind_ok _ _ _ tt (plain (out ++ show_row schema r) err, n)).
       - unfold modify. cbn [fst snd]. unfold u64. rewrite Z.mod_small; [done|]. clear -Hn Hlt. lia.
       - cbn [fst snd]. by rewrite print_row_plain. }
  rewrite IH by lia. rewrite <- app_assoc. by replace (n + Z.of_nat (S (length rows))) with (n + 1 + zlen rows) by lia.
Qed.

(** ** Lemmas: parsing *)

Lemma parse_value_total tok t : parse_value tok t <> UB.
Proof.
  destruct t; cbn; try done.
  - unfold stoul. destruct (parse_int tok) as [[[??]?]|]; [|done]. by case_bool_decide.
  - unfold stof. destruct (take_sign _) as [neg s]. destruct (starts_with _ s); [done|]. destruct (starts_with _ s); [done|].
    assert (Hs : forall m b x, scaled neg m b x <> UB).
    { intros. unfold scaled, f32_of_ratio. case_bool_decide; [done|]. destruct (round_ratio _ _) as [m' e]. cbv zeta.
      destruct (_ || _); [done|]. by case_bool_decide. }
    destruct (if starts_with (str "0x") s then _ else _) as [[[??]?]|].
    + destruct (scaled _ _ _ _) eqn:E; [done..|by destruct (Hs _ _ _ E)].
    + destruct (take_mantissa 10 s) as [[[??]?]|]; [|done]. destruct (scaled _ _ _ _) eqn:E; [done..|by destruct (Hs _ _ _ E)].
  - unfold stoll. destruct (parse_int tok) as [[[??]?]|]; [|done]. cbv zeta. by case_bool_decide.
Qed.

(** A value that was read has the type that was asked for, and its width. *)
Lemma parse_value_typed tok t v : parse_value tok t = Ok v -> value_has_type t v /\ value_wf v.
Proof.
  destruct t; cbn; try done; try (by intros [= <-]).
  - destruct (stoul tok); [|done..]. intros [= <-]. split; [done|]. apply Z.mod_pos_bound. lia.
  - destruct (stof tok) eqn:E; [|done..]. intros [= <-]. split; [done|]. by eapply stof_range.
  - destruct (stoll tok) eqn:E; [|done..]. intros [= <-]. split; [done|]. by eapply stoll_range.
Qed.

Lemma read_values_plain fds ss fv out err :
  read_values fds ss fv (plain out err) =
    match parse_values fds (words ss) with
    | inr vs => (Ok (Some (fv ++ vs)), plain out err)
    | inl msg => (Ok None, plain out (err ++ msg))
    end.
Proof.
  revert ss fv. induction fds as [|fd fds IH]; intros ss fv; cbn [read_values parse_values]; [by rewrite app_nil_r|].
  pose proof (extract_string_words ss) as Hw. destruct (extract_string ss) as [[w rest]|]; [destruct Hw as [-> _]|by rewrite Hw].
  pose proof (parse_value_total w (fd_type fd)) as Hub. destruct (parse_value w (fd_type fd)) as [v|e|]; [|done..].
  rewrite IH. destruct (parse_values fds (words rest)); [done|]. by rewrite <- app_assoc.
Qed.

Lemma take_word_words ss : (take_word ss).1 = default [] (head (words ss)) /\ words (take_word ss).2 = tail (words ss) /\
  (length (take_word ss).2 <= length ss)%nat.
Proof.
  unfold take_word. pose proof (extract_string_words ss) as Hw. destruct (extract_string ss) as [[w rest]|]; cbn.
  - destruct Hw as [-> ?]. split_and!; [done|done|lia].
  - rewrite Hw. split_and!; [done|done|lia].
Qed.

(** *** Scan options *)

Section scan_options.
Context (schema : Schema).

(** The setter by type is the constraint of the value. *)
Definition sets (set : bytes -> FieldType -> FieldValue -> ScanFilter -> outcome ScanFilter)
    (put : bytes -> FieldValue -> ScanFilter -> ScanFilter) : Prop :=
  forall field ft v f, value_has_type ft v -> set field ft v f = Ok (put field v f).

Lemma set_min_sets : sets set_min at_least.
Proof. by intros field [] [] f. Qed.
Lemma set_max_sets : sets set_max at_most.
Proof. by intros field [] [] f. Qed.
Lemma set_eq_sets : sets set_eq equal_to.
Proof. by intros field [] [] f. Qed.

Lemma scan_constraint_plain field unknown set put ss f out err :
  sets set put ->
  scan_constraint schema field unknown set ss f (plain out err) =
    let x := constrain schema field unknown put (take_word ss).1 f in
    (f ← x.2; Ok ((take_word ss).2, f), plain out (err ++ x.1)).
Proof.
  intros Hset. unfold scan_constraint, constrain. pose proof (field_index_from_spec 0 (fields schema) field) as Hs.
  destruct (take_word ss) as [v rest]. cbn [fst snd]. destruct (list_find _ (fields schema)) as [[k fd]|] eqn:E.
  - rewrite Z.add_0_l in Hs. unfold field_index. rewrite Hs, bool_decide_eq_false_2 by lia. apply list_find_Some in E as (Hk & _).
    erewrite (M_bind_ok (lift _)) by (unfold lift; by rewrite (index_lookup _ _ _ Hk)). cbn [fst snd]. rewrite app_nil_r.
    unfold mbind at 1, M_bind, lift. destruct (parse_value v (fd_type fd)) as [x|e|] eqn:Ev; cbn [mbind outcome_bind]; [|done..].
    by rewrite (Hset field (fd_type fd) x f (proj1 (parse_value_typed _ _ _ Ev))).
  - unfold field_index. rewrite Hs, bool_decide_eq_true_2 by lia. by rewrite (M_bind_ok _ _ _ _ _ (cerr_plain _ _ _)).
Qed.

Lemma scan_option_plain tok ss f out err :
  scan_option schema tok ss f (plain out err) =
    match parse_option tok with
    | None => (Ok (ss, f), plain out (err ++ [Txt (str "Unknown scan token: " ++ tok ++ nl)]))
    | Some o =>
        let x := apply_option schema o (take_word ss).1 f in
        (f ← x.2; Ok ((take_word ss).2, f), plain out (err ++ x.1))
    end.
Proof.
  unfold scan_option, parse_option. destruct (decide (take 2 tok = str "--")) as [Ht|Ht].
  2: { rewrite (bool_decide_eq_true_2 (_ <> _) Ht), (bool_decide_eq_false_2 _ Ht). by rewrite (M_bind_ok _ _ _ _ _ (cerr_plain _ _ _)). }
  rewrite (bool_decide_eq_true_2 _ Ht), bool_decide_eq_false_2 by tauto. cbv zeta.
  case_bool_decide; [apply scan_constraint_plain, set_min_sets|]. case_bool_decide; [apply scan_constraint_plain, set_max_sets|].
  case_bool_decide; [|apply scan_constraint_plain, set_eq_sets]. cbn [apply_option fst snd]. destruct (take_word ss). by rewrite app_nil_r.
Qed.

(** The loop ends, and it reads what [parse_scan] reads. *)
Lemma scan_options_plain fuel ss f out err :
  (length ss < fuel)%nat ->
  scan_options fuel schema ss f (plain out err) = let x := parse_scan schema (words ss) f in (x.2, plain out (err ++ x.1)).
Proof.
  revert ss f err. induction fuel as [|fuel IH]; intros ss f err Hlt; [lia|]. cbn [scan_options].
  pose proof (extract_string_words ss) as Hw. destruct (extract_string ss) as [[tok rest]|].
  2: { rewrite Hw. cbn [parse_scan fst snd]. by rewrite app_nil_r. }
  destruct Hw as [-> Hlen]. cbn [parse_scan]. pose proof (scan_option_plain tok rest f out err) as Hs.
  destruct (parse_option tok) as [o|].
  2: { rewrite (M_bind_ok _ _ _ _ _ Hs), IH by (cbn; lia). unfold andthen. cbn [fst snd]. destruct (parse_scan _ _ _). by rewrite <- app_assoc. }
  destruct (take_word_words rest) as (Hv & Hr & Hlr). rewrite Hv in Hs.
  assert (Hnext : forall x k, scan_option schema tok rest f (plain out err) = (f ← x.2; Ok ((take_word rest).2, f), plain out (err ++ x.1)) ->
    (forall f', k f' = parse_scan schema (tail (words rest)) f') ->
    (sf ← scan_option schema tok rest f; scan_options fuel schema sf.1 sf.2) (plain out err) = ((andthen x k).2, plain out (err ++ (andthen x k).1))).
  { intros [m o'] k Hx Hk. unfold mbind at 1, M_bind at 1. rewrite Hx. unfold andthen. cbn [fst snd]. destruct o' as [f'|e|]; cbn [mbind outcome_bind fst snd]; [|done..].
    rewrite IH, Hr, Hk by lia. destruct (parse_scan _ _ _). cbv zeta. cbn [fst snd]. by rewrite <- app_assoc. }
  destruct (words rest) as [|v ws]; cbn [default head tail] in *.
  - rewrite (Hnext _ (fun f' => ([], Ok f')) Hs) by done. unfold andthen. destruct (apply_option schema o [] f) as [m [f'|e|]]; cbn; by rewrite ?app_nil_r.
  - by rewrite (Hnext _ (parse_scan schema ws) Hs).
Qed.
End scan_options.

(** *** Parsed commands are well-formed *)

Lemma parse_values_wf fds ws vs : parse_values fds ws = inr vs -> Forall value_wf vs.
Proof.
  revert ws vs. induction fds as [|fd fds IH]; intros ws vs; [intros [= <-]; constructor|]. destruct ws as [|w ws]; [done|]. cbn.
  destruct (parse_value w (fd_type fd)) as [v|e|] eqn:Ev; [|done..]. specialize (IH ws). destruct (parse_values fds ws) as [m|vs']; [done|].
  intros [= <-]. constructor; [by eapply parse_value_typed|by apply IH].
Qed.

(** What holds of the result of the options, whatever they are. *)
Definition scan_ok (x : list piece * outcome ScanFilter) : Prop :=
  match x.2 with Ok f => NoDup f.*1 | Throw _ => True | UB => False end.

Lemma constrain_ok schema field unknown put v f :
  (forall v, NoDup (put field v f).*1) -> NoDup f.*1 -> scan_ok (constrain schema field unknown put v f).
Proof.
  intros Hput Hf. unfold constrain. destruct (list_find _ _) as [[k fd]|]; [|done]. unfold scan_ok. cbn [snd].
  pose proof (parse_value_total v (fd_type fd)) as Hub. destruct (parse_value v (fd_type fd)) as [x|e|]; [|done..]. apply Hput.
Qed.

Lemma apply_option_ok schema o v f : NoDup f.*1 -> scan_ok (apply_option schema o v f).
Proof.
  intros Hf. destruct o as [field|field|field|field]; cbn [apply_option].
  1,2,4: apply constrain_ok; [|done]; intros []; try done; by apply set_constraint_keys.
  unfold scan_ok. cbn. by apply set_constraint_keys.
Qed.

Lemma parse_scan_ok schema ws f : NoDup f.*1 -> scan_ok (parse_scan schema ws f).
Proof.
  assert (Hthen : forall x k, scan_ok x -> (forall f', NoDup f'.*1 -> scan_ok (k f')) -> scan_ok (andthen x k)).
  { intros [m [f'|e|]] k Hx Hk; [|done..]. specialize (Hk f' Hx). unfold andthen. cbn [snd]. by destruct (k f'). }
  revert f. induction ws as [ws IH] using (well_founded_induction (Wf_nat.well_founded_ltof _ length)). intros f Hf. unfold Wf_nat.ltof in IH.
  destruct ws as [|tok ws]; [done|]. cbn [parse_scan]. destruct (parse_option tok) as [o|].
  - destruct ws as [|v ws]; [by apply apply_option_ok|]. apply Hthen; [by apply apply_option_ok|]. intros f' Hf'. apply IH; [cbn; lia|done].
  - apply Hthen; [done|]. intros f' Hf'. apply IH; [cbn; lia|done].
Qed.

(** Every line gives an operation on well-formed values. *)
Lemma parse_command_wf schema line o : command_op (parse_command schema line) = Some o -> op_wf o.
Proof.
  assert (Hrow : forall name mk ss, (forall r, row_wf r -> forall o, command_op (mk r) = Some o -> op_wf o) ->
            forall o, command_op (parse_row schema name mk ss) = Some o -> op_wf o).
  { intros name mk ss Hmk o'. unfold parse_row. destruct (extract_uint32 ss) as [[id rest]|] eqn:Ei; [|done].
    destruct (parse_values _ _) as [m|vs] eqn:Ev; [done|]. apply Hmk. split; [by eapply extract_uint32_range|by eapply parse_values_wf]. }
  assert (Hid : forall name mk ss, (forall id o, command_op (mk id) = Some o -> op_wf o) ->
            forall o, command_op (parse_id name mk ss) = Some o -> op_wf o).
  { intros name mk ss Hmk o'. unfold parse_id. destruct (extract_uint32 ss) as [[id rest]|]; [|done]. apply Hmk. }
  unfold parse_command. destruct (strip line) as [|b l]; [done|]. case_bool_decide; [done|]. cbv zeta.
  destruct (take_word (b :: l)) as [cmd ss]. unfold find_command. cbn [fst snd].
  destruct (list_find _ _) as [[k [nm parse]]|] eqn:E; [|done]. apply list_find_Some in E as (Hk & _ & _).
  assert (Hin : (nm, parse) ∈ command_table schema) by (by eapply list_elem_of_lookup_2).
  unfold command_table in Hin. repeat (apply elem_of_cons in Hin as [[= _ ->]|Hin]); [..|by apply elem_of_nil in Hin].
  all: try (apply Hrow; by intros r Hr ? [= <-]). all: try (apply Hid; by intros ? ? [= <-]). all: try (by intros [= <-]); try done.
  unfold parse_scan_command. pose proof (parse_scan_ok schema (words ss) [] (NoDup_nil_2)) as Hs.
  destruct (parse_scan _ _ _) as [m [f|e|]]; [|done..]. by intros [= <-].
Qed.

(** ** Lemmas: commands *)

Section commands.
Context {F : Type} `{FileLaws F} `{!FileReliable F} `{!PreadWhole F} `{LZ4Laws}.
Context (schema : Schema) (ct : CompressionType).
Implicit Types (d : DB F).
#[local] Abbreviation db_rep := (db_rep schema ct).
#[local] Abbreviation CLI := (M (DB F * Io)).

Lemma on_io_ok {A} (m : M Io A) d io a io' : m io = (Ok a, io') -> on_io m (d, io) = (Ok a, (d, io')).
Proof. intros Hm. unfold on_io. rewrite with_own_eq. by rewrite Hm. Qed.

Lemma on_io_plain d (m : M Io unit) x out err :
  m (plain out err) = (Ok tt, plain (out ++ x) err) -> on_io m (d, plain out err) = (Ok tt, (d, plain (out ++ x) err)).
Proof. apply on_io_ok. Qed.

Lemma the_schema_run d io : the_schema (d, io) = (Ok (db_schema d), (d, io)).
Proof. done. Qed.

(** What a handler does before its exceptions are caught. *)
Definition dispatched (c : command) (st : list Row * gset bytes) : outcome bool * (bytes * list piece) :=
  match command_op c with
  | Some o =>
      match (op_spec schema o st).1 with
      | Ok res => (Ok false, result_text schema c res)
      | Throw e => (Throw e, ([], warnings c))
      | UB => (UB, ([], []))
      end
  | None => match c with CFail msg e => (Throw e, ([], msg)) | _ => (Ok (is_quit c), plain_reply schema c) end
  end.

Definition room (c : command) pages (n : Z) : Prop :=
  match command_op c with Some o => op_room schema ct o pages n | None => True end.
Definition after (c : command) (g : history) pages d d' : Prop :=
  match command_op c with Some o => continues schema ct g pages d o d' /\ db_settings d' = db_settings d | None => d' = d end.

Section command.
Context (g : history) (pages : list (list Row)) (d : DB F) (Hrep : db_rep g pages d) (out : bytes) (err : list piece).
#[local] Abbreviation state d := (concat pages, dom (db_indexes d)).

(** A handler that implements a command. *)
Definition implements (c : command) (m : CLI bool) : Prop :=
  exists d', let r := dispatched c (state d) in
    m (d, plain out err) = (r.1, (d', plain (out ++ r.2.1) (err ++ r.2.2))) /\ after c g pages d d'.

Lemma implements_plain c m :
  command_op c = None ->
  (let r := dispatched c (state d) in m (d, plain out err) = (r.1, (d, plain (out ++ r.2.1) (err ++ r.2.2)))) -> implements c m.
Proof. intros Hc Hm. exists d. split; [exact Hm|]. unfold after. by rewrite Hc. Qed.

(** A report, and nothing else. *)
Lemma implements_report msg : implements (CReport msg) (on_io (cerr msg) ;; mret false).
Proof.
  apply implements_plain; [done|]. cbn. rewrite (M_bind_ok _ _ _ _ _ (on_io_ok _ d _ _ _ (cerr_plain msg out err))). by rewrite app_nil_r.
Qed.

(** Something printed, and nothing else. *)
Lemma implements_print c (m : M Io unit) x :
  command_op c = None -> dispatched c (state d) = (Ok false, (x, [])) -> m (plain out err) = (Ok tt, plain (out ++ x) err) ->
  implements c (on_io m ;; mret false).
Proof.
  intros Hc Hr Hm. apply implements_plain; [done|]. rewrite Hr. cbn.
  rewrite (M_bind_ok _ _ _ _ _ (on_io_ok _ d _ _ _ Hm)). by rewrite app_nil_r.
Qed.

(** An operation, and then its reply. *)
Lemma implements_op {A} c o (m : M (DB F) A) (w : A -> db_result) (k : A -> CLI bool) :
  command_op c = Some o -> warnings c = [] -> room c pages (log_size wal_header (g_recs g)) ->
  db_run o d = (a ← m; mret (w a)) d ->
  (forall a d', op_error schema (row_ids pages) o = None -> w a = op_value schema o (concat pages) (dom (db_indexes d)) -> db_schema d' = schema ->
     let x := result_text schema c (w a) in k a (d', plain out err) = (Ok false, (d', plain (out ++ x.1) (err ++ x.2)))) ->
  implements c (a ← on_db m; k a).
Proof.
  intros Hc Hwarn Hroom Hrun Hk. unfold room in Hroom. rewrite Hc in Hroom.
  destruct (op_correct schema ct g pages d Hrep o Hroom) as (d' & Hr & Hcont). exists d'.
  assert (Hsch : db_schema d' = schema).
  { destruct Hcont as (g' & Hrep' & _). apply (dc_schema _ _ _ _ _ _ (rp_core _ _ _ _ _ Hrep')). }
  assert (Hset : db_settings d' = db_settings d) by (rewrite <- (db_run_settings o d); by rewrite Hr).
  unfold implements, dispatched, after. rewrite Hc, Hwarn. split; [|done]. rewrite Hrun in Hr.
  change (op_spec schema o (concat pages, dom (db_indexes d))).1 with (answer schema pages o d).
  unfold mbind, M_bind in Hr |- *. unfold on_db. rewrite with_db_eq. destruct (op_error schema (row_ids pages) o) as [e|] eqn:He.
  - rewrite (answer_error schema pages d o e He) in Hr |- *. destruct (m d) as [[a|e'|] d1]; [done| |done].
    injection Hr as -> ->. cbn. by rewrite !app_nil_r.
  - rewrite (answer_ok schema pages d o He) in Hr |- *. destruct (m d) as [[a|e'|] d1]; [|done..].
    injection Hr as Ha ->. rewrite <- Ha. by apply Hk.
Qed.

Lemma implements_eq c m m' : m (d, plain out err) = m' (d, plain out err) -> implements c m' -> implements c m.
Proof. unfold implements. by intros ->. Qed.

Lemma rep_schema_eq : db_schema d = schema.
Proof. apply (dc_schema _ _ _ _ _ _ (rp_core _ _ _ _ _ Hrep)). Qed.

Lemma with_schema {A} (k : Schema -> CLI A) : (s ← the_schema; k s) (d, plain out err) = k schema (d, plain out err).
Proof. rewrite (M_bind_ok _ _ _ _ _ (the_schema_run d _)). by rewrite rep_schema_eq. Qed.

(** [handle_insert] and [handle_update] are this, for two operations. *)
Lemma implements_row name mk (op : Row -> db_op) (call : Row -> M (DB F) unit) usage said ss :
  usage = [Txt (str "Usage: " ++ name ++ str " <id> <field_values...>" ++ nl)] ->
  (forall r, command_op (mk r) = Some (op r) /\ warnings (mk r) = [] /\
     (forall d, db_run (op r) d = (call r ;; mret RUnit) d) /\
     result_text schema (mk r) RUnit = (said ++ show_nat (row_id r) ++ nl, [])) ->
  let c := parse_row schema name mk ss in
  room c pages (log_size wal_header (g_recs g)) ->
  implements c ((s ← the_schema;
    match extract_uint32 ss with
    | None => on_io (cerr usage)
    | Some (id, ss) =>
        fv ← on_io (read_values (fields s) ss []);
        match fv with
        | None => mret tt
        | Some fv => on_db (call (mkRow id fv)) ;; on_io (couts [said; show_nat id; nl])
        end
    end) ;; mret false).
Proof.
  intros -> Hmk c Hroom. eapply implements_eq; [rewrite M_bind_assoc; apply with_schema|]. unfold c, parse_row in *.
  destruct (extract_uint32 ss) as [[id rest]|]; [|by apply implements_report].
  pose proof (read_values_plain (fields schema) rest [] out err) as Hv. destruct (parse_values _ _) as [msg|vs].
  - eapply implements_eq; [|by apply implements_report]. rewrite !M_bind_assoc.
    rewrite (M_bind_ok _ _ _ _ _ (on_io_ok _ d _ _ _ Hv)). by rewrite (M_bind_ok _ _ _ _ _ (on_io_ok _ d _ _ _ (cerr_plain _ _ _))).
  - destruct (Hmk (mkRow id vs)) as (Hc & Hw & Hrun & Htext).
    eapply implements_eq; [rewrite !M_bind_assoc, (M_bind_ok _ _ _ _ _ (on_io_ok _ d _ _ _ Hv)); cbn [app]; apply M_bind_assoc|].
    eapply (implements_op _ _ _ (fun _ => RUnit)); [exact Hc|done|done|apply Hrun|]. intros [] d' _ _ _. rewrite Htext. cbn [fst snd].
    rewrite (M_bind_ok _ _ _ _ _ (on_io_plain d' _ _ out err (couts_plain _ out err))). cbn [concat]. by rewrite !app_nil_r.
Qed.

Lemma implements_insert ss :
  let c := parse_row schema (str "insert") CInsert ss in
  room c pages (log_size wal_header (g_recs g)) -> implements c (handle_insert ss ;; mret false).
Proof.
  intros c Hroom. unfold handle_insert.
  refine (implements_row (str "insert") CInsert DInsert insert [Txt (str "Usage: insert <id> <field_values...>" ++ nl)] (str "Inserted id=") ss _ _ Hroom).
  - vm_compute. reflexivity.
  - intros r. by split_and!.
Qed.

Lemma implements_update ss :
  let c := parse_row schema (str "update") CUpdate ss in
  room c pages (log_size wal_header (g_recs g)) -> implements c (handle_update ss ;; mret false).
Proof.
  intros c Hroom. unfold handle_update.
  refine (implements_row (str "update") CUpdate DUpdate update [Txt (str "Usage: update <id> <field_values...>" ++ nl)] (str "Updated id=") ss _ _ Hroom).
  - vm_compute. reflexivity.
  - intros r. by split_and!.
Qed.

Lemma implements_delete ss :
  let c := parse_id (str "delete") CDelete ss in
  room c pages (log_size wal_header (g_recs g)) -> implements c (handle_delete ss ;; mret false).
Proof.
  intros c Hroom. unfold c, parse_id, handle_delete in *. destruct (extract_uint32 ss) as [[id rest]|]; [|by apply implements_report].
  eapply implements_eq; [apply M_bind_assoc|].
  eapply (implements_op _ _ _ (fun _ => RUnit)); [done..|]. intros [] d' _ _ _. cbn [result_text fst snd].
  rewrite (M_bind_ok _ _ _ _ _ (on_io_plain d' _ _ out err (couts_plain _ out err))). cbn [concat]. by rewrite !app_nil_r.
Qed.

Lemma rows_ok : Forall (row_ok schema) (concat pages).
Proof. eapply pages_rows_ok, (rp_core _ _ _ _ _ Hrep). Qed.

Lemma implements_get ss :
  let c := parse_id (str "get") CGet ss in
  room c pages (log_size wal_header (g_recs g)) -> implements c (handle_get ss ;; mret false).
Proof.
  intros c Hroom. unfold c, parse_id, handle_get in *. destruct (extract_uint32 ss) as [[id rest]|]; [|by apply implements_report].
  eapply implements_eq; [apply M_bind_assoc|]. eapply (implements_op _ _ _ RMaybe); [done..|]. intros found d' _ Hv Hs.
  pose proof (op_value_ok schema (DTryGet id) (concat pages) (dom (db_indexes d)) rows_ok) as Hok. rewrite <- Hv in Hok.
  destruct found as [row|]; cbn [result_text fst snd].
  - rewrite M_bind_assoc, (M_bind_ok _ _ _ _ _ (the_schema_run d' _)), Hs.
    rewrite (M_bind_ok _ _ _ _ _ (on_io_plain d' _ _ out err (print_row_plain schema row out err Hok))). by rewrite app_nil_r.
  - rewrite (M_bind_ok _ _ _ _ _ (on_io_ok _ d' _ _ _ (cerr_plain _ _ _))). by rewrite app_nil_r.
Qed.

Lemma implements_index ss :
  let c := CIndex (default [] (head (words ss))) in
  room c pages (log_size wal_header (g_recs g)) ->
  implements c (let field := (take_word ss).1 in
    on_db (create_index field) ;; on_io (couts [str "Index created on '"; field; str "'" ++ nl]) ;; mret false).
Proof.
  intros c Hroom. destruct (take_word_words ss) as (-> & _). cbv zeta.
  eapply (implements_op _ _ _ (fun _ => RUnit)); [done..|]. intros [] d' _ _ _. cbn [result_text fst snd].
  rewrite (M_bind_ok _ _ _ _ _ (on_io_plain d' _ _ out err (couts_plain _ out err))). cbn [concat]. by rewrite !app_nil_r.
Qed.

Lemma implements_checkpoint :
  room CCheckpoint pages (log_size wal_header (g_recs g)) ->
  implements CCheckpoint (on_db checkpoint ;; on_io (cout (str "Checkpoint done" ++ nl)) ;; mret false).
Proof.
  intros Hroom. eapply (implements_op _ _ _ (fun _ => RUnit)); [done..|]. intros [] d' _ _ _. cbn [result_text fst snd].
  rewrite (M_bind_ok _ _ _ _ _ (on_io_plain d' _ _ out err (cout_plain _ out err))). by rewrite !app_nil_r.
Qed.

(** There are fewer rows than ids. *)
Lemma rows_bound : zlen (concat pages) <= 2 ^ 32.
Proof.
  assert (Hle : (length (row_ids pages) <= length (seqZ 0 (2 ^ 32)))%nat).
  { apply submseteq_length, NoDup_submseteq; [apply (dc_ids _ _ _ _ _ _ (rp_core _ _ _ _ _ Hrep))|].
    intros id (r & -> & Hr)%list_elem_of_fmap. apply elem_of_seqZ. pose proof rows_ok as Hok. rewrite Forall_forall in Hok.
    destruct (Hok r Hr) as [? _]. lia. }
  unfold row_ids in Hle. rewrite length_fmap, length_seqZ in Hle. lia.
Qed.

Lemma implements_scan ss :
  let c := parse_scan_command schema ss in
  room c pages (log_size wal_header (g_recs g)) -> implements c (handle_scan ss ;; mret false).
Proof.
  intros c Hroom. eapply implements_eq; [unfold handle_scan; rewrite M_bind_assoc; apply with_schema|]. unfold c, parse_scan_command in *. clear c.
  pose proof (scan_options_plain schema (S (length ss)) ss [] out err ltac:(lia)) as Ho.
  pose proof (parse_scan_ok schema (words ss) [] (NoDup_nil_2)) as Hok. destruct (parse_scan _ _ _) as [msg [f|e|]]; cbn [fst snd] in *; [| |done].
  - destruct (scan_unlocked_run schema ct (g_hdr g) (g_sy g) pages d (plain out (err ++ msg), 0) f (count_row schema)
      (rp_core _ _ _ _ _ Hrep) (rp_names _ _ _ _ _ Hrep) Hok) as (d' & Hr & Hreads).
    exists d'. cbn [dispatched command_op op_spec op_error fst snd op_value result_text]. split; [|split; [by apply continues_reads|by destruct Hreads as (pg' & -> & _)]].
    set (rows := filter (selected f schema) (concat pages)) in *. unfold visit_selected in Hr. fold rows in Hr.
    rewrite M_bind_assoc, (M_bind_ok _ _ _ _ _ (on_io_ok _ d _ _ _ Ho)).
    rewrite M_bind_assoc, (M_bind_ok (counting _) _ _ (zlen rows) (d', plain (out ++ concat (show_row schema <$> rows)) (err ++ msg))).
    + rewrite (M_bind_ok _ _ _ _ _ (on_io_plain d' _ _ _ (err ++ msg) (couts_plain _ _ (err ++ msg)))). cbn [concat].
      by rewrite !app_nil_r, <- !app_assoc.
    + unfold counting, scan. cbn [fst snd]. rewrite (M_bind_ok _ _ _ d (d, (plain out (err ++ msg), 0))) by done.
      rewrite (rp_open _ _ _ _ _ Hrep). cbn [negb]. rewrite Hr, count_rows_plain; [done| |lia|].
      * apply Forall_forall. intros r [_ Hin]%list_elem_of_filter. pose proof rows_ok as Hrows. rewrite Forall_forall in Hrows. by apply Hrows.
      * pose proof rows_bound. pose proof (length_filter (selected f schema) (concat pages)) as Hle. fold rows in Hle. lia.
  - apply implements_plain; [done|]. cbn [dispatched command_op fst snd]. rewrite M_bind_assoc. unfold mbind at 1, M_bind at 1, on_io.
    rewrite with_own_eq, Ho. cbn [fst snd]. by rewrite app_nil_r.
Qed.

(** The chain of tests in [main] is the table of commands. *)
Lemma dispatch_implements cmd ss :
  let c := find_command schema cmd ss in
  cmd <> str "stats" -> room c pages (log_size wal_header (g_recs g)) -> implements c (dispatch cmd ss).
Proof.
  intros c Hc Hroom. unfold dispatch.
  destruct (decide (cmd = str "insert")) as [->|N1]; [by apply implements_insert|rewrite (bool_decide_eq_false_2 _ N1)].
  destruct (decide (cmd = str "update")) as [->|N2]; [by apply implements_update|rewrite (bool_decide_eq_false_2 _ N2)].
  destruct (decide (cmd = str "delete" \/ cmd = str "erase")) as [[-> | ->]|N3]; [by apply implements_delete..|rewrite (bool_decide_eq_false_2 _ N3)].
  destruct (decide (cmd = str "get")) as [->|N4]; [by apply implements_get|rewrite (bool_decide_eq_false_2 _ N4)].
  destruct (decide (cmd = str "scan")) as [->|N5]; [by apply implements_scan|rewrite (bool_decide_eq_false_2 _ N5)].
  destruct (decide (cmd = str "index")) as [->|N6]; [by apply implements_index|rewrite (bool_decide_eq_false_2 _ N6)].
  destruct (decide (cmd = str "schema")) as [->|N7]; [|rewrite (bool_decide_eq_false_2 _ N7)].
  { eapply implements_eq; [by apply with_schema|]. apply (implements_print CSchema _ (show_schema schema)); [done..|apply print_schema_plain]. }
  destruct (decide (cmd = str "stats")) as [->|N8]; [done|rewrite (bool_decide_eq_false_2 _ N8)].
  destruct (decide (cmd = str "checkpoint")) as [->|N9]; [by apply implements_checkpoint|rewrite (bool_decide_eq_false_2 _ N9)].
  destruct (decide (cmd = str "help")) as [->|N10]; [|rewrite (bool_decide_eq_false_2 _ N10)].
  { eapply implements_eq; [by apply with_schema|]. apply (implements_print CHelp _ (show_help schema)); [done..|apply print_help_plain]. }
  destruct (decide (cmd = str "quit" \/ cmd = str "exit")) as [N11|N11]; [|rewrite (bool_decide_eq_false_2 _ N11)].
  { assert (c = CQuit) as -> by (by destruct N11 as [-> | ->]). rewrite (bool_decide_eq_true_2 _ N11).
    apply implements_plain; [done|]. cbn. by rewrite !app_nil_r. }
  assert (c = CReport [Txt (str "Unknown command: " ++ cmd ++ str "  (try 'help')" ++ nl)]) as ->; [|apply implements_report].
  unfold c, find_command. destruct (list_find _ _) as [[k [nm parse]]|] eqn:E; [|done].
  apply list_find_Some in E as (Hk%list_elem_of_lookup_2 & Hn & _). cbn [fst] in Hn. subst nm. exfalso.
  unfold command_table in Hk. repeat (apply elem_of_cons in Hk as [[= -> _]|Hk]; [tauto|]). by apply elem_of_nil in Hk.
Qed.
End command.

(** [run_line] catches what the handlers throw. *)
Lemma caught c st :
  match dispatched c st with
  | (Ok b, x) => b = is_quit c /\ (command_spec schema c st).1 = x
  | (Throw e, x) => is_quit c = false /\ (command_spec schema c st).1 = (x.1, x.2 ++ error_report e)
  | (UB, _) => False
  end.
Proof.
  unfold dispatched, command_spec. destruct (command_op c) as [o|] eqn:Ho; [|by destruct c].
  assert (is_quit c = false) as -> by (by destruct c). unfold op_spec. by destruct (op_error _ _ o).
Qed.

(** No other command asks for statistics. *)
Lemma stats_command cmd ss : find_command schema cmd ss = CStats -> cmd = str "stats".
Proof.
  unfold find_command. destruct (list_find _ _) as [[k [nm parse]]|] eqn:E; [|done].
  apply list_find_Some in E as (Hk%list_elem_of_lookup_2 & Hn & _). cbn [fst] in Hn. subst nm. unfold command_table in Hk.
  repeat (apply elem_of_cons in Hk as [[= -> ->]|Hk]; [unfold parse_row, parse_id, parse_scan_command; repeat case_match; done|]). by apply elem_of_nil in Hk.
Qed.

Lemma stats_run g pages d out err :
  db_rep g pages d -> handle_stats (d, plain out err) =
    (Ok tt, (d, plain (out ++ stats_text schema (db_cache_cap d) (zlen (f_content (data_file d))) (pages, dom (db_indexes d))) err)).
Proof.
  intros Hrep. pose proof (db_stats_run schema ct g pages d Hrep) as Hs.
  unfold handle_stats. rewrite (M_bind_ok (on_db db_stats) _ _ _ _ (with_db_ok _ _ _ _ _ Hs)). unfold print_stats.
  rewrite (on_io_plain d _ _ out err (couts_plain _ out err)). cbn [s_row_count s_page_count s_cache_capacity s_file_size s_schema_version s_wal_active s_index_count concat].
  unfold stats_text. cbn [fst snd]. by rewrite app_nil_r, <- !app_assoc.
Qed.

Lemma run_line_run g pages d out err line :
  db_rep g pages d -> let c := parse_command schema line in
  room c pages (log_size wal_header (g_recs g)) ->
  exists d', let x := reply schema (db_cache_cap d) (zlen (f_content (data_file d))) c (pages, dom (db_indexes d)) in
    run_line line (d, plain out err) = (Ok (is_quit c), (d', plain (out ++ x.1) (err ++ x.2))) /\ after c g pages d d'.
Proof.
  intros Hrep c Hroom. unfold run_line. fold (strip line). unfold c, parse_command in *. clear c.
  destruct (strip line) as [|b l]; [exists d; cbn; by rewrite !app_nil_r|].
  case_bool_decide; [exists d; cbn; by rewrite !app_nil_r|]. cbv zeta in *. destruct (take_word (b :: l)) as [cmd ss]. cbn [fst snd] in *.
  destruct (decide (cmd = str "stats")) as [->|Hcmd].
  { exists d. change (dispatch (str "stats") ss) with (handle_stats ;; mret false : CLI bool). unfold catch.
    rewrite (M_bind_ok _ _ _ _ _ (stats_run g pages d out err Hrep)). cbn. by rewrite app_nil_r. }
  destruct (dispatch_implements g pages d Hrep out err cmd ss Hcmd Hroom) as (d' & Hd & Haft). exists d'. split; [|done].
  assert (Hreply : reply schema (db_cache_cap d) (zlen (f_content (data_file d))) (find_command schema cmd ss) (pages, dom (db_indexes d)) =
    (command_spec schema (find_command schema cmd ss) (concat pages, dom (db_indexes d))).1).
  { destruct (find_command schema cmd ss) eqn:E; try done. by apply stats_command in E. }
  rewrite Hreply. pose proof (caught (find_command schema cmd ss) (concat pages, dom (db_indexes d))) as Hc. unfold catch. rewrite Hd.
  destruct (dispatched _ _) as [[q|e|] x]; cbn [fst snd]; [by destruct Hc as [-> ->]| |done]. destruct Hc as [-> ->].
  rewrite (M_bind_ok _ _ _ _ _ (on_io_ok _ d' _ _ _ (cerr_plain _ _ _))). cbn [fst snd]. by rewrite app_assoc.
Qed.

(** The database after a command. *)
Lemma after_spec c g pages d d' :
  db_rep g pages d -> room c pages (log_size wal_header (g_recs g)) -> log_size wal_header (g_recs g) < 2 ^ 63 -> after c g pages d d' ->
  exists g', let ops := option_list (command_op c) in
    db_rep g' (foldl (fun ps o => op_pages schema o ps) pages ops) d' /\
    (foldl (fun ps o => op_pages schema o ps) pages ops, dom (db_indexes d')) = next_state schema c (pages, dom (db_indexes d)) /\
    db_cache_cap d' = db_cache_cap d /\
    log_size wal_header (g_recs g') = foldl (fun n o => op_log schema o pages n) (log_size wal_header (g_recs g)) ops /\
    log_size wal_header (g_recs g') < 2 ^ 63 /\ (saved schema g -> saved schema g').
Proof.
  intros Hrep Hroom Hlt Haft. unfold after, room, next_state, command_spec in *.
  destruct (command_op c) as [o|]; cbn [option_list foldl fst snd]; [|subst d'; exists g; by split_and!].
  destruct Haft as [(g' & Hrep' & Hix & Hlog & Hsv & _) Hset]. exists g'. cbv zeta. change (option_list (Some o)) with [o]. cbn [foldl].
  split_and!; [done| |by injection Hset|done| |by intros; apply Hsv; left].
  - rewrite Hix. by destruct (op_spec schema o _) as [a st].
  - rewrite Hlog. unfold op_log, op_room in *. destruct Hroom as [_ Hroom]. destruct (op_error _ _ o); [done|]. destruct Hroom as (_ & _ & Hroom).
    by destruct o.
Qed.

(** Every line, until [quit]. *)
Lemma main_loop_run interactive lines g pages d out err :
  db_rep g pages d -> log_size wal_header (g_recs g) < 2 ^ 63 ->
  ops_room schema ct (session_ops schema lines) pages (log_size wal_header (g_recs g)) ->
  exists d' g' sizes, let x := session_text schema (db_cache_cap d) interactive lines sizes (pages, dom (db_indexes d)) in
    main_loop interactive lines (d, plain out err) = (Ok tt, (d', plain (out ++ x.1) (err ++ x.2))) /\
    db_rep g' (foldl (fun ps o => op_pages schema o ps) pages (session_ops schema lines)) d' /\
    log_size wal_header (g_recs g') < 2 ^ 63 /\ (saved schema g -> saved schema g') /\
    forall ops, ops_room schema ct (session_ops schema lines ++ ops) pages (log_size wal_header (g_recs g)) ->
      ops_room schema ct ops (foldl (fun ps o => op_pages schema o ps) pages (session_ops schema lines)) (log_size wal_header (g_recs g')).
Proof.
  revert g pages d out err. induction lines as [|line lines IH]; intros g pages d out err Hrep Hlt Hroom.
  all: cbn [main_loop session_text session_ops].
  all: assert (Hp : forall k : M (DB F * Io) unit, ((if interactive then on_io (cout (str "xdl> ")) else mret tt) ;; k) (d, plain out err) =
    k (d, plain (out ++ prompt interactive) err)) by (intros k; destruct interactive; [done|cbn; by rewrite app_nil_r]); rewrite Hp.
  { exists d, g, []. rewrite app_nil_r. by split_and!. }
  set (c := parse_command schema line) in *.
  assert (Hr : room c pages (log_size wal_header (g_recs g))).
  { unfold room. cbn [session_ops] in Hroom. fold c in Hroom. destruct (command_op c) as [o|] eqn:Ho; [|done].
    assert (is_quit c = false) as Hq by (by destruct c). rewrite Hq in Hroom. by destruct Hroom. }
  destruct (run_line_run g pages d (out ++ prompt interactive) err line Hrep Hr) as (d1 & Hrun & Haft). fold c in Hrun, Haft.
  destruct (after_spec c g pages d d1 Hrep Hr Hlt Haft) as (g1 & Hrep1 & Hstate & Hcap & Hlog & Hlt1 & Hsv1). cbn [session_ops] in Hroom. fold c in Hroom.
  rewrite (M_bind_ok _ _ _ _ _ Hrun). set (size := zlen (f_content (data_file d))) in *. set (x := reply _ _ _ _ _) in *.
  destruct (is_quit c) eqn:Hq.
  { assert (command_op c = None) as Ho by (by destruct c). rewrite Ho in Hrep1. exists d1, g1, [size]. cbn [fst snd head tail default]. fold x.
    rewrite !app_nil_r, <- app_assoc. split_and!; [done..|]. intros ops. by rewrite Hlog, Ho. }
  destruct (IH g1 _ d1 ((out ++ prompt interactive) ++ x.1) (err ++ x.2) Hrep1 Hlt1) as (d' & g' & sizes & Hloop & Hrep' & Hlt' & Hsv' & Hrest).
  { rewrite Hlog. destruct (command_op c) as [o|]; [by destruct Hroom|done]. }
  exists d', g', (size :: sizes). cbv zeta in *. rewrite foldl_app. cbn [head tail default hd_error]. change (id size) with size. fold x. rewrite <- Hcap, <- Hstate. split_and!; [|done|done|auto|].
  { rewrite Hloop. cbn [fst snd]. by rewrite <- !app_assoc. }
  intros ops Hops. apply Hrest. rewrite Hlog. destruct (command_op c) as [o|]; [by destruct Hops|done].
Qed.
End commands.
