(* ===== verification/MainProperties.v ===== *)
(** What the command line promises ([src/main.cpp]): a run of the program against the
    specification of the session, a run after a power failure, text round trips,
    statistics, and what happens to a bad schema. *)
From S2P Require Import Prelude Types Serialise Page Float Std BPTree Index Posix Wal Lz4 Compression Migrate Storage Cache Pager Filter Db DbSpec DbOps DbQuery DbSession DbSettings DbRecovery DbProperties Text Main MainSpec.

(** ** Definitions *)

(** The two files between two runs: not there yet, or closed with these pages. *)
Definition at_rest {F} `{FileSys F} `{LZ4Lib} (schema : Schema) (ct : CompressionType) (pages : list (list Row)) (f wf : F) : Prop :=
  NoDup (fd_name <$> fields schema) /\
  if f_exists f then
    exists hdr, on_disk schema hdr pages (f_content f) /\ f_synced f = f_content f /\ db_header_ok hdr /\
      log_file (f_content wf) [] [] /\ f_synced wf = f_content wf /\
      zlen pages < 2 ^ 32 /\ Forall (storable schema ct) pages /\ NoDup (row_ids pages)
  else f_content wf = [] /\ pages = [] /\ schema_wire_ok schema /\ zlen (serialise_schema schema) <= 65536.

(** The schema the command line gives, [default_fields] standing for none, is the
    database's: a file that exists has its own, which a given schema has to match. *)
Definition chosen (given : Schema) : Schema := if bool_decide (fields given <> []) then given else mkSchema default_fields (ver given).
Definition schema_fits (given schema : Schema) (existing : bool) : Prop :=
  if existing then fields given <> [] -> schemas_match schema given = true else schema = chosen given.

(** What an interactive session prints first. *)
Definition banner (interactive : bool) (path : bytes) (schema : Schema) : bytes :=
  if interactive then
    str "XDL v1  " ++ [xe2; x80; x94] ++ str " " ++ path ++ nl ++ show_schema schema ++ str "Type 'help' for commands." ++ nl
  else [].

(** The argument of [--schema] for some fields. *)
Definition schema_arg (fds : list FieldDef) : bytes :=
  join x2c ((fun fd => fd_name fd ++ x3a :: field_type_name (fd_type fd)) <$> fds).

(** A value as it is typed, and the line that inserts a row. *)
Definition type_value (v : FieldValue) : bytes :=
  match v with
  | VUint32 n => show_nat n
  | VString s => s
  | VFloat b => show_f32 b
  | VBool b => if b then str "true" else str "false"
  | VInt64 n => show_int n
  end.
Definition insert_line (r : Row) : bytes :=
  str "insert " ++ show_nat (row_id r) ++ concat ((fun v => x20 :: type_value v) <$> row_fields r).

(** Values that can be typed: no float, and strings that are one word. *)
Definition typeable (v : FieldValue) : Prop :=
  match v with VFloat _ => False | VString s => is_word s | _ => True end.

(** The power fails: of a file only the bytes that were synced stay. *)
Definition power_failure {F} `{FileSys F} (f f' : F) : Prop :=
  f_exists f' = true /\ f_content f' = f_synced f /\ f_synced f' = f_synced f.

(** ** Lemmas: a run *)

Lemma fields_match_eq a b : fields_match a b = true -> length a = length b -> a = b.
Proof.
  revert b. induction a as [|f a IH]; intros [|g b]; cbn; try done. intros [[Hn%bool_decide_eq_true Ht%bool_decide_eq_true]%andb_true_iff Hm]%andb_true_iff [= Hl].
  f_equal; [destruct f, g; cbn in *; congruence|by apply IH].
Qed.

Lemma schemas_match_fields a b : schemas_match a b = true -> fields a = fields b.
Proof. intros [Hl%bool_decide_eq_true Hm]%andb_true_iff. by apply fields_match_eq. Qed.

Section run.
Context {F : Type} `{FileLaws F} `{!FileReliable F} `{!PreadWhole F} `{LZ4Laws}.
Implicit Types (d : DB F).

(** [open] on files at rest. *)
Lemma open_at_rest schema ct pages d :
  closed d -> db_compression d = ct -> at_rest schema ct pages (data_file d) (wal_file d) ->
  (if f_exists (data_file d) then schema_agrees schema d else db_schema d = schema) ->
  exists d' g, db_open_ d = (Ok tt, d') /\ db_rep schema ct g pages d' /\ db_indexes d' = ∅ /\ log_size wal_header (g_recs g) = zlen wal_header /\
    (f_exists (data_file d) = true -> saved schema g).
Proof.
  intros Hcl Hct [Hnd Hrest] Hsch. subst ct. destruct (f_exists (data_file d)) eqn:Hex.
  - destruct Hrest as (hdr & Hdisk & Hsy & Hh & Hlog & Hlsy & Hlt & Hst & Hids).
    destruct (open_run d schema hdr pages [] [] []) as (d' & Hr & Hc & Ho & Hi & Hw); try done.
    exists d', (mkHistory hdr (f_synced (data_file d)) pages [] []). split_and!; [done| |done|done|intros _; unfold saved; cbn; by rewrite Hsy].
    split; cbn [g_hdr g_sy g_base g_steps g_recs]; try done. apply Hw; [done|]. by right.
  - destruct Hrest as (Hwf & -> & Hwire & Hsm).
    destruct (open_new_file_run d schema) as (d' & sy & Hr & Hrep & Hi); try done. by eexists d', _.
Qed.

(** [close] leaves the files at rest. *)
Lemma close_at_rest schema ct g pages d :
  db_rep schema ct g pages d -> log_size wal_header (g_recs g) < 2 ^ 63 ->
  exists d', db_close d = (Ok tt, d') /\ db_open d' = false /\ at_rest schema ct pages (data_file d') (wal_file d').
Proof.
  intros Hrep Hlt. destruct (close_db_run schema ct g pages d Hrep Hlt) as (d' & Hr & _ & [Hex Hdisk Hsy Hlog Hlsy] & _).
  destruct (pager_storable schema ct _ _ pages _ (dc_pager _ _ _ _ _ _ (rp_core _ _ _ _ _ Hrep))) as [Hst Hlen].
  exists d'. split_and!; [done| |].
  - unfold db_close in Hr. rewrite (M_bind_ok get _ _ _ _ eq_refl), (rp_open _ _ _ _ _ Hrep) in Hr. cbn [negb] in Hr.
    repeat apply M_bind_inv in Hr as (? & ? & _ & Hr). by injection Hr as <-.
  - split; [apply (rp_names _ _ _ _ _ Hrep)|]. rewrite Hex. eexists. split_and!; [exact Hdisk|done| |done..|].
    + apply header_count_ok; [lia|]. apply (rp_hdr _ _ _ _ _ Hrep).
    + apply (dc_ids _ _ _ _ _ _ (rp_core _ _ _ _ _ Hrep)).
Qed.

(** From an open that succeeds to the end. *)
Lemma session_from schema ct g pages d d1 path interactive lines :
  db_open_ d = (Ok tt, d1) -> db_rep schema ct g pages d1 -> db_indexes d1 = ∅ -> log_size wal_header (g_recs g) < 2 ^ 63 ->
  ops_room schema ct (session_ops schema lines) pages (log_size wal_header (g_recs g)) ->
  exists d' sizes, let x := session_text schema (db_cache_cap d) interactive lines sizes (pages, ∅) in
    session path interactive lines (d, plain [] []) = (Ok 0, (d', plain (banner interactive path schema ++ x.1) x.2)) /\
    at_rest schema ct (foldl (fun ps o => op_pages schema o ps) pages (session_ops schema lines)) (data_file d') (wal_file d').
Proof.
  intros Hopen Hrep Hix Hlt Hroom. assert (Hcap : db_cache_cap d1 = db_cache_cap d) by (pose proof (db_open_settings d) as Hs; rewrite Hopen in Hs; by injection Hs).
  destruct (main_loop_run schema ct interactive lines g pages d1 (banner interactive path schema) [] Hrep Hlt Hroom) as (d2 & g2 & sizes & Hloop & Hrep2 & Hlt2 & _).
  destruct (close_at_rest schema ct g2 _ d2 Hrep2 Hlt2) as (d3 & Hclose & Ho3 & Hrest3).
  exists d3, sizes. rewrite Hix, dom_empty_L, Hcap in Hloop. cbv zeta in Hloop |- *. split; [|done]. unfold session.
  rewrite (M_bind_ok (catch _ _) _ _ true (d1, plain [] [])).
  2: { unfold catch, on_db. rewrite (M_bind_ok (with_db _) _ _ tt (d1, plain [] [])) by (by apply with_db_ok). done. }
  cbn [negb]. rewrite (M_bind_ok _ _ _ tt (d1, plain (banner interactive path schema) [])).
  2: { destruct interactive; [|done]. rewrite (M_bind_ok _ _ _ _ _ (on_io_plain d1 _ _ [] [] (couts_plain _ [] []))).
       rewrite (M_bind_ok _ _ _ _ _ (the_schema_run d1 _)), (dc_schema _ _ _ _ _ _ (rp_core _ _ _ _ _ Hrep)).
       rewrite (M_bind_ok _ _ _ _ _ (on_io_plain d1 _ _ _ [] (print_schema_plain schema _ []))).
       rewrite (on_io_plain d1 _ _ _ [] (cout_plain _ _ [])). unfold banner. cbn [concat app]. by rewrite app_nil_r, <- !app_assoc. }
  rewrite (M_bind_ok _ _ _ _ _ Hloop). set (io := plain _ _).
  rewrite (M_bind_ok (catch _ _) _ _ tt (d3, io)) by (unfold catch, on_db; by erewrite with_db_ok).
  rewrite (M_bind_ok (on_db db_destroy) _ _ tt (d3, io)); [done|]. apply with_db_ok. unfold db_destroy.
  rewrite (M_bind_ok get _ _ _ _ eq_refl). by rewrite Ho3.
Qed.

Lemma session_run schema ct pages d path interactive lines :
  closed d -> db_compression d = ct -> at_rest schema ct pages (data_file d) (wal_file d) ->
  (if f_exists (data_file d) then schema_agrees schema d else db_schema d = schema) ->
  ops_room schema ct (session_ops schema lines) pages (zlen wal_header) ->
  exists d' sizes, let x := session_text schema (db_cache_cap d) interactive lines sizes (pages, ∅) in
    session path interactive lines (d, plain [] []) = (Ok 0, (d', plain (banner interactive path schema ++ x.1) x.2)) /\
    at_rest schema ct (foldl (fun ps o => op_pages schema o ps) pages (session_ops schema lines)) (data_file d') (wal_file d').
Proof.
  intros Hcl Hct Hrest Hsch Hroom. destruct (open_at_rest schema ct pages d Hcl Hct Hrest Hsch) as (d1 & g & Hopen & Hrep & Hix & Hlog & _).
  rewrite <- Hlog in Hroom. assert (Hlt : log_size wal_header (g_recs g) < 2 ^ 63) by (rewrite Hlog; vm_compute; reflexivity).
  by apply (session_from schema ct g pages d d1).
Qed.

Lemma ops_room_prefix schema ct ops ops' pages n : ops_room schema ct (ops ++ ops') pages n -> ops_room schema ct ops pages n.
Proof. revert pages n. induction ops as [|o ops IH]; intros pages n; cbn [app ops_room]; [done|]. intros [Ho Hs]. split; [done|by apply (IH _ _ Hs)]. Qed.

(** A power failure leaves the files of a session as the recovery wants them. *)
Lemma power_failure_crashed d d0 :
  closed d0 -> power_failure (data_file d) (data_file d0) -> power_failure (wal_file d) (wal_file d0) -> crashed d [] d0.
Proof.
  intros Hcl (Hex & Hc & Hs) (_ & Hwc & Hws). split; [done|done|done|by rewrite Hs|by rewrite app_nil_r|by rewrite Hws|apply valid_start_nil].
Qed.

(** The constructor. *)
Lemma new_DB_run given schema ct cap m (f wf : F) :
  0 <= cap -> NoDup (fd_name <$> fields schema) -> schema_fits given schema (f_exists f) ->
  exists d, new_DB f wf given ct cap m = Ok d /\ closed d /\ db_compression d = ct /\ data_file d = f /\ wal_file d = wf /\ db_cache_cap d = cap /\
    (if f_exists f then schema_agrees schema d else db_schema d = schema).
Proof.
  intros Hcap Hnd Hfit. unfold new_DB. fold (chosen given).
  assert (Hv : validate (chosen given) = Ok tt).
  { rewrite validate_spec, bool_decide_eq_true_2; [done|]. unfold chosen, schema_fits in *. case_bool_decide as Hg; [|split; [done|vm_decide]].
    split; [done|]. destruct (f_exists f); [by rewrite <- (schemas_match_fields _ _ (Hfit Hg))|].
    subst schema. unfold chosen in Hnd. by rewrite bool_decide_eq_true_2 in Hnd. }
  rewrite Hv. eexists. split; [reflexivity|]. split_and!; [by split|done..|].
  unfold schema_fits in Hfit. destruct (f_exists f); [|done]. intros He. cbn in He. apply bool_decide_eq_true in He. cbn.
  unfold chosen. rewrite bool_decide_eq_true_2 by done. by apply Hfit.
Qed.
End run.

(** ** Lemmas: text that was typed *)

Lemma words_spaced (ws : list bytes) : Forall is_word ws -> words (concat ((fun w => x20 :: w) <$> ws)) = ws.
Proof.
  induction 1 as [|w ws [Hne Hw] _ IH]; [done|]. cbn [fmap list_fmap concat app]. unfold words. cbn [words_from].
  change (is_space x20) with true. rewrite bool_decide_eq_true_2, words_from_span by done. cbn [app].
  assert (Hw' : Forall (fun b => negb (is_space b) = true) w) by (eapply Forall_impl; [exact Hw|]; intros b Hb; cbn beta in *; by rewrite Hb).
  destruct ws as [|v ws].
  - cbn [fmap list_fmap concat]. rewrite app_nil_r, span_all by done. by rewrite bool_decide_eq_false_2.
  - cbn [fmap list_fmap concat app] in *. rewrite (span_app _ w _ x20 Hw' eq_refl), bool_decide_eq_false_2 by done. f_equal.
    unfold words in IH |- *. cbn [words_from] in IH. exact IH.
Qed.

Lemma type_value_word fd v : value_ok fd v -> typeable v -> is_word (type_value v) /\ parse_value (type_value v) (fd_type fd) = Ok v.
Proof.
  intros (Ht & Hw & _) Htp. destruct (fd_type fd), v as [n|s|b|b|n]; try done; cbn [type_value parse_value]; cbn in Hw.
  - split; [apply show_nat_word; lia|]. rewrite stoul_show by lia. cbn [mbind outcome_bind]. unfold u32. by rewrite Z.mod_small by lia.
  - destruct b; (split; [split; [done|by repeat constructor]|done]).
  - split; [apply show_int_word; lia|]. by rewrite stoll_show by lia.
Qed.

Lemma parse_typed_values fds vs :
  Forall2 value_ok fds vs -> Forall typeable vs -> parse_values fds (type_value <$> vs) = inr vs /\ Forall is_word (type_value <$> vs).
Proof.
  induction 1 as [|fd v fds vs Hv _ IH]; [done|]. intros [Ht Hts]%Forall_cons. destruct (IH Hts) as [Hp Hw].
  destruct (type_value_word fd v Hv Ht) as [Hw1 Hp1]. cbn. rewrite Hp1, Hp. by split; [|constructor].
Qed.

(** A field as [parse_schema] reads it. *)
Lemma find_char_app c s t : c ∉ s -> find_char c (s ++ c :: t) = Some (length s).
Proof.
  induction s as [|b s IH]; intros Hc; cbn; [by rewrite bool_decide_eq_true_2|].
  apply not_elem_of_cons in Hc as [Hb Hc]. rewrite bool_decide_eq_false_2 by congruence. by rewrite IH.
Qed.

Lemma parse_schema_token_run fd :
  x3a ∉ fd_name fd -> (forall tag, fd_type fd <> UnknownType tag) ->
  parse_schema_token (fd_name fd ++ x3a :: field_type_name (fd_type fd)) = Ok fd.
Proof.
  intros Hc Ht. unfold parse_schema_token. rewrite find_char_app by done. rewrite take_app_length.
  rewrite (cons_middle x3a), app_assoc, drop_app_length' by (rewrite length_app; done).
  rewrite (parse_field_type_name _ Ht). by destruct fd.
Qed.

(** ** Properties *)

Section properties.
Context {F : Type} `{FileLaws F} `{!FileReliable F} `{!PreadWhole F} `{LZ4Laws}.
Implicit Types (d : DB F).

(** C3: a run of the program is a session of its commands.  Let the two files be at rest
    (not there yet, or closed by a run before) and the schema of the command line fit.
    Then [main] returns 0, what it writes to the two outputs is, line by line, the
    reply to each command by the database that is a list of pages of rows, an
    error included, and the files are at rest again with the rows after the last
    command, so that the next run goes on from there.  Of the statistics only the size
    of the data file is not told by the rows. *)
Theorem main_refines_session prog path args given schema pages (f wf : F) interactive input :
  parse_args args (mkSchema [] 1) = Ok given -> schema_fits given schema (f_exists f) ->
  at_rest schema CLZ4 pages f wf -> ops_room schema CLZ4 (session_ops schema (getlines x0a input)) pages (zlen wal_header) ->
  exists d sizes, let x := session_text schema DEFAULT_CACHE_SIZE interactive (getlines x0a input) sizes (pages, ∅) in
    xdl_main (prog :: path :: args) f wf interactive input =
      (Ok 0, plain (banner interactive path schema ++ x.1) x.2, Some d) /\
    at_rest schema CLZ4 (foldl (fun ps o => op_pages schema o ps) pages (session_ops schema (getlines x0a input))) (data_file d) (wal_file d).
Proof.
  intros Hargs Hfit Hrest Hroom.
  destruct (new_DB_run given schema CLZ4 DEFAULT_CACHE_SIZE (mkSchemaMigrate 0 0 []) f wf ltac:(done) (proj1 Hrest) Hfit)
    as (d & Hnew & Hcl & Hct & Hf & Hwf & Hcap & Hsch). rewrite <- Hf, <- Hwf in Hrest. rewrite <- Hf in Hsch.
  destruct (session_run schema CLZ4 pages d path interactive (getlines x0a input) Hcl Hct Hrest Hsch Hroom) as (d' & sizes & Hrun & Hrest').
  rewrite Hcap in Hrun. exists d', sizes. split; [|done]. unfold xdl_main. rewrite Hargs, Hnew. fold (plain [] []). by rewrite Hrun.
Qed.


(** A schema with two fields of one name ends the program.  The constructor of the
    database throws outside of every [try] of [main], so nothing is printed and no
    exit code is returned; the file is not touched. *)
Theorem duplicate_field_escapes prog path args given (f wf : F) interactive input :
  parse_args args (mkSchema [] 1) = Ok given -> has_duplicate_name (fields given) = true ->
  xdl_main (prog :: path :: args) f wf interactive input = (Throw InvalidArgument, plain [] [], None).
Proof.
  intros Hargs Hdup. assert (Hne : fields given <> []) by (intros Hn; by rewrite Hn in Hdup).
  unfold xdl_main. rewrite Hargs. unfold new_DB. rewrite (bool_decide_eq_true_2 _ Hne). cbn [validate].
  unfold validate. by rewrite bool_decide_eq_false_2, Hdup.
Qed.
End properties.

(** C19: the schema that is written is the schema that is read.  For field names without a
    comma or a colon, [parse_schema] inverts the syntax [name:type,name:type]. *)
Theorem schema_arg_roundtrip fds :
  Forall (fun fd => (x2c ∉ fd_name fd) /\ (x3a ∉ fd_name fd) /\ (forall tag, fd_type fd <> UnknownType tag)) fds ->
  parse_schema (schema_arg fds) = Ok (mkSchema fds 1).
Proof.
  intros Hf. unfold parse_schema, schema_arg. rewrite getlines_join.
  - assert (Hgo : forall acc, parse_schema_tokens ((fun fd => fd_name fd ++ x3a :: field_type_name (fd_type fd)) <$> fds) (mkSchema acc 1) = Ok (mkSchema (acc ++ fds) 1)).
    { induction Hf as [|fd fds (_ & Hc & Ht) _ IH]; intros acc; [by rewrite app_nil_r|]. cbn [fmap list_fmap parse_schema_tokens].
      rewrite (parse_schema_token_run fd Hc Ht). cbn [mbind outcome_bind fields ver]. rewrite IH. by rewrite <- app_assoc. }
    apply (Hgo []).
  - apply Forall_fmap. eapply Forall_impl; [exact Hf|]. intros fd (Hc & _ & Ht). split; [by destruct (fd_name fd)|].
    cbn. rewrite not_elem_of_app, not_elem_of_cons. split_and!; [done|done|]. destruct (fd_type fd); vm_compute; set_solver.
Qed.

(** C18: a row that is typed is the row that is inserted.  The line made of [insert], the id
    and the values, for strings of one word and no floats, is parsed to the insertion of
    exactly that row; a float is printed with two digits and does not come back. *)
Theorem insert_line_roundtrip schema r :
  0 <= row_id r < 2 ^ 32 -> Forall2 value_ok (fields schema) (row_fields r) -> Forall typeable (row_fields r) ->
  parse_command schema (insert_line r) = CInsert r.
Proof.
  intros Hid Hok Htp. destruct (parse_typed_values _ _ Hok Htp) as [Hp Hw]. unfold parse_command, insert_line.
  set (rest := show_nat (row_id r) ++ _).
  assert (Hs : strip (str "insert " ++ rest) = str "insert" ++ x20 :: rest) by done. rewrite Hs. change (str "insert" ++ x20 :: rest) with (x69 :: str "nsert" ++ x20 :: rest).
  cbv iota. rewrite bool_decide_eq_false_2 by done. cbv zeta. change (x69 :: str "nsert" ++ x20 :: rest) with (str "insert" ++ x20 :: rest).
  assert (Hword : is_word (str "insert")) by (split; [done|by repeat constructor]).
  unfold take_word. rewrite (extract_string_word _ _ _ Hword) by done. unfold id. cbn [from_option fst snd].
  change (find_command schema (str "insert") (x20 :: rest)) with (parse_row schema (str "insert") CInsert (x20 :: rest)). unfold parse_row.
  assert (He : extract_uint32 (x20 :: rest) = Some (row_id r, concat ((fun v => x20 :: type_value v) <$> row_fields r))).
  { rewrite extract_uint32_space by done. unfold rest. apply extract_uint32_show; [done|]. by destruct (row_fields r). }
  rewrite He. pose proof (words_spaced _ Hw) as Hws. rewrite <- list_fmap_compose in Hws. unfold compose in Hws. rewrite Hws, Hp. by destruct r.
Qed.

(** C20: what a line asks for is well-formed.  Whatever the text, the operation it is
    parsed to has a 32-bit id, values of their widths, integers and floats alike, and a
    filter with one constraint per field: the ranges that the database relies on hold
    of every input. *)
Theorem parsed_ops_typed schema line o : command_op (parse_command schema line) = Some o -> op_wf o.
Proof. apply parse_command_wf. Qed.

(** C22: numbers of more than 32 bits.  As an id such a number is refused; as the value of
    a [uint32] field it is accepted up to 64 bits and stored modulo 2 ^ 32. *)
Theorem uint32_text_bounds n :
  0 <= n < 10 ^ 48 ->
  extract_uint32 (show_nat n) = (if bool_decide (n < 2 ^ 32) then Some (n, []) else None) /\
  parse_value (show_nat n) UINT32 = (if bool_decide (n < 2 ^ 64) then Ok (VUint32 (n mod 2 ^ 32)) else Throw OutOfRange).
Proof.
  intros Hn. unfold extract_uint32, parse_value, stoul. rewrite <- (app_nil_r (show_nat n)), parse_show_nat by done. unfold UINT32_MAX, UINT64_MAX. split.
  - rewrite (bool_decide_ext (n > 2 ^ 32 - 1) (~ n < 2 ^ 32)) by lia. rewrite bool_decide_not. by destruct (bool_decide (n < 2 ^ 32)).
  - rewrite (bool_decide_ext (n > 2 ^ 64 - 1) (~ n < 2 ^ 64)) by lia. rewrite bool_decide_not. by destruct (bool_decide (n < 2 ^ 64)).
Qed.

(** *** Witnesses *)

(** The input of a run: lines with their ends. *)
Definition demo_text (l : list bytes) : bytes := concat ((fun s => s ++ nl) <$> l).
Definition demo_fields : list FieldDef :=
  [mkFieldDef (str "age") UINT32; mkFieldDef (str "name") STRING; mkFieldDef (str "ok") BOOL; mkFieldDef (str "n") INT64].
Definition demo_input : bytes := demo_text
  [str "insert 1 41 ada true -7"; str "  insert 2 30 bob no 99"; str "insert 2 9 dup 1 0"; str "insert 3 x";
   str "# a comment"; []; str "get 1"; str "get 9"; str "index age"; str "update 2 31 bob yes 100";
   str "scan --min-age 35 --zz 4 junk"; str "scan --max-n x"; str "erase 1"; str "bogus"; str "stats"; str "checkpoint"; str "quit"; str "get 2"].

Lemma main_refines_session_witness :
  let schema := mkSchema demo_fields 1 in
  exists d sizes, let x := session_text schema DEFAULT_CACHE_SIZE true (getlines x0a demo_input) sizes ([], ∅) in
    xdl_main [str "xdl"; str "f.xdl"; str "--schema"; schema_arg demo_fields] (demo_file None) (demo_file None) true demo_input =
      (Ok 0, plain (banner true (str "f.xdl") schema ++ x.1) x.2, Some d) /\
    at_rest schema CLZ4 (foldl (fun ps o => op_pages schema o ps) [] (session_ops schema (getlines x0a demo_input))) (data_file d) (wal_file d).
Proof.
  apply (main_refines_session (str "xdl") (str "f.xdl") [str "--schema"; schema_arg demo_fields] (mkSchema demo_fields 1) (mkSchema demo_fields 1) []
    (demo_file None) (demo_file None) true demo_input).
  - vm_compute. reflexivity.
  - reflexivity.
  - split; [vm_decide|]. split_and!; [reflexivity|reflexivity|vm_decide|vm_decide].
  - vm_decide.
Defined.

(** The files of a run that inserted two rows, and a run on them that is cut off. *)
Definition demo_clean : DB (MemFile 8 true) :=
  mkDB (mkSchema demo_fields 1) true CLZ4 DEFAULT_CACHE_SIZE (mkSchemaMigrate 0 0 [])
    (new_Pager (new_Storage (demo_file None) CLZ4) new_IndexManager DEFAULT_CACHE_SIZE) (new_WAL (demo_file None)) false ∅ false.
Definition demo_lines : list bytes := [str "insert 1 41 ada true -7"; str "insert 2 30 bob no 99"].
Definition demo_first : DB (MemFile 8 true) := (session (str "f.xdl") false demo_lines (demo_clean, plain [] [])).2.1.
Definition demo_cut : list bytes := [str "insert 3 25 cy 1 12"; str "erase 1"; str "update 2 31 bob yes 100"].
Definition demo_after : bytes := demo_text [str "get 1"; str "get 2"; str "insert 4 1 di 0 0"; str "stats"; str "scan"].
Definition demo_kept : list (list Row) :=
  [[mkRow 1 [VUint32 41; VString (str "ada"); VBool true; VInt64 (-7)]; mkRow 2 [VUint32 30; VString (str "bob"); VBool false; VInt64 99]]].

Lemma demo_first_rest :
  f_exists (data_file demo_first) = true /\ at_rest (mkSchema demo_fields 1) CLZ4 demo_kept (data_file demo_first) (wal_file demo_first).
Proof.
  split; [vm_compute; reflexivity|].
  destruct (session_run (mkSchema demo_fields 1) CLZ4 [] demo_clean (str "f.xdl") false demo_lines) as (d' & sizes & Hrun & Hrest).
  - by split.
  - done.
  - split; [vm_decide|]. split_and!; [reflexivity|reflexivity|vm_decide|vm_decide].
  - done.
  - vm_decide.
  - unfold demo_first. rewrite Hrun. exact Hrest.
Qed.


Lemma duplicate_field_escapes_witness :
  xdl_main [str "xdl"; str "f.xdl"; str "--schema"; str "a:bool,a:int64"] (demo_file None) (demo_file None) false [] = (Throw InvalidArgument, plain [] [], None).
Proof.
  apply (duplicate_field_escapes (str "xdl") (str "f.xdl") [str "--schema"; str "a:bool,a:int64"] (schema_of [mkFieldDef (str "a") BOOL; mkFieldDef (str "a") INT64])).
  - vm_compute. reflexivity.
  - vm_compute. reflexivity.
Defined.

Lemma schema_arg_roundtrip_witness : schema_arg demo_fields = str "age:uint32,name:string,ok:bool,n:int64" /\ parse_schema (schema_arg demo_fields) = Ok (mkSchema demo_fields 1).
Proof.
  split; [vm_compute; reflexivity|]. apply schema_arg_roundtrip. repeat (apply Forall_cons; split; [split_and!; [vm_decide|vm_decide|done]|]). apply Forall_nil_2.
Defined.

Definition demo_typed : Row := mkRow 7 [VUint32 41; VString (str "ada"); VBool true; VInt64 (-12)].

Lemma insert_line_roundtrip_witness :
  insert_line demo_typed = str "insert 7 41 ada true -12" /\ parse_command (mkSchema demo_fields 1) (insert_line demo_typed) = CInsert demo_typed.
Proof.
  split; [vm_compute; reflexivity|]. apply insert_line_roundtrip; [vm_decide|vm_decide|].
  repeat (apply Forall_cons; split; [first [exact I | split; [discriminate|vm_decide]]|]). apply Forall_nil_2.
Defined.

Lemma parsed_ops_typed_witness : op_wf (DInsert (mkRow 4294967295 [VUint32 1; VString (str "x")])).
Proof. apply (parsed_ops_typed demo_schema (str "insert -1 4294967297 x")). vm_compute. reflexivity. Defined.

Lemma uint32_text_bounds_witness : extract_uint32 (show_nat 4294967297) = None /\ parse_value (show_nat 4294967297) UINT32 = Ok (VUint32 1).
Proof. apply (uint32_text_bounds 4294967297). lia. Defined.
