(* ===== verification/Bench.v ===== *)
(** The benchmark ([bench/bench.cpp]), a client of the database: it fills a file,
    looks rows up, opens the file again, checks every row, and erases and updates.

    What it measures is an argument, [elapsed], the text of the time a label took.
    The random numbers are an argument too, [draw], and so is the file that
    [remove] leaves, [absent].  The clock, the random numbers and the file system
    are all that the program takes from outside. *)
From S2P Require Import Prelude Types Serialise Page Float Std BPTree Index Posix Wal Compression Migrate Storage Cache Pager Filter Db DbSpec DbOps DbQuery DbSession DbRecovery DbProperties Text Main.

(** ** Definitions *)

Definition bench_fields : list FieldDef := [mkFieldDef (str "age") UINT32; mkFieldDef (str "name") STRING].
Definition bench_schema : Schema := mkSchema bench_fields 1.

(** The rows it writes, and the ones it updates with. *)
Definition bench_row (prefix : bytes) (i : Z) : Row := mkRow i [VUint32 (i mod 100); VString (prefix ++ show_nat i)].
Definition bench_rows (n : Z) : list Row := bench_row (str "user_") <$> zseq n.

(** [for (uint32_t i = first; i < N; i += 10)]: the values of [i]. *)
Fixpoint every_ten (fuel : nat) (i n : Z) : outcome (list Z) :=
  if bool_decide (i < n) then
    match fuel with O => UB | S fuel => l ← every_ten fuel (u32 (i + 10)) n; Ok (i :: l) end
  else Ok [].
Definition ten_fuel (n : Z) : nat := Z.to_nat (n / 10 + 1).

(** The arguments after the path: the number of rows, the name of the compression, the
    number of random lookups. *)
Definition stoul32 (arg : option bytes) (otherwise : Z) : outcome Z :=
  match arg with Some s => n ← stoul s; Ok (u32 n) | None => Ok otherwise end.
Definition bench_args (args : list bytes) : outcome (Z * bytes * Z) :=
  n ← stoul32 (args !! 0%nat) 10000;
  gets ← stoul32 (args !! 2%nat) n;
  Ok (n, default (str "lz4") (args !! 1%nat), gets).
Definition bench_compression (name : bytes) : CompressionType := if bool_decide (name = str "lz4") then CLZ4 else CNone.

Section bench.
Context {F : Type} `{FileSys F} `{LZ4Lib}.
Context (elapsed : bytes -> bytes) (draw : Z -> Z -> nat -> list Z) (absent : F).
#[local] Abbreviation CLI := (M (DB F * Io)).
#[local] Abbreviation Files := (M (F * F * Io)).

(** [bench]: run, then print the time. *)
Definition bench {A} (label : bytes) (fn : CLI A) : CLI A :=
  a ← fn;
  on_io (setw 30 ;; set_left true ;; cout label ;; setw 10 ;; set_left false ;; cout (elapsed label) ;; cout (str " ms" ++ nl)) ;;
  mret a.

(** A block with a database of its own: the constructor, [open], the body, and the
    destructor, which an exception that nobody catches does not reach. *)
Definition with_new_db {A} (ct : CompressionType) (cap : Z) (body : CLI A) : Files A := fun s =>
  let '(f, wf, io) := s in
  match new_DB f wf bench_schema ct cap (mkSchemaMigrate 0 0 []) with
  | Ok d =>
      let '(o, (d, io)) := (on_db db_open_ ;; a ← body; on_db db_destroy ;; mret a) (d, io) in
      (o, (data_file d, wal_file d, io))
  | Throw e => (Throw e, s)
  | UB => (UB, s)
  end.

(** [std::filesystem::remove], on the database and its log. *)
Definition remove_files : Files unit := modify (fun s => (absent, absent, s.2)).

(** A block on files of another name, which are removed before and after. *)
Definition on_other_files {A} (m : Files A) : Files A := fun s =>
  let '(o, s') := (remove_files ;; a ← m; remove_files ;; mret a) s in (o, (s.1, s'.2)).

Definition print (l : list bytes) : Files unit := fun s => let '(o, io) := couts l s.2 in (o, (s.1, io)).

(** Batch inserts. *)
Definition bench_batch (n : Z) : CLI unit :=
  bench (str "Batch insert " ++ show_nat n) (_ ← on_db (insert_batch (bench_rows n)); mret tt) ;;
  bench (str "Checkpoint (batch)") (on_db checkpoint) ;;
  on_db db_close.

(** [db.try_get(id, r)] for each id. *)
Definition try_gets (ids : list Z) : CLI unit := mfor (fun id => _ ← on_db (try_get id); mret tt) ids.

(** Sequential inserts and random lookups. *)
Definition bench_sequential (n gets : Z) : CLI unit :=
  bench (str "Sequential insert " ++ show_nat n) (mfor (fun i => on_db (insert (bench_row (str "user_") i))) (zseq n)) ;;
  bench (str "Checkpoint (flush all)") (on_db checkpoint) ;;
  let ids := draw 0 (u32 (n - 1)) (Z.to_nat gets) in
  bench (str "Random get x" ++ show_nat gets) (try_gets ids) ;;
  try_gets ids ;;
  on_io (couts [str "  per-get    : "; elapsed (str "per-get"); str " us" ++ nl]) ;;
  bench (str "Full scan") (on_db (with_local tt (scan (fun _ => mret tt) []))) ;;
  s ← on_db db_stats;
  on_io (couts [nl ++ str "  rows       : "; show_nat (s_row_count s); nl ++ str "  pages      : "; show_nat (s_page_count s);
    nl ++ str "  file size  : "; show_nat (s_file_size s); str " bytes  ("; show_nat (s_file_size s / 1024); str " KB)" ++ nl ++ nl]) ;;
  on_db db_close.

(** The loop that verifies, with the rows found intact so far. *)
Definition row_intact (r : Row) (i : Z) : outcome bool :=
  age ← get_uint32_named r bench_schema (str "age");
  if bool_decide (age = i mod 100) then
    name ← get_string_named r bench_schema (str "name"); Ok (bool_decide (name = str "user_" ++ show_nat i))
  else Ok false.
Fixpoint verify (ids : list Z) (verified : Z) : CLI Z :=
  match ids with
  | [] => mret verified
  | i :: ids =>
      found ← on_db (try_get i);
      match found with
      | None => verify ids verified
      | Some r => ok ← lift (row_intact r i); verify ids (if ok : bool then u64 (verified + 1) else verified)
      end
  end.

(** Verify after reopen: the exit code, when it is not 0. *)
Definition bench_verify (n : Z) : CLI Z :=
  verified ← bench (str "Verify all rows after reopen") (verify (zseq n) 0);
  if bool_decide (verified <> n) then
    on_io (cerr [Txt (str "VERIFY FAILED: "); Txt (show_nat verified); Txt (str "/"); Txt (show_nat n); Txt (str " rows intact" ++ nl)]) ;;
    mret 1
  else
    on_io (couts [str "  verified   : "; show_nat verified; str "/"; show_nat n; str " rows intact" ++ nl ++ nl]) ;;
    on_db db_close ;; mret 0.

(** Cold read. *)
Definition bench_cold (n : Z) : CLI unit :=
  bench (str "Cold open + recover") (mret tt) ;;
  bench (str "Cold get mid row") (_ ← on_db (try_get (n / 2)); mret tt) ;;
  on_db db_close.

(** Index range scan, erase, update. *)
Definition bench_changes (n : Z) : CLI unit :=
  on_db (create_index (str "age")) ;;
  bench (str "Index range scan age 40..49")
    (_ ← on_db (index_range_scan (str "age") (Some (VUint32 40)) true (Some (VUint32 49)) true); mret tt) ;;
  to_erase ← lift (every_ten (ten_fuel n) 0 n);
  bench (str "Erase 1/10th of rows (batch)") (_ ← on_db (erase_batch to_erase); mret tt) ;;
  to_update ← lift (every_ten (ten_fuel n) 1 n);
  bench (str "Update 1/10th of rows (batch)") (_ ← on_db (update_batch (bench_row (str "updated_") <$> to_update)); mret tt) ;;
  s ← on_db db_stats;
  on_io (couts [nl ++ str "  rows after delete/update : "; show_nat (s_row_count s); nl ++ nl]) ;;
  on_db db_close.

(** [main], after the path. *)
Definition bench_run (n : Z) (name : bytes) (gets : Z) : Files Z :=
  let ct := bench_compression name in
  remove_files ;;
  print [str "=== XDL Benchmark  ("; show_nat n; str " rows, "; name; str ") ===" ++ nl ++ nl] ;;
  on_other_files (with_new_db ct 256 (bench_batch n)) ;; print [nl] ;;
  with_new_db ct 256 (bench_sequential n gets) ;;
  code ← with_new_db ct 256 (bench_verify n);
  if bool_decide (code <> 0) then mret code else
  with_new_db CLZ4 1 (bench_cold n) ;;
  with_new_db ct 256 (bench_changes n) ;;
  remove_files ;;
  mret 0.
Definition bench_main (args : list bytes) (f wf : F) : outcome Z * (F * F * Io) :=
  let s := (f, wf, mkIo [] [] 0 false) in
  match bench_args args with
  | Ok (n, name, gets) => bench_run n name gets s
  | Throw e => (Throw e, s)
  | UB => (UB, s)
  end.
End bench.
