(* ===== verification/BenchProperties.v ===== *)
(** What the benchmark ([bench/bench.cpp]) prints and returns: every block of it runs
    through, its own verification finds every row, and the exit code is 0. *)
From S2P Require Import Prelude Types Serialise Page Float Std BPTree Index Posix Wal Lz4 Compression Migrate Storage Cache Pager Filter Db DbSpec DbOps DbQuery DbSession DbRecovery DbProperties Lock Concurrent Text Main MainSpec MainProperties Bench.

(** ** Definitions *)

(** [first], [first + 10], and so on, below [n]. *)
Definition tens (first n : Z) : list Z := (fun k => first + 10 * k) <$> zseq ((n - first + 9) / 10).

(** The pages after the rows were inserted. *)
Definition filled_pages (n : Z) : list (list Row) := steps_pages (SInsert <$> bench_rows n) [].

(** The operations of the last block. *)
Definition change_ops (n : Z) : list db_op :=
  [DCreateIndex (str "age"); DRangeScan (str "age") (Some (VUint32 40)) true (Some (VUint32 49)) true;
   DEraseBatch (tens 0 n); DUpdateBatch (bench_row (str "updated_") <$> tens 1 n)].

(** What has to fit: the pages in their slots, compressed as the block does, and the
    log in a file. *)
Definition bench_room `{LZ4Lib} (ct : CompressionType) (n : Z) : Prop :=
  ops_room bench_schema ct [DInsertBatch (bench_rows n); DCheckpoint] [] (zlen wal_header) /\
  ops_room bench_schema ct ((DInsert <$> bench_rows n) ++ [DCheckpoint]) [] (zlen wal_header) /\
  Forall (compressible CLZ4) (filled_pages n) /\
  ops_room bench_schema ct (change_ops n) (filled_pages n) (zlen wal_header).
#[export] Instance bench_room_dec `{LZ4Lib} ct n : Decision (bench_room ct n).
Proof. unfold bench_room. apply _. Defined.

(** The output, for a database file of [size] bytes. *)
Section text.
Context (elapsed : bytes -> bytes).

Definition time_line (label : bytes) : bytes := pad_right 30 label ++ pad_left 10 (elapsed label) ++ str " ms" ++ nl.

Definition batch_text (n : Z) : bytes := time_line (str "Batch insert " ++ show_nat n) ++ time_line (str "Checkpoint (batch)").
Definition sequential_text (n gets pages size : Z) : bytes :=
  time_line (str "Sequential insert " ++ show_nat n) ++ time_line (str "Checkpoint (flush all)") ++
  time_line (str "Random get x" ++ show_nat gets) ++ str "  per-get    : " ++ elapsed (str "per-get") ++ str " us" ++ nl ++
  time_line (str "Full scan") ++ nl ++
  str "  rows       : " ++ show_nat n ++ nl ++ str "  pages      : " ++ show_nat pages ++ nl ++
  str "  file size  : " ++ show_nat size ++ str " bytes  (" ++ show_nat (size / 1024) ++ str " KB)" ++ nl ++ nl.
Definition verify_text (n : Z) : bytes :=
  time_line (str "Verify all rows after reopen") ++
  str "  verified   : " ++ show_nat n ++ str "/" ++ show_nat n ++ str " rows intact" ++ nl ++ nl.
Definition cold_text : bytes := time_line (str "Cold open + recover") ++ time_line (str "Cold get mid row").
Definition changes_text (n : Z) : bytes :=
  time_line (str "Index range scan age 40..49") ++ time_line (str "Erase 1/10th of rows (batch)") ++
  time_line (str "Update 1/10th of rows (batch)") ++ nl ++
  str "  rows after delete/update : " ++ show_nat (n - (n + 9) / 10) ++ nl ++ nl.
Definition bench_text (n : Z) (name : bytes) (gets size : Z) : bytes :=
  str "=== XDL Benchmark  (" ++ show_nat n ++ str " rows, " ++ name ++ str ") ===" ++ nl ++ nl ++
  batch_text n ++ nl ++ sequential_text n gets (zlen (filled_pages n)) size ++ verify_text n ++ cold_text ++ changes_text n.
End text.

(** ** Lemmas: the loops by ten *)

Lemma every_ten_run fuel i n :
  0 <= i -> n + 9 < 2 ^ 32 -> n - i <= 10 * Z.of_nat fuel -> every_ten fuel i n = Ok (tens i n).
Proof.
  revert i. induction fuel as [|fuel IH]; intros i Hi Hn Hf; cbn [every_ten]; case_bool_decide as Hlt.
  - lia.
  - unfold tens, zseq. rewrite seqZ_nil; [done|]. assert ((n - i + 9) / 10 < 1) by (apply Z.div_lt_upper_bound; lia). lia.
  - unfold u32. rewrite Z.mod_small by lia. rewrite IH by lia. cbn [mbind outcome_bind]. f_equal. unfold tens, zseq.
    replace (n - i + 9) with ((n - (i + 10) + 9) + 1 * 10) by lia. rewrite Z.div_add by lia.
    assert (Hq : 0 <= (n - (i + 10) + 9) / 10) by (apply Z.div_pos; lia).
    set (q := (n - (i + 10) + 9) / 10) in *.
    rewrite (seqZ_cons 0 (q + 1)) by lia. rewrite fmap_cons. f_equal; [lia|]. replace (Z.pred (q + 1)) with q by lia.
    rewrite <- (fmap_add_seqZ 1 0), <- list_fmap_compose. apply list_fmap_ext. intros k x _. cbn. lia.
  - unfold tens, zseq. rewrite seqZ_nil; [done|]. assert ((n - i + 9) / 10 < 1) by (apply Z.div_lt_upper_bound; lia). lia.
Qed.

Lemma tens_elem first n x : x ∈ tens first n <-> exists k, 0 <= k /\ x = first + 10 * k /\ x < n.
Proof.
  unfold tens, zseq. rewrite list_elem_of_fmap. split.
  - intros (k & -> & Hk%elem_of_seqZ). exists k. split_and!; [lia|done|]. assert (10 * ((n - first + 9) / 10) <= n - first + 9) by (apply Z.mul_div_le; lia). lia.
  - intros (k & Hk & -> & Hlt). exists k. split; [done|]. apply elem_of_seqZ. split; [done|].
    assert (k + 1 <= (n - first + 9) / 10) by (apply Z.div_le_lower_bound; lia). lia.
Qed.

Lemma tens_NoDup first n : NoDup (tens first n).
Proof. apply NoDup_fmap_2_strong; [|apply NoDup_seqZ]. intros x y _ _ Heq. lia. Qed.

Lemma tens_length first n : first <= n + 9 -> zlen (tens first n) = (n - first + 9) / 10.
Proof. intros Hf. unfold tens, zseq. rewrite length_fmap, length_seqZ, Z2Nat.id; [done|]. apply Z.div_pos; lia. Qed.

(** ** Lemmas: the rows *)

Lemma length_digits_of fuel n : (length (digits_of fuel n) <= fuel)%nat.
Proof. revert n. induction fuel as [|fuel IH]; intros n; cbn [digits_of length]; [lia|]. case_bool_decide; cbn [length]; [lia|]. specialize (IH (n / 10)). lia. Qed.

Lemma length_show_nat n : zlen (show_nat n) <= 48.
Proof. unfold show_nat. rewrite length_fmap, length_reverse. pose proof (length_digits_of 48 n). lia. Qed.

Lemma bench_row_ok prefix i : zlen prefix <= 100 -> 0 <= i < 2 ^ 32 -> row_ok bench_schema (bench_row prefix i).
Proof.
  intros Hp Hi. pose proof (length_show_nat i) as Hl. pose proof (Z.mod_pos_bound i 100 ltac:(lia)). split; [exact Hi|split].
  - constructor; [|constructor; [|constructor]].
    + split_and!; [done| |done]. cbn [value_wf]. lia.
    + split_and!; [done|done|]. rewrite length_app. lia.
  - rewrite length_encode_row. unfold bench_row. cbn [row_fields]. rewrite !encode_values_cons, !length_app, !Nat2Z.inj_add, !length_encode_value, length_app.
    change (zlen (encode_values [])) with 0. unfold PAGE_SIZE. lia.
Qed.

Lemma bench_row_wf prefix i : 0 <= i < 2 ^ 32 -> row_wf (bench_row prefix i).
Proof. intros Hi. pose proof (Z.mod_pos_bound i 100 ltac:(lia)). split; [done|]. constructor; [cbn [value_wf]; lia|by repeat constructor]. Qed.

Lemma bench_rows_ids n : row_id <$> bench_rows n = zseq n.
Proof. unfold bench_rows. rewrite <- list_fmap_compose. by rewrite list_fmap_id. Qed.

Lemma bench_rows_ok n : n <= 2 ^ 32 -> Forall (row_ok bench_schema) (bench_rows n).
Proof. intros Hn. apply Forall_fmap, Forall_forall. intros i Hi%elem_of_seqZ. apply bench_row_ok; [done|lia]. Qed.

Lemma find_id_row n i : 0 <= i < n -> find_id i (bench_rows n) = Some (bench_row (str "user_") i).
Proof.
  intros Hi. unfold find_id.
  assert (Hx : bench_row (str "user_") i ∈ filter (fun r => row_id r = i) (bench_rows n)).
  { apply list_elem_of_filter. split; [done|]. apply list_elem_of_fmap_2, elem_of_seqZ. lia. }
  destruct (filter _ (bench_rows n)) as [|r l] eqn:E; [by apply elem_of_nil in Hx|]. cbn [head hd_error]. f_equal.
  assert (Hr : r ∈ filter (fun r => row_id r = i) (bench_rows n)) by (rewrite E; by left).
  apply list_elem_of_filter in Hr as [Hid (j & -> & _)%list_elem_of_fmap]. cbn in Hid. by subst j.
Qed.

Lemma row_intact_run i : row_intact (bench_row (str "user_") i) i = Ok true.
Proof.
  unfold row_intact. change (get_uint32_named _ _ _) with (Ok (i mod 100)). cbn [mbind outcome_bind]. rewrite bool_decide_eq_true_2 by done.
  change (get_string_named _ _ _) with (Ok (str "user_" ++ show_nat i)). cbn [mbind outcome_bind]. by rewrite bool_decide_eq_true_2.
Qed.

(** Insertions of new rows that are in order pass their checks. *)
Lemma insert_ok rs l r : row_ok bench_schema r -> row_id r ∉ l -> insert_error bench_schema l r = None /\ insert_batch_error bench_schema l (r :: rs) = insert_batch_error bench_schema (l ++ [row_id r]) rs.
Proof.
  intros Hok Hni. pose proof Hok as (_ & Hf & _). apply Forall2_length in Hf.
  assert (He : insert_error bench_schema l r = None) by (unfold insert_error; by rewrite bool_decide_eq_false_2, bool_decide_eq_false_2, bool_decide_eq_true_2 by (done || lia)).
  split; [done|]. cbn [insert_batch_error]. by rewrite He.
Qed.

Lemma insert_batch_ok rs l : Forall (row_ok bench_schema) rs -> NoDup (l ++ (row_id <$> rs)) -> insert_batch_error bench_schema l rs = None.
Proof.
  intros Hok. revert l. induction Hok as [|r rs Hr Hrs IH]; intros l Hnd; [done|]. rewrite fmap_cons in Hnd.
  rewrite (proj2 (insert_ok rs l r Hr ltac:(intros Hx; apply NoDup_app in Hnd as (_ & Hd & _); apply (Hd (row_id r) Hx); by left))).
  apply IH. by rewrite <- app_assoc.
Qed.

Lemma erase_batch_ok l seen es : NoDup (es ++ seen) -> (forall e, e ∈ es -> e ∈ l) -> erase_batch_error l seen es = None.
Proof.
  revert seen. induction es as [|e es IH]; intros seen Hnd Hin; [done|]. cbn [app] in Hnd. apply NoDup_cons in Hnd as [Hni Hnd]. cbn [erase_batch_error].
  rewrite bool_decide_eq_false_2 by (intros Hx; apply Hni, elem_of_app; by right). rewrite bool_decide_eq_false_2 by (intros Hx; apply Hx, Hin; by left).
  apply IH; [|intros; apply Hin; by right]. rewrite <- Permutation_middle. by constructor.
Qed.

Lemma update_batch_ok l seen rs :
  Forall (row_ok bench_schema) rs -> NoDup ((row_id <$> rs) ++ seen) -> (forall r, r ∈ rs -> row_id r ∈ l) -> update_batch_error bench_schema l seen rs = None.
Proof.
  intros Hok. revert seen. induction Hok as [|r rs Hr Hrs IH]; intros seen Hnd Hin; [done|]. rewrite fmap_cons in Hnd. apply NoDup_cons in Hnd as [Hni Hnd].
  cbn [update_batch_error]. pose proof Hr as (_ & Hf & _). apply Forall2_length in Hf.
  rewrite bool_decide_eq_false_2 by lia. rewrite bool_decide_eq_false_2 by (intros Hx; apply Hni, elem_of_app; by right).
  rewrite bool_decide_eq_false_2 by (intros Hx; apply Hx, Hin; by left). rewrite bool_decide_eq_true_2 by done.
  apply IH; [|intros; apply Hin; by right]. rewrite <- Permutation_middle. by constructor.
Qed.

(** Every step adds or removes one row. *)
Definition step_count (s : row_step) : Z := match s with SInsert _ => 1 | SErase _ => -1 end.

Lemma count_erase id rows : NoDup (row_id <$> rows) -> id ∈ row_id <$> rows -> zlen (filter (fun r => row_id r <> id) rows) = zlen rows - 1.
Proof.
  intros Hnd (r & -> & [i Hi]%list_elem_of_lookup)%list_elem_of_fmap. rewrite <- (delete_filter rows i r Hnd Hi).
  pose proof (lookup_lt_Some _ _ _ Hi). rewrite length_delete by done. lia.
Qed.

Lemma count_steps ms pages X :
  steps_legal bench_schema ms X -> (forall x, x ∈ X <-> x ∈ row_ids pages) -> NoDup (row_ids pages) ->
  zlen (concat (steps_pages ms pages)) = zlen (concat pages) + foldr (fun s k => step_count s + k) 0 ms.
Proof.
  revert pages X. induction ms as [|s ms IH]; intros pages X Hl HX Hnd; [cbn; lia|]. destruct Hl as [Hs Hl]. cbn [foldr].
  change (steps_pages (s :: ms) pages) with (steps_pages ms (step_pages s pages)).
  rewrite (IH _ (step_ids s X)); [|done|by apply ids_step|].
  - destruct s as [r|id]; cbn [step_pages step_count].
    + rewrite concat_insert, length_app. cbn [length]. lia.
    + rewrite concat_erase, count_erase; [lia|done|]. by apply HX.
  - destruct s as [r|id]; cbn [step_pages]; [apply NoDup_insert; [done|]|by apply NoDup_erase]. intros Hx%HX. by destruct Hs.
Qed.

Lemma steps_rows_inserts rs rows : steps_rows (SInsert <$> rs) rows = rows ++ rs.
Proof.
  revert rows. induction rs as [|r rs IH]; intros rows; [by rewrite app_nil_r|]. rewrite fmap_cons. unfold steps_rows in *. cbn [foldl step_rows].
  by rewrite IH, <- app_assoc.
Qed.

Lemma filled_rows n : concat (filled_pages n) = bench_rows n.
Proof. unfold filled_pages. by rewrite concat_steps, steps_rows_inserts. Qed.

Lemma filled_count n : 0 <= n -> zlen (concat (filled_pages n)) = n.
Proof. intros Hn. rewrite filled_rows. unfold bench_rows, zseq. rewrite length_fmap, length_seqZ. lia. Qed.

Lemma header_size : zlen wal_header < 2 ^ 63.
Proof. vm_compute. reflexivity. Qed.

Lemma steps_rows_erases es rows : steps_rows (SErase <$> es) rows = filter (fun r => row_id r ∉ es) rows.
Proof.
  revert rows. induction es as [|e es IH]; intros rows.
  - symmetry. apply filter_all, Forall_forall. intros r _ Hr. by apply elem_of_nil in Hr.
  - rewrite fmap_cons. unfold steps_rows in *. cbn [foldl step_rows]. rewrite IH, list_filter_filter. apply list_filter_iff. intros r.
    rewrite elem_of_cons. tauto.
Qed.

(** The pages after the deletions, and what the loops by ten find there. *)
Lemma filled_ids n : row_ids (filled_pages n) = zseq n.
Proof. unfold row_ids. by rewrite filled_rows, bench_rows_ids. Qed.

Lemma erase_tens_ok n : op_error bench_schema (row_ids (filled_pages n)) (DEraseBatch (tens 0 n)) = None.
Proof.
  cbn [op_error]. apply erase_batch_ok; [rewrite app_nil_r; apply tens_NoDup|]. rewrite filled_ids.
  intros e (k & Hk & -> & Hlt)%tens_elem. apply elem_of_seqZ. lia.
Qed.

Lemma updated_rows_ok n : n <= 2 ^ 32 -> Forall (row_ok bench_schema) (bench_row (str "updated_") <$> tens 1 n).
Proof. intros Hn. apply Forall_fmap, Forall_forall. intros i (k & Hk & -> & Hlt)%tens_elem. apply bench_row_ok; [done|lia]. Qed.

Lemma update_tens_ok n :
  n <= 2 ^ 32 ->
  op_error bench_schema (row_ids (steps_pages (SErase <$> tens 0 n) (filled_pages n))) (DUpdateBatch (bench_row (str "updated_") <$> tens 1 n)) = None.
Proof.
  intros Hn. assert (Hids : row_id <$> (bench_row (str "updated_") <$> tens 1 n) = tens 1 n) by (rewrite <- list_fmap_compose; by rewrite list_fmap_id).
  cbn [op_error]. apply update_batch_ok; [by apply updated_rows_ok|rewrite Hids, app_nil_r; apply tens_NoDup|].
  intros r Hr. apply (list_elem_of_fmap_2 row_id) in Hr. rewrite Hids in Hr. apply tens_elem in Hr as (k & Hk & Hrk & Hlt).
  unfold row_ids. rewrite concat_steps, steps_rows_erases, filled_rows. apply list_elem_of_fmap. exists (bench_row (str "user_") (row_id r)). split; [done|].
  apply list_elem_of_filter. split.
  - intros (k' & _ & Heq & _)%tens_elem. cbn in Heq. lia.
  - apply list_elem_of_fmap_2, elem_of_seqZ. lia.
Qed.

Lemma changed_count n :
  0 <= n <= 2 ^ 32 ->
  zlen (concat (steps_pages (op_steps (DUpdateBatch (bench_row (str "updated_") <$> tens 1 n))) (steps_pages (SErase <$> tens 0 n) (filled_pages n)))) = n - (n + 9) / 10.
Proof.
  intros Hn. set (pages := steps_pages (SErase <$> tens 0 n) (filled_pages n)).
  assert (Hnd : NoDup (row_ids (filled_pages n))) by (rewrite filled_ids; apply NoDup_seqZ).
  assert (Hndp : NoDup (row_ids pages)) by (unfold row_ids, pages; rewrite concat_steps, steps_rows_erases; eapply sublist_NoDup; [exact Hnd|apply fmap_sublist, sublist_filter]).
  rewrite (count_steps _ _ (list_to_set (row_ids pages))); [|eapply op_legal; [apply update_tens_ok; lia|intros; by rewrite elem_of_list_to_set]|intros; by rewrite elem_of_list_to_set|done].
  unfold pages at 1. rewrite (count_steps _ _ (list_to_set (row_ids (filled_pages n))));
    [|eapply (op_legal _ (DEraseBatch (tens 0 n))); [by apply erase_tens_ok|intros; by rewrite elem_of_list_to_set]|intros; by rewrite elem_of_list_to_set|done].
  rewrite filled_count by lia.
  assert (He : forall es, foldr (fun s k => step_count s + k) 0 (SErase <$> es) = - zlen es) by (induction es as [|e es IH]; [done|]; rewrite fmap_cons; cbn [foldr step_count length]; lia).
  assert (Hu : forall rs, foldr (fun s k => step_count s + k) 0 (op_steps (DUpdateBatch rs)) = 0) by (induction rs as [|r rs IH]; [done|]; cbn [op_steps] in *; rewrite fmap_cons; cbn [concat foldr app step_count]; lia).
  rewrite He, Hu, tens_length by lia. replace (n - 0 + 9) with (n + 9) by lia. lia.
Qed.

(** ** Lemmas: blocks of calls *)

Section blocks.
Context {F : Type} `{FileLaws F} `{!FileReliable F} `{!PreadWhole F} `{LZ4Laws}.
Context (elapsed : bytes -> bytes) (draw : Z -> Z -> nat -> list Z) (absent : F) (ct : CompressionType).
#[local] Abbreviation CLI := (M (DB F * Io)).
#[local] Abbreviation rep := (state_rep bench_schema ct).
#[local] Abbreviation next := (state_spec bench_schema).
Implicit Types (d : DB F) (st : db_state).

(** The call takes the database from [st] to [st'], returns [a] and prints [text]. *)
Definition does {A} (c : CLI A) st (a : A) st' (text : bytes) : Prop := forall d out err,
  rep st d -> exists d', c (d, plain out err) = (Ok a, (d', plain (out ++ text) err)) /\ rep st' d'.

Lemma does_ret {A} (a : A) st : does (mret a) st a st [].
Proof. intros d out err Hd. exists d. by rewrite app_nil_r. Qed.

Lemma does_bind {A B} (c : CLI A) (k : A -> CLI B) st a st1 t1 b st2 t2 :
  does c st a st1 t1 -> does (k a) st1 b st2 t2 -> does (c ≫= k) st b st2 (t1 ++ t2).
Proof.
  intros H1' H2' d out err Hd. destruct (H1' d out err Hd) as (d1 & Hr1 & Hd1). destruct (H2' d1 (out ++ t1) err Hd1) as (d2 & Hr2 & Hd2).
  exists d2. by rewrite (M_bind_ok _ _ _ _ _ Hr1), Hr2, app_assoc.
Qed.

Lemma does_text {A} (c : CLI A) st a st' t t' : does c st a st' t -> t = t' -> does c st a st' t'.
Proof. by intros Hc ->. Qed.

Lemma does_ext {A} (c c' : CLI A) st a st' t : (forall s, c s = c' s) -> does c st a st' t -> does c' st a st' t.
Proof. intros Hc Hd d out err Hrep. rewrite <- Hc. by apply Hd. Qed.

Lemma does_print l st : does (on_io (couts l)) st tt st (concat l).
Proof. intros d out err Hd. exists d. split; [|done]. by rewrite (on_io_plain d _ _ out err (couts_plain l out err)). Qed.

Lemma does_bench {A} label (fn : CLI A) st a st' : does fn st a st' [] -> does (bench elapsed label fn) st a st' (time_line elapsed label).
Proof.
  intros Hfn. unfold bench. eapply (does_text _ _ _ _ ([] ++ time_line elapsed label ++ [])); [|by rewrite app_nil_r].
  eapply does_bind; [exact Hfn|]. eapply does_bind; [|apply does_ret]. intros d out err Hd. exists d. split; [|done].
  apply on_io_plain. unfold time_line. unfold mbind, M_bind, setw, set_left, cout, modify, plain. cbn [io_out io_err io_width io_left].
  unfold pad_left at 2. cbn [Nat.sub replicate app]. by rewrite <- !app_assoc.
Qed.

(** A call of the database. *)
Lemma does_call {A} o (m : M (DB F) A) (K : A -> db_result) a st :
  (forall d, db_run o d = (x ← m; mret (K x)) d) -> (forall x y, K x = K y -> x = y) ->
  op_room bench_schema ct o st.1.1 st.1.2 -> (next o st).1 = Ok (K a) -> does (on_db m) st a (next o st).2 [].
Proof.
  intros Hrun Hinj Hroom Ha d out err Hd. destruct st as [[pages n] names]. cbn [fst snd] in *.
  pose proof Hd as (g & Hrep & Hlog & Hnm). cbn [fst snd] in Hrep, Hlog, Hnm. subst n names.
  destruct (op_correct bench_schema ct g pages d Hrep o Hroom) as (d' & Hr & g' & Hrep' & Hnm' & Hlog' & _).
  change (answer bench_schema pages o d) with (next o (pages, log_size wal_header (g_recs g), dom (db_indexes d))).1 in Hr.
  rewrite Ha, Hrun in Hr. apply M_bind_inv in Hr as (x & d1 & Hm & Hr). injection Hr as Hx ->. apply Hinj in Hx as ->.
  exists d'. rewrite app_nil_r. split; [by apply with_db_ok|]. exists g'. cbn [state_spec fst snd]. by split_and!.
Qed.

(** Calls that only read leave the state as it was. *)
Lemma read_state o st : op_steps o = [] -> o <> DCheckpoint -> (forall X, op_names o X = X) -> (next o st).2 = st.
Proof.
  destruct st as [[pages n] names]. intros Hs Hc Hn. unfold state_spec, op_pages, op_log, op_spec. cbn [fst snd].
  destruct (op_error bench_schema (row_ids pages) o) eqn:He; unfold row_ids in He; rewrite He; [done|]. rewrite Hs, Hn. cbn.
  destruct o; try done; do 2 f_equal; lia.
Qed.

Lemma does_try_get i st : st.1.2 < 2 ^ 63 -> does (on_db (try_get i)) st (find_id i (concat st.1.1)) st [].
Proof.
  intros Hn. pose proof (does_call (DTryGet i) (try_get i) RMaybe (find_id i (concat st.1.1)) st) as Hc.
  rewrite (read_state (DTryGet i) st eq_refl ltac:(done) ltac:(done)) in Hc. apply Hc; [done|by intros ?? [=]| |done].
  split; [done|]. cbn [op_error]. split_and!; [done..|]. cbn. lia.
Qed.

Lemma does_mfor {X} (body : X -> CLI unit) st xs : (forall x, does (body x) st tt st []) -> does (mfor body xs) st tt st [].
Proof. intros Hb. induction xs as [|x xs IH]; [apply does_ret|]. cbn [mfor]. by eapply (does_bind _ _ _ _ _ [] _ _ []). Qed.

Lemma does_try_gets ids st : st.1.2 < 2 ^ 63 -> does (try_gets ids) st tt st [].
Proof. intros Hn. apply does_mfor. intros id. eapply (does_bind _ _ _ _ _ [] _ _ []); [by apply does_try_get|apply does_ret]. Qed.

(** A whole sequence of insertions. *)
Lemma does_inserts rs rest st :
  Forall (row_ok bench_schema) rs -> NoDup (row_ids st.1.1 ++ (row_id <$> rs)) ->
  ops_room bench_schema ct ((DInsert <$> rs) ++ rest) st.1.1 st.1.2 ->
  exists n, does (mfor (fun r => on_db (insert r)) rs) st tt (steps_pages (SInsert <$> rs) st.1.1, n, st.2) [] /\
    ops_room bench_schema ct rest (steps_pages (SInsert <$> rs) st.1.1) n.
Proof.
  intros Hok. revert st. induction Hok as [|r rs Hr Hrs IH]; intros [[pages n] names] Hnd Hroom; cbn [fst snd] in *.
  { exists n. split; [apply does_ret|done]. }
  rewrite fmap_cons in Hnd. destruct Hroom as [Ho Hroom].
  assert (Hni : row_id r ∉ row_ids pages) by (intros Hx; apply NoDup_app in Hnd as (_ & Hd & _); apply (Hd _ Hx); by left).
  assert (He : op_error bench_schema (row_ids pages) (DInsert r) = None) by (by apply (insert_ok [])).
  destruct (IH (next (DInsert r) (pages, n, names)).2) as (n' & Hd' & Hroom').
  - cbn [state_spec fst snd]. unfold op_pages. rewrite He. change (steps_pages (op_steps (DInsert r)) pages) with (pages_insert r pages).
    rewrite row_ids_insert, <- app_assoc. exact Hnd.
  - exact Hroom.
  - exists n'. cbn [state_spec fst snd] in Hd', Hroom'. unfold op_pages in Hd', Hroom'. rewrite He in Hd', Hroom'. split; [|exact Hroom'].
    cbn [mfor]. eapply (does_bind _ _ _ _ _ [] _ _ []).
    + apply (does_call (DInsert r) (insert r) (fun _ => RUnit) tt); [done|by intros [] []|exact Ho|].
      unfold state_spec, op_spec. cbn [fst snd]. fold (row_ids pages). by rewrite He.
    + unfold state_spec, op_spec in *. cbn [fst snd] in *. fold (row_ids pages) in *. rewrite He in *. unfold op_pages. rewrite He. exact Hd'.
Qed.

(** A scan whose visitor does nothing. *)
Lemma does_scan st : does (on_db (with_local tt (scan (fun _ => mret tt) []))) st tt st [].
Proof.
  intros d out err (g & Hrep & Hlog & Hnm).
  destruct (scan_unlocked_run bench_schema ct _ _ st.1.1 d tt [] (fun _ => mret tt) (rp_core _ _ _ _ _ Hrep) (rp_names _ _ _ _ _ Hrep) NoDup_nil_2)
    as (d' & Hr & Hreads).
  assert (Hm : forall l : list Row, mfor (fun _ => mret tt) l tt = (Ok tt, tt)) by (induction l as [|x l IH]; [done|]; cbn [mfor]; unfold mbind, M_bind, mret, M_ret in *; done).
  exists d'. split.
  - rewrite app_nil_r. apply with_db_ok. unfold with_local, scan. rewrite (M_bind_ok _ _ (d, tt) d (d, tt)) by (by apply with_db_ok).
    rewrite (rp_open _ _ _ _ _ Hrep). cbn [negb]. rewrite Hr. unfold visit_selected. by rewrite Hm.
  - exists g. destruct (reads_frame _ _ _ _ _ _ _ Hreads) as (_ & _ & Hi). rewrite Hi. split_and!; [|done|done]. by eapply rep_reads.
Qed.

(** A block from here to its [close]: it ends with these pages. *)
Definition closes {A} (c : CLI A) st (pages : list (list Row)) (T : bytes -> Prop) (a : A) : Prop := forall d out err,
  rep st d -> exists d' n names t, rep (pages, n, names) d' /\ n < 2 ^ 63 /\ T t /\
    forall d3, db_close d' = (Ok tt, d3) -> c (d, plain out err) = (Ok a, (d3, plain (out ++ t) err)).

Lemma closes_close st : st.1.2 < 2 ^ 63 -> closes (on_db db_close) st st.1.1 (eq []) tt.
Proof.
  intros Hn d out err Hd. destruct st as [[pages n] names]. exists d, n, names, []. split_and!; [done..|]. intros d3 Hc.
  rewrite app_nil_r. by apply with_db_ok.
Qed.

Lemma closes_then {A B} (c : CLI A) (b : B) st pages T a : closes c st pages T a -> closes (_ ← c; mret b) st pages T b.
Proof.
  intros Hc d out err Hd. destruct (Hc d out err Hd) as (d' & n & names & t & Hd' & Hn & Ht & Hrun). exists d', n, names, t.
  split_and!; [done..|]. intros d3 H3. by rewrite (M_bind_ok _ _ _ _ _ (Hrun d3 H3)).
Qed.

Lemma closes_bind {A B} (c : CLI A) (k : A -> CLI B) st a st1 t1 pages T b :
  does c st a st1 t1 -> closes (k a) st1 pages T b -> closes (c ≫= k) st pages (fun t => exists t2, t = t1 ++ t2 /\ T t2) b.
Proof.
  intros Hc Hk d out err Hd. destruct (Hc d out err Hd) as (d1 & Hr1 & Hd1). destruct (Hk d1 (out ++ t1) err Hd1) as (d' & n & names & t & Hd' & Hn & Ht & Hrun).
  exists d', n, names, (t1 ++ t). split_and!; [done|done|by eexists|]. intros d3 H3. by rewrite (M_bind_ok _ _ _ _ _ Hr1), (Hrun d3 H3), <- app_assoc.
Qed.

Lemma closes_text {A} (c : CLI A) st pages (T T' : bytes -> Prop) a : closes c st pages T a -> (forall t, T t -> T' t) -> closes c st pages T' a.
Proof.
  intros Hc HT d out err Hd. destruct (Hc d out err Hd) as (d' & n & names & t & Hd' & Hn & Ht & Hrun). exists d', n, names, t. split_and!; auto.
Qed.

(** Statistics, of which only the numbers of rows and pages are known. *)
Lemma closes_stats {B} (k : Stats -> CLI B) st pages T b :
  (forall s, s_row_count s = zlen (concat st.1.1) -> s_page_count s = zlen st.1.1 -> closes (k s) st pages T b) ->
  closes (on_db db_stats ≫= k) st pages T b.
Proof.
  intros Hk d out err Hd. pose proof Hd as (g & Hrep & _). pose proof (db_stats_run _ _ _ _ _ Hrep) as Hs.
  match type of Hs with _ = (Ok ?s, _) => destruct (Hk s eq_refl eq_refl d out err Hd) as (d' & n & names & t & Hd' & Hn & Ht & Hrun) end.
  exists d', n, names, t.
  split_and!; [done..|]. intros d3 H3. rewrite (M_bind_ok (on_db db_stats) _ _ _ _ (with_db_ok _ _ _ _ _ Hs)). by apply Hrun.
Qed.

(** The block with its database. *)
Lemma with_new_db_run {A} cap (body : CLI A) pages pages' T a f wf out err :
  0 <= cap -> at_rest bench_schema ct pages f wf -> closes body (pages, zlen wal_header, ∅) pages' T a ->
  exists t f' wf', with_new_db ct cap body (f, wf, plain out err) = (Ok a, (f', wf', plain (out ++ t) err)) /\ T t /\ at_rest bench_schema ct pages' f' wf'.
Proof.
  intros Hcap Hrest Hbody.
  assert (Hfit : schema_fits bench_schema bench_schema (f_exists f)) by (unfold schema_fits; destruct (f_exists f); [intros _; apply schemas_match_refl|reflexivity]).
  destruct (new_DB_run bench_schema bench_schema ct cap (mkSchemaMigrate 0 0 []) f wf Hcap (proj1 Hrest) Hfit) as (d & Hnew & Hcl & Hct & Hf & Hwf & _ & Hsch).
  rewrite <- Hf, <- Hwf in Hrest. rewrite <- Hf in Hsch.
  destruct (open_at_rest bench_schema ct pages d Hcl Hct Hrest Hsch) as (d1 & g & Hopen & Hrep & Hix & Hlog & _).
  destruct (Hbody d1 out err) as (d2 & n & names & t & (g2 & Hrep2 & Hlog2 & _) & Hn & Ht & Hrun).
  { exists g. cbn [fst snd]. split_and!; [done|done|]. by rewrite Hix, dom_empty_L. }
  cbn [fst snd] in Hrep2, Hlog2. rewrite <- Hlog2 in Hn.
  destruct (close_at_rest bench_schema ct g2 pages' d2 Hrep2 Hn) as (d3 & Hclose & Ho3 & Hrest3).
  exists t, (data_file d3), (wal_file d3). split_and!; [|done|done]. unfold with_new_db. rewrite Hnew.
  rewrite (M_bind_ok (on_db db_open_) _ _ tt (d1, plain out err)) by (by apply with_db_ok). rewrite (M_bind_ok _ _ _ _ _ (Hrun d3 Hclose)).
  rewrite (M_bind_ok (on_db db_destroy) _ _ tt (d3, plain (out ++ t) err)); [done|]. apply with_db_ok. unfold db_destroy.
  rewrite (M_bind_ok get _ _ _ _ eq_refl). by rewrite Ho3.
Qed.

(** *** The blocks of the program *)

Lemma does_checkpoint pages n names :
  op_room bench_schema ct DCheckpoint pages n -> does (on_db checkpoint) (pages, n, names) tt (pages, zlen wal_header, names) [].
Proof. intros Hroom. by apply (does_call DCheckpoint checkpoint (fun _ => RUnit) tt (pages, n, names)); [|intros [] []|..]. Qed.

(** An operation that passes its checks. *)
Lemma next_ok o pages n names :
  op_error bench_schema (row_ids pages) o = None ->
  next o (pages, n, names) =
    (Ok (op_value bench_schema o (concat pages) names), (steps_pages (op_steps o) pages, op_log bench_schema o pages n, op_names o names)).
Proof. intros He. unfold state_spec, op_pages, op_spec. cbn [fst snd]. fold (row_ids pages). by rewrite He. Qed.

(** A call that passes its checks, from its place in a sequence that fits. *)
Lemma does_op {A} o (m : M (DB F) A) (K : A -> db_result) a ops pages n names pages' names' :
  (forall d, db_run o d = (x ← m; mret (K x)) d) -> (forall x y, K x = K y -> x = y) ->
  op_error bench_schema (row_ids pages) o = None -> op_value bench_schema o (concat pages) names = K a ->
  steps_pages (op_steps o) pages = pages' -> op_names o names = names' -> ops_room bench_schema ct (o :: ops) pages n ->
  exists n', does (on_db m) (pages, n, names) a (pages', n', names') [] /\ n' < 2 ^ 63 /\ ops_room bench_schema ct ops pages' n'.
Proof.
  intros Hrun Hinj He Hv <- <- [Ho Hops]. pose proof (does_call o m K a (pages, n, names) Hrun Hinj Ho) as Hd.
  rewrite (next_ok _ _ _ _ He), Hv in Hd. exists (op_log bench_schema o pages n). split; [exact (Hd eq_refl)|].
  destruct Ho as [_ Ho]. rewrite He in Ho. unfold op_pages in Hops. rewrite He in Hops. split; [|exact Hops].
  destruct Ho as (_ & _ & Ho). unfold op_log. rewrite He. destruct o; try exact Ho. exact header_size.
Qed.

Lemma does_ignored {A} (m : CLI A) st a st' : does m st a st' [] -> does (_ ← m; mret tt) st tt st' [].
Proof. intros Hm. eapply (does_bind _ _ _ _ _ [] _ _ []); [exact Hm|apply does_ret]. Qed.

Lemma batch_closes n :
  n <= 2 ^ 32 -> ops_room bench_schema ct [DInsertBatch (bench_rows n); DCheckpoint] [] (zlen wal_header) ->
  closes (bench_batch elapsed n) ([], zlen wal_header, ∅) (filled_pages n) (eq (batch_text elapsed n)) tt.
Proof.
  intros Hn Hroom. assert (He : op_error bench_schema (row_ids []) (DInsertBatch (bench_rows n)) = None).
  { apply insert_batch_ok; [by apply bench_rows_ok|]. rewrite bench_rows_ids. apply NoDup_seqZ. }
  destruct (does_op (DInsertBatch (bench_rows n)) (insert_batch (bench_rows n)) RCount _ _ [] _ ∅ (filled_pages n) _
    (fun d => eq_refl) ltac:(intros ?? [=]; assumption) He eq_refl eq_refl eq_refl Hroom) as (n1 & Hd & _ & Hc & _).
  eapply closes_text.
  { eapply closes_bind; [exact (does_bench _ _ _ _ _ (does_ignored _ _ _ _ Hd))|].
    eapply closes_bind; [exact (does_bench _ _ _ _ _ (does_checkpoint _ _ _ Hc))|]. exact (closes_close (_, zlen wal_header, _) header_size). }
  intros t (t1 & -> & t2 & -> & <-). unfold batch_text. by rewrite app_nil_r.
Qed.

Lemma sequential_closes n gets :
  0 <= n <= 2 ^ 32 -> ops_room bench_schema ct ((DInsert <$> bench_rows n) ++ [DCheckpoint]) [] (zlen wal_header) ->
  closes (bench_sequential elapsed draw n gets) ([], zlen wal_header, ∅) (filled_pages n)
    (fun t => exists size, t = sequential_text elapsed n gets (zlen (filled_pages n)) size) tt.
Proof.
  intros Hn Hroom. destruct (does_inserts (bench_rows n) [DCheckpoint] ([], zlen wal_header, ∅)) as (m & Hd & Hc & _); [apply bench_rows_ok; lia| |exact Hroom|].
  { rewrite bench_rows_ids. apply NoDup_seqZ. }
  cbn [fst snd] in Hd, Hc. fold (filled_pages n) in Hd, Hc.
  apply (does_ext _ (mfor (fun i => on_db (insert (bench_row (str "user_") i))) (zseq n))) in Hd; [|intros s; exact (mfor_fmap _ (fun r => on_db (insert r)) _ s)].
  set (st := (filled_pages n, zlen wal_header, ∅) : db_state).
  assert (Hgets : forall ids, does (try_gets ids) st tt st []) by (intros ids; exact (does_try_gets ids st header_size)).
  unfold bench_sequential. eapply closes_text.
  { eapply closes_bind; [exact (does_bench _ _ _ _ _ Hd)|]. eapply closes_bind; [exact (does_bench _ _ _ _ _ (does_checkpoint _ _ _ Hc))|]. cbv zeta.
    eapply closes_bind; [exact (does_bench _ _ _ _ _ (Hgets _))|]. eapply closes_bind; [exact (Hgets _)|].
    eapply closes_bind; [apply does_print|]. eapply closes_bind; [exact (does_bench _ _ _ _ _ (does_scan st))|].
    apply (closes_stats _ _ _ (fun t => exists size, t = nl ++
      str "  rows       : " ++ show_nat n ++ nl ++ str "  pages      : " ++ show_nat (zlen (filled_pages n)) ++ nl ++
      str "  file size  : " ++ show_nat size ++ str " bytes  (" ++ show_nat (size / 1024) ++ str " KB)" ++ nl ++ nl)).
    intros s Hs1 Hs2. subst st. cbn [fst snd] in Hs1, Hs2. rewrite (filled_count n) in Hs1 by lia.
    eapply closes_text; [eapply closes_bind; [apply does_print|exact (closes_close (_, zlen wal_header, _) header_size)]|].
    intros t (t1 & -> & <-). exists (s_file_size s). rewrite Hs1, Hs2. cbn [concat]. by rewrite !app_nil_r, <- !app_assoc. }
  intros t (t1 & -> & t2 & -> & t3 & -> & t4 & -> & t5 & -> & t6 & -> & size & ->). exists size. unfold sequential_text. cbn [concat]. by rewrite app_nil_r, <- !app_assoc.
Qed.

(** Every row is found intact. *)
Lemma does_verify n m k st :
  concat st.1.1 = bench_rows n -> st.1.2 < 2 ^ 63 -> 0 <= k -> k + Z.of_nat m = n -> n <= 2 ^ 32 ->
  does (verify (seqZ k (n - k)) k) st n st [].
Proof.
  intros Hrows Hn. revert k. induction m as [|m IH]; intros k Hk Hm Hmax.
  - replace k with n by lia. rewrite Z.sub_diag. apply does_ret.
  - rewrite seqZ_cons by lia. cbn [verify]. eapply (does_bind _ _ _ _ _ [] _ _ []); [by apply does_try_get|].
    rewrite Hrows, find_id_row by lia. rewrite row_intact_run.
    unfold u64. rewrite Z.mod_small by lia. replace (Z.pred (n - k)) with (n - Z.succ k) by lia.
    eapply (does_bind (lift (Ok true)) _ _ true _ [] _ _ []); [apply does_ret|]. cbv iota beta. apply (IH (Z.succ k)); lia.
Qed.

Lemma verify_closes n :
  0 <= n <= 2 ^ 32 -> closes (bench_verify elapsed n) (filled_pages n, zlen wal_header, ∅) (filled_pages n) (eq (verify_text elapsed n)) 0.
Proof.
  intros Hn. set (st := (filled_pages n, zlen wal_header, ∅) : db_state).
  assert (Hv : does (verify (zseq n) 0) st n st []).
  { unfold zseq. replace n with (n - 0) at 1 by lia. apply (does_verify n (Z.to_nat n) 0 st (filled_rows n) header_size); lia. }
  eapply closes_text.
  { eapply closes_bind; [exact (does_bench _ _ _ _ _ Hv)|]. rewrite bool_decide_eq_false_2 by (intros Hx; by apply Hx).
    eapply closes_bind; [apply does_print|]. exact (closes_then _ 0 _ _ _ _ (closes_close st header_size)). }
  intros t (t1 & -> & t2 & -> & <-). unfold verify_text. by rewrite app_nil_r.
Qed.

Lemma cold_closes n pages : closes (bench_cold elapsed n) (pages, zlen wal_header, ∅) pages (eq (cold_text elapsed)) tt.
Proof.
  set (st := (pages, zlen wal_header, ∅) : db_state). eapply closes_text.
  { eapply closes_bind; [exact (does_bench _ _ _ _ _ (does_ret tt st))|].
    eapply closes_bind; [|exact (closes_close st header_size)]. apply does_bench.
    eapply (does_bind _ _ _ _ _ [] _ _ []); [exact (does_try_get _ st header_size)|apply does_ret]. }
  intros t (t1 & -> & t2 & -> & <-). unfold cold_text. by rewrite app_nil_r.
Qed.

Lemma changes_closes n :
  0 <= n -> n + 9 < 2 ^ 32 -> ops_room bench_schema ct (change_ops n) (filled_pages n) (zlen wal_header) ->
  exists pages, closes (bench_changes elapsed n) (filled_pages n, zlen wal_header, ∅) pages (eq (changes_text elapsed n)) tt.
Proof.
  intros Hn Hmax Hroom. unfold change_ops in Hroom. set (names := {[str "age"]} ∪ ∅ : gset bytes).
  destruct (does_op (DCreateIndex (str "age")) (create_index (str "age")) (fun _ => RUnit) tt _ (filled_pages n) _ ∅ _ names
    (fun d => eq_refl) ltac:(intros [] []; reflexivity) eq_refl eq_refl eq_refl eq_refl Hroom) as (n1 & Hd1 & _ & Hr1).
  destruct (does_op (DRangeScan (str "age") (Some (VUint32 40)) true (Some (VUint32 49)) true) _ RRows _ _ (filled_pages n) _ names _ _
    (fun d => eq_refl) ltac:(intros ?? [=]; assumption) eq_refl eq_refl eq_refl eq_refl Hr1) as (n2 & Hd2 & _ & Hr2).
  destruct (does_op (DEraseBatch (tens 0 n)) _ RCount _ _ (filled_pages n) _ names _ _
    (fun d => eq_refl) ltac:(intros ?? [=]; assumption) (erase_tens_ok n) eq_refl eq_refl eq_refl Hr2) as (n3 & Hd3 & _ & Hr3).
  destruct (does_op (DUpdateBatch (bench_row (str "updated_") <$> tens 1 n)) _ RCount _ _ _ _ names _ _
    (fun d => eq_refl) ltac:(intros ?? [=]; assumption) (update_tens_ok n ltac:(lia)) eq_refl eq_refl eq_refl Hr3) as (n4 & Hd4 & Hlt & _).
  pose proof (changed_count n ltac:(lia)) as Hcount.
  change (op_steps (DEraseBatch (tens 0 n))) with (SErase <$> tens 0 n) in Hd4.
  set (pages := steps_pages (op_steps (DUpdateBatch _)) _) in Hd4, Hcount. set (st := (pages, n4, names) : db_state).
  exists pages. unfold bench_changes. eapply closes_text.
  { eapply closes_bind; [exact Hd1|]. eapply closes_bind; [exact (does_bench _ _ _ _ _ (does_ignored _ _ _ _ Hd2))|].
    rewrite !every_ten_run by (unfold ten_fuel; pose proof (Z.div_mod n 10 ltac:(lia)); pose proof (Z.mod_pos_bound n 10 ltac:(lia));
      rewrite ?Z2Nat.id by (pose proof (Z.div_pos n 10); lia); lia).
    eapply closes_bind; [exact (does_ret (tens 0 n) _)|]. eapply closes_bind; [exact (does_bench _ _ _ _ _ (does_ignored _ _ _ _ Hd3))|].
    eapply closes_bind; [exact (does_ret (tens 1 n) _)|]. eapply closes_bind; [exact (does_bench _ _ _ _ _ (does_ignored _ _ _ _ Hd4))|].
    apply (closes_stats _ _ _ (eq (nl ++ str "  rows after delete/update : " ++ show_nat (n - (n + 9) / 10) ++ nl ++ nl))).
    intros s Hs _. cbn [fst snd] in Hs. rewrite Hcount in Hs. eapply closes_text; [eapply closes_bind; [apply does_print|exact (closes_close st Hlt)]|].
    intros t (t1 & -> & <-). rewrite Hs. cbn [concat]. by rewrite !app_nil_r, <- !app_assoc. }
  intros t (t1 & -> & t2 & -> & t3 & -> & t4 & -> & t5 & -> & t6 & -> & <-). unfold changes_text. by rewrite !app_nil_l, <- ?app_assoc.
Qed.

(** A file at rest can be opened with another compression whose pages fit too. *)
Lemma at_rest_change ct' pages f wf : at_rest bench_schema ct pages f wf -> Forall (compressible ct') pages -> at_rest bench_schema ct' pages f wf.
Proof.
  intros [Hnd Hrest] Hfit. split; [exact Hnd|]. destruct (f_exists f); [|exact Hrest].
  destruct Hrest as (hdr & Hdisk & Hsy & Hh & Hlog & Hwsy & Hlen & Hst & Hids). exists hdr. split_and!; try assumption.
  rewrite Forall_forall in Hst, Hfit |- *. intros rows Hin. apply storable_compressible.
  destruct (proj1 (storable_compressible _ _ _) (Hst rows Hin)) as (Hok & Hsize & _). split_and!; [exact Hok|exact Hsize|exact (Hfit rows Hin)].
Qed.

Lemma at_rest_compressible pages f wf : at_rest bench_schema ct pages f wf -> Forall (compressible ct) pages.
Proof.
  intros [_ Hrest]. destruct (f_exists f); [|by destruct Hrest as (_ & -> & _)]. destruct Hrest as (hdr & _ & _ & _ & _ & _ & _ & Hst & _).
  eapply Forall_impl; [exact Hst|]. intros rows Hrows%storable_compressible. apply Hrows.
Qed.

Lemma at_rest_absent : f_exists absent = false -> f_content absent = [] -> at_rest bench_schema ct [] absent absent.
Proof. intros He Hc. split; [by vm_decide|]. rewrite He. split_and!; [exact Hc|reflexivity|by vm_decide|by vm_decide]. Qed.

Lemma print_plain l (f wf : F) out err : print l (f, wf, plain out err) = (Ok tt, (f, wf, plain (out ++ concat l) err)).
Proof. unfold print. cbn [snd]. by rewrite couts_plain. Qed.

(** A block of the program on files of which [P] holds: [Q] holds of them after it, and
    [T] of what it prints. *)
Definition turns {A} (P : F -> F -> Prop) (m : M (F * F * Io) A) (a : A) (T : bytes -> Prop) (Q : F -> F -> Prop) : Prop :=
  forall f wf out, P f wf -> exists f' wf' t, m (f, wf, plain out []) = (Ok a, (f', wf', plain (out ++ t) [])) /\ T t /\ Q f' wf'.

Lemma turns_ret {A} (a : A) P : turns P (mret a) a (eq []) P.
Proof. intros f wf out HP. exists f, wf, []. by rewrite app_nil_r. Qed.

Lemma turns_bind {A B} P Q R (m : M (F * F * Io) A) (k : A -> M (F * F * Io) B) a b T U :
  turns P m a T Q -> turns Q (k a) b U R -> turns P (m ≫= k) b (fun t => exists t1, T t1 /\ exists t2, U t2 /\ t = t1 ++ t2) R.
Proof.
  intros Hm Hk f wf out HP. destruct (Hm f wf out HP) as (f1 & wf1 & t1 & Hr1 & Ht1 & HQ).
  destruct (Hk f1 wf1 (out ++ t1) HQ) as (f2 & wf2 & t2 & Hr2 & Ht2 & HR). exists f2, wf2, (t1 ++ t2).
  rewrite (M_bind_ok _ _ _ _ _ Hr1), Hr2, app_assoc. split_and!; [done|by exists t1; split; [|exists t2]|done].
Qed.

Lemma turns_print l P : turns P (print l) tt (eq (concat l)) P.
Proof. intros f wf out HP. exists f, wf, (concat l). split_and!; [apply print_plain|done..]. Qed.

Lemma turns_remove P : turns P (remove_files absent) tt (eq []) (fun f wf => f = absent /\ wf = absent).
Proof. intros f wf out _. exists absent, absent, []. by rewrite app_nil_r. Qed.

Lemma turns_db {A} cap (body : CLI A) pages pages' T a :
  0 <= cap -> closes body (pages, zlen wal_header, ∅) pages' T a ->
  turns (at_rest bench_schema ct pages) (with_new_db ct cap body) a T (at_rest bench_schema ct pages').
Proof.
  intros Hcap Hbody f wf out Hrest. destruct (with_new_db_run cap body pages pages' T a f wf out [] Hcap Hrest Hbody) as (t & f' & wf' & Hr & Ht & Hrest').
  by exists f', wf', t.
Qed.

Lemma turns_other {A} P (m : M (F * F * Io) A) a T Q :
  turns (fun f wf => f = absent /\ wf = absent) m a T Q -> turns P (on_other_files absent m) a T P.
Proof.
  intros Hm f wf out HP. destruct (Hm absent absent out (conj eq_refl eq_refl)) as (f' & wf' & t & Hr & Ht & _). exists f, wf, t. split_and!; [|done..].
  unfold on_other_files. rewrite (M_bind_ok _ _ _ tt (absent, absent, plain out [])) by reflexivity. by rewrite (M_bind_ok _ _ _ _ _ Hr).
Qed.

Lemma turns_pure {A} (fact : Prop) P (m : M (F * F * Io) A) a T Q : (forall f wf, P f wf -> fact) -> (fact -> turns P m a T Q) -> turns P m a T Q.
Proof. intros Hf Hm f wf out HP. exact (Hm (Hf f wf HP) f wf out HP). Qed.

Lemma turns_weaken {A} P P' (m : M (F * F * Io) A) a T T' Q :
  turns P m a T Q -> (forall f wf, P' f wf -> P f wf) -> (forall t, T t -> T' t) -> turns P' m a T' Q.
Proof. intros Hm HP HT f wf out HP'%HP. destruct (Hm f wf out HP') as (f' & wf' & t & Hr & Ht & HQ). exists f', wf', t. split_and!; [done|by apply HT|done]. Qed.
End blocks.

Lemma bench_args_range args n name gets : bench_args args = Ok (n, name, gets) -> 0 <= n.
Proof.
  unfold bench_args. intros Hargs. assert (Hs : forall m, stoul32 (args !! 0%nat) 10000 = Ok m -> 0 <= m).
  { intros m. unfold stoul32. destruct (args !! 0%nat) as [s|]; [|intros [= <-]; lia]. destruct (stoul s) as [k| |]; [|done..].
    intros [= <-]. unfold u32. apply Z.mod_pos_bound. lia. }
  destruct (stoul32 (args !! 0%nat) 10000) as [m| |]; [|done..]. cbn [mbind outcome_bind] in Hargs.
  destruct (stoul32 (args !! 2%nat) m) as [g| |]; [|done..]. injection Hargs as <- _ _. by apply Hs.
Qed.

Lemma bench_run_turns {F} `{FileLaws F} `{!FileReliable F} `{!PreadWhole F} `{LZ4Laws} elapsed draw (absent : F) n name gets :
  f_exists absent = false -> f_content absent = [] -> 0 <= n -> n + 9 < 2 ^ 32 -> bench_room (bench_compression name) n ->
  turns (fun _ _ => True) (bench_run elapsed draw absent n name gets) 0 (fun t => exists size, t = bench_text elapsed n name gets size)
    (fun f' wf' => f' = absent /\ wf' = absent).
Proof.
  intros He Hc Hn Hmax (Hbatch & Hseq & Hlz4 & Hchg). unfold bench_run. set (ct := bench_compression name) in *.
  assert (Habs : forall f' wf', f' = absent /\ wf' = absent -> at_rest bench_schema ct [] f' wf') by (intros f' wf' [-> ->]; by apply at_rest_absent).
  destruct (changes_closes elapsed ct n Hn Hmax Hchg) as (pages & Hchanges).
  pose proof (batch_closes elapsed ct n ltac:(lia) Hbatch) as Hb. pose proof (sequential_closes elapsed draw ct n gets ltac:(lia) Hseq) as Hs.
  pose proof (verify_closes elapsed ct n ltac:(lia)) as Hv. pose proof (cold_closes elapsed CLZ4 n (filled_pages n)) as Hcold.
  set (there := at_rest bench_schema ct (filled_pages n)).
  assert (Hswitch : forall f' wf', there f' wf' -> at_rest bench_schema CLZ4 (filled_pages n) f' wf') by (intros f' wf' Hr; by eapply at_rest_change).
  eapply turns_weaken; [|exact (fun _ _ x => x)|].
  { eapply turns_bind; [apply turns_remove|]. eapply turns_bind; [apply turns_print|].
    eapply turns_bind; [eapply turns_other, turns_weaken; [apply (turns_db ct 256 _ _ _ _ _ ltac:(lia) Hb)|exact Habs|exact (fun _ x => x)]|].
    eapply turns_bind; [apply turns_print|].
    eapply turns_bind; [eapply turns_weaken; [apply (turns_db ct 256 _ _ _ _ _ ltac:(lia) Hs)|exact Habs|exact (fun _ x => x)]|].
    eapply turns_bind; [apply (turns_db ct 256 _ _ _ _ _ ltac:(lia) Hv)|]. cbv beta. rewrite bool_decide_eq_false_2 by (intros Hx; by apply Hx).
    eapply turns_pure; [exact (at_rest_compressible ct _)|intros Hct].
    eapply turns_bind; [eapply turns_weaken; [apply (turns_db CLZ4 1 _ _ _ _ _ ltac:(lia) Hcold)|exact Hswitch|exact (fun _ x => x)]|].
    eapply turns_bind; [eapply turns_weaken; [apply (turns_db ct 256 _ _ _ _ _ ltac:(lia) Hchanges)| |exact (fun _ x => x)]|].
    { intros f' wf' Hr. eapply at_rest_change; [exact Hr|exact Hct]. }
    eapply turns_bind; [apply turns_remove|apply turns_ret]. }
  cbv beta. intros t Ht.
  destruct Ht as (? & <- & ? & (? & <- & ? & (? & <- & ? & (? & <- & ? & (? & (size & ->) & ? & (? & <- & ? & (? & <- & ? & (? & <- & ? & (? & <- & ? & <- & ->) & ->) & ->) & ->) & ->) & ->) & ->) & ->) & ->).
  exists size. unfold bench_text. cbn [concat]. by rewrite ?app_nil_r, ?app_nil_l, <- ?app_assoc.
Qed.

(** ** Properties *)

(** C21: the benchmark succeeds: on files that do not exist, with any number of rows for
    which the pages and the log fit, every block of it runs through, its verification finds
    every row intact after the file was opened again, a file that was written with the chosen
    compression is read and written with LZ4 and then again with the chosen one, the last
    block erases and updates a tenth of the rows, the output is the one stated, and the
    exit code is 0. *)
Theorem bench_reports {F} `{FileLaws F} `{!FileReliable F} `{!PreadWhole F} `{LZ4Laws} elapsed draw (absent f wf : F) args n name gets :
  f_exists absent = false -> f_content absent = [] ->
  bench_args args = Ok (n, name, gets) -> n + 9 < 2 ^ 32 -> bench_room (bench_compression name) n ->
  exists size, bench_main elapsed draw absent args f wf = (Ok 0, (absent, absent, plain (bench_text elapsed n name gets size) [])).
Proof.
  intros He Hc Hargs Hmax Hroom. pose proof (bench_args_range _ _ _ _ Hargs) as Hn. unfold bench_main. rewrite Hargs.
  destruct (bench_run_turns elapsed draw absent n name gets He Hc Hn Hmax Hroom f wf [] I) as (f' & wf' & t & Hr & (size & ->) & [-> ->]). by exists size.
Qed.

(** The time is a fixed text, and every random number is 3. *)
Definition demo_elapsed (label : bytes) : bytes := str "0.25".
Definition demo_draw (lo hi : Z) (count : nat) : list Z := replicate count 3.

Lemma bench_reports_witness :
  exists size, bench_main demo_elapsed demo_draw (demo_file None) [str "25"; str "none"; str "7"] (demo_file None) (demo_file None) =
    (Ok 0, (demo_file None, demo_file None, plain (bench_text demo_elapsed 25 (str "none") 7 size) [])).
Proof.
  apply (bench_reports demo_elapsed demo_draw (demo_file None) (demo_file None) (demo_file None) [str "25"; str "none"; str "7"] 25 (str "none") 7).
  - reflexivity.
  - reflexivity.
  - vm_compute. reflexivity.
  - lia.
  - vm_decide.
Defined.
